(* ===== verification/_CoqProject ===== *)
-Q . S2P
Prelude.v
CLib.v
Xtransint.v
World.v
Logic.v
FdQueue.v
Tables.v
Util.v
UtilSpecs.v
SockOpen.v
SockListen.v
SockConnect.v
SockIO.v
Parse.v
Trans.v
Lifecycle.v
Session.v
Listeners.v
Cec.v
CecMsg.v
CecCodec.v
CecRun.v
CecProps.v
Words.v
Swab.v
BigEndian.v
LittleEndian.v
Endian.v
Tlv.v
Bsearch.v
Virtio.v
Bcache.v
Nilfs.v
Queue.v
QueueSpec.v
QueueLemmas.v
QueueSingly.v
QueueDoubly.v
QueueCircle.v
Fortify.v
FortifySpec.v
Sets.v
Attrs.v
Cmsg.v
Codes.v
Usb.v
