(* ===== verification/Prelude.v ===== *)
(** * The code of the Linux sysroot

    vlinuxroot is a sysroot: the headers and prebuilt libraries of a Linux system, to
    cross compile graphical programs against.  Nearly all of it is declarations.  The code
    that is carried as source, and that programs compile into themselves, is of three kinds:
    the X transport layer (src/include/X11/Xtrans: C files that the X libraries include),
    the HDMI CEC messages (src/include/linux/cec.h, cec-funcs.h), and inline functions and
    macros of the C library's and other kernel headers.  This library models the first two and
    those of the third that compute more than a constant.

    ** The X transport layer

    Xtrans gives X clients and servers one interface to connections over TCP and UNIX
    domain sockets.  A connection is an object of type XtransConnInfo; it points to the
    table of functions of its transport, to its addresses and port, and to two queues of
    file descriptors passed along with the data.

    - Xtransint.v: the configuration macros as a class [Config], the connection object,
      the queued descriptors, the transports and return codes (Xtransint.h).
    - World.v: the machine.  A C function is a computation [M A] that changes a state
      (heap of typed blocks, errno, the mutable flags of the transports, the static
      address list, the log of all system and library calls) and may end in a [Fault]
      when C leaves the behaviour undefined.  What is not in the sources (kernel,
      allocator, name services) is an environment that answers each call from the log;
      the theorems hold for all environments, or name what they rely on as a hypothesis
      on its answers ([mallocs], [env_laws], [umask_env]).
    - Logic.v: weakest preconditions for these computations with one rule per primitive,
      the tactics [wp_step] and [wp_steps], and the bookkeeping the theorems share:
      which calls a computation makes ([ran]) with which answers ([asked]), which descriptors
      stay open ([fd_balance]), which part of the heap it leaves alone ([kept], [kept_but],
      [freed]).
    - FdQueue.v: appendFd, removeFd, discardFd, cleanupFds and nFd of Xtranssock.c, on
      linked cells in the heap; they refine operations on lists.
    - Tables.v: the socket families, the transports and their initial flags.
    - Util.v: Xtransutil.c, with GetHostname and FreeConnInfo of Xtrans.c; UtilSpecs.v: what
      directories, authorization addresses and network ids are to be.
    - SockOpen.v, SockListen.v, SockConnect.v, SockIO.v: Xtranssock.c; opening sockets,
      listening and accepting, connecting, and data with descriptors.
    - Parse.v, Trans.v: Xtrans.c; the parsing of addresses, the choice of a transport, and
      the operations that go through its function table.
    - Lifecycle.v, Session.v, Listeners.v: theorems about whole uses of the
      interface, and MakeAllCOTSServerListeners.

    A function TRANS(F) or f of the sources is the definition F or f here, a loop of it a
    Fixpoint beside it.  Configurations without TCPCONN or UNIXCONN, with LOCALCONN or
    for Windows (with its ReadV and WriteV) are not modelled.

    *** What is proved

    - Opening and closing.  Open returns NULL with nothing left behind, or a connection in
      two new blocks over one new descriptor; Close makes exactly the calls it should and
      frees exactly what the connection owns; Open or Reopen followed by Close restores
      the heap and closes every descriptor, but those that SocketOpen loses at the limit of
      open files where it checks it ([lost]).
    - Sessions.  Any sequence of reads, writes and descriptors handed over or taken, and then
      Close: every descriptor that came in is closed once or was taken by the client, and the
      blocks of the connection are freed.  The invariant is [own_all].
    - Addresses.  ParseAddress accepts exactly a grammar of five forms and returns the
      parts the grammar names, with the host completed by what gethostname or inet_pton
      answer; both ways to look up a protocol agree.
    - Listening.  The flags that NoListen, Listen and IsListening share; where each kind of
      listener is bound, call by call, and what it leaves; MakeAllCOTSServerListeners makes
      listeners of exactly the eligible transports that can be opened and bound, in order,
      inside of its array, and closes them all when a server is running.
    - Connecting.  The search through the addresses of a host ends; all results.
    - Data.  SocketWritev sends the queue with the data and empties it only then; no
      received descriptor is lost.
    - Names.  trans_mkdir is not fooled by links or exchanged directories; ConvertAddress
      works in place without leaving a block behind; network ids fit their blocks.
    - Errors.  Where the code leaks, overruns or dereferences NULL there is a theorem with
      the inputs that make it do so (the names end in _overrun, _overflow, _overread,
      _undefined, _leaks_..., _double_close, _unchecked).

    *** Fuel

    Loops that follow data have a bound of their own: [list_fuel] for the queues (one more
    than the blocks of the heap, no list is longer), [open_fuel] for the families of a
    transport (the table and two), [listen_fuel] for aliases (2: an alias stands for
    transports that are not aliases), [pick_fuel] for the address list (twice its length
    and the restart).  Running out is the fault [OutOfFuel]; the theorems show the
    absence of all faults, so the bounds are enough.

    ** HDMI CEC messages

    A CEC message is a buffer of 16 bytes with a length.  For each message of the standard
    cec-funcs.h has a function that packs operands into it and one that reads them back.

    - Cec.v: struct cec_msg and cec.h, and the statements that packing consists of.  A
      store outside of the 16 bytes is undefined.
    - CecMsg.v: the 150 functions of cec-funcs.h, in its order and under its names.
    - CecCodec.v: the specification.  A [codec] is a message with its two functions, the
      operands it is meant for and what comes back; there are 57, and 26 messages without
      operands.
    - CecRun.v, CecProps.v: every codec packs without undefined behaviour into a
      well-formed message and returns what was packed; the two places where the code
      loses operands are visible in [back], one has a theorem of its own.

    ** Lists and queues

    The macros of sys/queue.h are programs on memory, and Queue.v runs them on one: cells of
    two slots, the address of a slot being a value like the address of a cell.  NULL or a
    pointer to nothing cannot be followed.

    - Queue.v: the macros of LIST, SLIST, STAILQ, SIMPLEQ, TAILQ and CIRCLEQ, each statement
      a read or a write of a slot.
    - QueueSpec.v: the specification.  The abstract state gives each head a list of
      elements; [step] says what an operation does to it, and when it has a meaning;
      [refines K] is that every sequence with a meaning runs on any memory that holds the
      lists, with the results and the final lists of the specification.  The interface
      [KindLaws] is what the macros of a kind owe for one head; [laws_refine] lifts it to
      sequences of operations on many.
    - QueueLemmas.v, QueueSingly.v, QueueDoubly.v, QueueCircle.v: the six kinds keep it.

    The loops of FOREACH and REMOVE have the size of the memory as fuel: no list in it is
    longer, and the refinement shows that they end.

    ** Byte order

    - Words.v: integers of 16, 32 and 64 bits, their bytes in memory of either order, and
      the interface [Conversions] with its [ConversionLaws].
    - Swab.v: linux/swab.h, asm/swab.h (x86) and bits/byteswap.h.  Instructions and compiler
      built-ins are arguments that do what they document ([ArchLaws]); swapping reverses
      bytes on every path of the headers.
    - BigEndian.v, LittleEndian.v: linux/byteorder/big_endian.h, little_endian.h; Endian.v
      shows that both are implementations of the interface, and the same of bits/
      uintn-identity.h, netinet/in.h and endian.h of the C library.

    ** Data structures of the kernel

    - Tlv.v: TIPC's TLVs and lists of them (linux/tipc_config.h).  What was written is read
      back, a careful reader ends on any bytes, and what the code does not check.
      [scan_tlvs] has a round per 4 bytes as fuel, since a step is at least that long.
    - Bsearch.v: bsearch of the C library, with fuel log2 (nmemb) + 1.
    - Virtio.v: rings of virtio, their layout and the notification by indexes that wrap.
    - Bcache.v: the keys of bcache, their bit fields and their walk through a node
      ([bset_keys], the words of the node as fuel, a key has at least two).
    - Nilfs.v: flags of checkpoints and segments, on disk in little-endian order; its
      theorems use the interface of Words.v and hold for both byte orders.

    ** The C library's checks

    - Fortify.v: the 81 functions that _FORTIFY_SOURCE replaces (bits/string_fortified.h,
      strings_fortified.h, unistd.h, stdio2.h, wchar2.h, stdlib.h, socket2.h, poll2.h, syslog.h)
      and the open family (fcntl2.h, mqueue2.h).  Such a function decides at compile time, by
      what is known of the object and of the arguments (class [Compiler]), what it calls; a
      definition gives the call and the compiler's complaints ([plan]).
    - FortifySpec.v: the functions of the library are an argument with the contract of the
      manuals ([Libc], [LibcLaws]): the checked function ends the program where the plain one
      would write more than the size it is told.  Under it each fortified function is the plain
      one but for ending the program at an overflow; a mode that open needs is not forgotten.
    - Sets.v: cpu_set_t and fd_set (bits/cpu-set.h, sched.h, sys/select.h, bits/select.h,
      bits/select2.h) are finite sets, and what happens to numbers outside.

    ** Messages and packed words

    - Attrs.v: netlink messages and attributes (linux/netlink.h, rtnetlink.h), two instances of
      the interface [Framing] with its laws; the walk over them ends on any bytes and gives back
      what was laid out.  Its fuel is the length over the size of a header, since a message has
      a header at least.
    - Cmsg.v: ancillary data (bits/socket.h), with pointers that wrap at 2^64; when the walk
      ends, what it gives back, and the lengths at which it never ends.
    - Codes.v: words made of fields: device numbers, ioctl requests, TIPC and Phonet addresses,
      speeds, headers of SCSI commands, types of mounts, statuses of processes, with tactics [bits] that prove
      equations of words interval by interval; and the times of sys/time.h.
    - Usb.v: endpoints (linux/usb/ch9.h) and audio units (linux/usb/audio.h): the accessors find
      the fields behind a list of any length.

    ** Not modelled

    Xtranslcl.c (System V transports, not compiled on Linux), transport.c (includes), the
    Xaw templates (empty methods).  Of the remaining inline functions most compare or return a
    constant or a field (aufs_type.h, ndctl.h, fsmap.h, mic_common.h), need the
    machine's ports or floating point (sys/io.h, bits/mathinline.h), or are C++ (gc_cpp.h,
    pcrecpp.h).  CPU_COUNT and CPU_ALLOC are functions of the library.  The rest of
    the tree is declarations: constants, structures and prototypes of libraries whose code is
    not part of it. *)

From Stdlib Require Export ZArith Lia String Ascii.
From stdpp Require Export base tactics numbers list option gmap strings.

#[export] Set Default Goal Selector "!".

(** ** Bytes and C strings

    A byte is an integer of [0, 256).  A C string is the list of its bytes
    without the terminating NUL, a C buffer is the list of all its bytes. *)

Abbreviation byte := Z (only parsing).
Abbreviation bytes := (list Z) (only parsing).

Definition is_byte (c : Z) : Prop := (0 <= c < 256)%Z.
Definition cstring (s : bytes) : Prop := Forall (fun c => 0 < c < 256)%Z s.

#[export] Instance is_byte_dec c : Decision (is_byte c).
Proof. unfold is_byte. apply _. Defined.
#[export] Instance cstring_dec s : Decision (cstring s).
Proof. unfold cstring. apply _. Defined.

(** Character and string literals of the source, as bytes. *)
Definition ch (a : ascii) : Z := Z.of_N (N_of_ascii a).
Fixpoint str (s : string) : bytes :=
  match s with
  | EmptyString => []
  | String a s => ch a :: str s
  end.

(** [until_nul b]: the C string held by a buffer. *)
Fixpoint until_nul (b : bytes) : bytes :=
  match b with
  | [] => []
  | x :: b => if (x =? 0)%Z then [] else x :: until_nul b
  end.

(** [fit n b]: a buffer of [n] bytes that starts with [b], zero filled. *)
Definition fit (n : nat) (b : bytes) : bytes := take n b ++ replicate (n - length b) 0%Z.

(** [write_at off v b]: the buffer [b] with [v] written at offset [off]. *)
Definition write_at (off : nat) (v b : bytes) : bytes :=
  take off b ++ v ++ drop (off + length v) b.

Definition slice (off len : nat) (b : bytes) : bytes := take len (drop off b).

Lemma length_fit n b : length (fit n b) = n.
Proof. unfold fit. rewrite length_app, length_take, length_replicate. lia. Qed.

Lemma length_write_at off v b :
  (off + length v <= length b)%nat -> length (write_at off v b) = length b.
Proof.
  intros H. unfold write_at.
  rewrite !length_app, length_take, length_drop. lia.
Qed.

(** Writing a whole buffer. *)
Lemma write_at_all v b : length v = length b -> write_at 0 v b = v.
Proof.
  intros H. unfold write_at. rewrite take_0. cbn [app plus].
  by rewrite drop_ge, app_nil_r by lia.
Qed.

Lemma length_slice off len b :
  (off + len <= length b)%nat -> length (slice off len b) = len.
Proof. intros H. unfold slice. rewrite length_take, length_drop. lia. Qed.

Lemma slice_write_at off v b :
  (off + length v <= length b)%nat -> slice off (length v) (write_at off v b) = v.
Proof.
  intros H. unfold slice, write_at.
  rewrite drop_app_length' by (rewrite length_take; lia).
  by rewrite take_app_length.
Qed.

Lemma until_nul_cstring s b : cstring s -> until_nul (s ++ 0%Z :: b) = s.
Proof.
  induction 1 as [|x s Hx _ IH]; simpl; [done|].
  destruct (Z.eqb_spec x 0) as [->|_]; [lia|]. by rewrite IH.
Qed.

Lemma until_nul_id s : cstring s -> until_nul s = s.
Proof.
  induction 1 as [|x s Hx _ IH]; simpl; [done|].
  destruct (Z.eqb_spec x 0) as [->|_]; [lia|]. by rewrite IH.
Qed.

Lemma length_until_nul b : (length (until_nul b) <= length b)%nat.
Proof. induction b as [|x b IH]; simpl; [lia|]. destruct (x =? 0)%Z; simpl; lia. Qed.

Lemma until_nul_cstring_of b : Forall is_byte b -> cstring (until_nul b).
Proof.
  unfold cstring, is_byte. induction 1 as [|x b Hx _ IH]; simpl; [done|].
  destruct (Z.eqb_spec x 0); [done|]. constructor; [lia | done].
Qed.

Lemma nth_take_lt (n k : nat) (v : list Z) : (k < n)%nat -> nth k (take n v) 0%Z = nth k v 0%Z.
Proof.
  intros Hk. revert k v Hk. induction n as [|n IH]; intros [|k] [|x v] Hk; simpl; try lia; try done.
  apply IH. lia.
Qed.

Lemma cstring_take n s : cstring s -> cstring (take n s).
Proof. apply Forall_take. Qed.
Lemma cstring_drop n s : cstring s -> cstring (drop n s).
Proof. apply Forall_drop. Qed.
Lemma cstring_app s t : cstring s -> cstring t -> cstring (s ++ t).
Proof. intros; by apply Forall_app. Qed.

Create HintDb xt discriminated.
#[export] Hint Resolve cstring_take cstring_drop cstring_app until_nul_cstring_of : xt.

(** The case split every proof about translated C conditions starts with. *)
Ltac case_bool :=
  match goal with
  | |- context [if ?b then _ else _] =>
      lazymatch type of b with
      | bool => let E := fresh "E" in destruct b eqn:E
      | _ => case_decide
      end
  end.

(** Equations between bitwise expressions: compare every bit. *)
Ltac zbits :=
  apply Z.bits_inj'; intros ?n ?Hn;
  repeat first [ rewrite Z.lor_spec | rewrite Z.land_spec | rewrite Z.lnot_spec by lia
               | rewrite Z.bits_0 ];
  repeat match goal with |- context [Z.testbit ?a ?m] => destruct (Z.testbit a m) end;
  try done.
