(* ===== verification/CLib.v ===== *)
(** * What the sources use of the C library and of the C types

    <ctype.h>, <string.h>, <stdlib.h> and <stdio.h> functions on byte lists, fixed
    width integers, and the layouts of the socket addresses (the structures
    [sockaddr_in], [sockaddr_in6], [sockaddr_un] of src/include/netinet/in.h and
    src/include/sys/un.h on a little-endian machine). *)

From S2P Require Import Prelude.
Open Scope Z_scope.

(** ** <ctype.h>, in the C locale *)

Definition isdigit (c : Z) : bool := (48 <=? c) && (c <=? 57).
Definition isupper (c : Z) : bool := (65 <=? c) && (c <=? 90).
Definition tolower (c : Z) : Z := if isupper c then c + 32 else c.
Definition isspace (c : Z) : bool := (c =? 32) || ((9 <=? c) && (c <=? 13)).

(** ** <string.h> *)

Definition strlen (s : bytes) : Z := Z.of_nat (length s).

Definition strcmp_eq (s t : bytes) : bool := bool_decide (s = t).

(** strcasecmp (s, t) == 0 *)
Definition strcasecmp_eq (s t : bytes) : bool :=
  bool_decide (tolower <$> s = tolower <$> t).

(** Index of the first [c] of [s]; NULL is [None]. *)
Fixpoint strchr (s : bytes) (c : Z) : option nat :=
  match s with
  | [] => None
  | x :: s => if x =? c then Some O else S <$> strchr s c
  end.

(** Index of the last [c] of [s]. *)
Fixpoint strrchr (s : bytes) (c : Z) : option nat :=
  match s with
  | [] => None
  | x :: s =>
      match strrchr s c with
      | Some i => Some (S i)
      | None => if x =? c then Some O else None
      end
  end.

(** What a [char] array of size [n] holds after [strncpy (a, s, n)]. *)
Definition strncpy (s : bytes) (n : nat) : bytes := fit n s.

(** The string [snprintf] leaves in a buffer of size [n]. *)
Definition snprintf (n : nat) (s : bytes) : bytes := take (n - 1) s.

(** ** Integers *)

Definition LONG_MAX : Z := 2 ^ 63 - 1.
Definition LONG_MIN : Z := - 2 ^ 63.
Definition USHRT_MAX : Z := 65535.
Definition u8 (z : Z) : Z := z mod 2 ^ 8.
Definition u16 (z : Z) : Z := z mod 2 ^ 16.
Definition u32 (z : Z) : Z := z mod 2 ^ 32.
Definition u64 (z : Z) : Z := z mod 2 ^ 64.

(** The value of a run of decimal digits, after [acc]. *)
Fixpoint digits_value (acc : Z) (s : bytes) : Z :=
  match s with
  | c :: s => if isdigit c then digits_value (10 * acc + (c - 48)) s else acc
  | [] => acc
  end.

Fixpoint skip_space (s : bytes) : bytes :=
  match s with
  | c :: s' => if isspace c then skip_space s' else s
  | [] => []
  end.

(** [strtol (s, NULL, 10)]: blanks, a sign, digits; the value is clamped to the range
    of a long. *)
Definition strtol (s : bytes) : Z :=
  let v :=
    match skip_space s with
    | c :: s' =>
        if c =? 45 then - digits_value 0 s'
        else if c =? 43 then digits_value 0 s'
        else digits_value 0 (c :: s')
    | [] => 0
    end in
  Z.max LONG_MIN (Z.min LONG_MAX v).

(** The decimal digits of [n], most significant first; [fuel] bounds their number. *)
Fixpoint digits (fuel : nat) (n : Z) : bytes :=
  match fuel with
  | O => []
  | S fuel => if n <? 10 then [48 + n] else digits fuel (n / 10) ++ [48 + n mod 10]
  end.

(** "%ld" and "%d": a 64-bit value has at most 19 digits. *)
Definition print_ld (n : Z) : bytes :=
  if n <? 0 then 45 :: digits 20 (- n) else digits 20 n.
(** "%lu" of a long: the value is read as an unsigned long. *)
Definition print_lu (n : Z) : bytes := digits 20 (u64 n).

(** ** Byte order *)

(** A 16-bit field as the machine stores it, and in network order. *)
Definition le16 (z : Z) : bytes := [z mod 256; (z / 256) mod 256].
Definition be16 (z : Z) : bytes := [(z / 256) mod 256; z mod 256].
Definition le32 (z : Z) : bytes :=
  [z mod 256; (z / 256) mod 256; (z / 65536) mod 256; (z / 16777216) mod 256].
Definition rd_le16 (b : bytes) (off : nat) : Z :=
  nth off b 0 + 256 * nth (S off) b 0.
Definition rd_be16 (b : bytes) (off : nat) : Z :=
  256 * nth off b 0 + nth (S off) b 0.

(** ** Socket addresses *)

Definition AF_UNSPEC : Z := 0.
Definition AF_UNIX : Z := 1.
Definition AF_INET : Z := 2.
Definition AF_INET6 : Z := 10.

Definition sizeof_sockaddr_in : nat := 16.
Definition sizeof_sockaddr_in6 : nat := 28.
Definition sizeof_sockaddr_un : nat := 110.
Definition sizeof_sockaddr_storage : nat := 128.
Definition sizeof_sun_path : nat := 108.
Definition offsetof_sun_path : nat := 2.
Definition offsetof_sa_data : nat := 2.

(** [sa_family] and the fields behind it. *)
Definition sa_family (sa : bytes) : Z := rd_le16 sa 0.
Definition sin_port (sa : bytes) : Z := rd_be16 sa 2.          (* ntohs (sin_port) *)
Definition sin_addr (sa : bytes) : bytes := slice 4 4 sa.
Definition sin6_addr (sa : bytes) : bytes := slice 8 16 sa.
Definition sun_path (sa : bytes) : bytes := drop offsetof_sun_path sa.
(** The C string that [sun_path] holds. *)
Definition sun_path_str (sa : bytes) : bytes := until_nul (sun_path sa).

Definition mk_sockaddr_in (port : Z) (addr : bytes) : bytes :=
  le16 AF_INET ++ be16 port ++ fit 4 addr ++ replicate 8 0.
Definition mk_sockaddr_in6 (port : Z) (addr : bytes) : bytes :=
  le16 AF_INET6 ++ be16 port ++ replicate 4 0 ++ fit 16 addr ++ replicate 4 0.
(** [sun_path] is all of the 108 bytes. *)
Definition mk_sockaddr_un (path : bytes) : bytes :=
  le16 AF_UNIX ++ fit sizeof_sun_path path.

Definition INADDR_ANY : bytes := [0; 0; 0; 0].
Definition INADDR_NONE : Z := 4294967295.
Definition in6addr_any : bytes := replicate 16 0.

(** ** errno values and socket constants (src/include/asm-generic, src/include/bits) *)

Definition ENOENT : Z := 2.
Definition EINTR : Z := 4.
Definition EWOULDBLOCK : Z := 11.
Definition ENOMEM : Z := 12.
Definition EINVAL : Z := 22.
Definition EPROTOTYPE : Z := 91.
Definition EAFNOSUPPORT : Z := 97.
Definition EADDRINUSE : Z := 98.
Definition EADDRNOTAVAIL : Z := 99.
Definition ENETUNREACH : Z := 101.
Definition ETIMEDOUT : Z := 110.
Definition ECONNREFUSED : Z := 111.
Definition EHOSTDOWN : Z := 112.
Definition EINPROGRESS : Z := 115.

Definition SOCK_STREAM : Z := 1.
Definition SOCK_DGRAM : Z := 2.
Definition SOL_SOCKET : Z := 1.
Definition SO_REUSEADDR : Z := 2.
Definition SO_SNDBUF : Z := 7.
Definition SO_KEEPALIVE : Z := 9.
Definition SO_LINGER : Z := 13.
Definition IPPROTO_TCP : Z := 6.
Definition IPPROTO_IPV6 : Z := 41.
Definition TCP_NODELAY : Z := 1.
Definition IPV6_V6ONLY : Z := 26.
Definition SOMAXCONN : Z := 128.
Definition SCM_RIGHTS : Z := 1.
Definition FIONREAD : Z := 21531.
Definition F_SETFD : Z := 2.
Definition F_GETFL : Z := 3.
Definition F_SETFL : Z := 4.
Definition FD_CLOEXEC : Z := 1.
Definition O_RDONLY : Z := 0.
Definition O_NONBLOCK : Z := 2048.
Definition S_IFMT : Z := 61440.
Definition S_IFDIR : Z := 16384.
Definition S_IFSOCK : Z := 49152.
Definition S_ISDIR (m : Z) : bool := Z.land m S_IFMT =? S_IFDIR.

(** ** Lemmas *)

Lemma strchr_Some s c i :
  strchr s c = Some i -> s !! i = Some c /\ (forall j, (j < i)%nat -> s !! j <> Some c).
Proof.
  revert i. induction s as [|x s IH]; intros i; simpl; [done|].
  destruct (Z.eqb_spec x c) as [->|Hne].
  - intros [= <-]. split; [done|]. lia.
  - destruct (strchr s c) as [k|]; intros [= <-]; destruct (IH k eq_refl) as [H1 H2].
    split; [done|]. intros [|j] Hj; simpl; [congruence|]. apply H2. lia.
Qed.

Lemma strchr_None s c : strchr s c = None <-> c ∉ s.
Proof.
  induction s as [|x s IH]; simpl; [split; [intros _; apply not_elem_of_nil | done]|].
  rewrite not_elem_of_cons. destruct (Z.eqb_spec x c) as [->|Hne]; [naive_solver|].
  destruct (strchr s c); simpl; naive_solver.
Qed.

Lemma strchr_app s c t : c ∉ s -> strchr (s ++ c :: t) c = Some (length s).
Proof.
  induction s as [|x s IH]; simpl; intros H; [by rewrite Z.eqb_refl|].
  apply not_elem_of_cons in H as [Hx Hs].
  destruct (Z.eqb_spec x c); [congruence|]. by rewrite IH.
Qed.

Lemma strrchr_None s c : strrchr s c = None <-> c ∉ s.
Proof.
  induction s as [|x s IH]; simpl; [split; [intros _; apply not_elem_of_nil | done]|].
  rewrite not_elem_of_cons. destruct (strrchr s c); [naive_solver|].
  destruct (Z.eqb_spec x c); naive_solver.
Qed.

Lemma strrchr_Some s c i :
  strrchr s c = Some i -> s !! i = Some c /\ c ∉ drop (S i) s.
Proof.
  revert i. induction s as [|x s IH]; intros i; simpl; [done|].
  destruct (strrchr s c) as [k|] eqn:E.
  - intros [= <-]. by destruct (IH k eq_refl).
  - destruct (Z.eqb_spec x c) as [->|Hne]; intros [= <-].
    split; [done|]. simpl. rewrite drop_0. by apply strrchr_None.
Qed.

Lemma strrchr_app s c t : c ∉ t -> strrchr (s ++ c :: t) c = Some (length s).
Proof.
  intros H. induction s as [|x s IH]; simpl; [|by rewrite IH].
  apply strrchr_None in H. by rewrite H, Z.eqb_refl.
Qed.

Lemma isdigit_spec c : isdigit c = true <-> 48 <= c <= 57.
Proof. unfold isdigit. lia. Qed.

Lemma digits_isdigit fuel n : 0 <= n -> Forall (fun c => isdigit c = true) (digits fuel n).
Proof.
  revert n. induction fuel as [|fuel IH]; intros n Hn; simpl; [done|].
  destruct (Z.ltb_spec n 10).
  - repeat constructor. apply isdigit_spec. lia.
  - apply Forall_app. split; [apply IH, Z.div_pos; lia|].
    repeat constructor. apply isdigit_spec. pose proof (Z.mod_pos_bound n 10). lia.
Qed.

Lemma digits_nonempty fuel n : digits (S fuel) n <> [].
Proof. simpl. destruct (n <? 10); [done|]. by destruct (digits fuel (n / 10)). Qed.

Lemma digits_value_app acc s t :
  Forall (fun c => isdigit c = true) s ->
  digits_value acc (s ++ t) = digits_value (digits_value acc s) t.
Proof.
  intros H. revert acc. induction H as [|c s Hc _ IH]; intros acc; simpl; [done|].
  by rewrite Hc, IH.
Qed.

Lemma digits_value_digits fuel n :
  0 <= n < 10 ^ Z.of_nat fuel -> digits_value 0 (digits fuel n) = n.
Proof.
  revert n. induction fuel as [|fuel IH]; intros n Hn.
  - simpl in *. lia.
  - rewrite Nat2Z.inj_succ, Z.pow_succ_r in Hn by lia. simpl.
    destruct (Z.ltb_spec n 10) as [Hlt|Hge].
    + simpl. destruct (isdigit (48 + n)) eqn:E; [lia|].
      apply not_true_iff_false in E. rewrite isdigit_spec in E. lia.
    + assert (0 <= n / 10 < 10 ^ Z.of_nat fuel) by
        (split; [apply Z.div_pos; lia | apply Z.div_lt_upper_bound; lia]).
      rewrite digits_value_app by (apply digits_isdigit; lia). rewrite IH by done.
      simpl. pose proof (Z.mod_pos_bound n 10 ltac:(lia)).
      replace (isdigit (48 + n mod 10)) with true by (symmetry; apply isdigit_spec; lia).
      pose proof (Z.div_mod n 10 ltac:(lia)). lia.
Qed.

(** Reading back what "%lu" printed. *)
Lemma strtol_print_lu n : 0 <= n <= LONG_MAX -> strtol (print_lu n) = n.
Proof.
  unfold print_lu, u64, LONG_MAX. intros Hn. rewrite Z.mod_small by lia.
  assert (Hd : Forall (fun c => isdigit c = true) (digits 20 n)) by (apply digits_isdigit; lia).
  pose proof (digits_value_digits 20 n) as Hv.
  destruct (digits 20 n) as [|c s] eqn:E; [by apply digits_nonempty in E|].
  apply Forall_cons in Hd as [Hc _].
  assert (48 <= c <= 57) by by apply isdigit_spec.
  unfold strtol. cbn [skip_space].
  replace (isspace c) with false by (unfold isspace; lia).
  destruct (Z.eqb_spec c 45); [lia|]. destruct (Z.eqb_spec c 43); [lia|].
  rewrite Hv by lia. unfold LONG_MIN, LONG_MAX. lia.
Qed.

Lemma cstring_digits fuel n : 0 <= n -> cstring (digits fuel n).
Proof.
  intros Hn. eapply Forall_impl; [by apply digits_isdigit|]. intros c Hc.
  apply isdigit_spec in Hc. lia.
Qed.

Lemma cstring_print_ld n : cstring (print_ld n).
Proof.
  unfold print_ld. destruct (Z.ltb_spec n 0); [constructor; [lia|]|]; apply cstring_digits; lia.
Qed.

Lemma length_digits_lt k fuel n :
  0 <= n < 10 ^ Z.of_nat (S k) -> (length (digits fuel n) <= S k)%nat.
Proof.
  revert fuel n. induction k as [|k IH]; intros [|fuel] n Hn; cbn [digits]; cbn [length]; try lia.
  - destruct (Z.ltb_spec n 10); cbn [length]; [lia|]. change (10 ^ Z.of_nat 1) with 10 in Hn. lia.
  - destruct (Z.ltb_spec n 10); cbn [length]; [lia|]. rewrite length_app. cbn [length].
    assert (length (digits fuel (n / 10)) <= S k)%nat; [|lia]. apply IH.
    rewrite (Nat2Z.inj_succ (S k)), Z.pow_succ_r in Hn by lia.
    split; [apply Z.div_pos; lia | apply Z.div_lt_upper_bound; lia].
Qed.

Lemma length_digits fuel n : (length (digits fuel n) <= fuel)%nat.
Proof.
  revert n. induction fuel as [|fuel IH]; intros n; simpl; [lia|].
  destruct (n <? 10); simpl; [lia|]. rewrite length_app. specialize (IH (n / 10)). simpl. lia.
Qed.

(** What snprintf leaves of a text that fits. *)
Lemma snprintf_fits n s : (length s < n)%nat -> snprintf n s = s.
Proof. intros H. unfold snprintf. apply take_ge. lia. Qed.

Lemma digits_value_nonneg acc s : 0 <= acc -> 0 <= digits_value acc s.
Proof.
  revert acc. induction s as [|c s IH]; intros acc Hacc; simpl; [done|].
  destruct (isdigit c) eqn:E; [|done]. apply isdigit_spec in E. apply IH. lia.
Qed.
