(* ===== verification/Xtransint.v ===== *)
(** * The data of the transport layer (src/include/X11/Xtrans/Xtransint.h)

    The build configuration, the connection object [XtransConnInfo], the queued file
    descriptors [_XtransConnFd], the transports and their flags, and the return codes
    of Xtrans.h. *)

From S2P Require Import Prelude CLib.
Open Scope Z_scope.

(** ** Build configuration

    The preprocessor symbols a client library chooses; [cfg_client] is the one of
    X11_t, XIM_t, FS_t, FONT_t and ICE_t that is defined.  TCPCONN, UNIXCONN,
    TRANS_CLIENT, TRANS_SERVER and TRANS_REOPEN are defined, LOCALCONN and WIN32 are not. *)
Inductive client := X11_t | XIM_t | FS_t | FONT_t | ICE_t.

#[export] Instance client_eq_dec : EqDecision client.
Proof. solve_decision. Defined.

Class Config := {
  cfg_client : client;
  IPv6 : bool;                   (* IPv6 && AF_INET6 *)
  HAVE_STRCASECMP : bool;
  HAVE_ABSTRACT_SOCKETS : bool;  (* linux *)
  HAVE_SYSTEMD_DAEMON : bool;
  XTRANS_SEND_FDS : bool;
  USE_POLL : bool;
  NEED_UTSNAME : bool;
  HAS_STICKY_DIR_BIT : bool;
  HAS_FCHOWN : bool;
  FAIL_HARD : bool;
  HAVE_STRLCPY : bool
}.

(** A build of today's Linux distributions, for the examples. *)
Definition linux (c : client) : Config := {|
  cfg_client := c; IPv6 := true; HAVE_STRCASECMP := true; HAVE_ABSTRACT_SOCKETS := true;
  HAVE_SYSTEMD_DAEMON := true; XTRANS_SEND_FDS := true; USE_POLL := true;
  NEED_UTSNAME := true; HAS_STICKY_DIR_BIT := true; HAS_FCHOWN := true; FAIL_HARD := false;
  HAVE_STRLCPY := true |}.

Definition is_client `{Config} (c : client) : bool := bool_decide (cfg_client = c).

(** ** Pointers and heap cells

    [At l o] points [o] bytes into the block [l]. *)
Inductive ptr := NULL | At (l : positive) (o : nat).

#[export] Instance ptr_eq_dec : EqDecision ptr.
Proof. solve_decision. Defined.

(** ** Transports *)

Inductive transport :=
  | SocketTCPFuncs | SocketINET6Funcs | SocketINETFuncs
  | SocketLocalFuncs | SocketUNIXFuncs.

#[export] Instance transport_eq_dec : EqDecision transport.
Proof. solve_decision. Defined.

(** Flags of [Xtransport.flags] and of [XtransConnInfo.flags]. *)
Definition TRANS_ALIAS : Z := Z.shiftl 1 0.
Definition TRANS_LOCAL : Z := Z.shiftl 1 1.
Definition TRANS_DISABLED : Z := Z.shiftl 1 2.
Definition TRANS_NOLISTEN : Z := Z.shiftl 1 3.
Definition TRANS_NOUNLINK : Z := Z.shiftl 1 4.
Definition TRANS_ABSTRACT : Z := Z.shiftl 1 5.
Definition TRANS_NOXAUTH : Z := Z.shiftl 1 6.
Definition TRANS_RECEIVED : Z := Z.shiftl 1 7.
Definition TRANS_KEEPFLAGS : Z := Z.lor TRANS_NOUNLINK TRANS_ABSTRACT.

Definition ADDR_IN_USE_ALLOWED : Z := 1.

Definition XTRANS_OPEN_COTS_CLIENT : Z := 1.
Definition XTRANS_OPEN_COTS_SERVER : Z := 2.

Definition X_TCP_PORT : Z := 6000.

(** [has f fl]: the C condition [f & fl]. *)
Definition has (f fl : Z) : bool := negb (Z.land f fl =? 0).

(** Return codes (Xtrans.h). *)
Definition TRANS_NONBLOCKING : Z := 1.
Definition TRANS_CLOSEONEXEC : Z := 2.
Definition TRANS_CONNECT_FAILED : Z := -1.
Definition TRANS_TRY_CONNECT_AGAIN : Z := -2.
Definition TRANS_IN_PROGRESS : Z := -3.
Definition TRANS_CREATE_LISTENER_FAILED : Z := -1.
Definition TRANS_ADDR_IN_USE : Z := -2.
Definition TRANS_ACCEPT_BAD_MALLOC : Z := -1.
Definition TRANS_ACCEPT_FAILED : Z := -2.
Definition TRANS_ACCEPT_MISC_ERROR : Z := -3.
Definition TRANS_RESET_NOOP : Z := 1.
Definition TRANS_RESET_NEW_FD : Z := 2.
Definition TRANS_RESET_FAILURE : Z := 3.

(** ** struct _XtransConnFd *)
Record conn_fd := ConnFd { cf_next : ptr; cf_fd : Z; cf_do_close : Z }.

(** ** struct _XtransConnInfo *)
Record conninfo := ConnInfo {
  transptr : option transport;
  index : Z;
  priv : ptr;
  flags : Z;
  fd : Z;
  port : ptr;
  family : Z;
  addr : ptr;
  addrlen : Z;
  peeraddr : ptr;
  peeraddrlen : Z;
  recv_fds : ptr;
  send_fds : ptr
}.

(** What [calloc (1, sizeof (struct _XtransConnInfo))] returns. *)
Definition conn0 : conninfo :=
  ConnInfo None 0 NULL 0 0 NULL 0 NULL 0 NULL 0 NULL NULL.

(** Assignments to the fields. *)
Definition set_transptr v c := ConnInfo v (index c) (priv c) (flags c) (fd c) (port c)
  (family c) (addr c) (addrlen c) (peeraddr c) (peeraddrlen c) (recv_fds c) (send_fds c).
Definition set_index v c := ConnInfo (transptr c) v (priv c) (flags c) (fd c) (port c)
  (family c) (addr c) (addrlen c) (peeraddr c) (peeraddrlen c) (recv_fds c) (send_fds c).
Definition set_flags v c := ConnInfo (transptr c) (index c) (priv c) v (fd c) (port c)
  (family c) (addr c) (addrlen c) (peeraddr c) (peeraddrlen c) (recv_fds c) (send_fds c).
Definition set_fd v c := ConnInfo (transptr c) (index c) (priv c) (flags c) v (port c)
  (family c) (addr c) (addrlen c) (peeraddr c) (peeraddrlen c) (recv_fds c) (send_fds c).
Definition set_port v c := ConnInfo (transptr c) (index c) (priv c) (flags c) (fd c) v
  (family c) (addr c) (addrlen c) (peeraddr c) (peeraddrlen c) (recv_fds c) (send_fds c).
Definition set_family v c := ConnInfo (transptr c) (index c) (priv c) (flags c) (fd c) (port c)
  v (addr c) (addrlen c) (peeraddr c) (peeraddrlen c) (recv_fds c) (send_fds c).
Definition set_addr v c := ConnInfo (transptr c) (index c) (priv c) (flags c) (fd c) (port c)
  (family c) v (addrlen c) (peeraddr c) (peeraddrlen c) (recv_fds c) (send_fds c).
Definition set_addrlen v c := ConnInfo (transptr c) (index c) (priv c) (flags c) (fd c) (port c)
  (family c) (addr c) v (peeraddr c) (peeraddrlen c) (recv_fds c) (send_fds c).
Definition set_peeraddr v c := ConnInfo (transptr c) (index c) (priv c) (flags c) (fd c) (port c)
  (family c) (addr c) (addrlen c) v (peeraddrlen c) (recv_fds c) (send_fds c).
Definition set_peeraddrlen v c := ConnInfo (transptr c) (index c) (priv c) (flags c) (fd c)
  (port c) (family c) (addr c) (addrlen c) (peeraddr c) v (recv_fds c) (send_fds c).
Definition set_recv_fds v c := ConnInfo (transptr c) (index c) (priv c) (flags c) (fd c) (port c)
  (family c) (addr c) (addrlen c) (peeraddr c) (peeraddrlen c) v (send_fds c).
Definition set_send_fds v c := ConnInfo (transptr c) (index c) (priv c) (flags c) (fd c) (port c)
  (family c) (addr c) (addrlen c) (peeraddr c) (peeraddrlen c) (recv_fds c) v.

(** ** Flag arithmetic *)

Lemma has_lor_same f fl : fl <> 0 -> has (Z.lor f fl) fl = true.
Proof.
  intros H. unfold has. apply negb_true_iff, Z.eqb_neq.
  replace (Z.land (Z.lor f fl) fl) with fl; [done|]. zbits.
Qed.

(** Setting or clearing a bit leaves the disjoint bits alone. *)
Lemma has_lor_disjoint f a b : Z.land a b = 0 -> has (Z.lor f a) b = has f b.
Proof. intros H. unfold has. by rewrite Z.land_lor_distr_l, H, Z.lor_0_r. Qed.

Lemma has_clear_disjoint f a b : Z.land a b = 0 -> has (Z.land f (Z.lnot a)) b = has f b.
Proof.
  intros H. unfold has. do 2 f_equal.
  rewrite <-(Z.lor_0_r (Z.land (Z.land f _) b)), <-(Z.land_0_r f), <-H. zbits.
Qed.

Lemma has_clear_same f a : has (Z.land f (Z.lnot a)) a = false.
Proof. unfold has. apply negb_false_iff, Z.eqb_eq. zbits. Qed.
