(* ===== verification/World.v ===== *)
(** * The machine the transport layer runs on

    A C function is a computation [M A]: it runs against an environment (the kernel,
    the allocator and the name services, which are not part of the sources) and
    changes a state.  The state holds the heap, errno, the mutable flags of the
    transports, the static address list of SocketINETConnect and the log of all calls
    to the environment with their answers.  The environment answers a call from the
    log of what happened before, so that any deterministic behaviour is some
    environment; theorems quantify over all of them.

    Undefined behaviour of C (a NULL or dangling pointer, a bad free, an access out
    of bounds, a signed overflow) ends a computation in [Fault]. *)

From S2P Require Import Prelude CLib Xtransint.
Open Scope Z_scope.

(** ** Calls to the environment *)

Record addrinfo := AddrInfo { ai_family : Z; ai_addr : bytes }.
Record statbuf := StatBuf { st_mode : Z; st_uid : Z; st_dev : Z; st_ino : Z }.
(** One ancillary message of recvmsg or sendmsg: level, type, the descriptors. *)
Record cmsg := CMsg { cmsg_level : Z; cmsg_type : Z; cmsg_fds : list Z }.
Record hostent := HostEnt { h_name : bytes; h_addrtype : Z; h_addr_list : list bytes }.

Inductive call :=
  | C_malloc (n : Z)
  | C_socket (domain type protocol : Z)
  | C_setsockopt (fd level opt : Z) (val : list Z)
  | C_getsockopt (fd level opt : Z)
  | C_bind (fd : Z) (sa : bytes)
  | C_listen (fd backlog : Z)
  | C_accept (fd len : Z)
  | C_connect (fd : Z) (sa : bytes)
  | C_getsockname (fd len : Z)
  | C_getpeername (fd len : Z)
  | C_close (fd : Z)
  | C_shutdown (fd how : Z)
  | C_read (fd n : Z)
  | C_write (fd : Z) (b : bytes)
  | C_readv (fd : Z) (lens : list Z)
  | C_writev (fd : Z) (iov : list bytes)
  | C_recvmsg (fd : Z) (lens : list Z) (controllen : Z)
  | C_sendmsg (fd : Z) (iov : list bytes) (cm : cmsg)
  | C_ioctl (fd request : Z)
  | C_fcntl (fd cmd arg : Z)
  | C_sysconf_open_max
  | C_sleep (n : Z)
  | C_umask (m : Z)
  | C_unlink (path : bytes)
  | C_stat (path : bytes)
  | C_lstat (path : bytes)
  | C_mkdir (path : bytes) (mode : Z)
  | C_chmod (path : bytes) (mode : Z)
  | C_open (path : bytes) (flags : Z)
  | C_fstat (fd : Z)
  | C_fchown (fd uid gid : Z)
  | C_fchmod (fd mode : Z)
  | C_geteuid
  | C_getpid
  | C_uname
  | C_gethostname (n : Z)
  | C_getaddrinfo (host : bytes) (port : option bytes) (socktype : Z)
  | C_freeaddrinfo (l : list addrinfo)
  | C_gethostbyname (host : bytes)
  | C_gethostbyaddr (addr : bytes) (family : Z)
  | C_getservbyname (name proto : bytes)
  | C_inet_pton (family : Z) (s : bytes)
  | C_inet_ntop (family : Z) (addr : bytes) (n : Z)
  | C_inet_ntoa (addr : bytes)
  | C_inet_addr (s : bytes)
  | C_signal_alarm
  | C_alarm (n : Z)
  | C_sd_listen_fds (unset : Z).

(** An answer: the value returned, the errno set on a negative one, and the data
    written through the call's pointer arguments. *)
Record answer := Answer {
  a_ret : Z;
  a_errno : Z;
  a_bytes : bytes;
  a_val : Z;
  a_stat : statbuf;
  a_addrs : list addrinfo;
  a_cmsgs : list cmsg;
  a_host : option hostent
}.

Definition stat0 : statbuf := StatBuf 0 0 0 0.
(** An answer with a value only. *)
Definition ans (r : Z) : answer := Answer r 0 [] 0 stat0 [] [] None.
Definition ans_err (e : Z) : answer := Answer (-1) e [] 0 stat0 [] [] None.
Definition ans_bytes (r : Z) (b : bytes) : answer := Answer r 0 b 0 stat0 [] [] None.

Definition event : Type := call * answer.
(** Newest event first. *)
Abbreviation log := (list event).
Definition env : Type := log -> call -> answer.

(** ** State *)

Inductive block :=
  | BConn (c : conninfo)
  | BBytes (b : bytes)
  | BFd (c : conn_fd)
  | BConns (l : list ptr).

(** static struct addrlist of Xtranssock.c; a list pointer is the rest of the list,
    NULL the empty one. *)
Record addrlist_t := AddrList {
  al_addr : list addrinfo;
  al_firstaddr : list addrinfo;
  al_port : bytes;
  al_host : bytes
}.

Abbreviation memory := (gmap positive block).

Record state := State {
  trace : log;
  heap : memory;
  next : positive;
  errno : Z;
  tflags : transport -> Z;
  addrlist : option addrlist_t
}.

Definition upd_trace v s := State v (heap s) (next s) (errno s) (tflags s) (addrlist s).
Definition upd_heap v s := State (trace s) v (next s) (errno s) (tflags s) (addrlist s).
Definition upd_next v s := State (trace s) (heap s) v (errno s) (tflags s) (addrlist s).
Definition upd_errno v s := State (trace s) (heap s) (next s) v (tflags s) (addrlist s).
Definition upd_tflags v s := State (trace s) (heap s) (next s) (errno s) v (addrlist s).
Definition upd_addrlist v s := State (trace s) (heap s) (next s) (errno s) (tflags s) v.

(** ** Computations *)

Inductive fault :=
  | NullDeref | Dangling | BadFree | OutOfBounds | SignedOverflow | OutOfFuel.

Inductive res (A : Type) : Type :=
  | Ok (a : A) (s : state)
  | Fault (f : fault).
Arguments Ok {A}.
Arguments Fault {A}.

Definition M (A : Type) : Type := env -> state -> res A.

#[export] Instance M_ret : MRet M := fun A a _ s => Ok a s.
#[export] Instance M_bind : MBind M := fun A B k m e s =>
  match m e s with
  | Ok a s' => k a e s'
  | Fault f => Fault f
  end.

Definition throw {A} (f : fault) : M A := fun _ _ => Fault f.
Definition get {A} (f : state -> A) : M A := fun _ s => Ok (f s) s.
Definition modify (f : state -> state) : M unit := fun _ s => Ok tt (f s).
(** if (b) m; *)
Definition when (b : bool) (m : M unit) : M unit := if b then m else mret tt.
Definition ignore {A} (m : M A) : M unit := m ;; mret tt.

Definition logged (c : call) (a : answer) (s : state) : state :=
  State ((c, a) :: trace s) (heap s) (next s)
    (if a_ret a <? 0 then a_errno a else errno s) (tflags s) (addrlist s).

Definition sys (c : call) : M answer := fun e s =>
  let a := e (trace s) c in Ok a (logged c a s).
Definition sys_ret (c : call) : M Z := a ← sys c; mret (a_ret a).

Definition EGET : M Z := get errno.
Definition ESET (v : Z) : M unit := modify (upd_errno v).

(** ** Memory *)

(** A location that no block of the past or the present has. *)
Definition new_loc (s : state) : positive :=
  map_fold (fun l _ m => Pos.max (Pos.succ l) m) (next s) (heap s).

Definition alloc_state (b : block) (s : state) : state :=
  State (trace s) (<[new_loc s := b]> (heap s)) (Pos.succ (new_loc s)) (errno s)
    (tflags s) (addrlist s).

(** malloc, calloc and strdup of [n] bytes; the environment may answer with NULL. *)
Definition alloc (n : Z) (b : block) : M ptr :=
  r ← sys_ret (C_malloc n);
  if r <? 0 then mret NULL
  else fun _ s => Ok (At (new_loc s) 0) (alloc_state b s).

Definition sizeof_conninfo : Z := 96.
Definition sizeof_conn_fd : Z := 16.

(** The content of fresh malloc memory is the environment's choice; every buffer the
    sources allocate is written before it is read, zeros stand for it. *)
Definition malloc_bytes (n : Z) : M ptr := alloc n (BBytes (replicate (Z.to_nat n) 0)).
Definition strdup (s : bytes) : M ptr := alloc (strlen s + 1) (BBytes (s ++ [0])).
Definition calloc_conn : M ptr := alloc sizeof_conninfo (BConn conn0).

Definition load (p : ptr) : M block := fun _ s =>
  match p with
  | NULL => Fault NullDeref
  | At l _ => match heap s !! l with Some b => Ok b s | None => Fault Dangling end
  end.

Definition free (p : ptr) : M unit := fun _ s =>
  match p with
  | NULL => Ok tt s
  | At l (S _) => Fault BadFree
  | At l O =>
      match heap s !! l with
      | Some _ => Ok tt (upd_heap (delete l (heap s)) s)
      | None => Fault BadFree
      end
  end.

(** [*p] for [p] an XtransConnInfo, and an assignment to one of its fields. *)
Definition load_conn (p : ptr) : M conninfo :=
  b ← load p;
  match b with BConn c => mret c | _ => throw Dangling end.

Definition store (p : ptr) (b : block) : M unit := fun _ s =>
  match p with
  | NULL => Fault NullDeref
  | At l _ =>
      match heap s !! l with
      | Some _ => Ok tt (upd_heap (<[l := b]> (heap s)) s)
      | None => Fault Dangling
      end
  end.

Definition set (p : ptr) (f : conninfo -> conninfo) : M unit :=
  c ← load_conn p; store p (BConn (f c)).

(** The bytes from [p] to the end of its block. *)
Definition load_bytes (p : ptr) : M bytes :=
  b ← load p;
  match p, b with
  | At _ o, BBytes v => mret (drop o v)
  | _, _ => throw Dangling
  end.

(** memcpy out of a block and into one (at its start); the whole range must be inside. *)
Definition read_bytes (p : ptr) (n : Z) : M bytes :=
  v ← load_bytes p;
  if Z.of_nat (length v) <? n then throw OutOfBounds
  else mret (take (Z.to_nat n) v).

Definition write_bytes (p : ptr) (v : bytes) : M unit :=
  b ← load p;
  match b with
  | BBytes w =>
      if (length w <? length v)%nat then throw OutOfBounds
      else store p (BBytes (write_at 0 v w))
  | _ => throw Dangling
  end.

(** The C string that starts the bytes [b] of a block; without a NUL it is read past its
    end. *)
Definition terminated (b : bytes) : bool := existsb (Z.eqb 0) b.
Definition cstr (b : bytes) : M bytes :=
  if terminated b then mret (until_nul b) else throw OutOfBounds.

(** The C string at [p], and the one in [sun_path] of the address at [p]. *)
Definition load_str (p : ptr) : M bytes := v ← load_bytes p; cstr v.
Definition load_sun_path (p : ptr) : M bytes := v ← load_bytes p; cstr (sun_path v).

(** memcpy from a local buffer of which [n] bytes are asked. *)
Definition buffer_bytes (buf : bytes) (n : Z) : M bytes :=
  if Z.of_nat (length buf) <? n then throw OutOfBounds else mret (take (Z.to_nat n) buf).

(** long addition; overflow of a signed type is undefined. *)
Definition long_add (a b : Z) : M Z :=
  let v := a + b in
  if (v <? LONG_MIN) || (LONG_MAX <? v) then throw SignedOverflow else mret v.

(** ciptr->transptr->flags *)
Definition conn_tflags (p : ptr) : M Z :=
  c ← load_conn p;
  match transptr c with
  | None => throw NullDeref
  | Some t => get (fun s => tflags s t)
  end.

Definition set_tflags (t : transport) (f : Z -> Z) : M unit :=
  modify (fun s =>
    upd_tflags (fun t' => if decide (t' = t) then f (tflags s t) else tflags s t') s).
