(* ===== verification/Logic.v ===== *)
(** * Reasoning about computations

    [wp m e s Q]: run from [s] against the environment [e], [m] ends without undefined
    behaviour in a result and a state that satisfy [Q].  The rules below, one per
    primitive of World.v, are what the tactics [wp_step] and [wp_steps] apply. *)

From S2P Require Import Prelude CLib Xtransint World.
Open Scope Z_scope.

Definition wp {A} (m : M A) (e : env) (s : state) (Q : A -> state -> Prop) : Prop :=
  match m e s with Ok a s' => Q a s' | Fault _ => False end.

(** The other verdict: [m] runs into undefined behaviour [f]. *)
Definition faults {A} (m : M A) (e : env) (s : state) (f : fault) : Prop :=
  m e s = Fault f.

Lemma new_loc_fresh s : heap s !! new_loc s = None.
Proof.
  destruct (heap s !! new_loc s) as [b|] eqn:Hb; [|done]. exfalso.
  assert (Hlt : forall l b, heap s !! l = Some b ->
    (l < map_fold (fun l _ m => Pos.max (Pos.succ l) m) (next s) (heap s))%positive).
  { clear b Hb.
    apply (map_fold_weak_ind (fun r m => forall l b, m !! l = Some b -> (l < r)%positive)).
    - intros l b. by rewrite lookup_empty.
    - intros i x m r Hi IH l b Hl. destruct (decide (l = i)) as [->|Hne]; [lia|].
      rewrite lookup_insert_ne in Hl by done. apply IH in Hl. lia. }
  apply Hlt in Hb. unfold new_loc in Hb at 1. lia.
Qed.

Section rules.
Context (e : env).
Implicit Types (s : state).

Lemma wp_mono {A} (m : M A) s (Q Q' : A -> state -> Prop) :
  wp m e s Q -> (forall a s', Q a s' -> Q' a s') -> wp m e s Q'.
Proof. unfold wp. destruct (m e s); auto. Qed.

Lemma wp_and {A} (m : M A) s (Q Q' : A -> state -> Prop) :
  wp m e s Q -> wp m e s Q' -> wp m e s (fun a s' => Q a s' /\ Q' a s').
Proof. unfold wp. destruct (m e s); auto. Qed.

(** The result and the final state are those of the run. *)
Lemma wp_run {A} (m : M A) s (Q : A -> state -> Prop) :
  wp m e s Q -> wp m e s (fun a s' => m e s = Ok a s' /\ Q a s').
Proof. unfold wp. by destruct (m e s). Qed.

Lemma wp_ret {A} (a : A) s Q : Q a s -> wp (mret a) e s Q.
Proof. done. Qed.

Lemma wp_bind {A B} (m : M A) (k : A -> M B) s Q :
  wp m e s (fun a s' => wp (k a) e s' Q) -> wp (m ≫= k) e s Q.
Proof. unfold wp, mbind, M_bind. by destruct (m e s). Qed.

Lemma wp_get {A} (f : state -> A) s Q : Q (f s) s -> wp (get f) e s Q.
Proof. done. Qed.

Lemma wp_modify f s Q : Q tt (f s) -> wp (modify f) e s Q.
Proof. done. Qed.

Lemma wp_sys c s Q :
  (forall a, a = e (trace s) c -> Q a (logged c a s)) -> wp (sys c) e s Q.
Proof. intros H. by apply H. Qed.

Lemma wp_sys_ret c s Q :
  (forall a, a = e (trace s) c -> Q (a_ret a) (logged c a s)) -> wp (sys_ret c) e s Q.
Proof. intros H. by apply H. Qed.

Lemma wp_ignore {A} (m : M A) s Q : wp m e s (fun _ s' => Q tt s') -> wp (ignore m) e s Q.
Proof. unfold ignore. intros H. by apply wp_bind. Qed.

Lemma wp_when b m s Q :
  (b = true -> wp m e s Q) -> (b = false -> Q tt s) -> wp (when b m) e s Q.
Proof. intros Ht Hf. destruct b; [by apply Ht | by apply Hf]. Qed.

(** Allocation: a block nobody has a pointer to, or NULL and the heap as it was. *)
Lemma wp_alloc n b s Q :
  (forall a, a = e (trace s) (C_malloc n) -> a_ret a < 0 -> Q NULL (logged (C_malloc n) a s)) ->
  (forall a l nx, a = e (trace s) (C_malloc n) -> 0 <= a_ret a ->
    heap s !! l = None ->
    Q (At l 0) (State ((C_malloc n, a) :: trace s) (<[l := b]> (heap s)) nx (errno s)
                 (tflags s) (addrlist s))) ->
  wp (alloc n b) e s Q.
Proof.
  intros Hnull Hok. unfold alloc. apply wp_bind, wp_sys_ret. intros a Hans.
  destruct (Z.ltb_spec (a_ret a) 0) as [Ha|Ha].
  - by apply Hnull.
  - unfold wp, alloc_state, logged. simpl.
    destruct (Z.ltb_spec (a_ret a) 0); [lia|].
    apply Hok; [done | done | apply (new_loc_fresh (logged (C_malloc n) a s))].
Qed.

Lemma wp_free_null s (Q : unit -> state -> Prop) : Q tt s -> wp (free NULL) e s Q.
Proof. done. Qed.

Lemma wp_free l b s (Q : unit -> state -> Prop) :
  heap s !! l = Some b -> Q tt (upd_heap (delete l (heap s)) s) -> wp (free (At l 0)) e s Q.
Proof. unfold wp, free. by intros ->. Qed.

Lemma wp_load l o b s (Q : block -> state -> Prop) :
  heap s !! l = Some b -> Q b s -> wp (load (At l o)) e s Q.
Proof. unfold wp, load. by intros ->. Qed.

Lemma wp_load_conn l o c s (Q : conninfo -> state -> Prop) :
  heap s !! l = Some (BConn c) -> Q c s -> wp (load_conn (At l o)) e s Q.
Proof. intros Hl HQ. apply wp_bind. by eapply wp_load. Qed.

Lemma wp_store l o b b' s (Q : unit -> state -> Prop) :
  heap s !! l = Some b -> Q tt (upd_heap (<[l := b']> (heap s)) s) ->
  wp (store (At l o) b') e s Q.
Proof. unfold wp, store. by intros ->. Qed.

Lemma wp_set l o c f s (Q : unit -> state -> Prop) :
  heap s !! l = Some (BConn c) -> Q tt (upd_heap (<[l := BConn (f c)]> (heap s)) s) ->
  wp (set (At l o) f) e s Q.
Proof. intros Hl HQ. apply wp_bind. eapply wp_load_conn; [done|]. by eapply wp_store. Qed.

Lemma wp_load_bytes l o v s (Q : bytes -> state -> Prop) :
  heap s !! l = Some (BBytes v) -> Q (drop o v) s -> wp (load_bytes (At l o)) e s Q.
Proof. intros Hl HQ. apply wp_bind. by eapply wp_load. Qed.

Lemma terminated_nul v w : terminated (v ++ 0 :: w) = true.
Proof. apply existsb_exists. exists 0. split; [apply in_app_iff; right; by left | done]. Qed.

Lemma wp_cstr b s (Q : bytes -> state -> Prop) :
  terminated b = true -> Q (until_nul b) s -> wp (cstr b) e s Q.
Proof. unfold cstr. by intros ->. Qed.

Lemma wp_load_str l o v s (Q : bytes -> state -> Prop) :
  heap s !! l = Some (BBytes v) -> terminated (drop o v) = true ->
  Q (until_nul (drop o v)) s -> wp (load_str (At l o)) e s Q.
Proof. intros Hl Ht HQ. apply wp_bind. eapply wp_load_bytes; [done|]. by apply wp_cstr. Qed.

Lemma wp_load_sun_path l o v s (Q : bytes -> state -> Prop) :
  heap s !! l = Some (BBytes v) -> terminated (sun_path (drop o v)) = true ->
  Q (sun_path_str (drop o v)) s -> wp (load_sun_path (At l o)) e s Q.
Proof. intros Hl Ht HQ. apply wp_bind. eapply wp_load_bytes; [done|]. by apply wp_cstr. Qed.

Lemma wp_read_bytes l o v n s (Q : bytes -> state -> Prop) :
  heap s !! l = Some (BBytes v) -> n <= Z.of_nat (length v - o) ->
  Q (take (Z.to_nat n) (drop o v)) s -> wp (read_bytes (At l o) n) e s Q.
Proof.
  intros Hl Hn HQ. apply wp_bind. eapply wp_load_bytes; [done|].
  rewrite length_drop. destruct (Z.ltb_spec (Z.of_nat (length v - o)) n); [lia|].
  by apply wp_ret.
Qed.

Lemma wp_write_bytes l o v w s (Q : unit -> state -> Prop) :
  heap s !! l = Some (BBytes w) -> (length v <= length w)%nat ->
  Q tt (upd_heap (<[l := BBytes (write_at 0 v w)]> (heap s)) s) ->
  wp (write_bytes (At l o) v) e s Q.
Proof.
  intros Hl Hn HQ. apply wp_bind. eapply wp_load; [done|]. cbn beta iota.
  destruct (Nat.ltb_spec (length w) (length v)); [lia|]. by eapply wp_store.
Qed.

Lemma wp_buffer_bytes buf n s (Q : bytes -> state -> Prop) :
  n <= Z.of_nat (length buf) -> Q (take (Z.to_nat n) buf) s ->
  wp (buffer_bytes buf n) e s Q.
Proof.
  intros Hn HQ. unfold buffer_bytes.
  destruct (Z.ltb_spec (Z.of_nat (length buf)) n); [lia | done].
Qed.

Lemma wp_long_add a b s (Q : Z -> state -> Prop) :
  LONG_MIN <= a + b <= LONG_MAX -> Q (a + b) s -> wp (long_add a b) e s Q.
Proof.
  intros H HQ. unfold long_add.
  destruct (Z.ltb_spec (a + b) LONG_MIN), (Z.ltb_spec LONG_MAX (a + b)); simpl; done || lia.
Qed.

Lemma wp_conn_tflags l o c t s (Q : Z -> state -> Prop) :
  heap s !! l = Some (BConn c) -> transptr c = Some t -> Q (tflags s t) s ->
  wp (conn_tflags (At l o)) e s Q.
Proof.
  intros Hl Ht HQ. apply wp_bind. eapply wp_load_conn; [done|]. by rewrite Ht.
Qed.

(** The same judgement for a computation that ends in undefined behaviour [f]. *)
Definition wpf {A} (f : fault) (m : M A) (s : state) (Q : A -> state -> Prop) : Prop :=
  match m e s with Ok a s' => Q a s' | Fault f' => f' = f end.

Lemma faults_wpf {A} f (m : M A) s : wpf f m s (fun _ _ => False) -> faults m e s f.
Proof. unfold wpf, faults. destruct (m e s) as [|g]; [done | by intros ->]. Qed.

Lemma wpf_bind {A B} f (m : M A) (k : A -> M B) s Q :
  wpf f m s (fun a s' => wpf f (k a) s' Q) -> wpf f (m ≫= k) s Q.
Proof. unfold wpf, mbind, M_bind. by destruct (m e s). Qed.

Lemma wpf_wp {A} f (m : M A) s Q : wp m e s Q -> wpf f m s Q.
Proof. unfold wpf, wp. by destruct (m e s). Qed.

Lemma wpf_throw {A} f s (Q : A -> state -> Prop) : wpf f (throw f) s Q.
Proof. done. Qed.
End rules.

(** ** Tactics *)

(** Reduce the projections of explicit states. *)
Ltac st_simpl :=
  unfold logged, upd_trace, upd_heap, upd_next, upd_errno, upd_tflags, upd_addrlist;
  cbn beta iota delta [trace heap next errno tflags addrlist].

(** Side conditions about the heap: look through updates of distinct locations. *)
Ltac heap_solve :=
  cbn [heap logged upd_trace upd_heap upd_next upd_errno upd_tflags upd_addrlist] in *;
  repeat first
    [ done
    | eassumption
    | rewrite lookup_insert_eq; reflexivity
    | rewrite lookup_insert_ne by congruence
    | rewrite lookup_delete_ne by congruence ].

(** A fresh location differs from those in use. *)
Ltac fresh_loc Hl :=
  cbn [heap logged upd_trace upd_heap upd_next upd_errno upd_tflags upd_addrlist] in Hl;
  repeat first
    [ rewrite lookup_delete_ne in Hl by congruence
    | let Hne := fresh "Hne" in apply lookup_insert_None in Hl as [Hl Hne] ].

Ltac wp_step :=
  lazymatch goal with
  | |- wp (_ ≫= _) _ _ _ => apply wp_bind
  | |- wp (mret _) _ _ _ => apply wp_ret
  | |- wp (get _) _ _ _ => apply wp_get
  | |- wp (EGET) _ _ _ => apply wp_get
  | |- wp (modify _) _ _ _ => apply wp_modify
  | |- wp (ESET _) _ _ _ => apply wp_modify
  | |- wp (sys _) _ _ _ => apply wp_sys; intros ?a ?Ha
  | |- wp (sys_ret _) _ _ _ => apply wp_sys_ret; intros ?a ?Ha
  | |- wp (ignore _) _ _ _ => apply wp_ignore
  | |- wp (free NULL) _ _ _ => apply wp_free_null
  | |- wp (free _) _ _ _ => eapply wp_free; [solve [heap_solve]|]
  | |- wp (load_conn _) _ _ _ => eapply wp_load_conn; [solve [heap_solve]|]
  | |- wp (set _ _) _ _ _ => eapply wp_set; [solve [heap_solve]|]
  | |- wp (alloc _ _) _ _ _ =>
      apply wp_alloc;
        [intros ?a ?Hans ?Ha
        | let Hl := fresh "Hl" in intros ?a ?l ?nx ?Hans ?Ha Hl; fresh_loc Hl]
  | |- wp (strdup _) _ _ _ => unfold strdup
  | |- wp (malloc_bytes _) _ _ _ => unfold malloc_bytes
  | |- wp calloc_conn _ _ _ => unfold calloc_conn
  | |- wp (write_bytes _ _) _ _ _ => eapply wp_write_bytes; [solve [heap_solve] | |]
  | |- wp (read_bytes _ _) _ _ _ => eapply wp_read_bytes; [solve [heap_solve] | |]
  | |- wp (load_bytes _) _ _ _ => eapply wp_load_bytes; [solve [heap_solve]|]
  | |- wp (load_str _) _ _ _ =>
      eapply wp_load_str; [solve [heap_solve] | try solve [apply terminated_nul] |]
  | |- wp (load_sun_path _) _ _ _ =>
      eapply wp_load_sun_path; [solve [heap_solve] | try done |]
  | |- wp (if -1 <? 0 then _ else _) _ _ _ => change (-1 <? 0) with true; cbn iota
  | |- wp (if 0 <? 0 then _ else _) _ _ _ => change (0 <? 0) with false; cbn iota
  | |- wp (if true then _ else _) _ _ _ => cbn iota
  | |- wp (if false then _ else _) _ _ _ => cbn iota
  | |- wp (if negb true then _ else _) _ _ _ => cbn [negb]
  | |- wp (if negb false then _ else _) _ _ _ => cbn [negb]
  | |- wp (if bool_decide (NULL = NULL) then _ else _) _ _ _ =>
      rewrite bool_decide_true by done
  | |- wp (if bool_decide (At _ _ = NULL) then _ else _) _ _ _ =>
      rewrite bool_decide_false by done
  | |- wp (if negb (bool_decide (NULL = NULL)) then _ else _) _ _ _ =>
      rewrite bool_decide_true by done
  | |- wp (if negb (bool_decide (At _ _ = NULL)) then _ else _) _ _ _ =>
      rewrite bool_decide_false by done
  | |- wp (when (negb (bool_decide (NULL = NULL))) _) _ _ _ =>
      rewrite bool_decide_true by done; cbn [negb when]
  | |- wp (when (negb (bool_decide (At _ _ = NULL))) _) _ _ _ =>
      rewrite bool_decide_false by done; cbn [negb when]
  | |- wp (when true _) _ _ _ => cbn [when]
  | |- wp (when false _) _ _ _ => cbn [when]
  | |- wp (when _ _) _ _ _ => apply wp_when; intros ?E
  | |- wp (if ?b then _ else _) _ _ _ => let E := fresh "E" in destruct b eqn:E
  end; st_simpl; rewrite ?insert_insert_eq.

Ltac wp_steps := repeat wp_step.

(** The steps on the way to undefined behaviour. *)
Ltac wpf_step :=
  lazymatch goal with
  | |- wpf _ _ (_ ≫= _) _ _ => apply wpf_bind
  | |- wpf _ _ (throw _) _ _ => apply wpf_throw
  | |- wpf _ _ (if true then _ else _) _ _ => cbn iota
  | |- wpf _ _ (if false then _ else _) _ _ => cbn iota
  | |- wpf _ _ (if bool_decide (NULL = NULL) then _ else _) _ _ =>
      rewrite bool_decide_true by done
  | |- wpf _ _ (if bool_decide (At _ _ = NULL) then _ else _) _ _ =>
      rewrite bool_decide_false by done
  | |- wpf _ _ calloc_conn _ _ => unfold calloc_conn
  | |- wpf _ _ (malloc_bytes _) _ _ => unfold malloc_bytes
  | |- wpf _ _ (strdup _) _ _ => unfold strdup
  | |- wpf _ _ (if _ then _ else _) _ _ => fail
  | |- wpf _ _ _ _ _ => apply wpf_wp; wp_step
  end.
Ltac wpf_steps := repeat wpf_step.

(** Equality of heaps: compare them at every location, with the facts on which
    locations are fresh. *)
Ltac heap_eq :=
  cbn [heap logged upd_trace upd_heap upd_next upd_errno upd_tflags upd_addrlist] in *;
  apply map_eq; intros ?i;
  repeat first
    [ rewrite lookup_insert | rewrite lookup_delete | case_decide ];
  subst; simplify_map_eq; congruence || done.

(** ** Laws of the environment

    Documented behaviour some theorems rely on. *)
Class env_laws (e : env) : Prop := {
  (* a kernel address fits the buffer the caller offers *)
  law_getsockname tr f n :
    0 <= n -> Z.of_nat (length (a_bytes (e tr (C_getsockname f n)))) <= n;
  law_getpeername tr f n :
    0 <= n -> Z.of_nat (length (a_bytes (e tr (C_getpeername f n)))) <= n;
  law_accept tr f n : 0 <= n -> Z.of_nat (length (a_bytes (e tr (C_accept f n)))) <= n
}.

(** The log after the call [c], and after the calls [cs], with the answers the environment
    gives. *)
Definition asked (e : env) (c : call) (tr : log) : log := (c, e tr c) :: tr.
Definition ask_all (e : env) (cs : list call) (tr : log) : log :=
  foldl (fun tr c => asked e c tr) tr cs.

(** The calls made between two states, oldest first. *)
Definition calls (new : log) : list call := reverse (new.*1).

(** [ran s s' cs]: from [s] to [s'] exactly the calls [cs] were made, in that order. *)
Definition ran (s s' : state) (cs : list call) : Prop :=
  exists new, trace s' = new ++ trace s /\ calls new = cs.

Lemma ran_refl s : ran s s [].
Proof. by exists []. Qed.

Lemma ran_trans s1 s2 s3 cs cs' : ran s1 s2 cs -> ran s2 s3 cs' -> ran s1 s3 (cs ++ cs').
Proof.
  intros (n1 & H1 & <-) (n2 & H2 & <-). exists (n2 ++ n1). split.
  - by rewrite H2, H1, app_assoc.
  - unfold calls. by rewrite fmap_app, reverse_app.
Qed.

(** The log entries of the calls made are found by unification. *)
Ltac ran_solve :=
  unfold ran, calls; cbn;
  first
    [ exists []; split; reflexivity
    | eexists [_]; split; reflexivity
    | eexists [_; _]; split; reflexivity
    | eexists [_; _; _]; split; reflexivity
    | eexists [_; _; _; _]; split; reflexivity
    | eexists [_; _; _; _; _]; split; reflexivity
    | eexists [_; _; _; _; _; _]; split; reflexivity
    | eexists [_; _; _; _; _; _; _]; split; reflexivity
    | eexists [_; _; _; _; _; _; _; _]; split; reflexivity ].

(** What the operations on connections leave alone. *)
Definition same_globals (s s' : state) : Prop :=
  tflags s' = tflags s /\ addrlist s' = addrlist s.

Lemma same_globals_trans s1 s2 s3 :
  same_globals s1 s2 -> same_globals s2 s3 -> same_globals s1 s3.
Proof. unfold same_globals. intuition congruence. Qed.

(** ** Descriptors in the log

    [fd_balance f tr]: how often [f] was opened less how often it was closed. *)
Definition opens (ev : event) (f : Z) : Z :=
  match ev.1 with
  | C_socket _ _ _ | C_accept _ _ | C_open _ _ =>
      if (0 <=? a_ret ev.2) && (a_ret ev.2 =? f) then 1 else 0
  | C_close f' => if f' =? f then -1 else 0
  | _ => 0
  end.
Definition fd_balance (f : Z) (tr : log) : Z := foldr (fun ev n => opens ev f + n) 0 tr.

Lemma fd_balance_cons f ev tr : fd_balance f (ev :: tr) = opens ev f + fd_balance f tr.
Proof. done. Qed.

Lemma fd_balance_app f tr tr' : fd_balance f (tr ++ tr') = fd_balance f tr + fd_balance f tr'.
Proof. induction tr as [|ev tr IH]; simpl; lia. Qed.

(** Descriptor balances of explicit logs. *)
Ltac balance :=
  st_simpl; rewrite ?fd_balance_cons; unfold opens; cbn [fst snd];
  repeat match goal with
    | |- context [0 <=? ?x] => destruct (Z.leb_spec 0 x)
    | |- context [?x =? ?y] => destruct (Z.eqb_spec x y)
    end; cbn [andb]; lia.

(** [lost f tr]: how often a socket was opened as [f] and, asked for right behind, the limit of
    open files was not above [f]. *)
Fixpoint lost (f : Z) (tr : log) : Z :=
  match tr with
  | [] => 0
  | ev :: tr =>
      (match ev.1, tr with
       | C_sysconf_open_max, (C_socket _ _ _, a) :: _ =>
           if (0 <=? a_ret a) && (a_ret a =? f) && (a_ret ev.2 <=? f) then 1 else 0
       | _, _ => 0
       end) + lost f tr
  end.

Definition no_limit (c : call) : bool :=
  match c with C_sysconf_open_max => false | _ => true end.

Lemma lost_cons f c a tr : no_limit c = true -> lost f ((c, a) :: tr) = lost f tr.
Proof. by destruct c. Qed.

Lemma lost_app f new tr :
  Forall (fun ev => no_limit ev.1 = true) new -> lost f (new ++ tr) = lost f tr.
Proof.
  induction 1 as [|[c a] new Hc _ IH]; [done|]. cbn [app]. by rewrite lost_cons.
Qed.

(** The balance but for the descriptors lost. *)
Definition ledger (f : Z) (tr : log) : Z := fd_balance f tr - lost f tr.

Lemma ledger_cons f c a tr :
  no_limit c = true -> ledger f ((c, a) :: tr) = opens (c, a) f + ledger f tr.
Proof. intros Hc. unfold ledger. rewrite fd_balance_cons, lost_cons by done. lia. Qed.

Ltac ledger := st_simpl; rewrite ?ledger_cons by done; balance.

(** Opening [f'] and closing it again leaves every balance as it was. *)
Lemma opens_socket d t p a f :
  0 <= a_ret a -> opens (C_socket d t p, a) f = - opens (C_close (a_ret a), a) f.
Proof.
  intros Ha. unfold opens. cbn. destruct (Z.leb_spec 0 (a_ret a)); [|lia].
  cbn. by destruct (a_ret a =? f).
Qed.

(** ** Computations known by their calls

    [logs e p m]: [m] touches neither memory nor the static data, and makes only calls of
    the kind [p]. *)
Definition logs_step (p : call -> bool) (s s' : state) : Prop :=
  heap s' = heap s /\ same_globals s s' /\
  exists new, trace s' = new ++ trace s /\ Forall (fun ev => p ev.1 = true) new.

Definition logs {A} (e : env) (p : call -> bool) (m : M A) : Prop :=
  forall s, wp m e s (fun _ s' => logs_step p s s').

Lemma logs_step_refl p s : logs_step p s s.
Proof. split_and!; [done | done | by exists []]. Qed.

Lemma logs_step_trans p s1 s2 s3 : logs_step p s1 s2 -> logs_step p s2 s3 -> logs_step p s1 s3.
Proof.
  intros (H1 & G1 & n1 & T1 & P1) (H2 & G2 & n2 & T2 & P2). split_and!; [congruence | |].
  - by eapply same_globals_trans.
  - exists (n2 ++ n1). rewrite T2, T1, app_assoc. split; [done | by apply Forall_app].
Qed.

Lemma logs_logged p c a s : p c = true -> logs_step p s (logged c a s).
Proof.
  intros Hc. split_and!; [done | done |]. exists [(c, a)]. split; [done|].
  by constructor.
Qed.

Section logs.
Context (e : env) (p : call -> bool).

Lemma logs_ret {A} (a : A) : logs e p (mret a).
Proof. intros s. apply logs_step_refl. Qed.

Lemma logs_bind {A B} (m : M A) (k : A -> M B) :
  logs e p m -> (forall a, logs e p (k a)) -> logs e p (m ≫= k).
Proof.
  intros Hm Hk s. apply wp_bind. eapply wp_mono; [apply Hm|]. intros a s' Hs'.
  eapply wp_mono; [apply Hk|]. intros b s'' Hs''. exact (logs_step_trans _ _ _ _ Hs' Hs'').
Qed.

Lemma logs_sys c : p c = true -> logs e p (sys c).
Proof. intros Hc s. apply wp_sys. intros a _. by apply logs_logged. Qed.

Lemma logs_sys_ret c : p c = true -> logs e p (sys_ret c).
Proof. intros Hc s. apply wp_sys_ret. intros a _. by apply logs_logged. Qed.

Lemma logs_get {A} (f : state -> A) : logs e p (get f).
Proof. intros s. apply logs_step_refl. Qed.

Lemma logs_eset v : logs e p (ESET v).
Proof. intros s. split_and!; [done | done | by exists []]. Qed.

Lemma logs_when b m : logs e p m -> logs e p (when b m).
Proof. intros Hm. destruct b; [done | apply logs_ret]. Qed.

Lemma wp_logs {A} (m : M A) s (Q : A -> state -> Prop) :
  logs e p m -> (forall a s', logs_step p s s' -> Q a s') -> wp m e s Q.
Proof. intros Hm HQ. eapply wp_mono; [apply Hm | apply HQ]. Qed.
End logs.

Create HintDb logs discriminated.
#[export] Hint Resolve logs_ret logs_get logs_eset : logs.
Ltac logs_solve :=
  repeat first
    [ progress eauto with logs
    | apply logs_bind; [|intros ?]
    | apply logs_sys; reflexivity
    | apply logs_sys_ret; reflexivity
    | apply logs_when
    | match goal with
      | |- logs _ _ (ignore _) => unfold ignore
      | |- logs _ _ EGET => unfold EGET
      | |- logs _ _ (match ?x with _ => _ end) => destruct x
      | |- logs _ _ (let _ := _ in _) => cbv zeta
      end ].

(** ** Quiet computations: no descriptor is opened or closed *)
Definition quiet_call (c : call) : bool :=
  match c with
  | C_socket _ _ _ | C_accept _ _ | C_open _ _ | C_close _ | C_sysconf_open_max => false
  | _ => true
  end.

Definition quiet_step (s s' : state) : Prop :=
  heap s' = heap s /\ same_globals s s' /\
  forall f, fd_balance f (trace s') = fd_balance f (trace s).

(** The same for computations that do change the heap. *)
Definition balanced (s s' : state) : Prop :=
  forall f, fd_balance f (trace s') = fd_balance f (trace s).

Lemma balanced_trans s1 s2 s3 : balanced s1 s2 -> balanced s2 s3 -> balanced s1 s3.
Proof. intros H1 H2 f. by rewrite H2, H1. Qed.

Lemma quiet_step_refl s : quiet_step s s.
Proof. by repeat split. Qed.

Lemma quiet_step_trans s1 s2 s3 : quiet_step s1 s2 -> quiet_step s2 s3 -> quiet_step s1 s3.
Proof.
  intros (H1 & G1 & F1) (H2 & G2 & F2). split_and!; [congruence | |].
  - by eapply same_globals_trans.
  - intros f. by rewrite F2, F1.
Qed.

Lemma opens_quiet c a f : quiet_call c = true -> opens (c, a) f = 0.
Proof. by destruct c. Qed.

Lemma logs_quiet s s' : logs_step quiet_call s s' -> quiet_step s s'.
Proof.
  intros (H1 & G1 & new & HT & Hp). split_and!; [done | done |]. intros f.
  rewrite HT, fd_balance_app. clear HT. replace (fd_balance f new) with 0; [lia|].
  induction Hp as [|[c a] new Hc _ IH]; [done|].
  by rewrite fd_balance_cons, <-IH, opens_quiet.
Qed.

Lemma quiet_no_limit new :
  Forall (fun ev : event => quiet_call ev.1 = true) new ->
  Forall (fun ev : event => no_limit ev.1 = true) new.
Proof. intros H. eapply Forall_impl; [exact H|]. intros [c a]. by destruct c. Qed.

Lemma quiet_logged c a s : quiet_call c = true -> quiet_step s (logged c a s).
Proof. intros Hc. by apply logs_quiet, logs_logged. Qed.

Lemma wp_quiet {A} e (m : M A) s (Q : A -> state -> Prop) :
  logs e quiet_call m -> (forall a s', quiet_step s s' -> Q a s') -> wp m e s Q.
Proof. intros Hm HQ. eapply wp_logs; [done|]. intros a s' Hs. by apply HQ, logs_quiet. Qed.

(** ** Blocks that stay *)

(** Every block of [m] is in [m'] as it was. *)
Definition kept (m m' : memory) : Prop := forall x, is_Some (m !! x) -> m' !! x = m !! x.

(** The same but for the connection at [l]. *)
Definition kept_but (l : positive) (m m' : memory) : Prop :=
  forall x, x <> l -> is_Some (m !! x) -> m' !! x = m !! x.

Lemma kept_refl m : kept m m.
Proof. done. Qed.

Lemma kept_trans m1 m2 m3 : kept m1 m2 -> kept m2 m3 -> kept m1 m3.
Proof. intros H1 H2 x Hx. rewrite H2, H1; [done | done | by rewrite H1]. Qed.

Lemma kept_insert_fresh (m m' : memory) x b : m !! x = None -> kept m m' -> kept m (<[x := b]> m').
Proof.
  intros Hx Hk y [v Hy]. rewrite lookup_insert_ne by congruence. by apply Hk; rewrite Hy.
Qed.

Lemma kept_but_insert l m b : kept_but l m (<[l := b]> m).
Proof. intros x Hx _. by rewrite lookup_insert_ne. Qed.

Lemma kept_but_insert2 l la m b b' :
  m !! la = None -> kept_but l m (<[la := b']> (<[l := b]> m)).
Proof. intros Hla x Hx [v Hv]. by rewrite !lookup_insert_ne by congruence. Qed.

(** ** An allocator that never fails *)
Definition mallocs (e : env) : Prop := forall tr n, 0 <= a_ret (e tr (C_malloc n)).

(** How often the calls [cs], which open nothing, close [f]. *)
Definition closes (f : Z) (cs : list call) : Z :=
  foldr (fun c n => match c with C_close f' => (if f' =? f then 1 else 0) + n | _ => n end) 0 cs.

Definition opens_nothing (c : call) : bool :=
  match c with C_socket _ _ _ | C_accept _ _ | C_open _ _ => false | _ => true end.

Lemma closes_app f l l' : closes f (l ++ l') = closes f l + closes f l'.
Proof.
  induction l as [|c l IH]; [done|]. cbn [app closes foldr].
  fold (closes f (l ++ l')). fold (closes f l). rewrite IH. destruct c; lia.
Qed.

Lemma ran_closes s s' cs f :
  ran s s' cs -> Forall (fun c => opens_nothing c = true) cs ->
  fd_balance f (trace s') = fd_balance f (trace s) - closes f cs.
Proof.
  intros (new & -> & <-). unfold calls. rewrite Forall_reverse, fd_balance_app.
  induction new as [|[c a] new IH]; cbn [fmap list_fmap]; intros Hf; [simpl; lia|].
  apply Forall_cons in Hf as [Hc Hf]. specialize (IH Hf). cbn [fst] in *.
  rewrite fd_balance_cons, reverse_cons, closes_app.
  destruct c; cbn in Hc |- *; try done; try (case_match; lia); lia.
Qed.

(** ** The file mode creation mask, as the last umask call left it *)
Fixpoint umask_after (u : Z) (tr : log) : Z :=
  match tr with
  | (C_umask m, _) :: _ => m
  | _ :: tr => umask_after u tr
  | [] => u
  end.

(** umask answers with the mask there was. *)
Definition umask_env (u : Z) (e : env) : Prop :=
  forall tr m, a_ret (e tr (C_umask m)) = umask_after u tr.

Definition no_umask (c : call) : bool := match c with C_umask _ => false | _ => true end.

Lemma umask_after_app u new tr :
  Forall (fun ev => no_umask ev.1 = true) new -> umask_after u (new ++ tr) = umask_after u tr.
Proof. induction 1 as [|[c a] new Hc _ IH]; [done|]. by destruct c. Qed.

(** ** Example machines *)

(** A state after a fresh start. *)
Definition state0 : state := State [] ∅ 1 0 (fun _ => 0) None.
(** An environment that answers by the call alone; every other call returns 0. *)
Definition env_of (f : call -> option answer) : env := fun _ c => default (ans 0) (f c).
Definition env0 : env := env_of (fun _ => None).

(** Sockets that work: [sock] is the next descriptor, [name] and [peer] the addresses. *)
Definition env_socks (sock : Z) (name peer : bytes) (mask : Z) : env := fun tr c =>
  match c with
  | C_socket _ _ _ => ans sock
  | C_accept _ n => ans_bytes sock (take (Z.to_nat n) peer)
  | C_getsockname _ n => ans_bytes 0 (take (Z.to_nat n) name)
  | C_getpeername _ n => ans_bytes 0 (take (Z.to_nat n) peer)
  | C_umask _ => ans (umask_after mask tr)
  | _ => ans 0
  end.

#[export] Instance env_socks_laws sock name peer mask : env_laws (env_socks sock name peer mask).
Proof. split; intros tr f n Hn; cbn; rewrite length_take; lia. Qed.

Lemma env_socks_umask sock name peer mask : umask_env mask (env_socks sock name peer mask).
Proof. done. Qed.
