(* ===== verification/FdQueue.v ===== *)
(** * Queues of file descriptors (Xtranssock.c, under XTRANS_SEND_FDS)

    Every connection owns two singly linked lists of cells [_XtransConnFd]: the
    descriptors received and not yet taken, and the descriptors to send.  The C code
    walks them through a pointer to the link to change; [fd_link] names that link.  The
    operations are shown to refine those of a list of (fd, do_close) pairs. *)

From S2P Require Import Prelude CLib Xtransint World Logic.
Open Scope Z_scope.

(** A [struct _XtransConnFd **]: a field of a connection or the [next] of a cell. *)
Inductive fd_link := RecvFds (ciptr : ptr) | SendFds (ciptr : ptr) | NextOf (cf : ptr).

Definition load_fd (p : ptr) : M conn_fd :=
  b ← load p;
  match b with BFd c => mret c | _ => throw Dangling end.

(** [*prev], and [*prev = p]. *)
Definition read_link (prev : fd_link) : M ptr :=
  match prev with
  | RecvFds c => ci ← load_conn c; mret (recv_fds ci)
  | SendFds c => ci ← load_conn c; mret (send_fds ci)
  | NextOf cf => c ← load_fd cf; mret (cf_next c)
  end.

Definition write_link (prev : fd_link) (p : ptr) : M unit :=
  match prev with
  | RecvFds c => set c (set_recv_fds p)
  | SendFds c => set c (set_send_fds p)
  | NextOf cf => c ← load_fd cf; store cf (BFd (ConnFd p (cf_fd c) (cf_do_close c)))
  end.

(** Enough iterations for any list of the heap: its cells are distinct blocks. *)
Definition list_fuel : M nat := get (fun s => S (size (heap s))).

(** for (; (cf = *prev); prev = &(cf->next)); *)
Fixpoint find_end (fuel : nat) (prev : fd_link) : M fd_link :=
  match fuel with
  | O => throw OutOfFuel
  | S fuel =>
      cf ← read_link prev;
      match cf with
      | NULL => mret prev
      | At _ _ => find_end fuel (NextOf cf)
      end
  end.

Definition appendFd (prev : fd_link) (fd do_close : Z) : M unit :=
  new ← alloc sizeof_conn_fd (BFd (ConnFd NULL fd do_close));
  match new with
  | NULL => ignore (sys_ret (C_close fd))
  | At _ _ =>
      fuel ← list_fuel;
      prev ← find_end fuel prev;
      write_link prev new
  end.

Definition removeFd (prev : fd_link) : M Z :=
  cf ← read_link prev;
  match cf with
  | NULL => mret (-1)
  | At _ _ =>
      c ← load_fd cf;
      write_link prev (cf_next c);;
      free cf;;
      mret (cf_fd c)
  end.

(** for (cf = *prev; cf != upto; cf = next) *)
Fixpoint discard_loop (fuel : nat) (cf upto : ptr) (do_close : bool) : M unit :=
  match fuel with
  | O => throw OutOfFuel
  | S fuel =>
      if decide (cf = upto) then mret tt
      else
        c ← load_fd cf;
        let next := cf_next c in
        when (do_close || negb (cf_do_close c =? 0)) (ignore (sys_ret (C_close (cf_fd c))));;
        free cf;;
        discard_loop fuel next upto do_close
  end.

Definition discardFd (prev : fd_link) (upto : ptr) (do_close : bool) : M unit :=
  fuel ← list_fuel;
  cf ← read_link prev;
  discard_loop fuel cf upto do_close;;
  write_link prev upto.

Definition cleanupFds (ciptr : ptr) : M unit :=
  discardFd (SendFds ciptr) NULL false;;
  discardFd (RecvFds ciptr) NULL true.

(** for (cf = *prev; cf; cf = cf->next) n++; *)
Fixpoint count_cells (fuel : nat) (cf : ptr) (n : Z) : M Z :=
  match fuel with
  | O => throw OutOfFuel
  | S fuel =>
      match cf with
      | NULL => mret n
      | At _ _ => c ← load_fd cf; count_cells fuel (cf_next c) (n + 1)
      end
  end.

Definition nFd (prev : fd_link) : M Z :=
  fuel ← list_fuel;
  cf ← read_link prev;
  count_cells fuel cf 0.

(** ** The list a link leads to *)

(** A cell of the abstract queue: where it lives, the descriptor, do_close. *)
Record cell := Cell { c_loc : positive; c_fd : Z; c_close : Z }.
Definition cell_ptr (c : cell) : ptr := At (c_loc c) 0.

Fixpoint fd_seg (m : memory) (p q : ptr) (cs : list cell) : Prop :=
  match cs with
  | [] => p = q
  | c :: cs =>
      p = cell_ptr c /\
      exists nx, m !! c_loc c = Some (BFd (ConnFd nx (c_fd c) (c_close c))) /\ fd_seg m nx q cs
  end.

Definition fd_queue (m : memory) (p : ptr) (cs : list cell) : Prop :=
  fd_seg m p NULL cs /\ NoDup (c_loc <$> cs).

(** The content of a queue, without the addresses. *)
Definition contents (cs : list cell) : list (Z * Z) := (fun c => (c_fd c, c_close c)) <$> cs.

(** What is stored at a link of memory [m]. *)
Definition link_value (m : memory) (k : fd_link) : option ptr :=
  match k with
  | RecvFds (At l _) =>
      match m !! l with Some (BConn c) => Some (recv_fds c) | _ => None end
  | SendFds (At l _) =>
      match m !! l with Some (BConn c) => Some (send_fds c) | _ => None end
  | NextOf (At l _) =>
      match m !! l with Some (BFd c) => Some (cf_next c) | _ => None end
  | _ => None
  end.

Definition link_update (m : memory) (k : fd_link) (p : ptr) : memory :=
  match k with
  | RecvFds (At l _) =>
      match m !! l with Some (BConn c) => <[l := BConn (set_recv_fds p c)]> m | _ => m end
  | SendFds (At l _) =>
      match m !! l with Some (BConn c) => <[l := BConn (set_send_fds p c)]> m | _ => m end
  | NextOf (At l _) =>
      match m !! l with
      | Some (BFd c) => <[l := BFd (ConnFd p (cf_fd c) (cf_do_close c))]> m
      | _ => m
      end
  | _ => m
  end.

Definition link_loc (k : fd_link) : option positive :=
  match k with
  | RecvFds (At l _) | SendFds (At l _) | NextOf (At l _) => Some l
  | _ => None
  end.

(** ** Properties of lists in memory *)

Lemma link_update_ne m k p l : link_loc k <> Some l -> link_update m k p !! l = m !! l.
Proof.
  destruct k as [[|l' o]|[|l' o]|[|l' o]]; simpl; intros H; try done;
    destruct (m !! l') as [[]|]; try done; apply lookup_insert_ne; congruence.
Qed.

Lemma link_value_update m k p :
  link_value m k <> None -> link_value (link_update m k p) k = Some p.
Proof.
  destruct k as [[|l' o]|[|l' o]|[|l' o]]; simpl; try done;
    destruct (m !! l') as [[]|]; simpl; try done; by rewrite lookup_insert_eq.
Qed.

Lemma link_value_ne m m' k :
  (forall l, link_loc k = Some l -> m' !! l = m !! l) -> link_value m' k = link_value m k.
Proof.
  destruct k as [[|l' o]|[|l' o]|[|l' o]]; simpl; intros H; try done;
    by rewrite (H l' eq_refl).
Qed.

Lemma fd_seg_ext m m' p q cs :
  (forall c, c ∈ cs -> m' !! c_loc c = m !! c_loc c) -> fd_seg m p q cs -> fd_seg m' p q cs.
Proof.
  revert p. induction cs as [|c cs IH]; intros p Hm; simpl; [done|].
  intros [Hp (nx & Hc & Hs)]. split; [done|]. exists nx. split.
  - rewrite Hm; [done|]. by left.
  - apply IH; [|done]. intros c' Hc'. apply Hm. by right.
Qed.

Lemma fd_queue_ext m m' p cs :
  (forall c, c ∈ cs -> m' !! c_loc c = m !! c_loc c) -> fd_queue m p cs -> fd_queue m' p cs.
Proof. intros Hm [H1 H2]. split; [by eapply fd_seg_ext | done]. Qed.

Lemma fd_seg_app m p q r cs cs' :
  fd_seg m p q cs -> fd_seg m q r cs' -> fd_seg m p r (cs ++ cs').
Proof.
  revert p. induction cs as [|c cs IH]; intros p; simpl.
  - by intros ->.
  - intros [Hp (nx & Hc & Hs)] H. split; [done|]. exists nx. by auto.
Qed.

Lemma fd_seg_lookup m p q cs c :
  fd_seg m p q cs -> c ∈ cs ->
  exists nx, m !! c_loc c = Some (BFd (ConnFd nx (c_fd c) (c_close c))).
Proof.
  revert p. induction cs as [|c' cs IH]; intros p; simpl; [by intros _ ?%not_elem_of_nil|].
  intros [_ (nx & Hc & Hs)] [->|Hin]%elem_of_cons; [by exists nx|]. by eapply IH.
Qed.

(** Distinct blocks: a list is no longer than the heap has blocks. *)
Lemma fd_queue_length m p cs : fd_queue m p cs -> (length cs <= size m)%nat.
Proof.
  intros [Hs Hnd]. rewrite <-(length_fmap c_loc cs), <-size_dom.
  rewrite <-(size_list_to_set (C := gset positive)) by done.
  apply subseteq_size. intros l. rewrite elem_of_list_to_set, list_elem_of_fmap.
  intros (c & -> & Hin). apply elem_of_dom.
  destruct (fd_seg_lookup _ _ _ _ _ Hs Hin) as [nx ->]. by eexists.
Qed.

(** The link a walk over [cs] from [k] ends at. *)
Fixpoint end_link (k : fd_link) (cs : list cell) : fd_link :=
  match cs with
  | [] => k
  | c :: cs => end_link (NextOf (cell_ptr c)) cs
  end.

Lemma end_link_loc k cs l :
  link_loc (end_link k cs) = Some l -> link_loc k = Some l \/ l ∈ c_loc <$> cs.
Proof.
  revert k. induction cs as [|c cs IH]; intros k; simpl; [by left|].
  intros [H|H]%IH; right; [|by right]. simpl in H. injection H as <-. by left.
Qed.

Lemma end_link_value m k p cs :
  link_value m k = Some p -> fd_seg m p NULL cs -> link_value m (end_link k cs) = Some NULL.
Proof.
  revert k p. induction cs as [|c cs IH]; intros k p Hv Hs; simpl in *; [congruence|].
  destruct Hs as [-> (nx & Hc & Hs)]. eapply IH; [|done]. simpl. by rewrite Hc.
Qed.

Lemma link_update_cell m k p l c :
  m !! l = Some (BFd c) ->
  exists nx, link_update m k p !! l = Some (BFd (ConnFd nx (cf_fd c) (cf_do_close c))).
Proof.
  intros Hl. destruct (decide (link_loc k = Some l)) as [Hk|Hk].
  - destruct k as [[|l' o]|[|l' o]|[|l' o]]; simpl in *; try done; injection Hk as ->;
      rewrite Hl; [exists (cf_next c); rewrite Hl; by destruct c .. |].
    eexists. by rewrite lookup_insert_eq.
  - rewrite link_update_ne by done. exists (cf_next c). rewrite Hl. by destruct c.
Qed.

(** A connection with another value of the link. *)
Definition conn_link_set (k : fd_link) (x : ptr) (c : conninfo) : conninfo :=
  match k with
  | RecvFds _ => set_recv_fds x c
  | SendFds _ => set_send_fds x c
  | NextOf _ => c
  end.

Lemma conn_link_id k c : exists x, conn_link_set k x c = c.
Proof. destruct k, c; simpl; eexists; try done; exact NULL || reflexivity. Qed.

Lemma link_update_conn m k cs p l c :
  m !! l = Some (BConn c) -> link_loc k = Some l -> l ∉ (c_loc <$> cs) ->
  exists x, link_update m (end_link k cs) p !! l = Some (BConn (conn_link_set k x c)).
Proof.
  intros Hl Hk Hcs. destruct cs as [|c1 cs].
  - exists p. destruct k as [[|l' o]|[|l' o]|[|l' o]]; simpl in *; try done;
      injection Hk as ->; rewrite Hl; simpl; by rewrite ?lookup_insert_eq.
  - destruct (conn_link_id k c) as [x Hx]. exists x. rewrite Hx, link_update_ne; [done|].
    cbn [end_link]. intros [He|He]%end_link_loc; apply Hcs; cbn [fmap list_fmap].
    + simpl in He. injection He as ->. by left.
    + by right.
Qed.

(** Hanging a new cell under the last link extends the list by one at its end. *)
Lemma append_seg m k p cs l fd dc lk :
  link_value m k = Some p -> fd_seg m p NULL cs -> NoDup (c_loc <$> cs) ->
  link_loc k = Some lk -> lk ∉ c_loc <$> cs -> lk <> l -> l ∉ c_loc <$> cs ->
  m !! l = Some (BFd (ConnFd NULL fd dc)) ->
  exists p', link_value (link_update m (end_link k cs) (At l 0)) k = Some p' /\
    fd_seg (link_update m (end_link k cs) (At l 0)) p' NULL (cs ++ [Cell l fd dc]).
Proof.
  revert k p lk. induction cs as [|c cs IH]; intros k p lk Hv Hs Hnd Hk Hlk Hne Hl Hm.
  - exists (At l 0). split; [apply link_value_update; congruence|]. simpl. split; [done|].
    exists NULL. split; [|done]. rewrite link_update_ne by congruence. done.
  - destruct Hs as [-> (nx & Hc & Hs)]. apply NoDup_cons in Hnd as [Hcn Hnd].
    apply not_elem_of_cons in Hlk as [Hlk1 Hlk2]. apply not_elem_of_cons in Hl as [Hl1 Hl2].
    destruct (IH (NextOf (cell_ptr c)) nx (c_loc c)) as (p' & Hv' & Hs'); try done.
    { simpl. by rewrite Hc. }
    cbn [end_link]. set (m2 := link_update m _ _) in *.
    exists (cell_ptr c). split.
    + rewrite <-Hv. apply link_value_ne. intros l' Hl'. apply link_update_ne.
      assert (l' = lk) as -> by congruence.
      intros [He|He]%end_link_loc; [injection He as He; by apply Hlk1 | done].
    + cbn. split; [done|]. exists p'. split; [|done].
      destruct (link_update_cell m (end_link (NextOf (cell_ptr c)) cs) (At l 0) _ _ Hc)
        as [nx' Hc']. fold m2 in Hc'.
      cbn in Hv'. rewrite Hc' in Hv' |- *. cbn in Hv' |- *. congruence.
Qed.

(** ** The operations refine those of lists *)

Section specs.
Context (e : env).

Lemma wp_load_fd l c s (Q : conn_fd -> state -> Prop) :
  heap s !! l = Some (BFd c) -> Q c s -> wp (load_fd (At l 0)) e s Q.
Proof. intros Hl HQ. apply wp_bind. by eapply wp_load. Qed.

Lemma wp_read_link k p s (Q : ptr -> state -> Prop) :
  link_value (heap s) k = Some p -> Q p s -> wp (read_link k) e s Q.
Proof.
  intros Hk HQ. destruct k as [[|l o]|[|l o]|[|l o]]; simpl in *; try done;
    destruct (heap s !! l) as [[]|] eqn:Hl; simplify_eq/=; apply wp_bind.
  - eapply wp_load_conn; [done|]. by apply wp_ret.
  - eapply wp_load_conn; [done|]. by apply wp_ret.
  - apply wp_bind. eapply wp_load; [done|]. by apply wp_ret.
Qed.

Lemma wp_write_link k p s (Q : unit -> state -> Prop) :
  link_value (heap s) k <> None ->
  Q tt (upd_heap (link_update (heap s) k p) s) -> wp (write_link k p) e s Q.
Proof.
  intros Hk HQ. destruct k as [[|l o]|[|l o]|[|l o]]; simpl in *; try done;
    destruct (heap s !! l) as [[]|] eqn:Hl; try done.
  - by eapply wp_set.
  - by eapply wp_set.
  - apply wp_bind, wp_bind. eapply wp_load; [done|]. apply wp_ret. by eapply wp_store.
Qed.

Lemma wp_find_end fuel k p cs s (Q : fd_link -> state -> Prop) :
  link_value (heap s) k = Some p -> fd_seg (heap s) p NULL cs -> (length cs < fuel)%nat ->
  Q (end_link k cs) s -> wp (find_end fuel k) e s Q.
Proof.
  revert fuel k p. induction cs as [|c cs IH]; intros fuel k p Hv Hs Hf HQ;
    (destruct fuel as [|fuel]; [simpl in Hf; lia|]); apply wp_bind;
    (eapply wp_read_link; [done|]).
  - simpl in Hs. by subst p.
  - destruct Hs as [-> (nx & Hc & Hs)]. cbn. eapply IH; [ | done | simpl in Hf; lia | done].
    simpl. by rewrite Hc.
Qed.

(** What may differ between memories after an operation on the queue [cs] at link [k]:
    the cells in [cs], the fresh cell, and the link field itself. *)
Definition only_queue (m m' : memory) (k : fd_link) (ls : list positive) : Prop :=
  (forall l, l ∉ ls -> link_loc k <> Some l -> m' !! l = m !! l) /\
  (forall l c, link_loc k = Some l -> m !! l = Some (BConn c) ->
     exists x, m' !! l = Some (BConn (conn_link_set k x c))).

Lemma wp_appendFd k p lk cs fd dc s (Q : unit -> state -> Prop) :
  link_loc k = Some lk -> lk ∉ c_loc <$> cs ->
  link_value (heap s) k = Some p -> fd_queue (heap s) p cs ->
  (* no memory: the descriptor is closed *)
  (forall a a', a = e (trace s) (C_malloc sizeof_conn_fd) -> a_ret a < 0 ->
     Q tt (logged (C_close fd) a' (logged (C_malloc sizeof_conn_fd) a s))) ->
  (* a new cell at the end *)
  (forall a l m' nx p', heap s !! l = None -> 0 <= a_ret a ->
     link_value m' k = Some p' -> fd_queue m' p' (cs ++ [Cell l fd dc]) ->
     only_queue (heap s) m' k (l :: (c_loc <$> cs)) ->
     Q tt (State ((C_malloc sizeof_conn_fd, a) :: trace s) m' nx (errno s)
             (tflags s) (addrlist s))) ->
  wp (appendFd k fd dc) e s Q.
Proof.
  intros Hk Hlk Hv [Hs Hnd] Hnull Hok. unfold appendFd. apply wp_bind, wp_alloc.
  - intros a Hans Ha. apply wp_ignore, wp_sys_ret. intros a' _. by apply Hnull.
  - intros a l nx _ Ha Hl. apply wp_bind, wp_get, wp_bind. cbn beta iota delta [heap].
    assert (Hlk' : lk <> l).
    { intros ->. destruct k as [[]|[]|[]]; simpl in *; simplify_eq/=; by rewrite Hl in Hv. }
    assert (Hnot : l ∉ c_loc <$> cs).
    { rewrite list_elem_of_fmap. intros (c & -> & Hin).
      destruct (fd_seg_lookup _ _ _ _ _ Hs Hin). congruence. }
    set (m1 := <[l := _]> (heap s)).
    assert (Hs1 : fd_seg m1 p NULL cs).
    { eapply fd_seg_ext; [|done]. intros c Hc. apply lookup_insert_ne. intros ->.
      apply Hnot, list_elem_of_fmap. by exists c. }
    assert (Hv1 : link_value m1 k = Some p).
    { rewrite <-Hv. apply link_value_ne. intros l' Hl'. apply lookup_insert_ne. congruence. }
    eapply (wp_find_end _ k p cs); [done | done | |].
    { pose proof (fd_queue_length m1 p cs (conj Hs1 Hnd)). simpl. lia. }
    destruct (append_seg m1 k p cs l fd dc lk) as (p' & Hv' & Hs'); try done.
    { apply lookup_insert_eq. }
    apply wp_write_link.
    { cbn [heap]. by rewrite (end_link_value m1 k p cs). }
    apply (Hok a l _ nx p'); try done.
    + split; [done|]. rewrite fmap_app. apply NoDup_app. split; [done|]. split.
      * intros x Hx [->|?%not_elem_of_nil]%elem_of_cons; done.
      * by apply NoDup_singleton.
    + split.
      * intros l' Hl' Hk'. rewrite link_update_ne.
        { apply lookup_insert_ne. set_solver. }
        intros [He|He]%end_link_loc; [done|]. set_solver.
      * intros l' c Hl' Hc. apply link_update_conn; [|done|congruence].
        rewrite <-Hc. apply lookup_insert_ne. congruence.
Qed.

Lemma wp_removeFd_nil k s (Q : Z -> state -> Prop) :
  link_value (heap s) k = Some NULL -> Q (-1) s -> wp (removeFd k) e s Q.
Proof. intros Hv HQ. apply wp_bind. eapply wp_read_link; [done|]. by apply wp_ret. Qed.

Lemma wp_removeFd_cons k lk p c cs s (Q : Z -> state -> Prop) :
  link_loc k = Some lk -> lk ∉ c_loc <$> (c :: cs) ->
  link_value (heap s) k = Some p -> fd_queue (heap s) p (c :: cs) ->
  (forall m' p', link_value m' k = Some p' -> fd_queue m' p' cs ->
     m' !! c_loc c = None -> only_queue (heap s) m' k [c_loc c] ->
     Q (c_fd c) (upd_heap m' s)) ->
  wp (removeFd k) e s Q.
Proof.
  intros Hk Hlk Hv [[-> (nx & Hc & Hs)] Hnd] HQ. apply not_elem_of_cons in Hlk as [Hlk1 Hlk2].
  apply NoDup_cons in Hnd as [Hcn Hnd].
  apply wp_bind. eapply wp_read_link; [done|]. cbn.
  apply wp_bind. eapply wp_load_fd; [done|].
  apply wp_bind, wp_write_link; [by rewrite Hv|].
  assert (Hc' : link_update (heap s) k nx !! c_loc c = heap s !! c_loc c)
    by (apply link_update_ne; congruence).
  apply wp_bind. eapply wp_free; [cbn; by rewrite Hc', Hc|]. apply wp_ret.
  apply (HQ (delete (c_loc c) (link_update (heap s) k nx)) nx).
  - rewrite <-(link_value_update (heap s) k nx) by (by rewrite Hv).
    apply link_value_ne. intros l Hl. apply lookup_delete_ne. congruence.
  - split; [|done]. eapply fd_seg_ext; [|exact Hs]. intros c' Hin.
    assert (c_loc c' ∈ c_loc <$> cs) by (apply list_elem_of_fmap; eauto).
    rewrite lookup_delete_ne by (intros He; apply Hcn; by rewrite He).
    apply link_update_ne. rewrite Hk. intros [= He]. apply Hlk2. by rewrite He.
  - apply lookup_delete_eq.
  - split.
    + intros l Hl Hk'. rewrite lookup_delete_ne by set_solver. by apply link_update_ne.
    + intros l ci Hl Hci. rewrite lookup_delete_ne by congruence.
      apply (link_update_conn _ _ []); [done | done | apply not_elem_of_nil].
Qed.

(** The descriptors [discardFd] closes, in order. *)
Fixpoint closed_fds (dc : bool) (cs : list cell) : list Z :=
  match cs with
  | [] => []
  | c :: cs =>
      if dc || negb (c_close c =? 0) then c_fd c :: closed_fds dc cs else closed_fds dc cs
  end.

Definition del_cells (cs : list cell) (m : memory) : memory :=
  foldr (fun c m => delete (c_loc c) m) m cs.

Lemma del_cells_delete cs l m : del_cells cs (delete l m) = delete l (del_cells cs m).
Proof. induction cs as [|c cs IH]; simpl; [done|]. by rewrite IH, delete_delete. Qed.

Lemma del_cells_lookup cs m l : l ∉ c_loc <$> cs -> del_cells cs m !! l = m !! l.
Proof.
  induction cs as [|c cs IH]; simpl; [done|]. intros [Hl1 Hl2]%not_elem_of_cons.
  rewrite lookup_delete_ne by done. by apply IH.
Qed.

Lemma del_cells_lookup_in cs m l : l ∈ c_loc <$> cs -> del_cells cs m !! l = None.
Proof.
  induction cs as [|c cs IH]; simpl; [by intros ?%not_elem_of_nil|].
  intros [->|Hl]%elem_of_cons; [apply lookup_delete_eq|].
  rewrite lookup_delete. case_decide; [done|]. by apply IH.
Qed.

Lemma wp_discard_loop fuel cs p upto dc s (Q : unit -> state -> Prop) :
  fd_seg (heap s) p upto cs -> NoDup (c_loc <$> cs) ->
  (forall c, c ∈ cs -> cell_ptr c <> upto) -> (length cs < fuel)%nat ->
  (forall evs er, evs.*1 = reverse (C_close <$> closed_fds dc cs) ->
     Q tt (State (evs ++ trace s) (del_cells cs (heap s)) (next s) er
             (tflags s) (addrlist s))) ->
  wp (discard_loop fuel p upto dc) e s Q.
Proof.
  revert fuel p s. induction cs as [|c cs IH]; intros fuel p s Hs Hnd Hup Hf HQ;
    (destruct fuel as [|fuel]; [simpl in Hf; lia|]).
  - simpl in Hs. subst p. cbn [discard_loop]. rewrite decide_True by done.
    apply wp_ret. specialize (HQ [] (errno s) eq_refl). by destruct s.
  - destruct Hs as [-> (nx & Hc & Hs)]. apply NoDup_cons in Hnd as [Hcn Hnd].
    cbn [discard_loop]. rewrite decide_False by (apply Hup; by left).
    apply wp_bind. eapply wp_load_fd; [done|]. cbn [cf_next cf_fd cf_do_close].
    assert (Hs' : fd_seg (delete (c_loc c) (heap s)) nx upto cs).
    { eapply fd_seg_ext; [|done]. intros c' Hin. apply lookup_delete_ne.
      intros He. apply Hcn, list_elem_of_fmap. by exists c'. }
    assert (Hup' : forall c', c' ∈ cs -> cell_ptr c' <> upto) by (intros; apply Hup; by right).
    apply wp_bind, wp_when; intros Hb; [apply wp_ignore, wp_sys_ret; intros a _|];
      (apply wp_bind; eapply wp_free; [exact Hc|]);
      (apply IH; [exact Hs' | done | done | simpl in Hf; lia |]); intros evs er Hev;
      cbn [closed_fds] in HQ; rewrite Hb in HQ;
      cbn [trace heap next tflags addrlist logged upd_heap]; rewrite del_cells_delete.
    + specialize (HQ (evs ++ [(C_close (c_fd c), a)]) er).
      rewrite <-app_assoc in HQ. apply HQ.
      by rewrite fmap_app, Hev, !fmap_cons, reverse_cons.
    + by apply HQ.
Qed.

(** discardFd frees the cells before [upto] and closes what it must. *)
Lemma wp_discardFd k lk p upto cs cs' dc s (Q : unit -> state -> Prop) :
  link_loc k = Some lk -> lk ∉ c_loc <$> (cs ++ cs') ->
  link_value (heap s) k = Some p -> fd_queue (heap s) p (cs ++ cs') ->
  fd_seg (heap s) p upto cs -> fd_seg (heap s) upto NULL cs' ->
  (forall evs er m', evs.*1 = reverse (C_close <$> closed_fds dc cs) ->
     m' = link_update (del_cells cs (heap s)) k upto ->
     link_value m' k = Some upto -> fd_queue m' upto cs' ->
     Q tt (State (evs ++ trace s) m' (next s) er (tflags s) (addrlist s))) ->
  wp (discardFd k upto dc) e s Q.
Proof.
  intros Hk Hlk Hv Hq Hs1 Hs2 HQ. pose proof Hq as [_ Hnd].
  rewrite fmap_app in Hnd, Hlk. apply NoDup_app in Hnd as (Hnd1 & Hnd12 & Hnd2).
  apply not_elem_of_app in Hlk as [Hlk1 Hlk2].
  apply wp_bind, wp_get, wp_bind. eapply wp_read_link; [done|].
  apply wp_bind. eapply wp_discard_loop; [done|done| | |].
  { intros c Hc Hup. subst upto. destruct cs' as [|c' cs']; [done|].
    destruct Hs2 as [He _]. injection He as He. apply (Hnd12 (c_loc c)).
    - apply list_elem_of_fmap. by exists c.
    - rewrite He. by left. }
  { pose proof (fd_queue_length _ _ _ Hq) as Hl. rewrite length_app in Hl. lia. }
  intros evs er Hev.
  assert (Hv' : link_value (del_cells cs (heap s)) k = Some p).
  { rewrite <-Hv. apply link_value_ne. intros l Hl. apply del_cells_lookup. congruence. }
  apply wp_write_link; [cbn; by rewrite Hv'|]. cbn.
  apply HQ; [done | done | apply link_value_update; by rewrite Hv' |]. split; [|done].
  eapply fd_seg_ext; [|exact Hs2]. intros c Hc.
  assert (c_loc c ∈ c_loc <$> cs') by (apply list_elem_of_fmap; eauto).
  rewrite link_update_ne; [|rewrite Hk; intros [= He]; apply Hlk2; by rewrite He].
  apply del_cells_lookup. intros ?. by eapply Hnd12.
Qed.

Lemma wp_count_cells fuel cs p n s (Q : Z -> state -> Prop) :
  fd_seg (heap s) p NULL cs -> (length cs < fuel)%nat ->
  Q (n + Z.of_nat (length cs)) s -> wp (count_cells fuel p n) e s Q.
Proof.
  revert fuel p n. induction cs as [|c cs IH]; intros fuel p n Hs Hf HQ;
    (destruct fuel as [|fuel]; [simpl in Hf; lia|]).
  - simpl in Hs. subst p. apply wp_ret. by rewrite Z.add_0_r in HQ.
  - destruct Hs as [-> (nx & Hc & Hs)]. apply wp_bind. eapply wp_load_fd; [done|].
    apply IH; [done | simpl in Hf; lia|]. cbn [length] in HQ.
    by replace (n + 1 + Z.of_nat (length cs)) with (n + Z.of_nat (S (length cs))) by lia.
Qed.

Lemma wp_nFd k p cs s (Q : Z -> state -> Prop) :
  link_value (heap s) k = Some p -> fd_queue (heap s) p cs ->
  Q (Z.of_nat (length cs)) s -> wp (nFd k) e s Q.
Proof.
  intros Hv Hq HQ. apply wp_bind, wp_get, wp_bind. eapply wp_read_link; [done|].
  eapply wp_count_cells; [apply Hq | | done].
  pose proof (fd_queue_length _ _ _ Hq). lia.
Qed.
End specs.

(** ** The two queues of a connection *)

(** The connection [c] at [l] has the queues [rs] (received) and [ss] (to send); all of
    their cells are distinct blocks. *)
Definition conn_queues (m : memory) (l : positive) (c : conninfo) (rs ss : list cell) : Prop :=
  m !! l = Some (BConn c) /\ fd_queue m (recv_fds c) rs /\ fd_queue m (send_fds c) ss /\
  NoDup (l :: (c_loc <$> rs) ++ (c_loc <$> ss)).

(** The connection without its queues. *)
Definition base (c : conninfo) : conninfo := set_recv_fds NULL (set_send_fds NULL c).

(** The blocks [ls] became the blocks [ls']: those given up are free, those added were free,
    and the rest of the memory is the same. *)
Definition footprint (m m' : memory) (ls ls' : list positive) : Prop :=
  (forall x, x ∉ ls -> x ∉ ls' -> m' !! x = m !! x) /\
  (forall x, x ∈ ls -> x ∉ ls' -> m' !! x = None) /\
  (forall x, x ∉ ls -> x ∈ ls' -> m !! x = None).

(** The blocks of a connection and its queues. *)
Definition conn_locs (l : positive) (rs ss : list cell) : list positive :=
  l :: (c_loc <$> rs) ++ (c_loc <$> ss).

Lemma footprint_refl m ls : footprint m m ls ls.
Proof. by split_and!. Qed.

Lemma footprint_trans m1 m2 m3 ls1 ls2 ls3 :
  footprint m1 m2 ls1 ls2 -> footprint m2 m3 ls2 ls3 -> footprint m1 m3 ls1 ls3.
Proof.
  intros (A1 & A2 & A3) (B1 & B2 & B3). split_and!; intros x H1 H3;
    destruct (decide (x ∈ ls2)) as [H2|H2]; auto.
  - by rewrite A3, B2.
  - by rewrite B1, A1.
  - by rewrite B1, A2.
  - by rewrite <-A1, B3.
Qed.

(** What is outside of it. *)
Lemma footprint_kept m m' ls ls' x b :
  footprint m m' ls ls' -> x ∉ ls -> m !! x = Some b -> x ∉ ls' /\ m' !! x = Some b.
Proof.
  intros (F1 & _ & F3) Hx Hb. assert (x ∉ ls') by (intros Hin; rewrite F3 in Hb; done).
  by rewrite F1.
Qed.

Lemma conn_queues_recv m m' l c rs ss p' rs' ls :
  conn_queues m l c rs ss -> only_queue m m' (RecvFds (At l 0)) ls ->
  link_value m' (RecvFds (At l 0)) = Some p' -> fd_queue m' p' rs' ->
  NoDup (l :: (c_loc <$> rs') ++ (c_loc <$> ss)) -> (forall x, x ∈ ls -> x ∉ c_loc <$> ss) ->
  conn_queues m' l (set_recv_fds p' c) rs' ss.
Proof.
  intros (Hl & _ & Hs & _) [Ho1 Ho2] Hv Hq Hnd Hls.
  destruct (Ho2 l c eq_refl Hl) as [x Hx]. simpl in Hv, Hx. rewrite Hx in Hv.
  injection Hv as <-. split_and!; [done | done | | done].
  eapply fd_queue_ext; [|exact Hs]. intros c1 Hc1.
  assert (Hin : c_loc c1 ∈ c_loc <$> ss) by (apply list_elem_of_fmap; eauto).
  apply Ho1; [intros ?; by eapply Hls|]. intros [= He].
  apply NoDup_cons in Hnd as [Hn _]. rewrite He in Hn. apply Hn, elem_of_app. by right.
Qed.

Lemma conn_queues_send m m' l c rs ss p' ss' ls :
  conn_queues m l c rs ss -> only_queue m m' (SendFds (At l 0)) ls ->
  link_value m' (SendFds (At l 0)) = Some p' -> fd_queue m' p' ss' ->
  NoDup (l :: (c_loc <$> rs) ++ (c_loc <$> ss')) -> (forall x, x ∈ ls -> x ∉ c_loc <$> rs) ->
  conn_queues m' l (set_send_fds p' c) rs ss'.
Proof.
  intros (Hl & Hr & _ & _) [Ho1 Ho2] Hv Hq Hnd Hls.
  destruct (Ho2 l c eq_refl Hl) as [x Hx]. simpl in Hv, Hx. rewrite Hx in Hv.
  injection Hv as <-. split_and!; [done | | done | done].
  eapply fd_queue_ext; [|exact Hr]. intros c1 Hc1.
  assert (Hin : c_loc c1 ∈ c_loc <$> rs) by (apply list_elem_of_fmap; eauto).
  apply Ho1; [intros ?; by eapply Hls|]. intros [= He].
  apply NoDup_cons in Hnd as [Hn _]. rewrite He in Hn. apply Hn, elem_of_app. by left.
Qed.

(** The facts about locations that follow from the invariant. *)
Lemma conn_queues_notin m l c rs ss :
  conn_queues m l c rs ss -> (l ∉ c_loc <$> rs) /\ (l ∉ c_loc <$> ss).
Proof.
  intros (_ & _ & _ & Hnd). apply NoDup_cons in Hnd as [Hn _]. by rewrite not_elem_of_app in Hn.
Qed.

Lemma conn_queues_disjoint m l c rs ss x :
  conn_queues m l c rs ss -> x ∈ c_loc <$> rs -> x ∉ c_loc <$> ss.
Proof.
  intros (_ & _ & _ & Hnd). apply NoDup_cons in Hnd as [_ Hnd].
  apply NoDup_app in Hnd as (_ & Hd & _). apply Hd.
Qed.

(** A free location is no part of the connection. *)
Lemma conn_queues_free m l c rs ss x :
  conn_queues m l c rs ss -> m !! x = None -> x ∉ conn_locs l rs ss.
Proof.
  intros (Hl & [Hr _] & [Hs _] & _) Hx. unfold conn_locs.
  rewrite not_elem_of_cons, not_elem_of_app, !list_elem_of_fmap.
  split_and!; [congruence | |].
  - intros (c1 & -> & Hin). destruct (fd_seg_lookup _ _ _ _ _ Hr Hin). congruence.
  - intros (c1 & -> & Hin). destruct (fd_seg_lookup _ _ _ _ _ Hs Hin). congruence.
Qed.

Lemma NoDup_locs_recv l x rs ss fd dc :
  NoDup (conn_locs l rs ss) -> x ∉ conn_locs l rs ss ->
  NoDup (conn_locs l (rs ++ [Cell x fd dc]) ss).
Proof.
  intros Hnd Hx.
  assert (conn_locs l (rs ++ [Cell x fd dc]) ss ≡ₚ x :: conn_locs l rs ss) as ->.
  { unfold conn_locs. rewrite fmap_app. cbn [fmap list_fmap c_loc]. solve_Permutation. }
  by apply NoDup_cons.
Qed.

Lemma NoDup_locs_send l x rs ss fd dc :
  NoDup (conn_locs l rs ss) -> x ∉ conn_locs l rs ss ->
  NoDup (conn_locs l rs (ss ++ [Cell x fd dc])).
Proof.
  intros Hnd Hx.
  assert (conn_locs l rs (ss ++ [Cell x fd dc]) ≡ₚ x :: conn_locs l rs ss) as ->.
  { unfold conn_locs. rewrite fmap_app. cbn [fmap list_fmap c_loc]. solve_Permutation. }
  by apply NoDup_cons.
Qed.

Lemma only_queue_footprint m m' k l ls ls1 ls2 :
  only_queue m m' k ls -> link_loc k = Some l -> l ∈ ls1 -> l ∈ ls2 ->
  (forall x, x ∈ ls -> x ∈ ls1 \/ x ∈ ls2) ->
  (forall x, x ∈ ls1 -> x ∉ ls2 -> m' !! x = None) ->
  (forall x, x ∉ ls1 -> x ∈ ls2 -> m !! x = None) ->
  footprint m m' ls1 ls2.
Proof.
  intros [Ho _] Hk Hl1 Hl2 Hls Hgone Hnew. split_and!; [|done|done].
  intros x H1 H2. apply Ho; [naive_solver|]. rewrite Hk. naive_solver.
Qed.

Section conn_specs.
Context (e : env).

(** A descriptor is queued at the end, or closed when there is no memory for a cell. *)
Lemma wp_append_recv l c rs ss fd dc s (Q : unit -> state -> Prop) :
  conn_queues (heap s) l c rs ss ->
  (forall a a', a_ret a < 0 ->
     Q tt (logged (C_close fd) a' (logged (C_malloc sizeof_conn_fd) a s))) ->
  (forall a x m' nx p', 0 <= a_ret a -> heap s !! x = None ->
     conn_queues m' l (set_recv_fds p' c) (rs ++ [Cell x fd dc]) ss ->
     footprint (heap s) m' (conn_locs l rs ss) (conn_locs l (rs ++ [Cell x fd dc]) ss) ->
     Q tt (State ((C_malloc sizeof_conn_fd, a) :: trace s) m' nx (errno s)
             (tflags s) (addrlist s))) ->
  wp (appendFd (RecvFds (At l 0)) fd dc) e s Q.
Proof.
  intros Hq Hnull Hok. pose proof Hq as (Hl & Hr & _ & Hnd).
  destruct (conn_queues_notin _ _ _ _ _ Hq) as [Hlr _].
  eapply (wp_appendFd e _ (recv_fds c) l rs); [done | done | by simpl; rewrite Hl | done | auto |].
  intros a x m' nx p' Hx Ha Hv Hq' Ho.
  pose proof (conn_queues_free _ _ _ _ _ _ Hq Hx) as Hfree.
  apply (Hok a x m' nx p'); [done | done | | ].
  - eapply conn_queues_recv; [done | done | done | done | by apply NoDup_locs_recv |].
    intros y [->|Hy]%elem_of_cons.
    + intros Hin. apply Hfree. unfold conn_locs. set_solver.
    + by eapply conn_queues_disjoint.
  - eapply only_queue_footprint; [done | done | unfold conn_locs; rewrite ?fmap_app; set_solver..| ].
    intros y Hy Hy'. assert (y = x) as ->; [|done].
    revert Hy Hy'. unfold conn_locs. rewrite fmap_app. set_solver.
Qed.

Lemma wp_append_send l c rs ss fd dc s (Q : unit -> state -> Prop) :
  conn_queues (heap s) l c rs ss ->
  (forall a a', a = e (trace s) (C_malloc sizeof_conn_fd) -> a_ret a < 0 ->
     Q tt (logged (C_close fd) a' (logged (C_malloc sizeof_conn_fd) a s))) ->
  (forall a x m' nx p', 0 <= a_ret a -> heap s !! x = None ->
     conn_queues m' l (set_send_fds p' c) rs (ss ++ [Cell x fd dc]) ->
     footprint (heap s) m' (conn_locs l rs ss) (conn_locs l rs (ss ++ [Cell x fd dc])) ->
     Q tt (State ((C_malloc sizeof_conn_fd, a) :: trace s) m' nx (errno s)
             (tflags s) (addrlist s))) ->
  wp (appendFd (SendFds (At l 0)) fd dc) e s Q.
Proof.
  intros Hq Hnull Hok. pose proof Hq as (Hl & _ & Hs & Hnd).
  destruct (conn_queues_notin _ _ _ _ _ Hq) as [_ Hls].
  eapply (wp_appendFd e _ (send_fds c) l ss); [done | done | by simpl; rewrite Hl | done | auto |].
  intros a x m' nx p' Hx Ha Hv Hq' Ho.
  pose proof (conn_queues_free _ _ _ _ _ _ Hq Hx) as Hfree.
  apply (Hok a x m' nx p'); [done | done | | ].
  - eapply conn_queues_send; [done | done | done | done | by apply NoDup_locs_send |].
    intros y [->|Hy]%elem_of_cons.
    + intros Hin. apply Hfree. unfold conn_locs. set_solver.
    + intros Hin. by eapply conn_queues_disjoint.
  - eapply only_queue_footprint; [done | done | unfold conn_locs; rewrite ?fmap_app; set_solver..| ].
    intros y Hy Hy'. assert (y = x) as ->; [|done].
    revert Hy Hy'. unfold conn_locs. rewrite fmap_app. set_solver.
Qed.

(** The oldest received descriptor is taken out and its cell freed. *)
Lemma wp_remove_recv l c r rs ss s (Q : Z -> state -> Prop) :
  conn_queues (heap s) l c (r :: rs) ss ->
  (forall m' p', conn_queues m' l (set_recv_fds p' c) rs ss ->
     m' !! c_loc r = None ->
     footprint (heap s) m' (conn_locs l (r :: rs) ss) (conn_locs l rs ss) ->
     Q (c_fd r) (upd_heap m' s)) ->
  wp (removeFd (RecvFds (At l 0))) e s Q.
Proof.
  intros Hq HQ. pose proof Hq as (Hl & Hr & _ & Hnd).
  destruct (conn_queues_notin _ _ _ _ _ Hq) as [Hlr _].
  eapply (wp_removeFd_cons e _ l (recv_fds c) r rs); [done | done | by simpl; rewrite Hl | done |].
  intros m' p' Hv Hq' Hn Ho. apply (HQ m' p'); [| done |].
  - eapply conn_queues_recv; [done | done | done | done | |].
    + cbn [fmap list_fmap app] in Hnd. apply NoDup_cons in Hnd as [Hn1 Hnd].
      apply NoDup_cons in Hnd as [_ Hnd]. apply NoDup_cons. split; [set_solver | done].
    + intros y [->|Hy%not_elem_of_nil]%elem_of_cons; [|done].
      eapply (conn_queues_disjoint _ _ _ _ _ _ Hq). by left.
  - eapply only_queue_footprint; [done | done | unfold conn_locs; set_solver..| | ].
    + intros y Hy Hy'. assert (y = c_loc r) as ->; [|done]. revert Hy Hy'. unfold conn_locs. set_solver.
    + intros y Hy Hy'. exfalso. revert Hy Hy'. unfold conn_locs. set_solver.
Qed.

(** Emptying a queue. *)
Lemma wp_discard_send l c rs ss dc s (Q : unit -> state -> Prop) :
  conn_queues (heap s) l c rs ss ->
  (forall evs er m', evs.*1 = reverse (C_close <$> closed_fds dc ss) ->
     m' = <[l := BConn (set_send_fds NULL c)]> (del_cells ss (heap s)) ->
     conn_queues m' l (set_send_fds NULL c) rs [] ->
     Q tt (State (evs ++ trace s) m' (next s) er (tflags s) (addrlist s))) ->
  wp (discardFd (SendFds (At l 0)) NULL dc) e s Q.
Proof.
  intros Hq HQ. pose proof Hq as (Hl & Hr & Hs & Hnd).
  destruct (conn_queues_notin _ _ _ _ _ Hq) as [Hlr Hls].
  assert (Hl' : del_cells ss (heap s) !! l = Some (BConn c)) by by rewrite del_cells_lookup.
  eapply (wp_discardFd e _ l (send_fds c) NULL ss []);
    rewrite ?app_nil_r; [done | done | by simpl; rewrite Hl | done | apply Hs | done |].
  intros evs er m' Hev -> Hv _. cbn [link_update] in *. rewrite Hl' in *.
  apply (HQ _ _ _ Hev eq_refl). split_and!.
  - apply lookup_insert_eq.
  - eapply fd_queue_ext; [|exact Hr]. intros c1 Hc1.
    assert (Hin : c_loc c1 ∈ c_loc <$> rs) by (apply list_elem_of_fmap; eauto).
    rewrite lookup_insert_ne by (intros He; apply Hlr; by rewrite He).
    apply del_cells_lookup. by eapply conn_queues_disjoint.
  - by split; [|apply NoDup_nil_2].
  - cbn [fmap list_fmap]. rewrite app_nil_r. apply NoDup_cons. split; [done | apply Hr].
Qed.

Lemma wp_discard_recv l c rs ss dc s (Q : unit -> state -> Prop) :
  conn_queues (heap s) l c rs ss ->
  (forall evs er m', evs.*1 = reverse (C_close <$> closed_fds dc rs) ->
     m' = <[l := BConn (set_recv_fds NULL c)]> (del_cells rs (heap s)) ->
     conn_queues m' l (set_recv_fds NULL c) [] ss ->
     Q tt (State (evs ++ trace s) m' (next s) er (tflags s) (addrlist s))) ->
  wp (discardFd (RecvFds (At l 0)) NULL dc) e s Q.
Proof.
  intros Hq HQ. pose proof Hq as (Hl & Hr & Hs & Hnd).
  destruct (conn_queues_notin _ _ _ _ _ Hq) as [Hlr Hls].
  assert (Hl' : del_cells rs (heap s) !! l = Some (BConn c)) by by rewrite del_cells_lookup.
  eapply (wp_discardFd e _ l (recv_fds c) NULL rs []);
    rewrite ?app_nil_r; [done | done | by simpl; rewrite Hl | done | apply Hr | done |].
  intros evs er m' Hev -> Hv _. cbn [link_update] in *. rewrite Hl' in *.
  apply (HQ _ _ _ Hev eq_refl). split_and!.
  - apply lookup_insert_eq.
  - by split; [|apply NoDup_nil_2].
  - eapply fd_queue_ext; [|exact Hs]. intros c1 Hc1.
    assert (Hin : c_loc c1 ∈ c_loc <$> ss) by (apply list_elem_of_fmap; eauto).
    rewrite lookup_insert_ne by (intros He; apply Hls; by rewrite He).
    apply del_cells_lookup. intros Hin'. by eapply conn_queues_disjoint.
  - apply NoDup_cons. split; [done | apply Hs].
Qed.

(** The memory a connection leaves behind without its queues. *)
Definition emptied (m : memory) (l : positive) (c : conninfo) (rs ss : list cell) : memory :=
  <[l := BConn (base c)]> (del_cells rs (del_cells ss m)).

Lemma wp_cleanupFds l c rs ss s (Q : unit -> state -> Prop) :
  conn_queues (heap s) l c rs ss ->
  (forall evs er, evs.*1 = reverse (C_close <$> closed_fds false ss ++ closed_fds true rs) ->
     conn_queues (emptied (heap s) l c rs ss) l (base c) [] [] ->
     Q tt (State (evs ++ trace s) (emptied (heap s) l c rs ss) (next s) er
             (tflags s) (addrlist s))) ->
  wp (cleanupFds (At l 0)) e s Q.
Proof.
  intros Hq HQ. apply wp_bind. eapply wp_discard_send; [done|].
  intros evs er m' Hev Hm' Hq'. eapply wp_discard_recv; [exact Hq'|].
  intros evs' er' m'' Hev' Hm'' Hq''. cbn [heap trace next tflags addrlist] in *.
  destruct (conn_queues_notin _ _ _ _ _ Hq) as [Hlr _].
  assert (m'' = emptied (heap s) l c rs ss) as ->.
  { rewrite Hm'', Hm'. unfold emptied, base. apply map_eq. intros i.
    rewrite !lookup_insert. case_decide as Hi; [done|].
    destruct (decide (i ∈ c_loc <$> rs)) as [Hin|Hin].
    - by rewrite !del_cells_lookup_in.
    - rewrite !del_cells_lookup by done. by rewrite lookup_insert_ne. }
  rewrite app_assoc. apply HQ; [|done].
  by rewrite fmap_app, Hev, Hev', fmap_app, reverse_app.
Qed.
End conn_specs.
