(* ===== verification/Tables.v ===== *)
(** * The static tables of the transport layer

    The socket families of Xtranssock.c, the transports of Xtrans.c with their names,
    initial flags and nolisten lists, and the names of the UNIX domain sockets. *)

From S2P Require Import Prelude CLib Xtransint World.
Open Scope Z_scope.

Record Sockettrans2dev := SockDev {
  transname : bytes;
  dev_family : Z;
  devcotsname : Z;
  devcltsname : Z;
  protocol : Z
}.

Section tables.
Context {cfg : Config}.

Definition Sockettrans2devtab : list Sockettrans2dev :=
  [SockDev (str "inet") AF_INET SOCK_STREAM SOCK_DGRAM 0] ++
  (if IPv6 then
     [SockDev (str "tcp") AF_INET6 SOCK_STREAM SOCK_DGRAM 0;
      SockDev (str "tcp") AF_INET SOCK_STREAM SOCK_DGRAM 0;
      SockDev (str "inet6") AF_INET6 SOCK_STREAM SOCK_DGRAM 0]
   else
     [SockDev (str "tcp") AF_INET SOCK_STREAM SOCK_DGRAM 0]) ++
  [SockDev (str "unix") AF_UNIX SOCK_STREAM SOCK_DGRAM 0;
   SockDev (str "local") AF_UNIX SOCK_STREAM SOCK_DGRAM 0].

Definition NUMSOCKETFAMILIES : nat := length Sockettrans2devtab.

(** Sockettrans2devtab[i] *)
Definition dev_at (i : Z) : M Sockettrans2dev :=
  if i <? 0 then throw OutOfBounds
  else match Sockettrans2devtab !! Z.to_nat i with
       | Some d => mret d
       | None => throw OutOfBounds
       end.

Definition UNIX_PATH : bytes :=
  match cfg_client with
  | X11_t => str "/tmp/.X11-unix/X"
  | XIM_t => str "/tmp/.XIM-unix/XIM"
  | FS_t | FONT_t => str "/tmp/.font-unix/fs"
  | ICE_t => str "/tmp/.ICE-unix/"
  end.

Definition UNIX_DIR : bytes :=
  match cfg_client with
  | X11_t => str "/tmp/.X11-unix"
  | XIM_t => str "/tmp/.XIM-unix"
  | FS_t | FONT_t => str "/tmp/.font-unix"
  | ICE_t => str "/tmp/.ICE-unix"
  end.

Definition PORTBUFSIZE : nat := 32.
Definition MAXHOSTNAMELEN : nat := 64.
Definition MIN_BACKLOG : Z := 128.
Definition BACKLOG : Z := if MIN_BACKLOG <? SOMAXCONN then SOMAXCONN else MIN_BACKLOG.

Definition TransName (t : transport) : bytes :=
  match t with
  | SocketTCPFuncs => str "tcp"
  | SocketINETFuncs => str "inet"
  | SocketINET6Funcs => str "inet6"
  | SocketLocalFuncs => str "local"
  | SocketUNIXFuncs => str "unix"
  end.

(** The [flags] initialisers of the Xtransport structures. *)
Definition initial_flags (t : transport) : Z :=
  match t with
  | SocketTCPFuncs => TRANS_ALIAS
  | SocketINETFuncs => 0
  | SocketINET6Funcs => 0
  | SocketLocalFuncs => if HAVE_ABSTRACT_SOCKETS then TRANS_ABSTRACT else 0
  | SocketUNIXFuncs => if HAVE_ABSTRACT_SOCKETS then 0 else TRANS_ALIAS
  end.

(** tcp_nolisten and unix_nolisten; [None] is a NULL pointer. *)
Definition nolisten (t : transport) : option (list bytes) :=
  match t with
  | SocketTCPFuncs => Some (str "inet" :: if IPv6 then [str "inet6"] else [])
  | SocketUNIXFuncs => Some [str "local"]
  | _ => None
  end.

Definition TRANS_SOCKET_UNIX_INDEX : Z := 4.
Definition TRANS_SOCKET_LOCAL_INDEX : Z := 5.
Definition TRANS_SOCKET_INET_INDEX : Z := 6.
Definition TRANS_SOCKET_TCP_INDEX : Z := 7.
Definition TRANS_SOCKET_INET6_INDEX : Z := 14.

Definition Xtransports : list (transport * Z) :=
  [(SocketTCPFuncs, TRANS_SOCKET_TCP_INDEX)] ++
  (if IPv6 then [(SocketINET6Funcs, TRANS_SOCKET_INET6_INDEX)] else []) ++
  [(SocketINETFuncs, TRANS_SOCKET_INET_INDEX);
   (SocketLocalFuncs, TRANS_SOCKET_LOCAL_INDEX);
   (SocketUNIXFuncs, TRANS_SOCKET_UNIX_INDEX)].

Definition NUMTRANS : nat := length Xtransports.
End tables.
