(* ===== verification/Util.v ===== *)
(** * Utilities: Xtransutil.c, and TRANS(GetHostname), TRANS(FreeConnInfo) of Xtrans.c *)

From S2P Require Import Prelude CLib Xtransint World Logic Tables.
Open Scope Z_scope.

Section util.
Context {cfg : Config}.

(** for (i = 0; i < (int) strlen (str); i++) if (!isdigit (str[i])) return 0; *)
Fixpoint is_numeric (s : bytes) : bool :=
  match s with
  | [] => true
  | c :: s => if negb (isdigit c) then false else is_numeric s
  end.

(** is_numeric of a [const char *]: strlen (NULL) is undefined. *)
Definition is_numeric_p (s : option bytes) : M bool :=
  match s with None => throw NullDeref | Some s => mret (is_numeric s) end.

(** The string left in [buf]; the int returned is its length. *)
Definition GetHostname (maxlen : nat) : M bytes :=
  if NEED_UTSNAME then
    a ← sys C_uname;
    let nodename := until_nul (a_bytes a) in
    let len := strlen nodename in
    let len := if Z.of_nat maxlen <=? len then Z.of_nat maxlen - 1 else len in
    mret (take (Z.to_nat len) nodename)
  else
    (* buf[0] = '\0'; gethostname (buf, maxlen); buf[maxlen - 1] = '\0' *)
    a ← sys (C_gethostname (Z.of_nat maxlen));
    mret (until_nul (take (maxlen - 1) (take maxlen (a_bytes a) ++ [0]))).

Definition FreeConnInfo (ciptr : ptr) : M unit :=
  c ← load_conn ciptr;
  when (negb (bool_decide (addr c = NULL))) (free (addr c));;
  when (negb (bool_decide (peeraddr c = NULL))) (free (peeraddr c));;
  when (negb (bool_decide (port c = NULL))) (free (port c));;
  free ciptr.

(** ** trans_mkdir *)

Definition FAIL_IF_NOMODE : Z := 1.
Definition FAIL_IF_NOT_ROOT : Z := 2.
Definition WARN_NO_ACCESS : Z := 4.
Definition STICKY : Z := 512.     (* 01000 *)

(** The directory does not exist: create it. *)
Definition mkdir_create (path : bytes) (mode : Z) : M Z :=
  uid ← sys_ret C_geteuid;
  if negb (uid =? 0) && has mode STICKY && FAIL_HARD then mret (-1)
  else
    r ← sys_ret (C_mkdir path mode);
    if r =? 0 then
      r ← sys_ret (C_chmod path mode);
      if negb (r =? 0) && FAIL_HARD then mret (-1) else mret 0
    else mret (-1).

(** Fix owner and mode through a descriptor of the same directory: None is the
    return of -1, else updatedOwner and updatedMode. *)
Definition mkdir_update (path : bytes) (mode : Z) (buf : statbuf)
    (updateOwner updateMode : bool) : M (option (bool * bool)) :=
  if HAS_FCHOWN && (updateMode || updateOwner) then
    fd ← sys_ret (C_open path O_RDONLY);
    if fd =? -1 then mret (Some (false, false))
    else
      a ← sys (C_fstat fd);
      let fbuf := a_stat a in
      if a_ret a =? -1 then sys_ret (C_close fd);; mret None
      else if negb (S_ISDIR (st_mode fbuf)) || negb (st_dev buf =? st_dev fbuf)
              || negb (st_ino buf =? st_ino fbuf) then
        sys_ret (C_close fd);; mret None
      else
        updatedOwner ←
          (if updateOwner then r ← sys_ret (C_fchown fd 0 0); mret (r =? 0)
           else mret false);
        updatedMode ←
          (if updateMode then r ← sys_ret (C_fchmod fd mode); mret (r =? 0)
           else mret false);
        sys_ret (C_close fd);;
        mret (Some (updatedOwner, updatedMode))
  else mret (Some (false, false)).

Definition trans_mkdir (path : bytes) (mode : Z) : M Z :=
  a ← sys (C_lstat path);
  if negb (a_ret a =? 0) then
    er ← EGET;
    if negb (er =? ENOENT) then mret (-1) else mkdir_create path mode
  else
    let buf := a_stat a in
    if S_ISDIR (st_mode buf) then
      let updateOwner := negb (st_uid buf =? 0) in
      (* (~mode) & 0077 & buf.st_mode: more permissive than requested *)
      let updateMode := has (Z.land (Z.lnot mode) 63) (st_mode buf) in
      let noaccess := has (Z.land (Z.lnot (st_mode buf)) 18) mode in
      let updateMode := updateMode || noaccess in
      let status := if noaccess then WARN_NO_ACCESS else 0 in
      let sticky := has mode STICKY in
      let status := if sticky then Z.lor status FAIL_IF_NOT_ROOT else status in
      let nosticky := sticky && negb (has (st_mode buf) STICKY) in
      let status := if nosticky then Z.lor status FAIL_IF_NOMODE else status in
      let updateMode := updateMode || nosticky in
      u ← mkdir_update path mode buf updateOwner updateMode;
      match u with
      | None => mret (-1)
      | Some (updatedOwner, updatedMode) =>
          if updateOwner && negb updatedOwner && FAIL_HARD && has status FAIL_IF_NOT_ROOT
          then mret (-1)
          else if updateMode && negb updatedMode && FAIL_HARD && has status FAIL_IF_NOMODE
          then mret (-1)
          else mret 0
      end
    else mret (-1).

(** ** Addresses of the X authorization protocol (X11_t) *)

Definition FamilyInternet : Z := 0.
Definition FamilyInternet6 : Z := 6.
Definition FamilyLocal : Z := 256.

Definition loopback4 (b : bytes) : bool := bool_decide (b = [127; 0; 0; 1]).
(** IN6_IS_ADDR_LOOPBACK and IN6_IS_ADDR_V4MAPPED of <netinet/in.h> *)
Definition IN6_IS_ADDR_LOOPBACK (b : bytes) : bool :=
  bool_decide (b = replicate 15 0 ++ [1]).
Definition IN6_IS_ADDR_V4MAPPED (b : bytes) : bool :=
  bool_decide (take 12 b = replicate 10 0 ++ [255; 255]).

(** The switch: the new family and the address bytes to store, [None] for FamilyLocal. *)
Definition convert_family (fam : Z) (addrp : ptr) : M (option (Z * option bytes)) :=
  if fam =? AF_INET then
    saddr ← read_bytes addrp (Z.of_nat sizeof_sockaddr_in);
    let cp := sin_addr saddr in
    if loopback4 cp then mret (Some (FamilyLocal, None))
    else mret (Some (FamilyInternet, Some cp))
  else if IPv6 && (fam =? AF_INET6) then
    saddr6 ← read_bytes addrp (Z.of_nat sizeof_sockaddr_in6);
    let a6 := sin6_addr saddr6 in
    if IN6_IS_ADDR_LOOPBACK a6 then mret (Some (FamilyLocal, None))
    else if IN6_IS_ADDR_V4MAPPED a6 then
      let cp := slice 12 4 a6 in
      if loopback4 cp then mret (Some (FamilyLocal, None))
      else mret (Some (FamilyInternet, Some cp))
    else mret (Some (FamilyInternet6, Some a6))
  else if fam =? AF_UNIX then mret (Some (FamilyLocal, None))
  else mret None.

(** A local connection is known by the host name. *)
Definition convert_local (addrlen : Z) (addrp : ptr) : M (Z * ptr) :=
  hostname ← GetHostname 256;
  let len := strlen hostname in
  if 0 <? len then
    addrp ←
      (if negb (bool_decide (addrp = NULL)) && (addrlen <? len + 1)
       then free addrp;; mret NULL else mret addrp);
    addrp ←
      (if bool_decide (addrp = NULL) then malloc_bytes (len + 1) else mret addrp);
    if negb (bool_decide (addrp = NULL)) then
      write_bytes addrp (hostname ++ [0]);;
      mret (len, addrp)
    else mret (0, addrp)
  else
    when (negb (bool_decide (addrp = NULL))) (free addrp);;
    mret (0, NULL).

(** The int returned, and the new values of *familyp, *addrlenp and *addrp. *)
Definition ConvertAddress (familyp addrlenp : Z) (addrp : ptr) : M (Z * Z * Z * ptr) :=
  r ← convert_family familyp addrp;
  match r with
  | None => mret (-1, familyp, addrlenp, addrp)
  | Some (fam, Some b) =>
      write_bytes addrp b;;
      mret (0, fam, strlen b, addrp)
  | Some (fam, None) =>
      '(len, p) ← convert_local addrlenp addrp;
      mret (0, fam, len, p)
  end.

(** ** Network ids (ICE_t) *)

(** sprintf into a malloc'd string of the given size. *)
Definition sprintf_new (size : Z) (s : bytes) : M ptr :=
  p ← malloc_bytes size;
  write_bytes p (s ++ [0]);;
  mret p.

Definition conn_transname (c : conninfo) : M bytes :=
  match transptr c with None => throw NullDeref | Some t => mret (TransName t) end.

Definition GetMyNetworkId (ciptr : ptr) : M ptr :=
  c ← load_conn ciptr;
  transName ← conn_transname c;
  a ← sys (C_gethostname 256);
  if a_ret a <? 0 then mret NULL
  else
    let hostnamebuf := take 256 (a_bytes a) in
    if family c =? AF_UNIX then
      hostnamebuf ← cstr hostnamebuf;
      path ← load_sun_path (addr c);
      sprintf_new (3 + strlen transName + strlen hostnamebuf + strlen path)
        (transName ++ str "/" ++ hostnamebuf ++ str ":" ++ path)
    else if (family c =? AF_INET) || (IPv6 && (family c =? AF_INET6)) then
      sa ← read_bytes (addr c) 4;
      hostnamebuf ← cstr hostnamebuf;
      let portnumbuf := snprintf 10 (print_ld (sin_port sa)) in
      sprintf_new (3 + strlen transName + strlen hostnamebuf + strlen portnumbuf)
        (transName ++ str "/" ++ hostnamebuf ++ str ":" ++ portnumbuf)
    else mret NULL.

(** The name of the peer; nameserver_lost abandons gethostbyaddr after the alarm, which
    is an answer without a host. *)
Definition peer_name (c : conninfo) : M (option bytes) :=
  address ←
    (if IPv6 && (family c =? AF_INET6)
     then sa ← read_bytes (peeraddr c) 24; mret (sin6_addr sa)
     else sa ← read_bytes (peeraddr c) 8; mret (sin_addr sa));
  sys C_signal_alarm;;
  sys (C_alarm 4);;
  h ← sys (C_gethostbyaddr address (family c));
  sys (C_alarm 0);;
  match a_host h with
  | Some hostp => mret (Some (until_nul (h_name hostp)))
  | None =>
      if IPv6 then
        a ← sys (C_inet_ntop (family c) address 256);
        mret (if a_ret a <? 0 then None else Some (until_nul (a_bytes a)))
      else a ← sys (C_inet_ntoa address); mret (Some (until_nul (a_bytes a)))
  end.

Definition GetPeerNetworkId (ciptr : ptr) : M ptr :=
  c ← load_conn ciptr;
  addr ←
    (if (family c =? AF_UNSPEC) || (family c =? AF_UNIX) then
       a ← sys (C_gethostname 256);
       if a_ret a =? 0 then addrbuf ← cstr (take 256 (a_bytes a)); mret (Some (Some addrbuf))
       else mret (Some None)
     else if (family c =? AF_INET) || (IPv6 && (family c =? AF_INET6)) then
       n ← peer_name c; mret (Some n)
     else mret None);
  match addr with
  | None => mret NULL
  | Some None => throw NullDeref       (* strlen (addr) *)
  | Some (Some addr) =>
      transName ← conn_transname c;
      sprintf_new (strlen transName + strlen addr + 2) (transName ++ str "/" ++ addr)
  end.
End util.

(** ** Properties *)

Section props.
Context {cfg : Config} (e : env).

(** *** What a connection owns *)

Definition ptr_loc (p : ptr) : list positive := match p with NULL => [] | At x _ => [x] end.

(** The blocks FreeConnInfo frees. *)
Definition conn_blocks (l : positive) (c : conninfo) : list positive :=
  ptr_loc (addr c) ++ ptr_loc (peeraddr c) ++ ptr_loc (port c) ++ [l].

Definition del_locs (ls : list positive) (m : memory) : memory :=
  foldl (fun m x => delete x m) m ls.

(** NULL, or the start of a block. *)
Definition valid_ptr (m : memory) (p : ptr) : Prop :=
  match p with NULL => True | At x o => o = O /\ is_Some (m !! x) end.

(** The connection [c] at [l] and the strings it points to are blocks of their own. *)
Definition own_conn (m : memory) (l : positive) (c : conninfo) : Prop :=
  m !! l = Some (BConn c) /\ valid_ptr m (addr c) /\ valid_ptr m (peeraddr c) /\
  valid_ptr m (port c) /\ NoDup (conn_blocks l c).

Lemma del_locs_lookup ls m x : x ∉ ls -> del_locs ls m !! x = m !! x.
Proof.
  revert m. induction ls as [|y ls IH]; intros m Hx; [done|].
  apply not_elem_of_cons in Hx as [H1 H2]. cbn [del_locs foldl] in *.
  fold (del_locs ls (delete y m)). rewrite IH by done. by apply lookup_delete_ne.
Qed.

Lemma del_locs_lookup_in ls m x : x ∈ ls -> del_locs ls m !! x = None.
Proof.
  revert m. induction ls as [|y ls IH]; intros m; [by intros ?%not_elem_of_nil|].
  cbn [del_locs foldl]. fold (del_locs ls (delete y m)).
  destruct (decide (x ∈ ls)) as [Hin|Hn]; [intros _; by apply IH|].
  intros [->|?]%elem_of_cons; [|done]. rewrite del_locs_lookup by done. apply lookup_delete_eq.
Qed.

Lemma wp_free_ptr p s ls (Q : unit -> state -> Prop) :
  valid_ptr (heap s) p -> ls = ptr_loc p ->
  Q tt (upd_heap (del_locs ls (heap s)) s) ->
  wp (when (negb (bool_decide (p = NULL))) (free p)) e s Q.
Proof.
  intros Hp -> HQ. destruct p as [|x o].
  - rewrite bool_decide_true by done. by destruct s.
  - destruct Hp as [-> [b Hb]]. rewrite bool_decide_false by done. by eapply wp_free.
Qed.

Lemma valid_ptr_del m p ls : (forall x, x ∈ ptr_loc p -> x ∉ ls) ->
  valid_ptr m p -> valid_ptr (del_locs ls m) p.
Proof.
  destruct p as [|x o]; [done|]. intros Hx [-> Hm]. split; [done|].
  rewrite del_locs_lookup; [done|]. apply Hx. by left.
Qed.

Lemma wp_FreeConnInfo l c s (Q : unit -> state -> Prop) :
  own_conn (heap s) l c ->
  Q tt (upd_heap (del_locs (conn_blocks l c) (heap s)) s) ->
  wp (FreeConnInfo (At l 0)) e s Q.
Proof.
  intros (Hl & Ha & Hp & Hq & Hnd) HQ. unfold FreeConnInfo. unfold conn_blocks in *.
  apply NoDup_app in Hnd as (_ & Hd1 & Hnd). apply NoDup_app in Hnd as (_ & Hd2 & Hnd).
  apply NoDup_app in Hnd as (_ & Hd3 & _).
  do 2 wp_step. apply wp_bind. eapply wp_free_ptr; [done | done |].
  apply wp_bind. eapply wp_free_ptr; [| done |].
  { cbn. apply valid_ptr_del; [|done]. intros x Hx Hin. apply (Hd1 x Hin). set_solver. }
  apply wp_bind. eapply wp_free_ptr; [| done |].
  { cbn. apply valid_ptr_del; [|apply valid_ptr_del; [|done]].
    - intros x Hx Hin. apply (Hd2 x Hin). set_solver.
    - intros x Hx Hin. apply (Hd1 x Hin). set_solver. }
  eapply wp_free.
  { cbn. rewrite !del_locs_lookup; [exact Hl | | |]; intros Hin;
      [apply (Hd1 l Hin) | apply (Hd2 l Hin) | apply (Hd3 l Hin)]; set_solver. }
  revert HQ. cbn. unfold del_locs. rewrite !foldl_app. done.
Qed.

(** *** trans_mkdir: no descriptor stays open *)

Definition balanced_nonneg (s s' : state) : Prop :=
  forall f, 0 <= f -> fd_balance f (trace s') = fd_balance f (trace s).

Lemma wp_mkdir_update path mode buf uo um s :
  wp (mkdir_update path mode buf uo um) e s (fun _ s' =>
    heap s' = heap s /\ same_globals s s' /\ balanced_nonneg s s').
Proof.
  unfold mkdir_update. destruct (HAS_FCHOWN && (um || uo)).
  2: { apply wp_ret. by split_and!. }
  do 2 wp_step. destruct (Z.eqb_spec (a_ret a) (-1)) as [Hr|Hr].
  { apply wp_ret. split_and!; [done | done |]. intros f Hf. balance. }
  do 2 wp_step. cbv zeta. destruct (a_ret a0 =? -1).
  { wp_steps. split_and!; [done | done |]. intros f Hf. balance. }
  destruct (negb _ || _ || _).
  { wp_steps. split_and!; [done | done |]. intros f Hf. balance. }
  apply wp_bind. eapply (wp_quiet e); [destruct uo; logs_solve|]. intros ? s1 (H1 & G1 & B1).
  apply wp_bind. eapply (wp_quiet e); [destruct um; logs_solve|]. intros ? s2 (H2 & G2 & B2).
  wp_steps. split_and!; [exact (eq_trans H2 H1) | by eapply same_globals_trans |].
  intros f Hf. st_simpl. rewrite fd_balance_cons, B2, B1. balance.
Qed.

Lemma wp_trans_mkdir path mode s :
  wp (trans_mkdir path mode) e s (fun _ s' =>
    heap s' = heap s /\ same_globals s s' /\ balanced_nonneg s s').
Proof.
  assert (Hq : forall s', quiet_step s s' ->
    heap s' = heap s /\ same_globals s s' /\ balanced_nonneg s s').
  { intros s' (H1 & G1 & B1). split_and!; [done | done |]. intros f _. apply B1. }
  unfold trans_mkdir. do 2 wp_step. destruct (negb (a_ret a =? 0)).
  { do 2 wp_step. wp_step; [wp_steps; exact (Hq _ (quiet_logged (C_lstat path) a s eq_refl))|].
    eapply (wp_quiet e); [unfold mkdir_create; logs_solve|]. intros r s1 Hs1.
    apply Hq. eapply quiet_step_trans; [|exact Hs1]. by apply (quiet_logged (C_lstat path) a s). }
  cbv zeta. destruct (S_ISDIR _); [|wp_steps; exact (Hq _ (quiet_logged (C_lstat path) a s eq_refl))].
  apply wp_bind. eapply wp_mono; [apply wp_mkdir_update|]. intros u s1 (H1 & G1 & B1).
  assert (Hd : heap s1 = heap s /\ same_globals s s1 /\ balanced_nonneg s s1).
  { split_and!; [done | done |]. intros f Hf. rewrite B1 by done. balance. }
  destruct u as [[uo um]|]; [|by apply wp_ret].
  repeat case_bool; by apply wp_ret.
Qed.
End props.
