(* ===== verification/UtilSpecs.v ===== *)
(** * What the utilities of Xtransutil.c promise

    trans_mkdir must not be fooled by links or by a directory that is exchanged under its
    hands; ConvertAddress changes a block and its owner's pointer in place; the network ids
    are built with sprintf into blocks that must be large enough. *)

From S2P Require Import Prelude CLib Xtransint World Logic Tables Util.
Open Scope Z_scope.

(** The calls of an explicit log, found by unification. *)
Ltac log_of :=
  st_simpl;
  first [ eexists [_]; split; [reflexivity|]
        | eexists [_; _]; split; [reflexivity|] | eexists [_; _; _]; split; [reflexivity|]
        | eexists [_; _; _; _]; split; [reflexivity|]
        | eexists [_; _; _; _; _]; split; [reflexivity|]
        | eexists [_; _; _; _; _; _]; split; [reflexivity|] ].

(** ** Directories *)

Section dirs.
Context {cfg : Config} (e : env).

(** [f] was opened at [path] and found to be the directory that lstat saw there, and has not
    been closed since. *)
Definition checked (path : bytes) (f : Z) (tr : log) : Prop :=
  exists n a o b tr',
    tr = n ++ (C_fstat f, a) :: (C_open path O_RDONLY, o) :: (C_lstat path, b) :: tr' /\
    a_ret o = f /\ a_ret b = 0 /\ a_ret a <> -1 /\
    S_ISDIR (st_mode (a_stat b)) = true /\ S_ISDIR (st_mode (a_stat a)) = true /\
    st_dev (a_stat a) = st_dev (a_stat b) /\ st_ino (a_stat a) = st_ino (a_stat b) /\
    Forall (fun ev => ev.1 <> C_close f) n.

(** Owner and mode are given through such a descriptor only, or to a directory that mkdir
    has just made. *)
Definition may_run (path : bytes) (mode : Z) (c : call) (tr : log) : Prop :=
  match c with
  | C_fchown f u g => u = 0 /\ g = 0 /\ checked path f tr
  | C_fchmod f m => m = mode /\ checked path f tr
  | C_chmod p m => p = path /\ m = mode /\
      exists a tr', tr = (C_mkdir path mode, a) :: tr' /\ a_ret a = 0
  | C_unlink _ | C_bind _ _ => False
  | _ => True
  end.

Fixpoint guarded (path : bytes) (mode : Z) (tr : log) : Prop :=
  match tr with
  | [] => True
  | (c, _) :: tr => may_run path mode c tr /\ guarded path mode tr
  end.

(** Owner and mode of the directory after the calls of a log. *)
Record dirstate := DirState { d_euid : Z; d_owner : Z; d_mode : Z }.

Definition dir_step (ev : event) (d : dirstate) : dirstate :=
  let ok := a_ret ev.2 =? 0 in
  match ev.1 with
  | C_lstat _ => DirState (d_euid d) (st_uid (a_stat ev.2)) (st_mode (a_stat ev.2))
  | C_geteuid => DirState (a_ret ev.2) (d_owner d) (d_mode d)
  | C_mkdir _ _ => if ok then DirState (d_euid d) (d_euid d) 0 else d
  | C_chmod _ m | C_fchmod _ m => if ok then DirState (d_euid d) (d_owner d) m else d
  | C_fchown _ u _ => if ok then DirState (d_euid d) u (d_mode d) else d
  | _ => d
  end.
Definition dir_after (tr : log) : dirstate := foldr dir_step (DirState 0 0 0) tr.

Definition dir_made (path : bytes) (mode : Z) (s : state) (r : Z) (s' : state) : Prop :=
  heap s' = heap s /\ same_globals s s' /\ balanced_nonneg s s' /\ (r = 0 \/ r = -1) /\
  exists new, trace s' = new ++ trace s /\ guarded path mode new /\
    (FAIL_HARD = true -> has mode STICKY = true -> r = 0 ->
     d_owner (dir_after new) = 0 /\ has (d_mode (dir_after new)) STICKY = true).

Lemma wp_mkdir_create path mode a s :
  wp (mkdir_create path mode) e (logged (C_lstat path) a s) (dir_made path mode s).
Proof.
  unfold mkdir_create.
  wp_steps; (split; [done|]; split; [done|]; split; [intros f Hf; balance|];
    split; [by auto|]; log_of; split).
  all: try done.
  1-2: cbn; split_and!; try done; do 2 eexists; split; [done | lia].
  intros Hh Hs _. rewrite Hh, Hs, !andb_true_r in *.
  apply negb_false_iff in E, E1. cbn. rewrite E0, E1. cbn. split; [lia | done].
Qed.

Lemma checked_intro path n a o b :
  a_ret b = 0 -> a_ret a <> -1 -> S_ISDIR (st_mode (a_stat b)) = true ->
  negb (S_ISDIR (st_mode (a_stat a))) || negb (st_dev (a_stat b) =? st_dev (a_stat a))
    || negb (st_ino (a_stat b) =? st_ino (a_stat a)) = false ->
  Forall (fun ev => ev.1 <> C_close (a_ret o)) n ->
  checked path (a_ret o)
    (n ++ [(C_fstat (a_ret o), a); (C_open path O_RDONLY, o); (C_lstat path, b)]).
Proof.
  intros Hb Ha Hd Hsame Hn. apply orb_false_iff in Hsame as [[H1 H2]%orb_false_iff H3].
  apply negb_false_iff in H1, H2, H3.
  exists n, a, o, b, []. split_and!; try done; lia.
Qed.

(** What mkdir_update made of the directory that lstat described in [buf]. *)
Definition updated (path : bytes) (mode : Z) (buf : statbuf) (s : state)
    (u : option (bool * bool)) (s' : state) : Prop :=
  heap s' = heap s /\ same_globals s s' /\ balanced_nonneg s s' /\
  exists new, trace s' = new ++ trace s /\ guarded path mode new /\
    match u with
    | None => True
    | Some (o, m) => d_owner (dir_after new) = (if (o : bool) then 0 else st_uid buf) /\
        d_mode (dir_after new) = (if (m : bool) then mode else st_mode buf)
    end.

Lemma wp_update path mode a uo um s :
  a_ret a = 0 -> S_ISDIR (st_mode (a_stat a)) = true ->
  wp (mkdir_update path mode (a_stat a) uo um) e (logged (C_lstat path) a s)
    (updated path mode (a_stat a) s).
Proof.
  intros Hr Hd. unfold mkdir_update.
  wp_steps; (split; [done|]; split; [done|]; split; [intros f Hf; balance|];
    log_of; split).
  all: try done.
  all: try (cbn [guarded may_run]; split_and!; try done;
    first [apply (checked_intro path []) | apply (checked_intro path [_])];
    first [done | lia | by repeat constructor]).
  all: cbn; repeat match goal with |- context [if ?b then _ else _] => destruct b end; done.
Qed.

Lemma wp_trans_mkdir_made path mode s :
  wp (trans_mkdir path mode) e s (dir_made path mode s).
Proof.
  assert (Hfail : forall a, dir_made path mode s (-1) (logged (C_lstat path) a s)).
  { intros a. split_and!; [done | done | intros f Hf; balance | by right |]. by log_of. }
  unfold trans_mkdir. do 2 wp_step.
  destruct (Z.eqb_spec (a_ret a) 0) as [Hr|Hr]; cbn [negb].
  2: { do 2 wp_step. wp_step; [wp_steps; exact (Hfail a) | apply wp_mkdir_create]. }
  cbv zeta. destruct (S_ISDIR _) eqn:Hd; [|wp_steps; exact (Hfail a)].
  apply wp_bind. eapply wp_mono; [by apply wp_update|].
  intros u s1 (Hh & Hg & Hb & new & Ht & Hgd & Hu).
  assert (Hend : forall r, r = 0 \/ r = -1 ->
    (FAIL_HARD = true -> has mode STICKY = true -> r = 0 ->
     d_owner (dir_after new) = 0 /\ has (d_mode (dir_after new)) STICKY = true) ->
    dir_made path mode s r s1).
  { intros r Hr' Hs. split_and!; auto. by exists new. }
  destruct u as [[uo um]|]; [|apply wp_ret, Hend; [by right | done]].
  destruct Hu as [Ho Hm].
  set (P1 := _ && FAIL_HARD && _). set (P2 := _ && FAIL_HARD && _).
  destruct P1 eqn:H1; [apply wp_ret, Hend; [by right | done]|].
  destruct P2 eqn:H2; [apply wp_ret, Hend; [by right | done]|].
  apply wp_ret, Hend; [by left|]. intros Hhard Hs _. rewrite Ho, Hm.
  revert H1 H2. unfold P1, P2. rewrite Hhard, Hs. cbn [andb].
  destruct uo, um, (has (Z.land (Z.lnot (st_mode (a_stat a))) 18) mode),
    (has (st_mode (a_stat a)) STICKY) eqn:E; destruct (Z.eqb_spec (st_uid (a_stat a)) 0);
    rewrite ?orb_true_r; auto; done.
Qed.
(** C22: trans_mkdir leaves a directory made or checked behind.  It gives away owner and mode
    only of a directory it has just made, or through a descriptor it has found to be the
    directory that lstat saw, not a link to one or another put in its place; it leaves no
    descriptor open.  Where the build is told to fail hard and a sticky directory is wanted,
    success means that root owns the directory and that it is sticky. *)
Theorem trans_mkdir_spec path mode s :
  wp (trans_mkdir path mode) e s (dir_made path mode s).
Proof. apply wp_trans_mkdir_made. Qed.
End dirs.

(** ** Addresses of the authorization protocol *)

Section auth.
Context {cfg : Config} (e : env).

(** The internet address of a socket address, a mapped IPv4 address as the 4 bytes it is. *)
Definition ip_of (fam : Z) (v : bytes) : option bytes :=
  if fam =? AF_INET then Some (sin_addr v)
  else if IPv6 && (fam =? AF_INET6) then
    Some (if IN6_IS_ADDR_V4MAPPED (sin6_addr v) then slice 12 4 (sin6_addr v)
          else sin6_addr v)
  else None.

Definition is_loopback (b : bytes) : bool :=
  bool_decide (b ∈ [[127; 0; 0; 1]; replicate 15 0 ++ [1]]).
Definition ip_family (b : bytes) : Z :=
  if (length b =? 4)%nat then FamilyInternet else FamilyInternet6.

(** [None]: a family that is not supported, [Some None]: this host. *)
Definition auth_address (fam : Z) (v : bytes) : option (option bytes) :=
  match ip_of fam v with
  | Some b => Some (if is_loopback b then None else Some b)
  | None => if fam =? AF_UNIX then Some None else None
  end.

Definition sockaddr_size (fam : Z) : nat :=
  if fam =? AF_INET then sizeof_sockaddr_in
  else if fam =? AF_INET6 then sizeof_sockaddr_in6 else 0.

Definition family_of (x : option bytes) : Z * option bytes :=
  match x with None => (FamilyLocal, None) | Some b => (ip_family b, Some b) end.

Lemma slice_take off len n b :
  (off + len <= n)%nat -> slice off len (take n b) = slice off len b.
Proof. intros H. unfold slice. by rewrite !take_drop_commute, take_take, Nat.min_l by lia. Qed.

Lemma loopback4_length b : length b = 4%nat -> is_loopback b = loopback4 b.
Proof.
  intros Hb. apply bool_decide_ext. rewrite !elem_of_cons, elem_of_nil.
  split; [intros [?|[->|[]]]; done | by left].
Qed.

Lemma loopback16_length b : length b = 16%nat -> is_loopback b = IN6_IS_ADDR_LOOPBACK b.
Proof.
  intros Hb. apply bool_decide_ext. rewrite !elem_of_cons, elem_of_nil.
  split; [intros [->|[?|[]]]; done | by right; left].
Qed.

Lemma mapped_not_loopback b : IN6_IS_ADDR_V4MAPPED b = true -> IN6_IS_ADDR_LOOPBACK b = false.
Proof.
  unfold IN6_IS_ADDR_V4MAPPED, IN6_IS_ADDR_LOOPBACK. intros H%bool_decide_eq_true.
  apply bool_decide_eq_false. by intros ->.
Qed.

Lemma auth_address_length fam v b :
  auth_address fam v = Some (Some b) -> (length b <= length v)%nat.
Proof.
  assert (Hs : forall off len w, (length (slice off len w) <= length w)%nat).
  { intros off len w. unfold slice. rewrite length_take, length_drop. lia. }
  unfold auth_address, ip_of, sin_addr, sin6_addr. pose proof (Hs 8%nat 16%nat v).
  repeat case_bool; intros [= <-]; auto. etrans; [apply Hs | done].
Qed.

Lemma wp_convert_family l v fam s :
  heap s !! l = Some (BBytes v) -> (sockaddr_size fam <= length v)%nat ->
  wp (convert_family fam (At l 0)) e s (fun r s' =>
    s' = s /\ r = family_of <$> auth_address fam v).
Proof.
  intros Hl Hn. unfold convert_family, auth_address, ip_of, sockaddr_size in *.
  destruct (Z.eqb_spec fam AF_INET) as [->|].
  { wp_step. eapply wp_read_bytes; [done | lia |].
    rewrite drop_0, Nat2Z.id. unfold sin_addr. rewrite slice_take by (unfold sizeof_sockaddr_in; lia).
    assert (Hb : length (slice 4 4 v) = 4%nat) by (apply length_slice; unfold sizeof_sockaddr_in in *; lia).
    unfold ip_family. rewrite (loopback4_length _ Hb).
    destruct (loopback4 _); apply wp_ret; (split; [done|]); [done|]. cbn. unfold ip_family.
    by rewrite Hb. }
  destruct IPv6; cbn [andb].
  2: { destruct (fam =? AF_UNIX); by apply wp_ret. }
  destruct (Z.eqb_spec fam AF_INET6) as [->|]; [|destruct (fam =? AF_UNIX); by apply wp_ret].
  wp_step. eapply wp_read_bytes; [done | lia |].
  rewrite drop_0, Nat2Z.id. unfold sin6_addr. rewrite slice_take by (unfold sizeof_sockaddr_in6; lia).
  assert (Hb : length (slice 8 16 v) = 16%nat) by (apply length_slice; unfold sizeof_sockaddr_in6 in *; lia).
  assert (Hb4 : length (slice 12 4 (slice 8 16 v)) = 4%nat) by (apply length_slice; lia).
  destruct (IN6_IS_ADDR_V4MAPPED _) eqn:Hm.
  - rewrite (mapped_not_loopback _ Hm), (loopback4_length _ Hb4).
    destruct (loopback4 _); apply wp_ret; (split; [done|]); [done|]. cbn. unfold ip_family. by rewrite Hb4.
  - rewrite (loopback16_length _ Hb).
    destruct (IN6_IS_ADDR_LOOPBACK _); apply wp_ret; (split; [done|]); [done|]. cbn. unfold ip_family. by rewrite Hb.
Qed.

(** The name of this host, a string of at most 255 bytes. *)
Definition host_named (s : state) (name : bytes) : Prop :=
  exists s1, GetHostname 256 e s = Ok name s1.

Lemma until_nul_no_nul b : 0 ∉ until_nul b.
Proof.
  induction b as [|x b IH]; cbn; [apply not_elem_of_nil|].
  destruct (Z.eqb_spec x 0); [apply not_elem_of_nil|]. by apply not_elem_of_cons.
Qed.

Lemma until_nul_app_nul b w : 0 ∉ b -> until_nul (b ++ 0 :: w) = b.
Proof.
  induction b as [|x b IH]; cbn; [done|]. intros [Hx Hb]%not_elem_of_cons.
  destruct (Z.eqb_spec x 0); [done|]. by rewrite IH.
Qed.

Lemma wp_GetHostname s (Q : bytes -> state -> Prop) :
  (forall name s1, host_named s name -> quiet_step s s1 -> 0 ∉ name ->
     (length name < 256)%nat -> Q name s1) ->
  wp (GetHostname 256) e s Q.
Proof.
  intros HQ.
  assert (Hw : wp (GetHostname 256) e s (fun name s1 => quiet_step s s1 /\ (0 ∉ name) /\
    (length name < 256)%nat)).
  { unfold GetHostname. destruct NEED_UTSNAME; wp_steps.
    - split; [by apply (quiet_logged C_uname)|]. set (b := until_nul _). split.
      + intros Hin. by apply elem_of_take in Hin as (i & Hi%list_elem_of_lookup_2 & _);
          apply until_nul_no_nul in Hi.
      + rewrite length_take. unfold strlen. destruct (Z.leb_spec (Z.of_nat 256) (Z.of_nat (length b))); lia.
    - split; [by apply (quiet_logged (C_gethostname 256))|]. split; [apply until_nul_no_nul|].
      match goal with |- context [until_nul ?b] => pose proof (length_until_nul b) as H end.
      rewrite length_take in H. lia. }
  unfold wp in *. destruct (GetHostname 256 e s) as [name s1|] eqn:E; [|done].
  destruct Hw as (H1 & H2 & H3). apply HQ; auto. by exists s1.
Qed.

(** A local address becomes the name of this host: in the old block when it fits, else in a
    new one.  Without a name or memory the address is NULL.  The old block is never left
    behind. *)
Definition named_local (l : positive) (v : bytes) (n : Z) (s : state) (p : ptr) (n' : Z)
    (s' : state) : Prop :=
  exists name, host_named s name /\
    ((p = NULL /\ n' = 0 /\ heap s' = delete l (heap s) /\ (name = [] \/ n <= strlen name)) \/
     (name <> [] /\ n' = strlen name /\ exists l' w, p = At l' 0 /\
        terminated w = true /\ until_nul w = name /\
        ((strlen name < n /\ l' = l /\ length w = length v /\
          heap s' = <[l := BBytes w]> (heap s)) \/
         (n <= strlen name /\ w = name ++ [0] /\
          heap s' = <[l' := BBytes w]> (delete l (heap s)))))).

Lemma wp_convert_local l v n s :
  heap s !! l = Some (BBytes v) -> n <= Z.of_nat (length v) ->
  wp (convert_local n (At l 0)) e s (fun '(n', p) s' =>
    quiet_step (upd_heap (heap s') s) s' /\ named_local l v n s p n' s').
Proof.
  intros Hl Hn. unfold convert_local. apply wp_bind, wp_GetHostname.
  intros name s1 Hname (Hh & Hg & Hb) Hnul Hlen. cbv zeta.
  assert (Hl1 : heap s1 !! l = Some (BBytes v)) by by rewrite Hh.
  unfold strlen in *. destruct (Z.ltb_spec 0 (Z.of_nat (length name))) as [Hpos|Hzero].
  2: { assert (name = []) as -> by (apply nil_length_inv; lia). wp_steps.
       split; [split_and!; [done | exact Hg | exact Hb]|]. exists []. split; [done|]. left.
       rewrite Hh. auto. }
  assert (name <> []) by by intros ->. rewrite bool_decide_false by done. cbn [negb andb].
  destruct (Z.ltb_spec n (Z.of_nat (length name) + 1)).
  - wp_steps.
    + split; [split_and!; [done | exact Hg | intros f; rewrite <-Hb; balance]|].
      exists name. split; [done|]. left. unfold strlen. rewrite Hh. split_and!; auto. right. lia.
    + rewrite length_app, length_replicate. cbn. lia.
    + split; [split_and!; [done | exact Hg | intros f; rewrite <-Hb; balance]|].
      exists name. split; [done|]. right. unfold strlen. split_and!; auto.
      exists l0, (name ++ [0]). rewrite until_nul_app_nul by done.
      split_and!; [done | apply terminated_nul | done |]. right. split_and!; [lia | done |].
      st_simpl. rewrite Hh, write_at_all; [done|].
      rewrite length_app, length_replicate. cbn. lia.
  - wp_steps; [rewrite length_app; cbn; lia|].
    split; [split_and!; [done | exact Hg | exact Hb]|].
    exists name. split; [done|]. right. unfold strlen. split_and!; auto.
    exists l. eexists. split_and!; [done | | | left; split_and!; [lia | done | | by rewrite Hh]].
    + unfold write_at. rewrite take_0, <-app_assoc. apply terminated_nul.
    + unfold write_at. rewrite take_0, <-app_assoc. by apply until_nul_app_nul.
    + apply length_write_at. rewrite length_app. cbn. lia.
Qed.

(** C23: ConvertAddress turns the address of a peer into one of the authorization protocol in
    place: an internet address into its 4 or 16 bytes, where an IPv4 address mapped to IPv6
    counts as IPv4, and an address of this host, over a UNIX socket or a loopback address,
    into the name of this host.  Lengths, the terminating NUL and the ownership of the
    block are right on every path; an unknown family is refused and nothing changes. *)
Theorem ConvertAddress_spec l v fam n s :
  heap s !! l = Some (BBytes v) -> (sockaddr_size fam <= length v)%nat ->
  n <= Z.of_nat (length v) ->
  wp (ConvertAddress fam n (At l 0)) e s (fun '(r, fam', n', p) s' =>
    match auth_address fam v with
    | None => (r, fam', n', p) = (-1, fam, n, At l 0) /\ s' = s
    | Some (Some b) => (r, fam', n', p) = (0, ip_family b, strlen b, At l 0) /\
        s' = upd_heap (<[l := BBytes (b ++ drop (length b) v)]> (heap s)) s
    | Some None => r = 0 /\ fam' = FamilyLocal /\ quiet_step (upd_heap (heap s') s) s' /\
        named_local l v n s p n' s'
    end).
Proof.
  intros Hl Hs Hn. unfold ConvertAddress. apply wp_bind.
  eapply wp_mono; [by apply wp_convert_family|]. intros r s1 [-> ->].
  destruct (auth_address fam v) as [[b|]|] eqn:Ha; cbn [fmap option_fmap option_map family_of].
  - wp_step. eapply wp_write_bytes; [done | by eapply auth_address_length |].
    apply wp_ret. split; [done|]. f_equal.
  - apply wp_bind. eapply wp_mono; [by apply (wp_convert_local l v)|].
    intros [n' p] s2 [Hq Hr]. by apply wp_ret.
  - by apply wp_ret.
Qed.

(** ** Network ids *)

(** A new block with the C string [t]; nothing else changed. *)
Definition new_string (s s' : state) (p : ptr) (t : bytes) : Prop :=
  exists x w, p = At x 0 /\ heap s !! x = None /\ heap s' = <[x := BBytes w]> (heap s) /\
    terminated w = true /\ until_nul w = t.

(** malloc and sprintf into the block; the NULL of malloc is not checked. *)
Lemma wp_sprintf_new size t s s1 :
  mallocs e -> Z.of_nat (length t) < size -> 0 ∉ t -> quiet_step s s1 ->
  wp (sprintf_new size t) e s1 (fun p s' =>
    quiet_step (upd_heap (heap s') s) s' /\ new_string s s' p t).
Proof.
  intros Hm Hlen Ht (Hh & Hg & Hb). apply wp_bind, wp_alloc.
  { intros a -> Ha. specialize (Hm (trace s1) size). lia. }
  intros a l nx Ha Hr Hl. rewrite Hh in Hl.
  wp_steps; [rewrite length_app, length_replicate; cbn; lia|].
  split; [split_and!; [done | exact Hg | intros f; rewrite <-Hb; balance]|].
  exists l, (t ++ 0 :: replicate (Z.to_nat size - length t - 1) 0).
  split_and!; [done | done | | apply terminated_nul | by apply until_nul_app_nul].
  st_simpl. unfold write_at. rewrite Hh, take_0, length_app, drop_replicate, <-app_assoc.
  cbn [app length].
  by replace (Z.to_nat size - (0 + (length t + 1)))%nat with (Z.to_nat size - length t - 1)%nat by lia.
Qed.

(** gethostname ends the name in the buffer: it has room for the longest one. *)
Definition hostname_law : Prop :=
  forall tr, let a := e tr (C_gethostname 256) in
    0 <= a_ret a -> terminated (take 256 (a_bytes a)) = true.
(** The host has a name and the kernel can print addresses. *)
Definition names_known : Prop :=
  (forall tr n, a_ret (e tr (C_gethostname n)) = 0) /\
  (forall tr f b n, 0 <= a_ret (e tr (C_inet_ntop f b n))).

Definition is_internet (fam : Z) : bool := (fam =? AF_INET) || (IPv6 && (fam =? AF_INET6)).

(** Where a listener can be reached on its host. *)
Definition my_place (fam : Z) (v : bytes) : option bytes :=
  if fam =? AF_UNIX then Some (sun_path_str v)
  else if is_internet fam then Some (print_ld (sin_port v)) else None.

Definition place_ok (fam : Z) (v : bytes) : Prop :=
  if fam =? AF_UNIX then terminated (sun_path v) = true
  else (4 <= length v)%nat /\ Forall is_byte v.

Lemma TransName_no_nul t : 0 ∉ TransName t.
Proof. apply (bool_decide_unpack _). by destruct t; vm_compute. Qed.

Lemma no_nul_app (b1 b2 : bytes) : 0 ∉ b1 -> 0 ∉ b2 -> 0 ∉ b1 ++ b2.
Proof. intros H1 H2 [?|?]%elem_of_app; auto. Qed.

Lemma print_ld_no_nul n : 0 ∉ print_ld n.
Proof.
  pose proof (cstring_print_ld n) as H. unfold cstring in H. rewrite Forall_forall in H.
  intros Hin. specialize (H 0 Hin). lia.
Qed.

(** A port has five digits at most. *)
Lemma port_digits v :
  (4 <= length v)%nat -> Forall is_byte v -> snprintf 10 (print_ld (sin_port v)) = print_ld (sin_port v).
Proof.
  intros Hl Hv. assert (Hb : forall k, (k < 4)%nat -> is_byte (nth k v 0)).
  { intros k Hk. rewrite Forall_forall in Hv. apply Hv. apply list_elem_of_In, nth_In. lia. }
  unfold snprintf, sin_port, rd_be16. apply take_ge. unfold is_byte in Hb.
  pose proof (Hb 2%nat). pose proof (Hb 3%nat). unfold print_ld.
  destruct (Z.ltb_spec (256 * nth 2 v 0 + nth 3 v 0) 0); [lia|].
  pose proof (length_digits_lt 4 20 (256 * nth 2 v 0 + nth 3 v 0)) as Hd.
  change (10 ^ Z.of_nat 5) with 100000 in Hd. lia.
Qed.

Lemma wp_GetMyNetworkId l c t la v s :
  mallocs e -> hostname_law ->
  heap s !! l = Some (BConn c) -> transptr c = Some t ->
  addr c = At la 0 -> heap s !! la = Some (BBytes v) -> place_ok (family c) v ->
  wp (GetMyNetworkId (At l 0)) e s (fun p s' =>
    let a := e (trace s) (C_gethostname 256) in
    let host := until_nul (take 256 (a_bytes a)) in
    quiet_step (upd_heap (heap s') s) s' /\
    match my_place (family c) v with
    | Some place =>
        if a_ret a <? 0 then p = NULL /\ heap s' = heap s
        else new_string s s' p (TransName t ++ str "/" ++ host ++ str ":" ++ place)
    | None => p = NULL /\ heap s' = heap s
    end).
Proof.
  intros Hm Hlaw Hl Ht Ha Hv Hp. unfold GetMyNetworkId, conn_transname. do 3 wp_step.
  rewrite Ht. do 3 wp_step. rewrite Ha. cbv zeta.
  specialize (Hlaw (trace s)). cbv zeta in Hlaw. rewrite <-Ha0 in *. unfold my_place.
  match goal with |- wp _ _ ?st _ => set (s1 := st) end.
  assert (Hq : quiet_step s s1) by by apply (quiet_logged (C_gethostname 256)).
  assert (Hnone : wp (mret NULL) e s1 (fun p s' => quiet_step (upd_heap (heap s') s) s' /\
    p = NULL /\ heap s' = heap s)) by by apply wp_ret.
  destruct (Z.ltb_spec (a_ret a) 0) as [Hneg|Hpos].
  { eapply wp_mono; [exact Hnone|]. intros p s' [H1 H2]. split; [done|]. by repeat case_bool. }
  specialize (Hlaw Hpos). unfold place_ok in Hp.
  assert (Hstr : forall size place, 0 ∉ place ->
    size = 3 + strlen (TransName t) + strlen (until_nul (take 256 (a_bytes a))) + strlen place ->
    let text := TransName t ++ str "/" ++ until_nul (take 256 (a_bytes a)) ++ str ":" ++ place in
    wp (sprintf_new size text) e s1 (fun p s' =>
      quiet_step (upd_heap (heap s') s) s' /\ new_string s s' p text)).
  { intros size place Hpl -> text. apply wp_sprintf_new; [done | | | done].
    - unfold text, strlen. rewrite !length_app. cbn [length str]. lia.
    - unfold text. repeat apply no_nul_app;
        auto using TransName_no_nul, until_nul_no_nul; by apply (bool_decide_unpack _). }
  destruct (family c =? AF_UNIX).
  { wp_step. apply wp_cstr; [done|]. wp_step.
    eapply wp_load_sun_path; [exact Hv | done |]. apply Hstr; [apply until_nul_no_nul | done]. }
  fold (is_internet (family c)). destruct (is_internet (family c)); [|exact Hnone].
  destruct Hp as [Hlen Hbytes]. wp_step. eapply wp_read_bytes; [exact Hv | lia |].
  wp_step. apply wp_cstr; [done|]. cbv zeta.
  assert (sin_port (take (Z.to_nat 4) (drop 0 v)) = sin_port v) as ->.
  { rewrite drop_0. unfold sin_port, rd_be16. by rewrite !nth_take_lt by lia. }
  rewrite port_digits by done. apply Hstr; [apply print_ld_no_nul | done].
Qed.

(** The name of the peer at the internet address in [v]: that of its host, or the address
    in print. *)
Definition peer_named (fam : Z) (v name : bytes) : Prop :=
  let address := if IPv6 && (fam =? AF_INET6) then sin6_addr v else sin_addr v in
  (exists tr h, a_host (e tr (C_gethostbyaddr address fam)) = Some h /\
     name = until_nul (h_name h)) \/
  (exists tr, name = until_nul (a_bytes (e tr
     (if IPv6 then C_inet_ntop fam address 256 else C_inet_ntoa address)))).

Definition peer_size (fam : Z) : Z := if IPv6 && (fam =? AF_INET6) then 24 else 8.

Lemma wp_peer_name c lp v s :
  names_known -> peeraddr c = At lp 0 -> heap s !! lp = Some (BBytes v) ->
  peer_size (family c) <= Z.of_nat (length v) ->
  wp (peer_name c) e s (fun r s' => quiet_step s s' /\ exists name, r = Some name /\
    (0 ∉ name) /\ peer_named (family c) v name).
Proof.
  intros [_ Hntop] Hp Hv Hn. unfold peer_name, peer_named, peer_size in *. rewrite Hp.
  set (address := if IPv6 && _ then sin6_addr v else sin_addr v). apply wp_bind.
  eapply (wp_mono _ _ _ (fun b s1 => b = address /\ s1 = s)).
  { unfold address. destruct (IPv6 && _); wp_step; (eapply wp_read_bytes; [exact Hv | lia |]);
      apply wp_ret; (split; [|done]); unfold sin6_addr, sin_addr; rewrite drop_0; apply slice_take; lia. }
  intros ? ? [-> ->]. do 8 wp_step.
  destruct (a_host a1) as [h|] eqn:Hh.
  { apply wp_ret. split; [split_and!; [done | done | intros f; balance]|].
    exists (until_nul (h_name h)). split_and!; [done | apply until_nul_no_nul |]. left.
    exists ((C_alarm 4, a0) :: (C_signal_alarm, a) :: trace s), h.
    split; [|done]. rewrite <-Hh. by subst a1. }
  assert (Hend : forall cl tr s', quiet_step s s' -> let a := e tr cl in
    cl = (if IPv6 then C_inet_ntop (family c) address 256 else C_inet_ntoa address) ->
    quiet_step s s' /\ exists name, Some (until_nul (a_bytes a)) = Some name /\ (0 ∉ name) /\
      ((exists tr h, a_host (e tr (C_gethostbyaddr address (family c))) = Some h /\
          name = until_nul (h_name h)) \/
       (exists tr, name = until_nul (a_bytes (e tr
          (if IPv6 then C_inet_ntop (family c) address 256 else C_inet_ntoa address)))))).
  { intros cl tr s' Hq a3 ->. split; [done|]. eexists. split_and!; [done | apply until_nul_no_nul |].
    right. by exists tr. }
  destruct IPv6; do 3 wp_step.
  - assert (Hr : 0 <= a_ret a3) by (subst a3; apply Hntop).
    destruct (Z.ltb_spec (a_ret a3) 0); [lia|]. subst a3. eapply Hend; [|done].
    split_and!; [done | done | intros f; balance].
  - subst a3. eapply Hend; [|done]. split_and!; [done | done | intros f; balance].
Qed.

Definition is_local (fam : Z) : bool := (fam =? AF_UNSPEC) || (fam =? AF_UNIX).

(** The name a peer of the connection [c] goes by. *)
Definition peer_known (s : state) (fam : Z) (v name : bytes) : Prop :=
  if is_local fam then name = until_nul (take 256 (a_bytes (e (trace s) (C_gethostname 256))))
  else peer_named fam v name.

Lemma wp_GetPeerNetworkId l c t lp v s :
  mallocs e -> hostname_law -> names_known ->
  heap s !! l = Some (BConn c) -> transptr c = Some t ->
  (is_internet (family c) = true -> peeraddr c = At lp 0 /\
     heap s !! lp = Some (BBytes v) /\ peer_size (family c) <= Z.of_nat (length v)) ->
  wp (GetPeerNetworkId (At l 0)) e s (fun p s' =>
    quiet_step (upd_heap (heap s') s) s' /\
    if is_local (family c) || is_internet (family c)
    then exists name, peer_known s (family c) v name /\
           new_string s s' p (TransName t ++ str "/" ++ name)
    else p = NULL /\ heap s' = heap s).
Proof.
  intros Hm Hlaw Hn Hl Ht Hp. unfold GetPeerNetworkId. do 2 wp_step.
  fold (is_local (family c)). fold (is_internet (family c)). unfold peer_known.
  assert (Hstr : forall name s1 (P : bytes -> Prop), 0 ∉ name -> quiet_step s s1 -> P name ->
    wp (transName ← conn_transname c;
        sprintf_new (strlen transName + strlen name + 2) (transName ++ str "/" ++ name)) e s1
      (fun p s' => quiet_step (upd_heap (heap s') s) s' /\
         exists n, P n /\ new_string s s' p (TransName t ++ str "/" ++ n))).
  { intros name s1 P Hnul Hq HP. unfold conn_transname. wp_step. rewrite Ht. wp_step.
    eapply wp_mono; [apply (wp_sprintf_new _ _ s); [done | | | done]|].
    - unfold strlen. rewrite !length_app. cbn [length str]. lia.
    - repeat apply no_nul_app; auto using TransName_no_nul; by apply (bool_decide_unpack _).
    - intros p s' [H1 H2]. split; [done|]. by exists name. }
  destruct (is_local (family c)) eqn:Hloc; cbn [orb].
  { do 3 wp_step. assert (Hr : a_ret a = 0) by (subst a; apply Hn). rewrite Hr.
    change (0 =? 0) with true. do 1 wp_step. wp_step. apply wp_cstr.
    - subst a. apply Hlaw. destruct Hn as [Hn _]. by rewrite Hn.
    - wp_step. subst a. apply (Hstr _ _ (fun n => n = _)); [apply until_nul_no_nul | | done].
      by apply (quiet_logged (C_gethostname 256)). }
  destruct (is_internet (family c)); [|by wp_steps].
  destruct (Hp eq_refl) as (H1 & H2 & H3). do 2 wp_step.
  eapply wp_mono; [by eapply wp_peer_name|]. intros r s1 (Hq & name & -> & Hnul & Hname).
  wp_step. by apply Hstr.
Qed.

(** The name may be missing: then its length is taken all the same. *)
Lemma GetPeerNetworkId_unchecked l c s :
  heap s !! l = Some (BConn c) -> family c = AF_UNIX ->
  (forall tr n, a_ret (e tr (C_gethostname n)) = -1) ->
  faults (GetPeerNetworkId (At l 0)) e s NullDeref.
Proof.
  intros Hl Hf Hr. apply faults_wpf. unfold GetPeerNetworkId. wpf_steps. rewrite Hf.
  change ((AF_UNIX =? AF_UNSPEC) || (AF_UNIX =? AF_UNIX)) with true. wpf_steps.
  assert (Ha' : a_ret a = -1) by (subst a; apply Hr). rewrite Ha'.
  change (-1 =? 0) with false. wpf_steps.
Qed.

(** The path of a UNIX client's address has no NUL. *)
Lemma GetMyNetworkId_overread l c t la v s :
  heap s !! l = Some (BConn c) -> transptr c = Some t -> family c = AF_UNIX ->
  addr c = At la 0 -> heap s !! la = Some (BBytes v) -> terminated (sun_path v) = false ->
  (forall tr, let a := e tr (C_gethostname 256) in
     0 <= a_ret a /\ terminated (take 256 (a_bytes a)) = true) ->
  faults (GetMyNetworkId (At l 0)) e s OutOfBounds.
Proof.
  intros Hl Ht Hf Ha Hv Hn Hh. apply faults_wpf. unfold GetMyNetworkId, conn_transname.
  wpf_steps. rewrite Ht. wpf_steps. destruct (Hh (trace s)) as [H1 H2]. rewrite <-Ha0 in *.
  destruct (Z.ltb_spec (a_ret a) 0); [lia|]. rewrite Hf. change (AF_UNIX =? AF_UNIX) with true.
  cbv zeta. wpf_step. apply wpf_bind, wpf_wp, wp_cstr; [done|].
  unfold load_sun_path. rewrite Ha. do 2 apply wpf_bind. apply wpf_wp.
  eapply wp_load_bytes; [exact Hv|]. unfold cstr. rewrite drop_0, Hn. done.
Qed.

(** The network ids are C strings in blocks of their own that are large enough for
    them: that of a listener names the transport, this host and the path or the port in
    decimal; that of a peer the transport and the host of the peer, or its address in
    print.  Without a name, or for other families, the id is NULL. *)
Theorem NetworkIds_spec l c t la v lp v' s :
  mallocs e -> hostname_law -> names_known ->
  heap s !! l = Some (BConn c) -> transptr c = Some t ->
  addr c = At la 0 -> heap s !! la = Some (BBytes v) -> place_ok (family c) v ->
  (is_internet (family c) = true -> peeraddr c = At lp 0 /\
     heap s !! lp = Some (BBytes v') /\ peer_size (family c) <= Z.of_nat (length v')) ->
  wp (GetMyNetworkId (At l 0)) e s (fun p s' =>
    quiet_step (upd_heap (heap s') s) s' /\
    let a := e (trace s) (C_gethostname 256) in
    let host := until_nul (take 256 (a_bytes a)) in
    match my_place (family c) v with
    | Some place =>
        if a_ret a <? 0 then p = NULL /\ heap s' = heap s
        else new_string s s' p (TransName t ++ str "/" ++ host ++ str ":" ++ place)
    | None => p = NULL /\ heap s' = heap s
    end) /\
  wp (GetPeerNetworkId (At l 0)) e s (fun p s' =>
    quiet_step (upd_heap (heap s') s) s' /\
    if is_local (family c) || is_internet (family c)
    then exists name, peer_known s (family c) v' name /\
           new_string s s' p (TransName t ++ str "/" ++ name)
    else p = NULL /\ heap s' = heap s).
Proof.
  intros. split; [by eapply wp_GetMyNetworkId | by eapply wp_GetPeerNetworkId].
Qed.
End auth.

(** ** Witnesses *)

(** A host that knows its name. *)
Definition env_named : env := env_of (fun c => match c with
  | C_uname | C_gethostname _ => Some (ans_bytes 0 (str "sea" ++ [0]))
  | _ => None
  end).

(** A connection of a listener, its address at 2. *)
Definition state_listening (c : conninfo) (v : bytes) : state :=
  State [] (<[1%positive := BConn c]> (<[2%positive := BBytes v]> ∅)) 3 0 (fun _ => 0) None.

Definition loopback6 : bytes := mk_sockaddr_in6 6000 (replicate 10 0 ++ [255; 255; 127; 0; 0; 1]).

(** 127.0.0.1 mapped to IPv6 is this host. *)
Lemma ConvertAddress_spec_witness :
  auth_address (cfg := linux X11_t) AF_INET6 loopback6 = Some None /\
  wp (ConvertAddress (cfg := linux X11_t) AF_INET6 28 (At 2 0)) env_named
    (state_listening conn0 loopback6) (fun '(r, fam', n', p) s' =>
      r = 0 /\ fam' = FamilyLocal /\
      quiet_step (upd_heap (heap s') (state_listening conn0 loopback6)) s' /\
      named_local (cfg := linux X11_t) env_named 2 loopback6 28
        (state_listening conn0 loopback6) p n' s').
Proof.
  split; [by vm_compute|].
  apply (ConvertAddress_spec (cfg := linux X11_t) env_named 2 loopback6 AF_INET6 28
    (state_listening conn0 loopback6)); [done | by apply Nat.leb_le | by vm_compute].
Defined.

Definition conn_ice : conninfo :=
  set_addr (At 2 0) (set_family AF_UNIX (set_transptr (Some SocketUNIXFuncs) conn0)).
Definition state_ice : state := state_listening conn_ice (mk_sockaddr_un (str "/tmp/.ICE-unix/7")).

Lemma NetworkIds_spec_witness :
  wp (GetMyNetworkId (cfg := linux ICE_t) (At 1 0)) env_named state_ice (fun p s' =>
    quiet_step (upd_heap (heap s') state_ice) s' /\
    new_string state_ice s' p (str "unix/sea:/tmp/.ICE-unix/7")) /\
  wp (GetPeerNetworkId (cfg := linux ICE_t) (At 1 0)) env_named state_ice (fun p s' =>
    quiet_step (upd_heap (heap s') state_ice) s' /\ exists name, name = str "sea" /\
    new_string state_ice s' p (str "unix/" ++ name)).
Proof.
  apply (NetworkIds_spec (cfg := linux ICE_t) env_named 1 conn_ice SocketUNIXFuncs 2
    (mk_sockaddr_un (str "/tmp/.ICE-unix/7")) 3 [] state_ice); try done.
Defined.
