(* ===== verification/SockOpen.v ===== *)
(** * Opening sockets (Xtranssock.c)

    SocketSelectFamily, SocketOpen, SocketReopen and the Open entries of the transport
    table, and the addresses of a connected socket. *)

From S2P Require Import Prelude CLib Xtransint World Logic Tables Util.
Open Scope Z_scope.

Section sock.
Context {cfg : Config}.

(** The first entry of [tab], which starts at index [i], named [family]. *)
Fixpoint select_from (tab : list Sockettrans2dev) (i : Z) (family : bytes) : option Z :=
  match tab with
  | [] => None
  | d :: tab =>
      if strcmp_eq family (transname d) then Some i else select_from tab (i + 1) family
  end.

Definition SocketSelectFamily (first : Z) (family : bytes) : Z :=
  match select_from (drop (Z.to_nat (first + 1)) Sockettrans2devtab) (first + 1) family with
  | Some i => i
  | None => if first =? -1 then -2 else -1
  end.

(** getsockname and getpeername: the kernel writes the address into a zeroed buffer of
    [n] bytes and reports the address' own length. *)
Definition SocketINETGetAddr (ciptr : ptr) : M Z :=
  let size := if IPv6 then sizeof_sockaddr_storage else sizeof_sockaddr_in in
  c ← load_conn ciptr;
  a ← sys (C_getsockname (fd c) (Z.of_nat size));
  if a_ret a <? 0 then mret (-1)
  else
    let socknamePtr := fit size (a_bytes a) in
    let namelen := Z.of_nat (length (a_bytes a)) in
    p ← malloc_bytes namelen;
    set ciptr (set_addr p);;
    if bool_decide (p = NULL) then mret (-1)
    else
      set ciptr (set_family (sa_family socknamePtr));;
      set ciptr (set_addrlen namelen);;
      b ← buffer_bytes socknamePtr namelen;
      write_bytes p b;;
      mret 0.

Definition SocketINETGetPeerAddr (ciptr : ptr) : M Z :=
  c ← load_conn ciptr;
  let size := if IPv6 && (family c =? AF_INET6) then sizeof_sockaddr_storage
              else sizeof_sockaddr_in in
  a ← sys (C_getpeername (fd c) (Z.of_nat size));
  if a_ret a <? 0 then mret (-1)
  else
    let socknamePtr := fit size (a_bytes a) in
    let namelen := Z.of_nat (length (a_bytes a)) in
    p ← malloc_bytes namelen;
    set ciptr (set_peeraddr p);;
    if bool_decide (p = NULL) then mret (-1)
    else
      set ciptr (set_peeraddrlen namelen);;
      b ← buffer_bytes socknamePtr namelen;
      write_bytes p b;;
      mret 0.

(** AF_INET, or AF_INET6 in an IPv6 build. *)
Definition is_inet (fam : Z) : bool := (fam =? AF_INET) || (IPv6 && (fam =? AF_INET6)).

(** The descriptors above the limit of select() are refused. *)
Definition check_open_max : bool :=
  (is_client X11_t && negb USE_POLL) || is_client FS_t || is_client FONT_t.

Definition SocketOpen (i type : Z) : M ptr :=
  ciptr ← calloc_conn;
  if bool_decide (ciptr = NULL) then mret NULL
  else
    d ← dev_at i;
    f ← sys_ret (C_socket (dev_family d) type (protocol d));
    set ciptr (set_fd f);;
    bad ← (if f <? 0 then mret true
           else if check_open_max then m ← sys_ret C_sysconf_open_max; mret (m <=? f)
           else mret false);
    if (bad : bool) then free ciptr;; mret NULL
    else
      when (is_inet (dev_family d))
        (ignore (sys (C_setsockopt f IPPROTO_TCP TCP_NODELAY [1])));;
      when (dev_family d =? AF_UNIX)
        (a ← sys (C_getsockopt f SOL_SOCKET SO_SNDBUF);
         when ((a_ret a =? 0) && (a_val a <? 64 * 1024))
           (ignore (sys (C_setsockopt f SOL_SOCKET SO_SNDBUF [64 * 1024]))));;
      mret ciptr.

(** A connection over a descriptor that is already open. *)
Definition SocketReopen (i type : Z) (f : Z) (port : option bytes) : M ptr :=
  match port with
  | None => mret NULL
  | Some port =>
      let portlen := strlen port + 1 in
      if (portlen <? 0) || (14 <? portlen) then mret NULL
      else
        ciptr ← calloc_conn;
        if bool_decide (ciptr = NULL) then mret NULL
        else
          set ciptr (set_fd f);;
          let addrlen := portlen + Z.of_nat offsetof_sa_data in
          addr ← alloc addrlen (BBytes (replicate (Z.to_nat addrlen) 0));
          if bool_decide (addr = NULL) then free ciptr;; mret NULL
          else
            set ciptr (set_addr addr);;
            set ciptr (set_addrlen addrlen);;
            peer ← alloc addrlen (BBytes (replicate (Z.to_nat addrlen) 0));
            set ciptr (set_peeraddr peer);;
            if bool_decide (peer = NULL) then free addr;; free ciptr;; mret NULL
            else
              set ciptr (set_peeraddrlen addrlen);;
              set ciptr (set_flags (Z.lor TRANS_LOCAL TRANS_NOUNLINK));;
              (* sa_family, then strncpy or strlcpy of portlen bytes *)
              write_bytes addr (le16 AF_UNIX ++ strncpy port (Z.to_nat portlen));;
              set ciptr (set_family AF_UNIX);;
              b ← read_bytes addr addrlen;
              write_bytes peer b;;
              b ← load_bytes addr;
              sa_data ← cstr (drop offsetof_sa_data b);
              let at_data (k : nat) :=
                match addr with NULL => NULL | At l o => At l (o + offsetof_sa_data + k) end in
              match strrchr sa_data 58 with
              | None => when (is_numeric sa_data) (set ciptr (set_port (at_data 0%nat)))
              | Some k => set ciptr (set_port (at_data (S k)))
              end;;
              mret ciptr
  end.

(** while ((i = SocketSelectFamily (i, name)) >= 0) if ((ciptr = open (i)) != NULL) break;
    the index only grows, so the table's length bounds the iterations. *)
Fixpoint open_loop (fuel : nat) (name : bytes) (open : Z -> M ptr) (i : Z) : M (Z * ptr) :=
  match fuel with
  | O => throw OutOfFuel
  | S fuel =>
      let i := SocketSelectFamily i name in
      if i <? 0 then mret (i, NULL)
      else
        ciptr ← open i;
        if negb (bool_decide (ciptr = NULL)) then mret (i, ciptr)
        else open_loop fuel name open i
  end.

Definition open_fuel : nat := S (S NUMSOCKETFAMILIES).

(** SocketOpen (i, Sockettrans2devtab[i].devcotsname) *)
Definition open_cots (i : Z) : M ptr := d ← dev_at i; SocketOpen i (devcotsname d).

Definition SocketOpenCOTSClientBase (transname protocol host port : bytes) (previndex : Z)
    : M ptr :=
  '(i, ciptr) ← open_loop open_fuel transname
    (fun i => p ← open_cots i;
              when (negb (bool_decide (p = NULL))) (set p (set_index i));;
              mret p) previndex;
  if i <? 0 then mret NULL else mret ciptr.

Definition SocketOpenCOTSClient (thistrans : transport) (protocol host port : bytes) : M ptr :=
  SocketOpenCOTSClientBase (TransName thistrans) protocol host port (-1).

Definition SocketOpenCOTSServer (thistrans : transport) (protocol host port : bytes) : M ptr :=
  '(i, ciptr) ← open_loop open_fuel (TransName thistrans) open_cots (-1);
  if i <? 0 then mret NULL
  else
    d ← dev_at i;
    c ← load_conn ciptr;
    when (is_inet (dev_family d))
      (ignore (sys (C_setsockopt (fd c) SOL_SOCKET SO_REUSEADDR [1])));;
    when (dev_family d =? AF_INET6)
      (ignore (sys (C_setsockopt (fd c) IPPROTO_IPV6 IPV6_V6ONLY [1])));;
    set ciptr (set_index i);;
    mret ciptr.

Definition SocketReopenCOTSServer (thistrans : transport) (f : Z) (port : option bytes)
    : M ptr :=
  '(i, ciptr) ← open_loop open_fuel (TransName thistrans)
    (fun i => d ← dev_at i; SocketReopen i (devcotsname d) f port) (-1);
  if i <? 0 then mret NULL
  else set ciptr (set_index i);; mret ciptr.

Definition SocketSetOption (ciptr : ptr) (option arg : Z) : M Z := mret (-1).

(** The string left in [path], or [None] for the return of -1.  An abstract socket has
    '@' in the place of its first NUL. *)
Definition set_sun_path (port : option bytes) (upath : bytes) (abstract : bool)
    : option bytes :=
  let maxlen := Z.of_nat sizeof_sun_path - 1 in
  match port with
  | None | Some [] => None
  | Some ((p0 :: _) as port) =>
      let upath1 := if HAVE_ABSTRACT_SOCKETS && (p0 =? ch "@") then [] else upath in
      let at_ := if HAVE_ABSTRACT_SOCKETS && negb (p0 =? ch "@") && abstract
                 then str "@" else [] in
      let upath2 := if p0 =? ch "/" then [] else upath1 in
      if maxlen <? strlen port + strlen upath2 then None
      else Some (snprintf sizeof_sun_path (at_ ++ upath2 ++ port))
  end.
End sock.

(** ** Properties *)

Section props.
Context {cfg : Config} (e : env).

(** [i] is an entry of the table for transports named [name]. *)
Definition dev_named (i : Z) (name : bytes) (d : Sockettrans2dev) : Prop :=
  0 <= i /\ Sockettrans2devtab !! Z.to_nat i = Some d /\ transname d = name.

Lemma wp_dev_at i name d s (Q : Sockettrans2dev -> state -> Prop) :
  dev_named i name d -> Q d s -> wp (dev_at i) e s Q.
Proof.
  intros (Hi & Hd & _) HQ. unfold dev_at. destruct (Z.ltb_spec i 0); [lia|]. by rewrite Hd.
Qed.

Lemma select_from_spec tab i name :
  match select_from tab i name with
  | Some k =>
      exists n d, k = i + Z.of_nat n /\ tab !! n = Some d /\ transname d = name /\
        (forall m d', (m < n)%nat -> tab !! m = Some d' -> transname d' <> name)
  | None => forall m d', tab !! m = Some d' -> transname d' <> name
  end.
Proof.
  revert i. induction tab as [|d tab IH]; intros i; simpl; [done|].
  unfold strcmp_eq. case_bool_decide as Hn.
  - exists 0%nat, d. split_and!; [lia | done | done | lia].
  - specialize (IH (i + 1)). destruct (select_from tab (i + 1) name) as [k|].
    + destruct IH as (n & d' & -> & Hd & Hname & Hmin).
      exists (S n), d'. split_and!; [lia | done | done |].
      intros [|m] d'' Hm Hd''; simpl in Hd''; [congruence|]. eapply Hmin; [|done]. lia.
    + intros [|m] d' Hd'; simpl in Hd'; [congruence|]. by eapply IH.
Qed.

Lemma SocketSelectFamily_cases first name :
  -1 <= first ->
  let r := SocketSelectFamily first name in
  (first < r /\ (exists d, dev_named r name d) /\
   forall j d, first < j < r -> ~ dev_named j name d) \/
  (r = (if first =? -1 then -2 else -1) /\ forall j d, first < j -> ~ dev_named j name d).
Proof.
  intros Hf. cbn. unfold SocketSelectFamily.
  pose proof (select_from_spec (drop (Z.to_nat (first + 1)) Sockettrans2devtab)
    (first + 1) name) as Hs.
  destruct (select_from _ _ name) as [k|].
  - left. destruct Hs as (n & d & -> & Hd & Hname & Hmin). rewrite lookup_drop in Hd.
    split; [lia|]. split.
    + exists d. split; [lia|]. split; [|done]. rewrite <-Hd. f_equal. lia.
    + intros j d' Hj (_ & Hd' & Hn'). eapply (Hmin (Z.to_nat (j - (first + 1)))); [|  |done].
      { lia. }
      rewrite lookup_drop, <-Hd'. f_equal. lia.
  - right. split; [done|]. intros j d' Hj (_ & Hd' & Hn').
    apply (Hs (Z.to_nat (j - (first + 1))) d'); [|done].
    rewrite lookup_drop, <-Hd'. f_equal. lia.
Qed.

Lemma dev_named_lt i name d : dev_named i name d -> (Z.to_nat i < NUMSOCKETFAMILIES)%nat.
Proof. intros (_ & Hd & _). by eapply lookup_lt_Some. Qed.

(** The search loop comes to an end; [inv] holds while nothing was opened. *)
Lemma wp_open_loop name open (inv : state -> Prop) (post : Z -> ptr -> state -> Prop)
    fuel i s :
  (forall j d s1, dev_named j name d -> inv s1 ->
     wp (open j) e s1 (fun p s2 => (p = NULL /\ inv s2) \/ (p <> NULL /\ post j p s2))) ->
  -1 <= i -> (Z.to_nat (i + 1) <= NUMSOCKETFAMILIES < fuel + Z.to_nat (i + 1))%nat -> inv s ->
  wp (open_loop fuel name open i) e s (fun '(j, p) s' =>
    (j < 0 /\ p = NULL /\ inv s') \/
    (p <> NULL /\ (exists d, dev_named j name d) /\ post j p s')).
Proof.
  intros Hopen. revert i s.
  induction fuel as [|fuel IH]; intros i s Hi Hf Hinv; cbn [open_loop].
  { lia. }
  destruct (SocketSelectFamily_cases i name Hi) as [(Hr & [d Hd] & _)|[Hr _]].
  - destruct (Z.ltb_spec (SocketSelectFamily i name) 0) as [?|_]; [lia|].
    apply wp_bind. eapply wp_mono; [by apply (Hopen _ d)|].
    intros p s' [[-> Hinv']|[Hp Hpost]].
    + cbn. pose proof (dev_named_lt _ _ _ Hd). apply IH; [lia|lia|done].
    + rewrite bool_decide_false by done. apply wp_ret. right. eauto.
  - rewrite Hr. destruct (Z.ltb_spec (if i =? -1 then -2 else -1) 0) as [_|Hge];
      [|by destruct (i =? -1)].
    apply wp_ret. left. split_and!; [by destruct (i =? -1) | done | done].
Qed.

(** The descriptors between [s] and [s']: [n f] says how often [f] stays open, but for those
    SocketOpen lost, and without the check of the limit it loses none. *)
Definition fds_kept (n : Z -> Z) (s s' : state) : Prop :=
  (forall f, ledger f (trace s') = ledger f (trace s) + n f) /\
  (check_open_max = false -> forall f, lost f (trace s') = lost f (trace s)).

(** One more descriptor. *)
Definition just (f f' : Z) : Z := if f' =? f then 1 else 0.
Definition none (f : Z) : Z := 0.

Lemma fds_kept_refl s : fds_kept none s s.
Proof. split; [intros f; unfold none; lia | done]. Qed.

Lemma fds_kept_after n s1 s2 s3 : fds_kept none s1 s2 -> fds_kept n s2 s3 -> fds_kept n s1 s3.
Proof.
  intros [H1 L1] [H2 L2]. split.
  - intros f. rewrite H2, H1. unfold none. lia.
  - intros Hm f. by rewrite L2, L1.
Qed.

Lemma fds_kept_quiet n s1 s2 s3 :
  fds_kept n s1 s2 -> logs_step quiet_call s2 s3 -> fds_kept n s1 s3.
Proof.
  intros [H L] Hs. pose proof (logs_quiet _ _ Hs) as (_ & _ & B).
  destruct Hs as (_ & _ & new & Ht & Hq%quiet_no_limit).
  assert (Hl : forall f, lost f (trace s3) = lost f (trace s2))
    by (intros f; rewrite Ht; by apply lost_app).
  split; [|intros Hm f; by rewrite Hl, L]. intros f. specialize (H f). unfold ledger in *.
  rewrite B, Hl. lia.
Qed.

(** SocketOpen: a fresh connection over a new descriptor, or no trace in the heap. *)
Definition opened (s : state) (p : ptr) (c : Z -> conninfo) (s' : state) : Prop :=
  exists l f, p = At l 0 /\ heap s !! l = None /\ 0 <= f /\ same_globals s s' /\
    heap s' = <[l := BConn (c f)]> (heap s) /\ fds_kept (just f) s s'.

Definition not_opened (s : state) (s' : state) : Prop :=
  heap s' = heap s /\ same_globals s s' /\ fds_kept none s s'.

(** The descriptor [f] just opened. *)
Definition holds (s : state) (l : positive) (f : Z) (c : conninfo) (s' : state) : Prop :=
  heap s' = <[l := BConn c]> (heap s) /\ same_globals s s' /\
  forall f', fd_balance f' (trace s') = fd_balance f' (trace s) + (if f' =? f then 1 else 0).

Lemma holds_quiet s l f c s1 s2 : holds s l f c s1 -> quiet_step s1 s2 -> holds s l f c s2.
Proof.
  intros (H1 & G1 & B1) (H2 & G2 & B2). split_and!; [congruence | |].
  - by eapply same_globals_trans.
  - intros f'. by rewrite B2, B1.
Qed.

Lemma holds_freed s l f c s1 :
  heap s !! l = None -> holds s l f c s1 -> delete l (heap s1) = heap s.
Proof. intros Hl (-> & _). by rewrite delete_insert_id. Qed.

Lemma holds_lookup s l f c s1 : holds s l f c s1 -> heap s1 !! l = Some (BConn c).
Proof. intros (-> & _). apply lookup_insert_eq. Qed.

Lemma wp_SocketOpen i name d type s :
  dev_named i name d ->
  wp (SocketOpen i type) e s (fun p s' =>
    (p = NULL /\ not_opened s s') \/ opened s p (fun f => set_fd f conn0) s').
Proof.
  intros Hd. unfold SocketOpen. do 3 wp_step.
  { rewrite bool_decide_true by done. wp_step. left. split; [done|]. split_and!; [done | done |].
    split; [intros f; unfold none; ledger | intros _ f; st_simpl; by rewrite !lost_cons by done]. }
  rewrite bool_decide_false by done. wp_step. eapply wp_dev_at; [done|]. do 5 wp_step.
  destruct (Z.ltb_spec (a_ret a0) 0) as [Hf|Hf].
  { (* no socket *)
    wp_steps. left. split; [done|]. split_and!; [by heap_eq | done |].
    split; [intros f; unfold none; ledger | intros _ f; st_simpl; by rewrite !lost_cons by done]. }
  set (f := a_ret a0) in *.
  match goal with |- wp _ _ ?st _ => set (s1 := st) end.
  assert (Hl1 : heap s1 !! l = Some (BConn (set_fd f conn0))) by apply lookup_insert_eq.
  assert (Hh1 : heap s1 = <[l := BConn (set_fd f conn0)]> (heap s)) by (subst s1; by heap_eq).
  set (rest := when _ _ ;; _).
  assert (Hrest : forall s2, heap s2 = heap s1 -> same_globals s s2 -> fds_kept (just f) s s2 ->
    wp rest e s2 (fun p s' => opened s p (fun f => set_fd f conn0) s')).
  { intros s2 H2 G2 K2. subst rest. apply wp_bind, (wp_logs e quiet_call); [logs_solve|]. intros _ s3 H3.
    apply wp_bind, (wp_logs e quiet_call); [logs_solve|]. intros _ s4 H4. apply wp_ret.
    destruct (logs_step_trans _ _ _ _ H3 H4) as (Hh4 & Hg4 & H34). exists l, f.
    split_and!; [done | done | done | by eapply same_globals_trans | congruence |].
    by eapply fds_kept_quiet. }
  assert (Hk1 : fds_kept (just f) s s1).
  { split; [intros f'; unfold just; subst s1 f; ledger | intros _ f'; subst s1; st_simpl; by rewrite !lost_cons by done]. }
  destruct check_open_max eqn:Hmax.
  - do 2 wp_step. apply wp_ret. destruct (Z.leb_spec (a_ret a1) f) as [Hlim|Hlim].
    + wp_step. eapply wp_free; [exact Hl1|]. wp_step. left. split; [done|]. split_and!.
      * change (delete l (heap s1) = heap s). by rewrite Hh1, delete_insert_id.
      * done.
      * split; [|by rewrite Hmax]. intros f'. destruct Hk1 as [Hk1 _]. specialize (Hk1 f').
        revert Hk1. unfold ledger, just, none. subst s1 f. cbn. rewrite (Z.eqb_sym f').
        destruct (Z.leb_spec 0 (a_ret a0)), (Z.eqb_spec (a_ret a0) f');
          try destruct (Z.leb_spec (a_ret a1) f'); cbn; lia.
    + eapply wp_mono; [apply Hrest | by right]; [done | done |].
      split; [|by rewrite Hmax]. intros f'. destruct Hk1 as [Hk1 _]. specialize (Hk1 f').
      revert Hk1. unfold ledger, just. subst s1 f. cbn. rewrite (Z.eqb_sym f').
      destruct (Z.leb_spec 0 (a_ret a0)), (Z.eqb_spec (a_ret a0) f');
        try destruct (Z.leb_spec (a_ret a1) f'); cbn; lia.
  - wp_step. eapply wp_mono; [by apply Hrest | by right].
Qed.

Lemma not_opened_refl s : not_opened s s.
Proof. split_and!; [done | done | apply fds_kept_refl]. Qed.

Lemma not_opened_trans s1 s2 s3 : not_opened s1 s2 -> not_opened s2 s3 -> not_opened s1 s3.
Proof.
  intros (H1 & G1 & B1) (H2 & G2 & B2). split_and!; [congruence | |].
  - by eapply same_globals_trans.
  - by eapply fds_kept_after.
Qed.

Lemma opened_after s1 s2 p c s3 : not_opened s1 s2 -> opened s2 p c s3 -> opened s1 p c s3.
Proof.
  intros (H1 & G1 & B1) (l & f & -> & Hl & Hf & G2 & H2 & B2). exists l, f.
  split_and!; [done | by rewrite <-H1 | done | by eapply same_globals_trans | congruence |].
  by eapply fds_kept_after.
Qed.

(** A later change of the connection, and calls that concern no descriptor table. *)
Lemma opened_set s p c s1 g s2 :
  opened s p c s1 -> logs_step quiet_call s1 s2 ->
  wp (set p g) e s2 (fun _ s' => opened s p (fun f => g (c f)) s').
Proof.
  intros (l & f & -> & Hl & Hf & G & Hh & B) Hs. pose proof (fds_kept_quiet _ _ _ _ B Hs) as B2.
  destruct Hs as (Hq & Gq & _).
  eapply wp_set; [rewrite Hq, Hh; apply lookup_insert_eq|]. exists l, f. st_simpl.
  split_and!; [done | done | done | by eapply same_globals_trans | | exact B2].
  by rewrite Hq, Hh, insert_insert_eq.
Qed.

Lemma opened_fresh s p c s' : opened s p c s' -> p <> NULL.
Proof. by intros (l & f & -> & _). Qed.

Lemma wp_open_cots j name d s s1 :
  dev_named j name d -> not_opened s s1 ->
  wp (open_cots j) e s1 (fun p s2 =>
    (p = NULL /\ not_opened s s2) \/ opened s p (fun f => set_fd f conn0) s2).
Proof.
  intros Hd Hs. eapply wp_bind, wp_dev_at; [done|].
  eapply wp_mono; [by eapply wp_SocketOpen|]. intros p s2 [[-> Hn]|Ho].
  - left. split; [done|]. by eapply not_opened_trans.
  - right. by eapply opened_after.
Qed.

(** The result of the Open functions: NULL and nothing changed, or a connection of a
    family of the transport. *)
Definition open_result (name : bytes) (s : state) (p : ptr) (s' : state) : Prop :=
  (p = NULL /\ not_opened s s') \/
  exists i d, dev_named i name d /\
    opened s p (fun f => set_index i (set_fd f conn0)) s'.

Lemma wp_SocketOpenCOTSClientBase name protocol host port previndex s :
  -1 <= previndex < Z.of_nat NUMSOCKETFAMILIES ->
  wp (SocketOpenCOTSClientBase name protocol host port previndex) e s (open_result name s).
Proof.
  intros Hi. unfold SocketOpenCOTSClientBase. apply wp_bind.
  eapply wp_mono.
  - apply (wp_open_loop _ _ (not_opened s)
      (fun j p s' => opened s p (fun f => set_index j (set_fd f conn0)) s')).
    + intros j d s1 Hd Hs1. apply wp_bind. eapply wp_mono; [by eapply wp_open_cots|].
      intros p s2 [[-> Hn]|Ho].
      * rewrite bool_decide_true by done. apply wp_bind, wp_ret, wp_ret. by left.
      * pose proof (opened_fresh _ _ _ _ Ho) as Hp. rewrite bool_decide_false by done.
        apply wp_bind. cbn [negb when]. eapply wp_mono.
        { eapply opened_set; [done | apply logs_step_refl]. }
        intros [] s3 H3. apply wp_ret. by right.
    + lia.
    + unfold open_fuel. lia.
    + apply not_opened_refl.
  - intros [j p] s' [(Hj & -> & Hn)|(Hp & [d Hd] & Ho)].
    + destruct (Z.ltb_spec j 0); [|lia]. apply wp_ret. by left.
    + destruct (Z.ltb_spec j 0); [destruct Hd; lia|]. apply wp_ret. right. eauto.
Qed.

Lemma wp_SocketOpenCOTSServer t protocol host port s :
  wp (SocketOpenCOTSServer t protocol host port) e s (open_result (TransName t) s).
Proof.
  apply wp_bind. eapply wp_mono.
  - apply (wp_open_loop _ _ (not_opened s)
      (fun j p s' => opened s p (fun f => set_fd f conn0) s')).
    + intros j d s1 Hd Hs1. eapply wp_mono; [by eapply wp_open_cots|].
      intros p s2 [H2|H2]; [by left | right; split; [by eapply opened_fresh | done]].
    + lia.
    + unfold open_fuel. lia.
    + apply not_opened_refl.
  - intros [j p] s' [(Hj & -> & Hn)|(Hp & [d Hd] & Ho)].
    + destruct (Z.ltb_spec j 0); [|lia]. apply wp_ret. by left.
    + destruct (Z.ltb_spec j 0); [destruct Hd; lia|]. apply wp_bind.
      eapply wp_dev_at; [done|]. pose proof Ho as (l & f & -> & _ & _ & _ & Hh & _).
      apply wp_bind. eapply wp_load_conn; [rewrite Hh; apply lookup_insert_eq|].
      apply wp_bind, (wp_logs e quiet_call); [logs_solve|]. intros _ s2 H2.
      apply wp_bind, (wp_logs e quiet_call); [logs_solve|]. intros _ s3 H3.
      apply wp_bind. eapply wp_mono.
      { eapply opened_set; [done | by eapply logs_step_trans]. }
      intros [] s4 H4. apply wp_ret. right. eauto.
Qed.

(** *** SocketReopen *)

(** The address of a reopened connection, and the port inside of it: what follows the
    last ':', or all of a numeric port. *)
Definition reopen_addr (port : bytes) : bytes := le16 AF_UNIX ++ port ++ [0].
Definition reopen_port (la : positive) (port : bytes) : ptr :=
  match strrchr port 58 with
  | Some k => At la (offsetof_sa_data + S k)
  | None => if is_numeric port then At la (offsetof_sa_data + 0) else NULL
  end.

Definition reopened (s : state) (f : Z) (port : bytes) (p : ptr) (s' : state) : Prop :=
  exists l la lp, p = At l 0 /\ heap s !! l = None /\ heap s !! la = None /\
    heap s !! lp = None /\ NoDup [l; la; lp] /\ same_globals s s' /\
    (forall f', fd_balance f' (trace s') = fd_balance f' (trace s)) /\
    let len := strlen port + 3 in
    heap s' =
      <[lp := BBytes (reopen_addr port)]> (<[la := BBytes (reopen_addr port)]>
        (<[l := BConn (ConnInfo None 0 NULL (Z.lor TRANS_LOCAL TRANS_NOUNLINK) f
                        (reopen_port la port) AF_UNIX (At la 0) len (At lp 0) len
                        NULL NULL)]> (heap s))).

Lemma strncpy_cstring port :
  le16 AF_UNIX ++ strncpy port (Z.to_nat (strlen port + 1)) = reopen_addr port.
Proof.
  unfold strncpy, fit, strlen, reopen_addr. rewrite take_ge by lia. do 2 f_equal.
  by replace (_ - _)%nat with 1%nat by lia.
Qed.

Lemma length_reopen_addr port : length (reopen_addr port) = Z.to_nat (strlen port + 3).
Proof. unfold reopen_addr, strlen. rewrite !length_app. simpl. lia. Qed.

Lemma wp_SocketReopen i type f port s :
  cstring port -> strlen port <= 13 ->
  wp (SocketReopen i type f (Some port)) e s (fun p s' =>
    (p = NULL /\ quiet_step s s') \/ reopened s f port p s').
Proof.
  intros Hc Hlen. unfold SocketReopen.
  assert (0 <= strlen port) by (unfold strlen; lia).
  destruct (Z.ltb_spec (strlen port + 1) 0); [lia|].
  destruct (Z.ltb_spec 14 (strlen port + 1)); [lia|]. cbn [orb].
  replace (strlen port + 1 + Z.of_nat offsetof_sa_data) with (strlen port + 3)
    by (change (Z.of_nat offsetof_sa_data) with 2; lia).
  rewrite strncpy_cstring. pose proof (length_reopen_addr port) as Hla.
  do 3 wp_step.
  { wp_steps. left. by split_and!. }
  wp_steps.
  { left. split; [done|]. split_and!; [by heap_eq | done | done]. }
  { left. split; [done|]. split_and!; [by heap_eq | done | done]. }
  1-3: rewrite ?write_at_all, ?drop_0, ?length_take, ?length_replicate;
    rewrite ?length_replicate; lia.
  rewrite !write_at_all, drop_0, take_ge by
    (rewrite ?drop_0, ?write_at_all; rewrite ?length_take, ?length_replicate; lia).
  replace (drop offsetof_sa_data (reopen_addr port)) with (port ++ [0]) by done.
  apply wp_cstr; [apply terminated_nul|]. rewrite until_nul_cstring by done.
  assert (Hnd : NoDup [l; l0; l1]) by (repeat constructor; set_solver).
  unfold reopened, reopen_port. destruct (strrchr port 58) as [k|].
  - wp_steps. right. exists l, l0, l1. split_and!; try done. cbn. by heap_eq.
  - destruct (is_numeric port); wp_steps; right; exists l, l0, l1; split_and!; try done;
      cbn; by heap_eq.
Qed.

Lemma wp_SocketReopenCOTSServer t f port s :
  cstring port -> strlen port <= 13 ->
  wp (SocketReopenCOTSServer t f (Some port)) e s (fun p s' =>
    (p = NULL /\ quiet_step s s') \/
    exists i d s1, dev_named i (TransName t) d /\ reopened s f port p s1 /\
      wp (set p (set_index i)) e s1 (fun _ s2 => s' = s2)).
Proof.
  intros Hc Hlen. apply wp_bind. eapply wp_mono.
  - apply (wp_open_loop _ _ (quiet_step s) (fun j p s' => reopened s f port p s')).
    + intros j d s1 Hd Hs1. eapply wp_bind, wp_dev_at; [done|].
      eapply wp_mono; [by apply wp_SocketReopen|]. intros p s2 [[-> Hq]|Hr].
      * left. split; [done|]. by eapply quiet_step_trans.
      * right. destruct Hs1 as (Hh & Hg & Hb).
        destruct Hr as (l & la & lp & -> & H1 & H2 & H3 & H4 & Hg' & Hb' & Hh').
        split; [done|]. exists l, la, lp. rewrite <-Hh.
        split_and!; try done; [by eapply same_globals_trans|].
        intros f'. by rewrite Hb', Hb.
    + lia.
    + unfold open_fuel. lia.
    + apply quiet_step_refl.
  - intros [j p] s' [(Hj & -> & Hn)|(Hp & [d Hd] & Ho)].
    + destruct (Z.ltb_spec j 0); [|lia]. apply wp_ret. by left.
    + destruct (Z.ltb_spec j 0); [destruct Hd; lia|]. apply wp_bind.
      pose proof Ho as (l & la & lp & -> & _ & _ & _ & Hnd & _ & _ & Hh).
      assert (Hl : exists c, heap s' !! l = Some (BConn c)).
      { rewrite Hh. apply NoDup_cons in Hnd as [Hl Hnd]. eexists.
        rewrite !lookup_insert_ne by set_solver. apply lookup_insert_eq. }
      destruct Hl as [c Hl]. eapply wp_set; [exact Hl|]. apply wp_ret. right.
      exists j, d, s'. split_and!; [done|done|]. by eapply wp_set.
Qed.

(** *** set_sun_path *)

(** The text the format puts together: '@' before an abstract name that has none, and
    the directory unless the port is a full path or carries its '@'. *)
Definition sun_text (port upath : bytes) (abstract : bool) : bytes :=
  match port with
  | [] => []
  | p0 :: _ =>
      let named := HAVE_ABSTRACT_SOCKETS && (p0 =? ch "@") in
      (if HAVE_ABSTRACT_SOCKETS && abstract && negb named then str "@" else []) ++
      (if named || (p0 =? ch "/") then [] else upath) ++ port
  end.

Lemma set_sun_path_cases p0 port upath abstract :
  let text := sun_text (p0 :: port) upath abstract in
  let n := strlen text - (if HAVE_ABSTRACT_SOCKETS && abstract &&
                             negb (HAVE_ABSTRACT_SOCKETS && (p0 =? ch "@"))
                          then 1 else 0) in
  set_sun_path (Some (p0 :: port)) upath abstract =
    if 107 <? n then None else Some (take 107 text).
Proof.
  cbn zeta. unfold sun_text, set_sun_path, snprintf, strlen.
  change (Z.of_nat sizeof_sun_path - 1) with 107. change (sizeof_sun_path - 1)%nat with 107%nat.
  change (str "@") with [ch "@"].
  destruct HAVE_ABSTRACT_SOCKETS, abstract, (p0 =? ch "@"), (p0 =? ch "/");
    cbn [andb orb negb app]; rewrite ?length_app; cbn [length];
    repeat match goal with |- context [107 <? ?x] => destruct (Z.ltb_spec 107 x) end;
    rewrite ?app_nil_r; try done; exfalso; rewrite ?length_app in *; cbn [length] in *; lia.
Qed.

Lemma set_sun_path_short port upath abstract path :
  set_sun_path port upath abstract = Some path -> (length path < sizeof_sun_path)%nat.
Proof.
  unfold set_sun_path, snprintf. destruct port as [[|p0 port]|]; [done| |done].
  case_bool; [done|]. intros [= <-]. rewrite length_take. unfold sizeof_sun_path. lia.
Qed.

(** A path shorter than [sun_path] is stored with its NUL. *)
Lemma terminated_sun_path path :
  (length path < sizeof_sun_path)%nat -> terminated (sun_path (mk_sockaddr_un path)) = true.
Proof.
  intros H. unfold sun_path, mk_sockaddr_un.
  rewrite drop_app_length' by done. unfold fit. rewrite take_ge by lia.
  destruct (sizeof_sun_path - length path)%nat as [|k] eqn:E; [lia|]. apply terminated_nul.
Qed.

(** *** The addresses of a socket *)

(** [addr], [family] and [addrlen] from the answer [b] of getsockname in a block [la], and
    the same for the peer's. *)
Definition with_addr (la : positive) (b : bytes) (c : conninfo) : conninfo :=
  set_addrlen (Z.of_nat (length b)) (set_family (sa_family b) (set_addr (At la 0) c)).
Definition with_peeraddr (la : positive) (b : bytes) (c : conninfo) : conninfo :=
  set_peeraddrlen (Z.of_nat (length b)) (set_peeraddr (At la 0) c).

Definition got_addr (l : positive) (c : conninfo) (s : state) (r : Z) (s' : state) : Prop :=
  same_globals s s' /\ balanced s s' /\
  ((r = -1 /\ (heap s' = heap s \/ heap s' = <[l := BConn (set_addr NULL c)]> (heap s))) \/
   (r = 0 /\ exists la n, let b := a_bytes (e (trace s) (C_getsockname (fd c) n)) in
      heap s !! la = None /\
      heap s' = <[la := BBytes b]> (<[l := BConn (with_addr la b c)]> (heap s)))).

Definition got_peeraddr (l : positive) (c : conninfo) (s : state) (r : Z) (s' : state) : Prop :=
  same_globals s s' /\ balanced s s' /\
  ((r = -1 /\ (heap s' = heap s \/ heap s' = <[l := BConn (set_peeraddr NULL c)]> (heap s))) \/
   (r = 0 /\ exists la n, let b := a_bytes (e (trace s) (C_getpeername (fd c) n)) in
      heap s !! la = None /\
      heap s' = <[la := BBytes b]> (<[l := BConn (with_peeraddr la b c)]> (heap s)))).

Lemma fit_short n b : (length b <= n)%nat -> fit n b = b ++ replicate (n - length b) 0.
Proof. intros H. unfold fit. by rewrite take_ge. Qed.

Lemma sa_family_fit n b : (length b <= n)%nat -> sa_family (fit n b) = sa_family b.
Proof.
  intros H. rewrite fit_short by done. unfold sa_family, rd_le16.
  assert (Hnth : forall k m, nth k (replicate m 0) 0 = 0).
  { intros k m. revert k. induction m as [|m IH]; intros [|k]; simpl; auto. }
  destruct b as [|x [|y b]]; cbn [app nth]; rewrite ?Hnth; try done.
Qed.

(** Of the zeroed buffer the bytes of the address are kept. *)
Lemma take_fit n b : (length b <= n)%nat -> take (Z.to_nat (Z.of_nat (length b))) (fit n b) = b.
Proof. intros H. rewrite fit_short, Nat2Z.id by done. by apply take_app_length. Qed.

Lemma wp_SocketINETGetAddr l o c s :
  env_laws e -> heap s !! l = Some (BConn c) ->
  wp (SocketINETGetAddr (At l o)) e s (got_addr l c s).
Proof.
  intros He Hl. unfold SocketINETGetAddr.
  set (n := if IPv6 then sizeof_sockaddr_storage else sizeof_sockaddr_in).
  do 4 wp_step. pose proof (law_getsockname (trace s) (fd c) (Z.of_nat n) (Nat2Z.is_nonneg _)) as Hlen.
  rewrite <-Ha in Hlen. apply Nat2Z.inj_le in Hlen.
  destruct (Z.ltb_spec (a_ret a) 0) as [Hr|Hr].
  { apply wp_ret. split_and!; [done | intros f; balance |]. left. split; [done|]. by left. }
  wp_steps.
  { split_and!; [done | intros f; balance |]. left. split; [done|]. by right. }
  eapply wp_buffer_bytes; [rewrite length_fit; lia|]. rewrite take_fit by done.
  wp_steps; [by rewrite length_replicate, Nat2Z.id|].
  split_and!; [done | intros f; balance |]. right. split; [done|].
  exists l0, (Z.of_nat n). cbv zeta. rewrite <-Ha. split; [done|]. st_simpl.
  rewrite write_at_all by (by rewrite length_replicate, Nat2Z.id).
  rewrite sa_family_fit by done. by heap_eq.
Qed.

(** It returns 0 exactly when getsockname answers and there is memory for the answer. *)
Definition addr_known (c : conninfo) (s : state) (r : Z) : Prop :=
  let ask := C_getsockname (fd c)
    (Z.of_nat (if IPv6 then sizeof_sockaddr_storage else sizeof_sockaddr_in)) in
  let a := e (trace s) ask in
  let m := e (asked e ask (trace s)) (C_malloc (Z.of_nat (length (a_bytes a)))) in
  r = if (a_ret a <? 0) || (a_ret m <? 0) then -1 else 0.

Lemma wp_addr_known l o c s :
  env_laws e -> heap s !! l = Some (BConn c) ->
  wp (SocketINETGetAddr (At l o)) e s (fun r _ => addr_known c s r).
Proof.
  intros He Hl. unfold SocketINETGetAddr, addr_known, asked. do 4 wp_step.
  set (n := if IPv6 then sizeof_sockaddr_storage else sizeof_sockaddr_in) in *.
  pose proof (law_getsockname (trace s) (fd c) (Z.of_nat n) (Nat2Z.is_nonneg _)) as Hlen.
  cbv zeta. rewrite <-Ha in *. apply Nat2Z.inj_le in Hlen.
  destruct (a_ret a <? 0) eqn:Hr; [by apply wp_ret|]. cbn [orb]. wp_steps.
  { cbn [trace] in Hans. rewrite <-Hans. by destruct (Z.ltb_spec (a_ret a0) 0); [|lia]. }
  eapply wp_buffer_bytes; [rewrite length_fit; lia|]. rewrite take_fit by done.
  wp_steps; [by rewrite length_replicate, Nat2Z.id|].
  cbn [trace] in Hans. rewrite <-Hans. by destruct (Z.ltb_spec (a_ret a0) 0); [lia|].
Qed.

Lemma wp_SocketINETGetPeerAddr l o c s :
  env_laws e -> heap s !! l = Some (BConn c) ->
  wp (SocketINETGetPeerAddr (At l o)) e s (got_peeraddr l c s).
Proof.
  intros He Hl. unfold SocketINETGetPeerAddr. do 2 wp_step. cbv zeta.
  set (n := if IPv6 && (family c =? AF_INET6) then _ else _).
  do 2 wp_step. pose proof (law_getpeername (trace s) (fd c) (Z.of_nat n) (Nat2Z.is_nonneg _)) as Hlen.
  rewrite <-Ha in Hlen. apply Nat2Z.inj_le in Hlen.
  destruct (Z.ltb_spec (a_ret a) 0) as [Hr|Hr].
  { apply wp_ret. split_and!; [done | intros f; balance |]. left. split; [done|]. by left. }
  wp_steps.
  { split_and!; [done | intros f; balance |]. left. split; [done|]. by right. }
  eapply wp_buffer_bytes; [rewrite length_fit; lia|]. rewrite take_fit by done.
  wp_steps; [by rewrite length_replicate, Nat2Z.id|].
  split_and!; [done | intros f; balance |]. right. split; [done|].
  exists l0, (Z.of_nat n). cbv zeta. rewrite <-Ha. split; [done|]. st_simpl.
  rewrite write_at_all by (by rewrite length_replicate, Nat2Z.id). by heap_eq.
Qed.

(** ** The properties *)

(** SocketSelectFamily returns the first entry of the table behind [first] that has
    the given name.  Without one the result says whether the search was the first of
    its kind: -2 for [first] = -1, else -1. *)
Theorem SocketSelectFamily_spec first name :
  -1 <= first ->
  let r := SocketSelectFamily first name in
  (first < r /\ (exists d, dev_named r name d) /\
   forall j d, first < j < r -> ~ dev_named j name d) \/
  (r = (if first =? -1 then -2 else -1) /\ forall j d, first < j -> ~ dev_named j name d).
Proof. apply SocketSelectFamily_cases. Qed.

(** Opening a socket, for a client or a server, always comes to an end, without
    undefined behaviour.  It returns NULL and leaves the heap as it was (and no descriptor
    open but one not below the limit of open files), or a new connection over a new
    descriptor with the index of a socket family of the transport. *)
Theorem SocketOpenCOTS_spec t protocol host port s :
  wp (SocketOpenCOTSClient t protocol host port) e s (open_result (TransName t) s) /\
  wp (SocketOpenCOTSServer t protocol host port) e s (open_result (TransName t) s).
Proof.
  split; [|apply wp_SocketOpenCOTSServer].
  apply wp_SocketOpenCOTSClientBase. unfold NUMSOCKETFAMILIES. lia.
Qed.

(** A socket whose descriptor is not below the limit of open files is refused, but
    not closed: the descriptor is lost. *)
Lemma SocketOpen_leaks_descriptor i name d type s n f :
  dev_named i name d -> check_open_max = true -> n <= f -> 0 <= f ->
  (forall tr, a_ret (e tr (C_malloc sizeof_conninfo)) = 0) ->
  (forall tr p, a_ret (e tr (C_socket (dev_family d) type p)) = f) ->
  (forall tr, a_ret (e tr C_sysconf_open_max) = n) ->
  wp (SocketOpen i type) e s (fun p s' =>
    p = NULL /\ fd_balance f (trace s') = fd_balance f (trace s) + 1).
Proof.
  intros Hd Hmax Hn Hf Hm Hs Ho. unfold SocketOpen. rewrite Hmax.
  do 3 wp_step; [subst a; rewrite Hm in *; lia|].
  do 2 wp_step. eapply wp_dev_at; [done|]. do 5 wp_step.
  assert (Hr : a_ret a0 = f) by by subst a0. rewrite Hr.
  destruct (Z.ltb_spec f 0); [lia|]. do 3 wp_step. assert (a_ret a1 = n) as -> by by subst a1.
  destruct (Z.leb_spec n f); [|lia]. wp_steps.
  split; [done|]. balance.
Qed.

(** A reopened connection is over the descriptor given, of family AF_UNIX, marked
    local and not to be unlinked; its address and its peer's are separate copies of the
    port text, and its port points behind the last ':' of the first one.  When memory
    runs out nothing stays allocated. *)
Theorem SocketReopen_spec i type f port s :
  cstring port -> strlen port <= 13 ->
  wp (SocketReopen i type f (Some port)) e s (fun p s' =>
    (p = NULL /\ quiet_step s s') \/ reopened s f port p s').
Proof. apply wp_SocketReopen. Qed.

(** Set_sun_path leaves a string that fits sun_path with its NUL, and rejects a port
    whose text would not fit; the text is kept whole, but for an abstract name that is
    one byte too long, which loses its last byte. *)
Theorem set_sun_path_spec p0 port upath abstract :
  let text := sun_text (p0 :: port) upath abstract in
  match set_sun_path (Some (p0 :: port)) upath abstract with
  | Some path =>
      (length path < sizeof_sun_path)%nat /\
      ((strlen text <= 107 /\ path = text) \/
       (HAVE_ABSTRACT_SOCKETS = true /\ abstract = true /\ p0 <> ch "@" /\
        strlen text = 108 /\ path = take 107 text))
  | None => 107 < strlen text
  end.
Proof.
  cbn zeta. rewrite set_sun_path_cases. cbv zeta.
  set (text := sun_text _ _ _).
  match goal with |- context [107 <? ?x] => destruct (Z.ltb_spec 107 x) as [Hn|Hn] end.
  - destruct (HAVE_ABSTRACT_SOCKETS && _ && _); lia.
  - split; [rewrite length_take; change sizeof_sun_path with 108%nat; lia|].
    unfold strlen in *. destruct (decide (Z.of_nat (length text) <= 107)) as [Hl|Hl].
    + left. split; [done|]. apply take_ge. lia.
    + right. destruct HAVE_ABSTRACT_SOCKETS, abstract, (Z.eqb_spec p0 (ch "@"));
        cbn [andb negb] in Hn; split_and!; done || lia.
Qed.

(** So two ports that differ in the last byte can name one abstract socket. *)
Theorem set_sun_path_collision p0 port a b upath :
  HAVE_ABSTRACT_SOCKETS = true -> p0 <> ch "@" -> p0 <> ch "/" ->
  (length upath + length (p0 :: port ++ [a]))%nat = 107%nat ->
  set_sun_path (Some (p0 :: port ++ [a])) upath true =
    set_sun_path (Some (p0 :: port ++ [b])) upath true /\
  set_sun_path (Some (p0 :: port ++ [a])) upath true <> None.
Proof.
  intros Ha H1 H2 Hl. rewrite !set_sun_path_cases. unfold sun_text. rewrite Ha.
  apply Z.eqb_neq in H1 as ->. apply Z.eqb_neq in H2 as ->. cbn [andb orb negb].
  rewrite !app_comm_cons, !app_assoc. set (q := (str "@" ++ upath) ++ p0 :: port).
  assert (Hq : length q = 107%nat).
  { unfold q. rewrite !length_app. rewrite app_comm_cons, length_app in Hl.
    cbn [length] in *. change (length (str "@")) with 1%nat. lia. }
  unfold strlen. rewrite !length_app, Hq, !take_app_length' by done. by split.
Qed.
End props.

(** ** Witnesses *)

Lemma SocketSelectFamily_spec_witness :
  SocketSelectFamily (cfg := linux X11_t) (-1) (str "unix") = 4 /\
  ((-1 < 4 /\ (exists d, dev_named (cfg := linux X11_t) 4 (str "unix") d) /\
    forall j d, -1 < j < 4 -> ~ dev_named (cfg := linux X11_t) j (str "unix") d) \/
   (4 = -2 /\ forall j d, -1 < j -> ~ dev_named (cfg := linux X11_t) j (str "unix") d)).
Proof.
  split; [by vm_compute|].
  apply (SocketSelectFamily_spec (cfg := linux X11_t) (-1) (str "unix")). lia.
Defined.

Definition env_above_limit : env :=
  env_of (fun c => match c with
                   | C_socket _ _ _ => Some (ans 1024)
                   | C_sysconf_open_max => Some (ans 1024)
                   | _ => None
                   end).

Lemma SocketOpen_leaks_descriptor_witness :
  wp (SocketOpen (cfg := linux FS_t) 4 SOCK_STREAM) env_above_limit state0 (fun p s' =>
    p = NULL /\ fd_balance 1024 (trace s') = 0 + 1).
Proof.
  apply (SocketOpen_leaks_descriptor (cfg := linux FS_t) env_above_limit 4 (str "unix")
    (SockDev (str "unix") AF_UNIX SOCK_STREAM SOCK_DGRAM 0) SOCK_STREAM state0 1024 1024);
    [by split_and!; [lia| |] | by vm_compute | lia | lia | done | done | done].
Defined.

Lemma SocketReopen_spec_witness :
  wp (SocketReopen 4 SOCK_STREAM 3 (Some (str "host:0"))) env0 state0
    (fun p s' => (p = NULL /\ quiet_step state0 s') \/ reopened state0 3 (str "host:0") p s').
Proof.
  apply SocketReopen_spec; [by apply (bool_decide_unpack _); vm_compute | by vm_compute].
Defined.

Lemma set_sun_path_collision_witness :
  set_sun_path (cfg := linux XIM_t) (Some (ch "a" :: replicate 87 (ch "b") ++ [ch "c"]))
    (UNIX_PATH (cfg := linux XIM_t)) true =
  set_sun_path (cfg := linux XIM_t) (Some (ch "a" :: replicate 87 (ch "b") ++ [ch "d"]))
    (UNIX_PATH (cfg := linux XIM_t)) true /\
  set_sun_path (cfg := linux XIM_t) (Some (ch "a" :: replicate 87 (ch "b") ++ [ch "c"]))
    (UNIX_PATH (cfg := linux XIM_t)) true <> None.
Proof. by apply (set_sun_path_collision (cfg := linux XIM_t)). Defined.
