(* ===== verification/SockListen.v ===== *)
(** * The server side of Xtranssock.c

    Creating listeners for INET and UNIX domain sockets, resetting a UNIX listener whose
    socket file disappeared, and accepting connections. *)

From S2P Require Import Prelude CLib Xtransint World Logic Tables Util SockOpen.
Open Scope Z_scope.

Section listen.
Context {cfg : Config}.

(** while (bind (...) < 0) { ... }: [None] when the loop is left to go on, else the
    value to return.  [retry] counts down to 0, sleeping in between. *)
Fixpoint bind_loop (retry : nat) (fd : Z) (sa : bytes) (flags : Z) : M (option Z) :=
  r ← sys_ret (C_bind fd sa);
  if r <? 0 then
    er ← EGET;
    if er =? EADDRINUSE then
      if has flags ADDR_IN_USE_ALLOWED then mret None
      else mret (Some TRANS_ADDR_IN_USE)
    else
      match retry with
      | O => sys_ret (C_close fd);; mret (Some TRANS_CREATE_LISTENER_FAILED)
      | S retry => sys_ret (C_sleep 1);; bind_loop retry fd sa flags
      end
  else mret None.

(** [sa] is the first [socknamelen] bytes of [sockname]. *)
Definition SocketCreateListener (ciptr : ptr) (sa : bytes) (lflags : Z) : M Z :=
  c ← load_conn ciptr;
  d ← dev_at (index c);
  let inet := is_inet (dev_family d) in
  let retry := if inet then 20%nat else 0%nat in
  r ← bind_loop retry (fd c) sa lflags;
  match r with
  | Some status => mret status
  | None =>
      when inet (ignore (sys (C_setsockopt (fd c) SOL_SOCKET SO_LINGER [0; 0])));;
      r ← sys_ret (C_listen (fd c) BACKLOG);
      if r <? 0 then
        sys_ret (C_close (fd c));; mret TRANS_CREATE_LISTENER_FAILED
      else
        set ciptr (fun c => set_flags (Z.lor 1 (Z.land (flags c) TRANS_KEEPFLAGS)) c);;
        mret 0
  end.

(** The display number of an X server becomes a TCP port. *)
Definition x_tcp_port (port : option bytes) : M (option bytes) :=
  if is_client X11_t then
    n ← is_numeric_p port;
    if (n : bool) then
      tmpport ← long_add X_TCP_PORT (strtol (default [] port));
      mret (Some (snprintf PORTBUFSIZE (print_lu tmpport)))
    else mret port
  else mret port.

(** The port of the listener; [None] for the return of TRANS_CREATE_LISTENER_FAILED.
    [a_val] of the answer of getservbyname is the [s_port] field as it is stored. *)
Definition listener_sport (port : option bytes) : M (option Z) :=
  match port with
  | None | Some [] => mret (Some 0)
  | Some port =>
      if negb (is_numeric port) then
        servp ← sys (C_getservbyname port (str "tcp"));
        if a_ret servp <? 0 then mret None else mret (Some (u16 (a_val servp)))
      else
        let tmpport := strtol port in
        if (tmpport <? 1024) || (USHRT_MAX <? tmpport) then mret None
        else mret (Some (u16 tmpport))
  end.

Definition SocketINETCreateListener (ciptr : ptr) (port : option bytes) (lflags : Z) : M Z :=
  port ← x_tcp_port port;
  sport ← listener_sport port;
  match sport with
  | None => mret TRANS_CREATE_LISTENER_FAILED
  | Some sport =>
      c ← load_conn ciptr;
      d ← dev_at (index c);
      let sockname :=
        if negb IPv6 || (dev_family d =? AF_INET)
        then mk_sockaddr_in sport INADDR_ANY
        else mk_sockaddr_in6 sport in6addr_any in
      status ← SocketCreateListener ciptr sockname lflags;
      if status <? 0 then mret status
      else
        r ← SocketINETGetAddr ciptr;
        if r <? 0 then mret TRANS_CREATE_LISTENER_FAILED else mret 0
  end.

(** ciptr->transptr->flags & TRANS_ABSTRACT, under HAVE_ABSTRACT_SOCKETS *)
Definition conn_abstract (ciptr : ptr) : M bool :=
  if HAVE_ABSTRACT_SOCKETS then f ← conn_tflags ciptr; mret (has f TRANS_ABSTRACT)
  else mret false.

Definition dir_mode : Z := if HAS_STICKY_DIR_BIT then 1023 else 511.  (* 01777, 0777 *)

(** The bytes of a sockaddr_un, and SUN_LEN. *)
Definition SUN_LEN (path : bytes) : Z := Z.of_nat offsetof_sun_path + strlen path.

(** The listener at [port], the directory being there. *)
Definition unix_listen_at (ciptr : ptr) (port : bytes) (abstract : bool) (oldUmask lflags : Z)
    : M Z :=
  match set_sun_path (Some port) UNIX_PATH abstract with
  | None => mret TRANS_CREATE_LISTENER_FAILED
  | Some path =>
      (* sockname: sun_path[0] = '\0' for an abstract socket *)
      let sun := if abstract then 0 :: drop 1 path else path in
      let sockname := mk_sockaddr_un sun in
      let namelen :=
        if abstract
        then Z.of_nat offsetof_sun_path + 1 + strlen (until_nul (drop 1 (sun_path sockname)))
        else SUN_LEN path in
      when (negb abstract) (ignore (sys_ret (C_unlink path)));;
      sa ← buffer_bytes sockname namelen;
      status ← SocketCreateListener ciptr sa lflags;
      if status <? 0 then
        sys_ret (C_umask oldUmask);; mret status
      else
        let namelen := Z.of_nat sizeof_sockaddr_un in
        p ← malloc_bytes namelen;
        set ciptr (set_addr p);;
        if bool_decide (p = NULL) then
          sys_ret (C_umask oldUmask);; mret TRANS_CREATE_LISTENER_FAILED
        else
          let sockname := if abstract then write_at offsetof_sun_path (str "@") sockname
                          else sockname in
          set ciptr (set_family (sa_family sockname));;
          set ciptr (set_addrlen namelen);;
          write_bytes p sockname;;
          sys_ret (C_umask oldUmask);;
          mret 0
  end.

Definition SocketUNIXCreateListener (ciptr : ptr) (port : option bytes) (lflags : Z) : M Z :=
  abstract ← conn_abstract ciptr;
  oldUmask ← sys_ret (C_umask 0);
  failed ← (if negb abstract then r ← trans_mkdir UNIX_DIR dir_mode; mret (r =? -1)
            else mret false);
  if (failed : bool) then
    sys_ret (C_umask oldUmask);; mret TRANS_CREATE_LISTENER_FAILED
  else
    port ←
      match port with
      | None | Some [] =>
          pid ← sys_ret C_getpid;
          mret (snprintf 108 (UNIX_PATH ++ print_ld pid))
      | Some port => mret port
      end;
    unix_listen_at ciptr port abstract oldUmask lflags.

(** stat (sun_path) fails, or finds something else than a socket. *)
Definition socket_file_lost (path : bytes) : M bool :=
  a ← sys (C_stat path);
  mret ((a_ret a =? -1) || negb (Z.land (st_mode (a_stat a)) S_IFMT =? S_IFSOCK)).

(** A new socket at the old address. *)
Definition unix_reset_socket (ciptr : ptr) (oldUmask : Z) : M Z :=
  c ← load_conn ciptr;
  let unsock := addr c in
  sys_ret (C_close (fd c));;
  path ← load_sun_path unsock;
  sys_ret (C_unlink path);;
  f ← sys_ret (C_socket AF_UNIX SOCK_STREAM 0);
  set ciptr (set_fd f);;
  if f <? 0 then
    FreeConnInfo ciptr;; sys_ret (C_umask oldUmask);; mret TRANS_RESET_FAILURE
  else
    sa ← read_bytes unsock (addrlen c);
    r ← sys_ret (C_bind f sa);
    if r <? 0 then
      sys_ret (C_close f);; FreeConnInfo ciptr;; mret TRANS_RESET_FAILURE
    else
      r ← sys_ret (C_listen f BACKLOG);
      if r <? 0 then
        sys_ret (C_close f);; FreeConnInfo ciptr;;
        sys_ret (C_umask oldUmask);; mret TRANS_RESET_FAILURE
      else
        sys_ret (C_umask oldUmask);;
        mret TRANS_RESET_NEW_FD.

Definition SocketUNIXResetListener (ciptr : ptr) : M Z :=
  c ← load_conn ciptr;
  let unsock := addr c in
  abstract ← conn_abstract ciptr;
  lost ← (if negb abstract then
            path ← load_sun_path unsock; socket_file_lost path
          else mret false);
  if negb lost then mret TRANS_RESET_NOOP
  else
    oldUmask ← sys_ret (C_umask 0);
    r ← trans_mkdir UNIX_DIR dir_mode;
    if r =? -1 then
      sys_ret (C_umask oldUmask);; mret TRANS_RESET_FAILURE
    else unix_reset_socket ciptr oldUmask.

(** The connection (NULL on failure) and *status. *)
Definition SocketINETAccept (ciptr : ptr) : M (ptr * Z) :=
  newciptr ← calloc_conn;
  if bool_decide (newciptr = NULL) then mret (NULL, TRANS_ACCEPT_BAD_MALLOC)
  else
    c ← load_conn ciptr;
    f ← sys_ret (C_accept (fd c) (Z.of_nat sizeof_sockaddr_in));
    set newciptr (set_fd f);;
    if f <? 0 then free newciptr;; mret (NULL, TRANS_ACCEPT_FAILED)
    else
      sys (C_setsockopt f IPPROTO_TCP TCP_NODELAY [1]);;
      r ← SocketINETGetAddr newciptr;
      if r <? 0 then
        n ← load_conn newciptr;
        sys_ret (C_close (fd n));;
        free newciptr;;
        mret (NULL, TRANS_ACCEPT_MISC_ERROR)
      else
        r ← SocketINETGetPeerAddr newciptr;
        if r <? 0 then
          n ← load_conn newciptr;
          sys_ret (C_close (fd n));;
          when (negb (bool_decide (addr n = NULL))) (free (addr n));;
          free newciptr;;
          mret (NULL, TRANS_ACCEPT_MISC_ERROR)
        else mret (newciptr, 0).

(** memcpy (p, ciptr->addr, n) *)
Definition copy_addr (p ciptr : ptr) (n : Z) : M unit :=
  c ← load_conn ciptr;
  b ← read_bytes (addr c) n;
  write_bytes p b.

Definition SocketUNIXAccept (ciptr : ptr) : M (ptr * Z) :=
  newciptr ← calloc_conn;
  if bool_decide (newciptr = NULL) then mret (NULL, TRANS_ACCEPT_BAD_MALLOC)
  else
    c ← load_conn ciptr;
    a ← sys (C_accept (fd c) (Z.of_nat sizeof_sockaddr_un));
    let f := a_ret a in
    set newciptr (set_fd f);;
    if f <? 0 then free newciptr;; mret (NULL, TRANS_ACCEPT_FAILED)
    else
      let namelen := Z.of_nat (length (a_bytes a)) in
      set ciptr (set_addrlen namelen);;
      p ← malloc_bytes namelen;
      set newciptr (set_addr p);;
      if bool_decide (p = NULL) then
        sys_ret (C_close f);; free newciptr;; mret (NULL, TRANS_ACCEPT_BAD_MALLOC)
      else
        set newciptr (set_addrlen namelen);;
        copy_addr p ciptr namelen;;
        q ← malloc_bytes namelen;
        set newciptr (set_peeraddr q);;
        if bool_decide (q = NULL) then
          sys_ret (C_close f);; free p;; free newciptr;; mret (NULL, TRANS_ACCEPT_BAD_MALLOC)
        else
          set newciptr (set_peeraddrlen namelen);;
          copy_addr q ciptr namelen;;
          set newciptr (set_family AF_UNIX);;
          mret (newciptr, 0).
End listen.

(** ** Properties *)

Section props.
Context {cfg : Config} (e : env).

(** *** Binding and listening *)

(** The three ways a bind fails or not. *)
Definition bound (fl : Z) (a : answer) : Prop :=
  0 <= a_ret a \/
  (a_ret a < 0 /\ a_errno a = EADDRINUSE /\ has fl ADDR_IN_USE_ALLOWED = true).
Definition in_use (a : answer) : Prop := a_ret a < 0 /\ a_errno a = EADDRINUSE.
Definition no_bind (a : answer) : Prop := a_ret a < 0 /\ a_errno a <> EADDRINUSE.

(** [tries f sa P k tr tr']: behind the calls [tr], [k] times bind failed for another reason
    than an address in use and one second passed; then it answered what satisfies [P]. *)
Inductive tries (f : Z) (sa : bytes) (P : answer -> Prop) : nat -> log -> log -> Prop :=
  | tries_last tr :
      P (e tr (C_bind f sa)) -> tries f sa P 0 tr (asked e (C_bind f sa) tr)
  | tries_again k tr tr' :
      no_bind (e tr (C_bind f sa)) ->
      tries f sa P k (asked e (C_sleep 1) (asked e (C_bind f sa) tr)) tr' ->
      tries f sa P (S k) tr tr'.

Lemma wp_bind_loop retry f sa fl s :
  wp (bind_loop retry f sa fl) e s (fun r s' =>
    heap s' = heap s /\ same_globals s s' /\ exists k, (k <= retry)%nat /\
    match r with
    | None => tries f sa (bound fl) k (trace s) (trace s')
    | Some st =>
        (st = TRANS_ADDR_IN_USE /\ has fl ADDR_IN_USE_ALLOWED = false /\
         tries f sa in_use k (trace s) (trace s')) \/
        (st = TRANS_CREATE_LISTENER_FAILED /\ k = retry /\ exists tr,
         tries f sa no_bind k (trace s) tr /\ trace s' = asked e (C_close f) tr)
    end).
Proof.
  revert s. induction retry as [|retry IH]; intros s; cbn [bind_loop]; do 2 wp_step;
    subst a; (destruct (Z.ltb_spec (a_ret (e (trace s) (C_bind f sa))) 0) as [Hr|Hr];
      [|apply wp_ret; split_and!; [done | done |]; exists 0%nat; split;
        [lia | apply tries_last; by left]]);
    do 2 wp_step; (destruct (Z.eqb_spec (a_errno (e (trace s) (C_bind f sa))) EADDRINUSE) as [He|He];
      [destruct (has fl ADDR_IN_USE_ALLOWED) eqn:Hf; apply wp_ret; split_and!;
        try done; exists 0%nat; (split; [lia|]);
        [ apply tries_last; by right
        | left; split_and!; [done | done | by apply tries_last] ]|]).
  - wp_steps. subst a. split_and!; [done | done |]. exists 0%nat. split; [lia|]. right.
    split_and!; [done | done |]. eexists. split; [by apply tries_last | done].
  - wp_steps. subst a. eapply wp_mono; [apply IH|]. intros r s' (Hh & Hg & k & Hk & Hc).
    split_and!; [done | done |]. exists (S k). split; [lia|]. destruct r as [st|].
    + destruct Hc as [(-> & H1 & H2)|(-> & -> & tr & H2 & H3)].
      * left. split_and!; [done | done | by apply tries_again].
      * right. split_and!; [done | done |]. exists tr. split; [by apply tries_again | done].
    + by apply tries_again.
Qed.

(** The last call was a bind with an answer that satisfies [P]. *)
Definition last_bind (f : Z) (sa : bytes) (P : answer -> Prop) (s : state) : Prop :=
  exists a tr, trace s = (C_bind f sa, a) :: tr /\ P a.

(** What SocketCreateListener does to the connection [c] at [l] over device [d]. *)
Definition inet_retries (d : Sockettrans2dev) : nat :=
  if is_inet (dev_family d) then 20%nat else 0%nat.
Definition linger_calls (d : Sockettrans2dev) (f : Z) : list call :=
  if is_inet (dev_family d) then [C_setsockopt f SOL_SOCKET SO_LINGER [0; 0]] else [].
Definition listener_flags (c : conninfo) : Z := Z.lor 1 (Z.land (flags c) TRANS_KEEPFLAGS).

Definition listener_made (l : positive) (c : conninfo) (d : Sockettrans2dev) (sa : bytes)
    (lflags : Z) (s : state) (st : Z) (s' : state) : Prop :=
  let f := fd c in
  same_globals s s' /\ exists k tr1, (k <= inet_retries d)%nat /\
  let tr2 := ask_all e (linger_calls d f) tr1 in
  let listened := e tr2 (C_listen f BACKLOG) in
  ( (* bound and listening *)
   (st = 0 /\ heap s' = <[l := BConn (set_flags (listener_flags c) c)]> (heap s) /\
    tries f sa (bound lflags) k (trace s) tr1 /\ 0 <= a_ret listened /\
    trace s' = asked e (C_listen f BACKLOG) tr2) \/
   (* somebody else listens there; the descriptor stays open *)
   (st = TRANS_ADDR_IN_USE /\ has lflags ADDR_IN_USE_ALLOWED = false /\ heap s' = heap s /\
    tries f sa in_use k (trace s) (trace s')) \/
   (* bind or listen failed; the descriptor is closed *)
   (st = TRANS_CREATE_LISTENER_FAILED /\ heap s' = heap s /\
    ((k = inet_retries d /\ tries f sa no_bind k (trace s) tr1 /\
      trace s' = asked e (C_close f) tr1) \/
     (tries f sa (bound lflags) k (trace s) tr1 /\ a_ret listened < 0 /\
      trace s' = asked e (C_close f) (asked e (C_listen f BACKLOG) tr2))))).

Lemma wp_SocketCreateListener l o c d name sa lflags s :
  heap s !! l = Some (BConn c) -> dev_named (index c) name d ->
  wp (SocketCreateListener (At l o) sa lflags) e s (listener_made l c d sa lflags s).
Proof.
  intros Hl Hd. unfold SocketCreateListener. do 2 wp_step. apply wp_bind.
  eapply wp_dev_at; [exact Hd|]. cbv zeta. apply wp_bind.
  eapply wp_mono; [apply wp_bind_loop|]. intros r s1 (Hh & Hg & k & Hk & Hc).
  destruct r as [st|].
  { apply wp_ret. split; [done|].
    destruct Hc as [(-> & H1 & H2)|(-> & -> & tr & H2 & H3)]; [exists k, (trace s1) | exists (inet_retries d), tr];
      (split; [done|]); [right; left | right; right]; by split_and!; auto. }
  apply wp_bind.
  eapply (wp_mono _ _ _ (fun _ s2 => heap s2 = heap s1 /\ same_globals s1 s2 /\
    trace s2 = ask_all e (linger_calls d (fd c)) (trace s1))).
  { unfold linger_calls. destruct (is_inet (dev_family d)); wp_steps; try subst a;
      by split_and!. }
  intros _ s2 (Hh2 & Hg2 & Ht2).
  assert (Hg3 : same_globals s s2) by by eapply same_globals_trans.
  do 2 wp_step. subst a. rewrite Ht2. destruct (Z.ltb_spec (a_ret (e (ask_all e (linger_calls d (fd c))
    (trace s1)) (C_listen (fd c) BACKLOG))) 0) as [Ha'|Ha'].
  - wp_steps. subst a. split; [done|]. exists k, (trace s1). split; [done|]. right. right.
    split_and!; [done | cbn; congruence | right]. by split_and!.
  - wp_steps. eapply wp_set; [cbn; rewrite Hh2, Hh; exact Hl|]. apply wp_ret.
    split; [done|]. exists k, (trace s1). split; [done|]. left. split_and!; try done.
    cbn. by rewrite Hh2, Hh.
Qed.

(** *** Ports *)

Lemma is_numeric_Forall s : is_numeric s = true <-> Forall (fun c => isdigit c = true) s.
Proof.
  induction s as [|c s IH]; simpl; [by split|]. rewrite Forall_cons.
  destruct (isdigit c); simpl; naive_solver.
Qed.

Lemma is_numeric_print_lu n : is_numeric (print_lu n) = true.
Proof.
  apply is_numeric_Forall, digits_isdigit. unfold u64. apply Z.mod_pos_bound. lia.
Qed.

Lemma strtol_numeric s : is_numeric s = true -> 0 <= strtol s <= LONG_MAX.
Proof.
  rewrite is_numeric_Forall. intros Hs. unfold strtol, LONG_MIN, LONG_MAX.
  destruct Hs as [|c s Hc Hs]; cbn [skip_space]; [lia|].
  assert (48 <= c <= 57) by by apply isdigit_spec.
  replace (isspace c) with false by (unfold isspace; lia).
  destruct (Z.eqb_spec c 45); [lia|]. destruct (Z.eqb_spec c 43); [lia|].
  pose proof (digits_value_nonneg 0 (c :: s)). lia.
Qed.

Lemma wp_x_tcp_port port s :
  is_client X11_t = true -> is_numeric port = true -> strtol port <= LONG_MAX - X_TCP_PORT ->
  wp (x_tcp_port (Some port)) e s (fun r s' =>
    s' = s /\ r = Some (print_lu (X_TCP_PORT + strtol port))).
Proof.
  intros Hx Hn Hle. pose proof (strtol_numeric _ Hn). unfold x_tcp_port, X_TCP_PORT in *.
  rewrite Hx. apply wp_bind, wp_ret. rewrite Hn. apply wp_bind.
  change (default [] (Some port)) with port. apply wp_long_add; [unfold LONG_MIN, LONG_MAX in *; lia|]. apply wp_ret. split; [done|].
  rewrite snprintf_fits; [done|]. unfold print_lu.
  pose proof (length_digits 20 (u64 (6000 + strtol port))) as Hd.
  change PORTBUFSIZE with 32%nat. lia.
Qed.

(** The port a listener gets for the text of a number. *)
Definition unprivileged (n : Z) : option Z :=
  if (n <? 1024) || (USHRT_MAX <? n) then None else Some n.

Lemma wp_listener_sport_lu n s :
  0 <= n <= LONG_MAX ->
  wp (listener_sport (Some (print_lu n))) e s (fun r s' => s' = s /\ r = unprivileged n).
Proof.
  intros Hn. unfold listener_sport, unprivileged.
  pose proof (digits_nonempty 19 (u64 n)) as Hne.
  pose proof (is_numeric_print_lu n) as Hnum. pose proof (strtol_print_lu n Hn) as Hv.
  unfold print_lu in *. destruct (digits 20 (u64 n)) as [|c p]; [done|].
  rewrite Hnum, Hv. cbn [negb]. cbv zeta. unfold USHRT_MAX.
  destruct (Z.ltb_spec n 1024), (Z.ltb_spec 65535 n); cbn [orb]; apply wp_ret;
    (split; [done|]); try done.
  unfold u16. by rewrite Z.mod_small by lia.
Qed.

Lemma wp_display_port port s :
  is_client X11_t = true -> is_numeric port = true -> strtol port <= LONG_MAX - X_TCP_PORT ->
  wp (p ← x_tcp_port (Some port); listener_sport p) e s (fun r s' =>
    s' = s /\ r = unprivileged (X_TCP_PORT + strtol port)).
Proof.
  intros Hx Hn Hle. pose proof (strtol_numeric _ Hn).
  apply wp_bind. eapply wp_mono; [by apply wp_x_tcp_port|]. intros r s' [-> ->].
  apply wp_listener_sport_lu. unfold X_TCP_PORT in *. lia.
Qed.

(** *** INET listeners *)

(** The wildcard address with port [n] for device [d]. *)
Definition inet_sockaddr (d : Sockettrans2dev) (n : Z) : bytes :=
  if negb IPv6 || (dev_family d =? AF_INET)
  then mk_sockaddr_in n INADDR_ANY else mk_sockaddr_in6 n in6addr_any.

(** Binding to port [n], then asking for the address. *)
Definition inet_listener_made (l : positive) (c : conninfo) (d : Sockettrans2dev) (n lflags : Z)
    (s : state) (st : Z) (s' : state) : Prop :=
  exists st1 s1, listener_made l c d (inet_sockaddr d n) lflags s st1 s1 /\
    if st1 =? 0 then
      (* bound; the descriptor stays open even if the address cannot be had *)
      got_addr e l (set_flags (listener_flags c) c) s1 st s' /\ addr_known e c s1 st
    else st = st1 /\ s' = s1.

Lemma wp_inet_listener l c d name n lflags s :
  env_laws e -> heap s !! l = Some (BConn c) -> dev_named (index c) name d ->
  wp (status ← SocketCreateListener (At l 0) (inet_sockaddr d n) lflags;
      if status <? 0 then mret status
      else
        r ← SocketINETGetAddr (At l 0);
        if r <? 0 then mret TRANS_CREATE_LISTENER_FAILED else mret 0) e s
    (inet_listener_made l c d n lflags s).
Proof.
  intros He Hl Hd. apply wp_bind.
  eapply wp_mono; [by eapply wp_SocketCreateListener|]. intros st1 s1 Hm.
  pose proof Hm as (_ & k & tr1 & _ & [(-> & Hh & _)|[(-> & _)|(-> & _)]]);
    [|apply wp_ret; by exists TRANS_ADDR_IN_USE, s1
     |apply wp_ret; by exists TRANS_CREATE_LISTENER_FAILED, s1].
  cbn [Z.ltb Z.compare]. apply wp_bind. eapply wp_mono.
  { apply wp_and; [eapply wp_SocketINETGetAddr | eapply wp_addr_known]; try done;
      rewrite Hh; apply lookup_insert_eq. }
  intros r s2 [Hg Hk]. pose proof Hg as (_ & _ & [(-> & _)|(-> & _)]);
    (apply wp_ret; exists 0, s1; by split).
Qed.

Lemma wp_SocketINETCreateListener_display l c d name port lflags s :
  env_laws e -> is_client X11_t = true -> is_numeric port = true ->
  strtol port <= LONG_MAX - X_TCP_PORT ->
  heap s !! l = Some (BConn c) -> dev_named (index c) name d ->
  wp (SocketINETCreateListener (At l 0) (Some port) lflags) e s (fun st s' =>
    match unprivileged (X_TCP_PORT + strtol port) with
    | None => st = TRANS_CREATE_LISTENER_FAILED /\ s' = s
    | Some n => inet_listener_made l c d n lflags s st s'
    end).
Proof.
  intros He Hx Hn Hle Hl Hd. pose proof (strtol_numeric _ Hn). apply wp_bind.
  eapply wp_mono; [by apply wp_x_tcp_port|]. intros r s' [-> ->]. apply wp_bind.
  eapply wp_mono; [apply wp_listener_sport_lu; unfold X_TCP_PORT in *; lia|].
  intros r s' [-> ->]. destruct (unprivileged _) as [n|]; [|by apply wp_ret].
  do 2 wp_step. apply wp_bind. eapply wp_dev_at; [exact Hd|]. by eapply wp_inet_listener.
Qed.

(** *** Accepting INET connections *)

(** A connection that came out of accept, or nothing that stays. *)
Definition accepted (s : state) (p : ptr) (st : Z) (s' : state) : Prop :=
  same_globals s s' /\
  ((p = NULL /\ heap s' = heap s /\ balanced s s' /\
    (st = TRANS_ACCEPT_BAD_MALLOC \/ st = TRANS_ACCEPT_FAILED \/ st = TRANS_ACCEPT_MISC_ERROR)) \/
   (st = 0 /\ exists l la lp f b b', p = At l 0 /\ NoDup [l; la; lp] /\ 0 <= f /\
      heap s !! l = None /\ heap s !! la = None /\ heap s !! lp = None /\
      heap s' = <[lp := BBytes b']> (<[la := BBytes b]> (<[l := BConn
        (with_peeraddr lp b' (with_addr la b (set_fd f conn0)))]> (heap s))) /\
      forall f', fd_balance f' (trace s') =
                 fd_balance f' (trace s) + (if f' =? f then 1 else 0))).

Definition misc_error (s : state) (s' : state) : Prop :=
  heap s' = heap s /\ same_globals s s' /\ balanced s s'.

Lemma accepted_misc_error s s' :
  misc_error s s' -> accepted s NULL TRANS_ACCEPT_MISC_ERROR s'.
Proof. intros (H1 & H2 & H3). split; [done|]. left. split_and!; auto. Qed.

(** Giving up: the descriptor is closed, the connection freed. *)
Lemma wp_accept_abort {A} l f c s s1 (r : A) :
  holds s l f c s1 -> heap s !! l = None ->
  wp (sys_ret (C_close f) ;; free (At l 0) ;; mret r) e s1 (fun r' s' =>
    r' = r /\ misc_error s s').
Proof.
  intros (Hh & Hg & Hb) Hl. do 2 wp_step. wp_step. eapply wp_free.
  { st_simpl. rewrite Hh. apply lookup_insert_eq. }
  wp_step. split; [done|]. split_and!.
  - st_simpl. rewrite Hh. by apply delete_insert_id.
  - done.
  - intros f'. st_simpl. rewrite fd_balance_cons, Hb. balance.
Qed.

Lemma wp_SocketINETAccept l c s :
  env_laws e -> heap s !! l = Some (BConn c) ->
  wp (SocketINETAccept (At l 0)) e s (fun '(p, st) s' => accepted s p st s').
Proof.
  intros He Hl. unfold SocketINETAccept. do 3 wp_step.
  { wp_steps. split; [done|]. left. split_and!; auto. intros f. balance. }
  wp_steps.
  { split; [done|]. left. split_and!; [done | by heap_eq | intros f; balance | by auto]. }
  assert (Hf : 0 <= a_ret a0) by lia. set (f := a_ret a0) in *.
  match goal with |- wp _ _ ?st _ => assert (Hh : holds s l0 f (set_fd f conn0) st) end.
  { split_and!; [done | done |]. intros f'. subst f. balance. }
  match goal with |- wp _ _ ?st _ => generalize dependent st end. intros s1 Hh.
  pose proof (holds_lookup _ _ _ _ _ Hh) as Hl1.
  eapply wp_mono; [by eapply wp_SocketINETGetAddr|].
  intros r s2 (Hg2 & Hb2 & [(-> & Hh2)|(-> & la & n & Hla & Hh2)]).
  { assert (Hh' : holds s l0 f (set_fd f conn0) s2).
    { destruct Hh as (H1 & G1 & B1). split_and!.
      - destruct Hh2 as [->| ->]; [done|]. rewrite H1. by rewrite insert_insert_eq.
      - by eapply same_globals_trans.
      - intros f'. by rewrite Hb2. }
    wp_step. wp_step. eapply wp_load_conn; [by eapply holds_lookup|].
    eapply wp_mono; [by eapply wp_accept_abort|].
    intros [p st] s3 [[= -> ->] Hm]. by apply accepted_misc_error. }
  cbn [Z.ltb Z.compare]. set (b := a_bytes _) in *.
  destruct Hh as (H1 & G1 & B1).
  assert (Hne : l0 <> la) by (intros ->; congruence).
  rewrite H1 in Hla. apply lookup_insert_None in Hla as [Hla _].
  set (c2 := with_addr la b (set_fd f conn0)).
  assert (Hl2 : heap s2 !! l0 = Some (BConn c2)).
  { rewrite Hh2, lookup_insert_ne by done. apply lookup_insert_eq. }
  apply wp_bind. eapply wp_mono; [by eapply wp_SocketINETGetPeerAddr|].
  intros r s3 (Hg3 & Hb3 & [(-> & Hh3)|(-> & lp & n' & Hlp & Hh3)]).
  - (* the address is freed too *)
    assert (Hc : exists c3, fd c3 = f /\ addr c3 = At la 0 /\
      heap s3 = <[la := BBytes b]> (<[l0 := BConn c3]> (heap s))).
    { destruct Hh3 as [->| ->].
      - exists c2. split_and!; [done | done |]. by rewrite Hh2, H1, insert_insert_eq.
      - exists (set_peeraddr NULL c2). split_and!; [done | done |].
        rewrite Hh2, H1. by heap_eq. }
    destruct Hc as (c3 & Hf3 & Ha3 & Hh3'). clear Hh3.
    wp_step. wp_step. eapply wp_load_conn.
    { rewrite Hh3', lookup_insert_ne by done. apply lookup_insert_eq. }
    rewrite Hf3, Ha3. do 3 wp_step. wp_step. eapply wp_free.
    { st_simpl. rewrite Hh3'. apply lookup_insert_eq. }
    wp_step. eapply wp_free.
    { st_simpl. rewrite Hh3', lookup_delete_ne, lookup_insert_ne by done.
      apply lookup_insert_eq. }
    wp_step. apply accepted_misc_error. split_and!.
    + st_simpl. rewrite Hh3'. by heap_eq.
    + do 2 (eapply same_globals_trans; [eassumption|]). done.
    + intros f'. st_simpl. rewrite fd_balance_cons, Hb3, Hb2, B1. balance.
  - cbn [Z.ltb Z.compare]. apply wp_ret. set (b' := a_bytes (e (trace s2) _)) in *.
    rewrite Hh2 in Hlp. apply lookup_insert_None in Hlp as [Hlp Hne1].
    rewrite H1 in Hlp. apply lookup_insert_None in Hlp as [Hlp Hne2].
    apply lookup_insert_None in Hlp as [Hlp _].
    split; [by do 2 (eapply same_globals_trans; [eassumption|])|]. right. split; [done|].
    exists l0, la, lp, f, b, b'. split_and!; try done.
    + repeat constructor; set_solver.
    + subst b b' c2. rewrite Hh3, Hh2, H1. by heap_eq.
    + intros f'. by rewrite Hb3, Hb2, B1.
Qed.

(** *** UNIX domain listeners *)

Lemma trans_mkdir_no_umask path mode : logs e no_umask (trans_mkdir path mode).
Proof. unfold trans_mkdir, mkdir_create, mkdir_update. logs_solve. Qed.

Lemma set_sun_path_Some port upath abstract path :
  set_sun_path (Some port) upath abstract = Some path -> cstring port -> cstring upath ->
  path <> [] /\ (length path <= 107)%nat /\ cstring path /\
  (HAVE_ABSTRACT_SOCKETS = true -> abstract = true -> nth 0 path 0 = ch "@").
Proof.
  intros Hp Hc Hu. destruct port as [|p0 port]; [done|]. rewrite set_sun_path_cases in Hp.
  cbv zeta in Hp. destruct (107 <? _); [done|]. injection Hp as <-. unfold sun_text.
  assert (Hat : cstring (str "@")) by by repeat constructor.
  split_and!.
  - destruct HAVE_ABSTRACT_SOCKETS, abstract, (p0 =? ch "@"), (p0 =? ch "/");
      cbn [andb orb negb]; try done; by destruct upath.
  - rewrite length_take. lia.
  - apply cstring_take, cstring_app; [|apply cstring_app; [|done]];
      repeat case_bool; done || by constructor.
  - intros -> ->. cbn [andb]. destruct (Z.eqb_spec p0 (ch "@")) as [->|]; done.
Qed.

Lemma UNIX_PATH_cstring : cstring UNIX_PATH.
Proof. unfold UNIX_PATH. by destruct cfg_client; apply (bool_decide_unpack _). Qed.

(** The address bound for [path]: an abstract name starts with a NUL in place of '@'. *)
Definition unix_bind_addr (abstract : bool) (path : bytes) : bytes :=
  le16 AF_UNIX ++ (if abstract then 0 :: drop 1 path else path).

Lemma until_nul_fit_drop n path :
  (length path < n)%nat -> cstring path ->
  until_nul (drop 1 (fit n (0 :: drop 1 path))) = drop 1 path.
Proof.
  intros Hn Hc. unfold fit. rewrite take_ge by (cbn [length]; rewrite length_drop; lia).
  cbn [app drop]. rewrite drop_0. assert (Hd : cstring (drop 1 path)) by by apply cstring_drop.
  destruct (n - _)%nat as [|k]; cbn [replicate].
  - rewrite app_nil_r. by apply until_nul_id.
  - by apply until_nul_cstring.
Qed.

(** The bytes bind gets are these. *)
Lemma take_unix_bind_addr (abstract : bool) path :
  path <> [] -> (length path <= 107)%nat -> cstring path ->
  let sockname := mk_sockaddr_un (if abstract then 0 :: drop 1 path else path) in
  let namelen :=
    if (abstract : bool)
    then Z.of_nat offsetof_sun_path + 1 + strlen (until_nul (drop 1 (sun_path sockname)))
    else SUN_LEN path in
  namelen <= Z.of_nat (length sockname) /\
  take (Z.to_nat namelen) sockname = unix_bind_addr abstract path.
Proof.
  intros Hne Hlen Hc. cbv zeta.
  assert (Hl : forall p, length (mk_sockaddr_un p) = 110%nat).
  { intros p. unfold mk_sockaddr_un. by rewrite length_app, length_fit. }
  rewrite Hl. unfold SUN_LEN, strlen.
  change (Z.of_nat offsetof_sun_path) with 2.
  destruct path as [|x path]; [done|]. destruct abstract.
  - replace (until_nul _) with path.
    2: { symmetry. apply (until_nul_fit_drop 108 (x :: path)); [cbn in *; lia | done]. }
    cbn [length] in *. split; [lia|]. unfold mk_sockaddr_un, unix_bind_addr, fit.
    cbn [drop]. rewrite drop_0, (take_ge (0 :: path)) by
      (change sizeof_sun_path with 108%nat; cbn [length]; lia).
    replace (Z.to_nat _) with (3 + length path)%nat by lia.
    cbn [le16 app take plus]. by rewrite take_app_length.
  - cbn [length] in *. split; [lia|]. unfold mk_sockaddr_un, unix_bind_addr, fit.
    rewrite (take_ge (x :: path)) by
      (change sizeof_sun_path with 108%nat; cbn [length]; lia).
    replace (Z.to_nat _) with (3 + length path)%nat by lia.
    cbn [le16 app take plus]. by rewrite take_app_length.
Qed.

Lemma write_at_sign path :
  path <> [] -> (length path <= 107)%nat -> nth 0 path 0 = ch "@" ->
  write_at offsetof_sun_path (str "@") (mk_sockaddr_un (0 :: drop 1 path)) =
  mk_sockaddr_un path.
Proof.
  intros Hne Hlen Hat. destruct path as [|x path]; [done|]. cbn [nth] in Hat. subst x.
  cbn [drop]. rewrite drop_0. cbn [length] in Hlen.
  unfold mk_sockaddr_un, fit. rewrite !take_ge by (cbn [length]; change sizeof_sun_path with 108%nat; lia).
  done.
Qed.

(** Calls other than umask leave the mask alone. *)
Lemma umask_after_ran u s s' cs :
  ran s s' cs -> Forall (fun c => no_umask c = true) cs ->
  umask_after u (trace s') = umask_after u (trace s).
Proof.
  intros (new & -> & <-) Hc. apply umask_after_app. unfold calls in Hc.
  rewrite Forall_reverse in Hc. apply Forall_fmap in Hc. exact Hc.
Qed.

Lemma umask_after_asked u c tr :
  no_umask c = true -> umask_after u (asked e c tr) = umask_after u tr.
Proof. by destruct c. Qed.

Lemma tries_umask u f sa P k tr tr' :
  tries f sa P k tr tr' -> umask_after u tr' = umask_after u tr.
Proof. induction 1 as [|k tr tr' _ _ IH]; [done|]. by rewrite IH. Qed.

Lemma listener_made_umask u l c d sa lflags s st s' :
  listener_made l c d sa lflags s st s' ->
  umask_after u (trace s') = umask_after u (trace s).
Proof.
  assert (Hl : forall tr, umask_after u (ask_all e (linger_calls d (fd c)) tr) = umask_after u tr)
    by (intros tr; unfold linger_calls; by destruct (is_inet _)).
  intros (_ & k & tr1 & _ & [(_ & _ & Ht & _ & ->)|[(_ & _ & _ & Ht)|
    (_ & _ & [(_ & Ht & ->)|(Ht & _ & ->)])]]); rewrite ?umask_after_asked, ?Hl by done;
    by eapply tries_umask.
Qed.

(** The connection of a UNIX listener. *)
Definition unix_listener (c : conninfo) (la : positive) : conninfo :=
  set_addrlen (Z.of_nat sizeof_sockaddr_un) (set_family AF_UNIX
    (set_addr (At la 0) (set_flags (listener_flags c) c))).

(** Listening at [path] from [s] on: the old file goes, the socket is bound in [s0], and its
    address is stored; the umask is [mask] again. *)
Definition unix_listening (l : positive) (c : conninfo) (d : Sockettrans2dev) (abstract : bool)
    (path : bytes) (lflags mask : Z) (s : state) (st : Z) (s' : state) : Prop :=
  exists s0 s1 st1,
    heap s0 = heap s /\
    trace s0 = (if abstract then trace s else asked e (C_unlink path) (trace s)) /\
    listener_made l c d (unix_bind_addr abstract path) lflags s0 st1 s1 /\
    let space := C_malloc (Z.of_nat sizeof_sockaddr_un) in
    if st1 =? 0 then
      trace s' = asked e (C_umask mask) (asked e space (trace s1)) /\
      if a_ret (e (trace s1) space) <? 0 then
        st = TRANS_CREATE_LISTENER_FAILED /\
        heap s' = <[l := BConn (set_addr NULL (set_flags (listener_flags c) c))]> (heap s)
      else
        st = 0 /\ exists la, heap s !! la = None /\
        heap s' = <[la := BBytes (mk_sockaddr_un path)]>
                    (<[l := BConn (unix_listener c la)]> (heap s))
    else st = st1 /\ heap s' = heap s /\ trace s' = asked e (C_umask mask) (trace s1).

Lemma wp_unix_listen_at l c d name port abstract old lflags path s :
  heap s !! l = Some (BConn c) -> dev_named (index c) name d -> cstring port ->
  (abstract = true -> HAVE_ABSTRACT_SOCKETS = true) ->
  set_sun_path (Some port) UNIX_PATH abstract = Some path ->
  wp (unix_listen_at (At l 0) port abstract old lflags) e s (fun st s' =>
    same_globals s s' /\ unix_listening l c d abstract path lflags old s st s').
Proof.
  intros Hl Hd Hc Habs Hp. unfold unix_listen_at. rewrite Hp. cbv zeta.
  destruct (set_sun_path_Some _ _ _ _ Hp Hc UNIX_PATH_cstring) as (Hne & Hlen & Hcp & Hat).
  destruct (take_unix_bind_addr abstract path Hne Hlen Hcp) as [Hn Hsa].
  apply wp_bind. eapply (wp_mono _ _ _ (fun _ s1 => heap s1 = heap s /\ same_globals s s1 /\
    trace s1 = (if abstract then trace s else asked e (C_unlink path) (trace s)))).
  { destruct abstract; cbn [negb when]; wp_steps; try subst a; by split_and!. }
  intros _ s0 (Hh0 & Hg0 & Ht0). apply wp_bind, wp_buffer_bytes; [exact Hn|]. rewrite Hsa.
  apply wp_bind. eapply wp_mono; [eapply wp_SocketCreateListener; [by rewrite Hh0 | exact Hd]|].
  intros st1 s1 Hm. pose proof Hm as (Hg1 & k & tr1 & _ & Hcases).
  assert (Hg : same_globals s s1) by by eapply same_globals_trans.
  destruct Hcases as [(-> & Hh1 & _)|Hfail].
  - rewrite Hh0 in Hh1. cbn [Z.ltb Z.compare].
    assert (Hl1 : heap s1 !! l = Some (BConn (set_flags (listener_flags c) c)))
      by (rewrite Hh1; apply lookup_insert_eq).
    assert ((if abstract
             then write_at offsetof_sun_path (str "@")
                    (mk_sockaddr_un (if abstract then 0 :: drop 1 path else path))
             else mk_sockaddr_un (if abstract then 0 :: drop 1 path else path))
            = mk_sockaddr_un path) as ->
      by (destruct abstract; [apply write_at_sign; auto | done]).
    assert (Hlen110 : length (mk_sockaddr_un path) = 110%nat)
      by (unfold mk_sockaddr_un; by rewrite length_app, length_fit).
    wp_steps; [| rewrite length_replicate, Hlen110; done |]; subst a a0;
      (split; [done|]; exists s0, s1, 0; split_and!; [done | done | done |]; cbn [Z.eqb];
       split; [done|]).
    { destruct (Z.ltb_spec (a_ret (e (trace s1) (C_malloc (Z.of_nat sizeof_sockaddr_un)))) 0); [|lia].
      split; [done|]. st_simpl. rewrite Hh1. by heap_eq. }
    destruct (Z.ltb_spec (a_ret (e (trace s1) (C_malloc (Z.of_nat sizeof_sockaddr_un)))) 0); [lia|].
    split; [done|]. exists l0. rewrite Hh1 in Hl0. apply lookup_insert_None in Hl0 as [Hl0 _].
    split; [done|]. rewrite write_at_all by (by rewrite length_replicate, Hlen110).
    rewrite Hh1. by heap_eq.
  - assert (Hst : (st1 <? 0) = true /\ (st1 =? 0) = false /\ heap s1 = heap s)
      by (destruct Hfail as [(-> & _ & Hh & _)|(-> & Hh & _)]; split_and!; congruence || done).
    destruct Hst as (Hlt & Heq & Hh1). rewrite Hlt. wp_steps. subst a. split; [done|].
    exists s0, s1, st1. rewrite Heq. by split_and!.
Qed.

Lemma unix_listening_umask u l c d ab path lflags mask s st s' :
  unix_listening l c d ab path lflags mask s st s' -> umask_after u (trace s') = mask.
Proof.
  intros (s0 & s1 & st1 & _ & _ & _ & H). cbv zeta in H. destruct (st1 =? 0).
  - by destruct H as [-> _].
  - by destruct H as (_ & _ & ->).
Qed.

(** The directory of the sockets is made, in [s], unless the socket is abstract. *)
Definition directory_made (abstract : bool) (s : state) (made : bool) (s' : state) : Prop :=
  if abstract then made = true /\ s' = s
  else exists r, trans_mkdir UNIX_DIR dir_mode e s = Ok r s' /\ made = negb (r =? -1).

(** The text that names the listener: the port, or a name made of the process id. *)
Definition listener_name (port : option bytes) (s : state) (name : bytes) (s' : state) : Prop :=
  match port with
  | None | Some [] =>
      let pid := e (trace s) C_getpid in
      name = snprintf 108 (UNIX_PATH ++ print_ld (a_ret pid)) /\ s' = logged C_getpid pid s
  | Some p => name = p /\ s' = s
  end.

Lemma listener_name_cstring port s name s' :
  listener_name port s name s' -> cstring (default [] port) -> cstring name.
Proof.
  intros Hn Hp. destruct port as [[|p0 p]|]; destruct Hn as [-> _]; [|done|];
    apply cstring_take, cstring_app; auto using UNIX_PATH_cstring, cstring_print_ld.
Qed.

(** The umask is 0 from [s0] on; then come the directory and the name, and the socket at the
    path of that name. *)
Definition unix_listener_result (u : Z) (l : positive) (c : conninfo) (t : transport)
    (d : Sockettrans2dev) (port : option bytes) (lflags : Z) (s : state) (st : Z)
    (s' : state) : Prop :=
  let abstract := HAVE_ABSTRACT_SOCKETS && has (tflags s t) TRANS_ABSTRACT in
  let mask := umask_after u (trace s) in
  let s0 := logged (C_umask 0) (e (trace s) (C_umask 0)) s in
  same_globals s s' /\ exists made s1,
  directory_made abstract s0 made s1 /\ heap s1 = heap s /\
  if made then
    exists name s2, listener_name port s1 name s2 /\
    match set_sun_path (Some name) UNIX_PATH abstract with
    | None => (* the path is too long *)
        st = TRANS_CREATE_LISTENER_FAILED /\ s' = s2 /\ umask_after u (trace s') = 0
    | Some path =>
        umask_after u (trace s') = mask /\
        unix_listening l c d abstract path lflags mask s2 st s'
    end
  else
    st = TRANS_CREATE_LISTENER_FAILED /\ heap s' = heap s /\
    trace s' = asked e (C_umask mask) (trace s1).

Lemma wp_conn_abstract l o c t s (Q : bool -> state -> Prop) :
  heap s !! l = Some (BConn c) -> transptr c = Some t ->
  Q (HAVE_ABSTRACT_SOCKETS && has (tflags s t) TRANS_ABSTRACT) s ->
  wp (conn_abstract (At l o)) e s Q.
Proof.
  intros Hl Ht HQ. unfold conn_abstract. destruct HAVE_ABSTRACT_SOCKETS; [|by apply wp_ret].
  apply wp_bind. eapply wp_conn_tflags; [done | done |]. by apply wp_ret.
Qed.

Lemma umask_restored u s : forall m, head (fst <$> trace s) = Some (C_umask m) ->
  umask_after u (trace s) = m.
Proof. intros m Hm. destruct (trace s) as [|[c a] tr]; [done|]. simpl in Hm. by simplify_eq. Qed.

Lemma wp_directory_made abstract s :
  wp (if negb abstract then r ← trans_mkdir UNIX_DIR dir_mode; mret (r =? -1)
      else mret false) e s (fun failed s' =>
    logs_step no_umask s s' /\ directory_made abstract s (negb failed) s').
Proof.
  destruct abstract; cbn [negb].
  - apply wp_ret. by split; [apply logs_step_refl|].
  - apply wp_bind. eapply wp_mono; [apply wp_run, trans_mkdir_no_umask|].
    intros r s' [Hr Hs']. apply wp_ret. split; [done|]. by exists r.
Qed.

Lemma wp_SocketUNIXCreateListener u l c t d name port lflags s :
  umask_env u e -> heap s !! l = Some (BConn c) -> transptr c = Some t ->
  dev_named (index c) name d -> cstring (default [] port) ->
  wp (SocketUNIXCreateListener (At l 0) port lflags) e s
    (unix_listener_result u l c t d port lflags s).
Proof.
  intros Hu Hl Ht Hd Hc. unfold SocketUNIXCreateListener, unix_listener_result.
  apply wp_bind. eapply wp_conn_abstract; [done | done |]. cbv zeta.
  set (abstract := HAVE_ABSTRACT_SOCKETS && _). set (mask := umask_after u (trace s)).
  do 2 wp_step. subst a. rewrite (Hu (trace s) 0 : _ = mask).
  match goal with |- wp _ _ ?st _ => set (s0 := st) end. apply wp_bind.
  eapply wp_mono; [apply wp_directory_made|].
  intros failed s1 [(Hh1 & Hg1 & new & Ht1 & Hn1) Hmade].
  assert (Hm1 : umask_after u (trace s1) = 0) by (rewrite Ht1; by apply umask_after_app).
  destruct failed.
  { wp_steps. subst a. split; [done|]. by exists false, s1. }
  apply wp_bind. eapply (wp_mono _ _ _ (fun n s2 => heap s2 = heap s1 /\ same_globals s1 s2 /\
    umask_after u (trace s2) = 0 /\ listener_name port s1 n s2)).
  { destruct port as [[|p0 p]|]; wp_steps; try subst a; by split_and!. }
  intros n s2 (Hh2 & Hg2 & Hm2 & Hname).
  assert (Hh : heap s2 = heap s) by (rewrite Hh2; exact Hh1).
  assert (Hg' : same_globals s s2) by by eapply same_globals_trans.
  destruct (set_sun_path (Some n) UNIX_PATH abstract) as [path|] eqn:Hp.
  - eapply wp_mono; [eapply wp_unix_listen_at; [by rewrite Hh | exact Hd | | | exact Hp]|].
    + by eapply listener_name_cstring.
    + subst abstract. by destruct HAVE_ABSTRACT_SOCKETS.
    + intros st s' (Hg3 & Hul). split; [by eapply same_globals_trans|].
      exists true, s1. split_and!; [done | done |]. exists n, s2. split; [done|]. rewrite Hp.
      split; [by eapply unix_listening_umask | done].
  - unfold unix_listen_at. rewrite Hp. apply wp_ret. split; [done|].
    exists true, s1. split_and!; [done | done |]. exists n, s2. split; [done|]. by rewrite Hp.
Qed.

(** *** Resetting a UNIX listener *)

(** The descriptors between [s] and [s']: [closed] was closed, [new] opened. *)
Definition fds_moved (s s' : state) (closed : Z) (new : option Z) : Prop :=
  forall f, 0 <= f ->
    fd_balance f (trace s') = fd_balance f (trace s) - (if f =? closed then 1 else 0)
      + (match new with Some n => if f =? n then 1 else 0 | None => 0 end).

Definition reset_calls (c : conninfo) (v : bytes) (f mask : Z) : list call :=
  [C_close (fd c); C_unlink (sun_path_str v); C_socket AF_UNIX SOCK_STREAM 0;
   C_bind f (take (Z.to_nat (addrlen c)) v); C_listen f BACKLOG; C_umask mask].

(** [v] holds the address of the listener [c] at [l], which transport [t] uses. *)
Definition reset_result (u : Z) (l : positive) (c : conninfo) (t : transport) (v : bytes)
    (s : state) (st : Z) (s' : state) : Prop :=
  let abstract := HAVE_ABSTRACT_SOCKETS && has (tflags s t) TRANS_ABSTRACT in
  let mask := umask_after u (trace s) in
  same_globals s s' /\
  ((st = TRANS_RESET_NOOP /\ heap s' = heap s /\
    ran s s' (if abstract then [] else [C_stat (sun_path_str v)])) \/
   (abstract = false /\ st = TRANS_RESET_FAILURE /\ heap s' = heap s /\ balanced_nonneg s s' /\
    umask_after u (trace s') = mask) \/
   (abstract = false /\ st = TRANS_RESET_FAILURE /\
    heap s' = del_locs (conn_blocks l c) (heap s) /\ fds_moved s s' (fd c) None /\
    (umask_after u (trace s') = mask \/
     (* when bind failed *)
     (umask_after u (trace s') = 0 /\ exists f sa s1, last_bind f sa (fun a => a_ret a < 0) s1 /\
        ran s1 s' [C_close f]))) \/
   (abstract = false /\ st = TRANS_RESET_NEW_FD /\ exists f s1, 0 <= f /\
    heap s' = <[l := BConn (set_fd f c)]> (heap s) /\ fds_moved s s' (fd c) (Some f) /\
    umask_after u (trace s') = mask /\ ran s1 s' (reset_calls c v f mask))).

Lemma own_conn_set_fd m l c f :
  own_conn m l c -> own_conn (<[l := BConn (set_fd f c)]> m) l (set_fd f c).
Proof.
  intros (Hl & Ha & Hp & Hq & Hnd).
  assert (Hv : forall p, valid_ptr m p -> valid_ptr (<[l := BConn (set_fd f c)]> m) p).
  { intros [|x o]; [done|]. intros [-> Hx]. split; [done|].
    rewrite lookup_insert. case_decide; [by eexists | done]. }
  split_and!; [apply lookup_insert_eq | by apply Hv | by apply Hv | by apply Hv | done].
Qed.

Lemma del_locs_insert ls l b m : l ∈ ls -> del_locs ls (<[l := b]> m) = del_locs ls m.
Proof.
  intros Hl. apply map_eq. intros i. destruct (decide (i ∈ ls)) as [Hi|Hi].
  - by rewrite !del_locs_lookup_in.
  - rewrite !del_locs_lookup, lookup_insert_ne by (done || by intros ->). done.
Qed.

(** The part behind the directory. *)
Definition reset_socket_result (l : positive) (c : conninfo) (v : bytes) (mask : Z)
    (s : state) (st : Z) (s' : state) : Prop :=
  same_globals s s' /\
  ((st = TRANS_RESET_FAILURE /\ heap s' = del_locs (conn_blocks l c) (heap s) /\
    fds_moved s s' (fd c) None /\
    (head (fst <$> trace s') = Some (C_umask mask) \/
     (exists f sa s1, last_bind f sa (fun a => a_ret a < 0) s1 /\ ran s1 s' [C_close f] /\
        (forall u, umask_after u (trace s') = umask_after u (trace s))))) \/
   (st = TRANS_RESET_NEW_FD /\ exists f, 0 <= f /\
    heap s' = <[l := BConn (set_fd f c)]> (heap s) /\ fds_moved s s' (fd c) (Some f) /\
    ran s s' (reset_calls c v f mask))).

Lemma wp_free_reset l c f m s (Q : unit -> state -> Prop) :
  heap s = <[l := BConn (set_fd f c)]> m -> own_conn m l c ->
  Q tt (upd_heap (del_locs (conn_blocks l c) m) s) ->
  wp (FreeConnInfo (At l 0)) e s Q.
Proof.
  intros Hh Ho HQ. eapply (wp_FreeConnInfo e l (set_fd f c)).
  - rewrite Hh. by apply own_conn_set_fd.
  - change (conn_blocks l (set_fd f c)) with (conn_blocks l c).
    rewrite Hh, del_locs_insert; [done|]. unfold conn_blocks. set_solver.
Qed.

Lemma wp_unix_reset_socket l c la v mask s :
  own_conn (heap s) l c -> addr c = At la 0 -> heap s !! la = Some (BBytes v) ->
  addrlen c <= Z.of_nat (length v) ->
  terminated (sun_path v) = true ->
  wp (unix_reset_socket (At l 0) mask) e s (reset_socket_result l c v mask s).
Proof.
  intros Ho Ha Hv Hlen Hnul. pose proof Ho as (Hl & _).
  assert (Hne : l <> la) by (intros ->; congruence).
  assert (Hmoved : forall (b : bool) f tr, 0 <= f ->
    (forall f', fd_balance f' tr = fd_balance f' (trace s) - (if fd c =? f' then 1 else 0)
                + (if b then if f =? f' then 1 else 0 else 0)) ->
    forall s', trace s' = tr -> fds_moved s s' (fd c) (if b then Some f else None)).
  { intros b f tr _ Hb s' Hs' f' _. rewrite Hs', Hb.
    rewrite (Z.eqb_sym f' (fd c)). destruct b; [rewrite (Z.eqb_sym f' f)|]; lia. }
  unfold unix_reset_socket. do 2 wp_step. rewrite Ha. do 3 wp_step.
  do 8 wp_step; rewrite ?drop_0 in *.
  - apply wp_bind. eapply wp_free_reset; [reflexivity | exact Ho |]. wp_steps.
    split; [done|]. left. split_and!; [done | done | | by left].
    eapply (Hmoved false 0); [lia | | reflexivity]. intros f'. balance.
  - do 2 wp_step; [lia|]. do 3 wp_step; [rename E0 into Hb|].
    + do 2 wp_step. apply wp_bind. eapply wp_free_reset; [reflexivity | exact Ho |].
      wp_steps. split; [done|]. left. split_and!; [done | done | |].
      * eapply (Hmoved false 0); [lia | | reflexivity]. intros f'. balance.
      * right. exists (a_ret a1), (take (Z.to_nat (addrlen c)) (drop 0 v)).
        exists (upd_trace
          ((C_bind (a_ret a1) (take (Z.to_nat (addrlen c)) (drop 0 v)), a2) ::
           (C_socket AF_UNIX SOCK_STREAM 0, a1) :: (C_unlink (sun_path_str v), a0) ::
           (C_close (fd c), a) :: trace s) s). split_and!; [| ran_solve | done].
        do 2 eexists. split; [st_simpl; reflexivity | cbn; lia].
    + do 3 wp_step.
      * do 2 wp_step. apply wp_bind. eapply wp_free_reset; [reflexivity | exact Ho |].
        wp_steps. split; [done|]. left. split_and!; [done | done | | by left].
        eapply (Hmoved false 0); [lia | | reflexivity]. intros f'. balance.
      * wp_steps. split; [done|]. right. split; [done|]. exists (a_ret a1).
        split_and!; [lia | done | |].
        { eapply (Hmoved true (a_ret a1)); [lia | | reflexivity]. intros f'. balance. }
        unfold reset_calls. rewrite drop_0. ran_solve.
Qed.

Lemma wp_SocketUNIXResetListener u l c t la v s :
  umask_env u e -> own_conn (heap s) l c -> transptr c = Some t ->
  addr c = At la 0 -> heap s !! la = Some (BBytes v) -> addrlen c <= Z.of_nat (length v) ->
  terminated (sun_path v) = true ->
  wp (SocketUNIXResetListener (At l 0)) e s (reset_result u l c t v s).
Proof.
  intros Hu Ho Ht Ha Hv Hlen Hnul. pose proof Ho as (Hl & _).
  unfold SocketUNIXResetListener, reset_result. do 2 wp_step. rewrite Ha.
  apply wp_bind. eapply wp_conn_abstract; [done | done |]. cbv zeta.
  set (abstract := HAVE_ABSTRACT_SOCKETS && _). set (mask := umask_after u (trace s)).
  apply wp_bind.
  eapply (wp_mono _ _ _ (fun lost s1 => logs_step no_umask s s1 /\ balanced s s1 /\
    ran s s1 (if abstract then [] else [C_stat (sun_path_str v)]) /\
    (lost = true -> abstract = false))).
  { destruct abstract; cbn [negb].
    - apply wp_ret. split_and!; [apply logs_step_refl | done | apply ran_refl | done].
    - wp_steps. rewrite drop_0. unfold socket_file_lost. wp_steps.
      split_and!; [by apply (logs_logged no_umask (C_stat (sun_path_str v)) a s)
                  | intros f; balance | ran_solve | done]. }
  intros lost s1 (Hs1 & Hb1 & Hr1 & Hlost). pose proof Hs1 as (Hh1 & Hg1 & new & Ht1 & Hn1).
  destruct lost; cbn [negb]; [|apply wp_ret; split; [done|]; left; by split_and!].
  assert (Hm1 : umask_after u (trace s1) = mask) by (rewrite Ht1; by apply umask_after_app).
  do 2 wp_step. assert (Hm : a_ret a = mask) by (subst a; rewrite <-Hm1; apply Hu). rewrite Hm.
  match goal with |- wp _ _ ?st _ => set (s2 := st) end.
  apply wp_bind. eapply wp_mono.
  { apply wp_and; [apply trans_mkdir_no_umask | apply wp_trans_mkdir]. }
  intros r s3 ((Hh3 & Hg3 & new3 & Ht3 & Hn3) & _ & _ & Hb3).
  assert (Hh : heap s3 = heap s) by (rewrite Hh3; exact Hh1).
  assert (Hg : same_globals s s3) by (eapply same_globals_trans; [exact Hg1 | exact Hg3]).
  assert (Hb : balanced_nonneg s s3).
  { intros f Hf. rewrite Hb3 by done. unfold s2. rewrite <-Hb1. balance. }
  assert (Hm3 : umask_after u (trace s3) = 0) by (rewrite Ht3, umask_after_app; done).
  destruct (r =? -1).
  { wp_steps. split; [done|]. right. left. split_and!; auto. }
  eapply wp_mono; [eapply (wp_unix_reset_socket l c la v mask s3); rewrite ?Hh; eauto|].
  intros st s4 (Hg4 & Hcase). split; [by eapply same_globals_trans|]. right. right.
  assert (Hmv : forall new, fds_moved s3 s4 (fd c) new -> fds_moved s s4 (fd c) new).
  { intros n Hn f Hf. rewrite Hn, Hb by done. done. }
  destruct Hcase as [(-> & Hh4 & Hfd & Hmask)|(-> & f & Hf & Hh4 & Hfd & Hr)].
  - left. split_and!; auto; [by rewrite Hh4, Hh|].
    destruct Hmask as [Hmask|(f & sa & s5 & H1 & H2 & H3)].
    + left. by apply umask_restored.
    + right. split; [by rewrite H3 | eauto].
  - right. split_and!; auto. exists f, s3. split_and!; auto; [by rewrite Hh4, Hh|].
    destruct Hr as (n4 & Ht4 & Hc). rewrite Ht4. unfold calls in Hc.
    assert (Hn4 : n4.*1 = reverse (reset_calls c v f mask)) by (rewrite <-Hc; by rewrite reverse_involutive).
    destruct n4 as [|[c4 a4] n4]; [done|]. cbn in Hn4. injection Hn4 as -> _. done.
Qed.

(** *** Accepting UNIX connections *)

Definition unix_conn (na np : positive) (n f : Z) : conninfo :=
  ConnInfo None 0 NULL 0 f NULL AF_UNIX (At na 0) n (At np 0) n NULL NULL.

(** [v] is the block of the listener's address, [n] the length accept reports. *)
Definition unix_accepted (l : positive) (c : conninfo) (v : bytes) (s : state) (p : ptr)
    (st : Z) (s' : state) : Prop :=
  same_globals s s' /\
  ((p = NULL /\ balanced s s' /\
    (st = TRANS_ACCEPT_BAD_MALLOC \/ st = TRANS_ACCEPT_FAILED) /\
    (heap s' = heap s \/ exists n, heap s' = <[l := BConn (set_addrlen n c)]> (heap s))) \/
   (st = 0 /\ exists nl na np f a tr, p = At nl 0 /\ NoDup [l; nl; na; np] /\
      heap s !! nl = None /\ heap s !! na = None /\ heap s !! np = None /\
      a = e tr (C_accept (fd c) 110) /\ f = a_ret a /\ 0 <= f /\
      let n := Z.of_nat (length (a_bytes a)) in
      let name := take (length (a_bytes a)) v in
      heap s' = <[np := BBytes name]> (<[na := BBytes name]>
        (<[nl := BConn (unix_conn na np n f)]>
          (<[l := BConn (set_addrlen n c)]> (heap s)))) /\
      forall f', fd_balance f' (trace s') =
                 fd_balance f' (trace s) + (if f' =? f then 1 else 0))).

Lemma wp_copy_addr l la m x v n s (Q : unit -> state -> Prop) c :
  heap s !! l = Some (BConn c) -> addr c = At la 0 -> heap s !! la = Some (BBytes v) ->
  n <= Z.of_nat (length v) -> heap s !! x = Some (BBytes m) -> length m = Z.to_nat n ->
  Q tt (upd_heap (<[x := BBytes (take (Z.to_nat n) v)]> (heap s)) s) ->
  wp (copy_addr (At x 0) (At l 0) n) e s Q.
Proof.
  intros Hl Ha Hv Hn Hx Hm HQ. unfold copy_addr. apply wp_bind. eapply wp_load_conn; [done|].
  rewrite Ha. apply wp_bind. eapply wp_read_bytes; [done | lia |]. rewrite drop_0.
  assert (Hlen : length (take (Z.to_nat n) v) = length m) by (rewrite length_take; lia).
  eapply wp_write_bytes; [done | lia |]. by rewrite write_at_all.
Qed.

Lemma wp_SocketUNIXAccept l c la v s :
  env_laws e -> heap s !! l = Some (BConn c) -> addr c = At la 0 ->
  heap s !! la = Some (BBytes v) -> (sizeof_sockaddr_un <= length v)%nat ->
  wp (SocketUNIXAccept (At l 0)) e s (fun '(p, st) s' => unix_accepted l c v s p st s').
Proof.
  intros He Hl Ha Hv Hlen. unfold SocketUNIXAccept.
  assert (Hne : l <> la) by (intros ->; congruence).
  do 3 wp_step.
  { wp_steps. split; [done|]. left. split_and!; auto. intros f. balance. }
  do 6 wp_step. pose proof (law_accept (trace
    (State ((C_malloc sizeof_conninfo, a) :: trace s) (<[l0:=BConn conn0]> (heap s)) nx
       (errno s) (tflags s) (addrlist s))) (fd c) (Z.of_nat sizeof_sockaddr_un)
    (Nat2Z.is_nonneg _)) as Hn.
  rewrite <-Ha1 in Hn. apply Nat2Z.inj_le in Hn. set (k := length (a_bytes a0)) in *.
  wp_steps.
  { split; [done|]. left. split_and!; [done | intros f; balance | auto | left; by heap_eq]. }
  { split; [done|]. left. split_and!; [done | intros f; balance | auto |].
    right. exists (Z.of_nat k). by heap_eq. }
  rename l1 into na. assert (Hna : l <> na /\ l0 <> na /\ la <> na) by (split_and!; congruence).
  assert (Hl0' : l <> l0 /\ la <> l0) by (split; congruence).
  destruct Hna as (? & ? & ?), Hl0' as [? ?].
  eapply wp_copy_addr.
  1-3,5: solve [heap_solve | by heap_solve]. all: st_simpl.
  1-2: rewrite ?length_replicate; lia.
  wp_steps.
  { split; [done|]. left. split_and!; [done | intros f; balance | auto |].
    right. exists (Z.of_nat k). by heap_eq. }
  rename l1 into np.
  eapply wp_copy_addr.
  1-3,5: solve [heap_solve | by heap_solve]. all: st_simpl.
  1-2: rewrite ?length_replicate; lia.
  wp_steps. split; [done|]. right. split; [done|].
  exists l0, na, np, (a_ret a0), a0.
  exists ((C_malloc sizeof_conninfo, a) :: trace s).
  cbv zeta. split_and!; try done; [repeat constructor; set_solver | lia | | intros f; balance].
  st_simpl. fold k. rewrite !Nat2Z.id. by heap_eq.
Qed.

(** The bytes of a 16-bit number, swapped. *)
Definition swap16 (p : Z) : Z := 256 * (p mod 256) + p / 256.

Lemma be16_rd z : 0 <= z < 65536 -> rd_be16 (be16 z) 0 = z.
Proof.
  intros Hz. unfold rd_be16, be16. cbn [nth].
  assert (0 <= z / 256 < 256)
    by (split; [apply Z.div_pos; lia | apply Z.div_lt_upper_bound; lia]).
  rewrite (Z.mod_small (z / 256)) by done. pose proof (Z.div_mod z 256). lia.
Qed.

(** ** The properties *)


(** An X server's listener without a port, or with a display number near LONG_MAX,
    runs into undefined behaviour: is_numeric takes the length of NULL, and the sum with
    6000 overflows. *)
Theorem SocketINETCreateListener_undefined l port lflags s :
  is_client X11_t = true -> is_numeric port = true -> LONG_MAX - X_TCP_PORT < strtol port ->
  faults (SocketINETCreateListener (At l 0) None lflags) e s NullDeref /\
  faults (SocketINETCreateListener (At l 0) (Some port) lflags) e s SignedOverflow.
Proof.
  intros Hx Hn Hp. split; apply faults_wpf; unfold SocketINETCreateListener, x_tcp_port;
    rewrite Hx; unfold is_numeric_p; [by wpf_steps|].
  do 3 wpf_step. rewrite Hn. wpf_step. unfold long_add. change (default [] (Some port)) with port.
  assert (((X_TCP_PORT + strtol port <? LONG_MIN) ||
           (LONG_MAX <? X_TCP_PORT + strtol port)) = true) as -> by (unfold X_TCP_PORT in *; lia).
  wpf_step.
Qed.

(** The port of a service name: getservbyname returns it in network order already, and
    htons swaps its bytes once more, so that the listener binds the port with its bytes
    swapped. *)
Theorem listener_service_port name p s :
  is_numeric name = false -> 0 <= p < 65536 ->
  (forall tr, let a := e tr (C_getservbyname name (str "tcp")) in
     a_ret a = 0 /\ a_val a = swap16 p) ->
  wp (listener_sport (Some name)) e s (fun r s' => exists sport, r = Some sport /\
    forall d, sin_port (inet_sockaddr d sport) = swap16 p).
Proof.
  intros Hn Hp He. destruct name as [|c name]; [done|]. unfold listener_sport.
  rewrite Hn. cbn [negb]. do 2 wp_step. destruct (He (trace s)) as [H1 H2].
  rewrite <-Ha in H1, H2. rewrite H1, H2. wp_steps. exists (u16 (swap16 p)).
  split; [done|]. intros d. unfold inet_sockaddr, u16.
  assert (0 <= swap16 p < 65536).
  { unfold swap16. pose proof (Z.mod_pos_bound p 256). pose proof (Z.div_le_lower_bound p 256 0).
    pose proof (Z.div_lt_upper_bound p 256 256). lia. }
  rewrite Z.mod_small by lia.
  destruct (negb IPv6 || _); (etransitivity; [|by apply be16_rd]); done.
Qed.

(** C36: SocketUNIXCreateListener makes the directory and, at the path for the port or for the
    process id, removes the old file (both only when the socket is not abstract), binds the
    socket to that very address and listens; on success the connection has the address in a
    new block.  It returns the code of the step that failed.  The umask is 0 meanwhile and
    restored at the end, with one exception: a path that is too long is refused with the
    umask left at 0. *)
Theorem SocketUNIXCreateListener_spec u l c t d name port lflags s :
  umask_env u e -> heap s !! l = Some (BConn c) -> transptr c = Some t ->
  dev_named (index c) name d -> cstring (default [] port) ->
  wp (SocketUNIXCreateListener (At l 0) port lflags) e s
    (unix_listener_result u l c t d port lflags s).
Proof. apply wp_SocketUNIXCreateListener. Qed.

(** SocketUNIXResetListener does nothing while the socket file is there.  Otherwise it
    closes the old descriptor and either binds a new one to the old address, or frees the
    connection without leaving a descriptor open.  The umask is restored unless bind
    fails. *)
Theorem SocketUNIXResetListener_spec u l c t la v s :
  umask_env u e -> own_conn (heap s) l c -> transptr c = Some t ->
  addr c = At la 0 -> heap s !! la = Some (BBytes v) -> addrlen c <= Z.of_nat (length v) ->
  terminated (sun_path v) = true ->
  wp (SocketUNIXResetListener (At l 0)) e s (reset_result u l c t v s).
Proof. apply wp_SocketUNIXResetListener. Qed.

(** SocketINETAccept returns a connection that owns the new descriptor and both
    addresses, or NULL with nothing left of the attempt. *)
Theorem SocketINETAccept_spec l c s :
  env_laws e -> heap s !! l = Some (BConn c) ->
  wp (SocketINETAccept (At l 0)) e s (fun '(p, st) s' => accepted s p st s').
Proof. apply wp_SocketINETAccept. Qed.

(** SocketUNIXAccept returns a connection with two copies of the listener's address, as
    long as accept says the peer's is, or NULL with the descriptor closed and nothing
    allocated.  Either way the listener's own addrlen is that of the peer from then on. *)
Theorem SocketUNIXAccept_spec l c la v s :
  env_laws e -> heap s !! l = Some (BConn c) -> addr c = At la 0 ->
  heap s !! la = Some (BBytes v) -> (sizeof_sockaddr_un <= length v)%nat ->
  wp (SocketUNIXAccept (At l 0)) e s (fun '(p, st) s' => unix_accepted l c v s p st s').
Proof. apply wp_SocketUNIXAccept. Qed.

(** When the kernel reports a longer address than the listener's, as Linux does for a
    peer whose path fills sun_path, SocketUNIXAccept reads behind the end of the
    listener's address. *)
Theorem SocketUNIXAccept_overread l c la v s :
  heap s !! l = Some (BConn c) -> addr c = At la 0 -> heap s !! la = Some (BBytes v) ->
  (forall tr n, 0 <= a_ret (e tr (C_malloc n))) ->
  (forall tr, let a := e tr (C_accept (fd c) 110) in
     0 <= a_ret a /\ (length v < length (a_bytes a))%nat) ->
  faults (SocketUNIXAccept (At l 0)) e s OutOfBounds.
Proof.
  intros Hl Ha Hv Hm Hacc. apply faults_wpf. unfold SocketUNIXAccept.
  do 3 wpf_step; [specialize (Hm (trace s) sizeof_conninfo); subst a; lia|].
  wpf_steps.
  destruct (Hacc ((C_malloc sizeof_conninfo, a) :: trace s)) as [Hr Hlong].
  change 110 with (Z.of_nat sizeof_sockaddr_un) in Hr, Hlong. cbn [trace] in Ha1.
  rewrite <-Ha1 in Hr, Hlong. destruct (Z.ltb_spec (a_ret a0) 0); [lia|].
  do 5 wpf_step; [match type of Hans0 with _ = e ?tr (C_malloc ?n) => specialize (Hm tr n) end;
                  rewrite <-Hans0 in Hm; lia|].
  wpf_steps. unfold copy_addr. do 2 wpf_step. cbn [addr set_addrlen]. rewrite Ha. wpf_step.
  unfold read_bytes. wpf_step.
  apply wpf_wp. eapply wp_load_bytes; [|rewrite drop_0].
  { st_simpl. rewrite !lookup_insert_ne by congruence. exact Hv. }
  destruct (Z.ltb_spec (Z.of_nat (length v)) (Z.of_nat (length (a_bytes a0)))); [|lia].
  wpf_step.
Qed.
End props.

(** ** Witnesses *)

(** A state with one connection [c], whose address, if any, is at 2. *)
Definition state_conn (c : conninfo) (v : bytes) : state :=
  State [] (<[1%positive := BConn c]> (<[2%positive := BBytes v]> ∅)) 3 0
    (initial_flags (cfg := linux X11_t)) None.

Definition inet_conn : conninfo :=
  ConnInfo (Some SocketINETFuncs) 0 NULL 0 3 NULL 0 NULL 0 NULL 0 NULL NULL.
Definition unix_path : bytes := str "/tmp/.X11-unix/X0".
Definition unix_conn_listening : conninfo :=
  ConnInfo (Some SocketUNIXFuncs) 4 NULL 1 3 NULL AF_UNIX (At 2 0) 110 NULL 0 NULL NULL.
Definition env_inet : env :=
  env_socks 5 (mk_sockaddr_in 6000 INADDR_ANY) (mk_sockaddr_in 40000 [127; 0; 0; 1]) 18.
Definition env_unix : env := env_socks 5 (le16 AF_UNIX) (le16 AF_UNIX) 18.

Lemma inet_dev_named : dev_named (cfg := linux X11_t) 0 (str "inet")
  (SockDev (str "inet") AF_INET SOCK_STREAM SOCK_DGRAM 0).
Proof. by split_and!. Qed.

Lemma unix_dev_named : dev_named (cfg := linux X11_t) 4 (str "unix")
  (SockDev (str "unix") AF_UNIX SOCK_STREAM SOCK_DGRAM 0).
Proof. by split_and!. Qed.


Lemma SocketINETCreateListener_undefined_witness :
  faults (SocketINETCreateListener (cfg := linux X11_t) (At 1 0) None 0) env0 state0 NullDeref /\
  faults (SocketINETCreateListener (cfg := linux X11_t) (At 1 0)
    (Some (str "9223372036854775807")) 0) env0 state0 SignedOverflow.
Proof.
  apply (SocketINETCreateListener_undefined (cfg := linux X11_t)); [done | done | by vm_compute].
Defined.

Definition env_service : env :=
  env_of (fun c => match c with
                   | C_getservbyname _ _ => Some (Answer 0 0 [] (swap16 7100) stat0 [] [] None)
                   | _ => None
                   end).

Lemma listener_service_port_witness :
  wp (listener_sport (Some (str "font-service"))) env_service state0 (fun r s' =>
    exists sport, r = Some sport /\
      forall d, sin_port (inet_sockaddr (cfg := linux X11_t) d sport) = 48155).
Proof.
  apply (listener_service_port (cfg := linux X11_t) env_service (str "font-service") 7100);
    [done | lia | done].
Defined.

Lemma SocketUNIXCreateListener_spec_witness :
  wp (SocketUNIXCreateListener (cfg := linux X11_t) (At 1 0) (Some (str "0")) 0) env_unix
    (state_conn unix_conn_listening []) (unix_listener_result (cfg := linux X11_t) env_unix 18 1
      unix_conn_listening SocketUNIXFuncs
      (SockDev (str "unix") AF_UNIX SOCK_STREAM SOCK_DGRAM 0) (Some (str "0")) 0
      (state_conn unix_conn_listening [])).
Proof.
  apply (SocketUNIXCreateListener_spec (cfg := linux X11_t) env_unix 18 1 unix_conn_listening
    SocketUNIXFuncs _ (str "unix")); [apply env_socks_umask | done | done | exact unix_dev_named |].
  by apply (bool_decide_unpack _).
Defined.

(** The socket file is gone: stat answers 0 with an empty structure. *)
Lemma SocketUNIXResetListener_spec_witness :
  wp (SocketUNIXResetListener (cfg := linux X11_t) (At 1 0)) env_unix
    (state_conn unix_conn_listening (mk_sockaddr_un unix_path))
    (reset_result (cfg := linux X11_t) 18 1 unix_conn_listening SocketUNIXFuncs
       (mk_sockaddr_un unix_path) (state_conn unix_conn_listening (mk_sockaddr_un unix_path))).
Proof.
  apply (SocketUNIXResetListener_spec (cfg := linux X11_t) env_unix 18 1 unix_conn_listening
    SocketUNIXFuncs 2); [apply env_socks_umask | | done | done | done | by vm_compute | by vm_compute].
  split_and!; [done | by split; [|eexists] | done | done | by apply (bool_decide_unpack _)].
Defined.

Lemma SocketINETAccept_spec_witness :
  wp (SocketINETAccept (cfg := linux X11_t) (At 1 0)) env_inet (state_conn inet_conn [])
    (fun '(p, st) s' => accepted (state_conn inet_conn []) p st s').
Proof.
  apply (SocketINETAccept_spec (cfg := linux X11_t) env_inet 1 inet_conn);
    [apply env_socks_laws | done].
Defined.

Lemma SocketUNIXAccept_spec_witness :
  wp (SocketUNIXAccept (At 1 0)) env_unix
    (state_conn unix_conn_listening (mk_sockaddr_un unix_path))
    (fun '(p, st) s' => unix_accepted env_unix 1 unix_conn_listening (mk_sockaddr_un unix_path)
       (state_conn unix_conn_listening (mk_sockaddr_un unix_path)) p st s').
Proof.
  apply (SocketUNIXAccept_spec env_unix 1 unix_conn_listening 2);
    [apply env_socks_laws | done | done | done | by apply Nat.leb_le].
Defined.

Definition env_long_peer : env :=
  env_of (fun c => match c with
                   | C_accept _ _ => Some (ans_bytes 5 (replicate 111 47))
                   | _ => None
                   end).

Lemma SocketUNIXAccept_overread_witness :
  faults (SocketUNIXAccept (At 1 0)) env_long_peer
    (state_conn unix_conn_listening (mk_sockaddr_un unix_path)) OutOfBounds.
Proof.
  apply (SocketUNIXAccept_overread env_long_peer 1 unix_conn_listening 2
    (mk_sockaddr_un unix_path)); [done | done | done | done |].
  intros tr. split; [by vm_compute | by apply Nat.ltb_lt].
Defined.
