(* ===== verification/SockConnect.v ===== *)
(** * The client side of Xtranssock.c

    Connecting INET sockets (with the address list that IPv6 builds keep between calls,
    or by the host and service tables otherwise) and UNIX domain sockets. *)

From S2P Require Import Prelude CLib Xtransint World Logic Tables Util SockOpen SockListen.
Open Scope Z_scope.

Section connect.
Context {cfg : Config}.

Definition SocketINETClose (ciptr : ptr) : M Z :=
  c ← load_conn ciptr; sys_ret (C_close (fd c)).

(** ** IPv6 builds: the static address list *)

Definition sizeof_addrlist : Z := 112.

(** The list that belongs to another host or port is dropped; the static structure is
    allocated the first time. *)
Definition addrlist_init (host port : bytes) : M addrlist_t :=
  al ← get addrlist;
  match al with
  | Some al =>
      if negb (strcmp_eq host (al_host al)) || negb (strcmp_eq port (al_port al)) then
        when (negb (bool_decide (length (al_firstaddr al) = 0%nat)))
          (ignore (sys (C_freeaddrinfo (al_firstaddr al))));;
        mret (AddrList (al_addr al) [] (al_port al) (al_host al))
      else mret al
  | None =>
      r ← sys_ret (C_malloc sizeof_addrlist);
      if r <? 0 then throw NullDeref else mret (AddrList [] [] [] [])
  end.

Definition put_addrlist (al : addrlist_t) : M unit := modify (upd_addrlist (Some al)).

(** Resolve the name unless the list at hand is the one of this host and port. *)
Definition addrlist_resolve (ciptr : ptr) (host port : bytes) : M bool :=
  al ← addrlist_init host port;
  put_addrlist al;;
  match al_firstaddr al with
  | _ :: _ => mret true
  | [] =>
      let port' := take (PORTBUFSIZE - 1) port in
      let host' := take (MAXHOSTNAMELEN - 1) host in
      put_addrlist (AddrList (al_addr al) [] port' host');;
      c ← load_conn ciptr;
      d ← dev_at (index c);
      a ← sys (C_getaddrinfo host (Some port) (devcotsname d));
      if negb (a_ret a =? 0) then ESET EINVAL;; mret false
      else
        put_addrlist (AddrList [] (a_addrs a) port' host');;
        mret true
  end.

(** The socket is of the other family: close it and open a "tcp" socket again, after
    [previndex]; whether the new one is of family [want]. *)
Definition reopen_tcp (ciptr : ptr) (host port : bytes) (previndex : Z) (want : Z) : M bool :=
  SocketINETClose ciptr;;
  newciptr ← SocketOpenCOTSClientBase (str "tcp") (str "tcp") host port previndex;
  if bool_decide (newciptr = NULL) then mret false
  else
    n ← load_conn newciptr;
    set ciptr (set_fd (fd n));;
    d ← dev_at (index n);
    free newciptr;;
    mret (dev_family d =? want).

(** Whether the address can be used with the socket; it may change the socket. *)
Definition address_usable (ciptr : ptr) (host port : bytes) (ai : addrinfo) : M bool :=
  c ← load_conn ciptr;
  d ← dev_at (index c);
  if ai_family ai =? AF_INET then
    if dev_family d =? AF_INET6 then
      if strcmp_eq (transname d) (str "tcp")
      then reopen_tcp ciptr host port (index c) AF_INET
      else mret false
    else mret true
  else if ai_family ai =? AF_INET6 then
    if dev_family d =? AF_INET then
      if strcmp_eq (transname d) (str "tcp")
      then reopen_tcp ciptr host port (-1) AF_INET6
      else mret false
    else mret true
  else mret false.

(** while (socketaddr == NULL) { ... }: the next usable address of the list, starting
    over once at its end; [None] when there is none. *)
Fixpoint pick_address (fuel : nat) (ciptr : ptr) (host port : bytes) (resetonce : bool)
    (al : addrlist_t) : M (option (addrinfo * addrlist_t)) :=
  match fuel with
  | O => throw OutOfFuel
  | S fuel =>
      match al_addr al, resetonce with
      | [], true => mret None
      | _, _ =>
          let '(cur, resetonce) :=
            match al_addr al with
            | [] => (al_firstaddr al, true)
            | cur => (cur, resetonce)
            end in
          match cur with
          | [] => throw NullDeref
          | ai :: rest =>
              ok ← address_usable ciptr host port ai;
              if (ok : bool)
              then mret (Some (ai, AddrList cur (al_firstaddr al) (al_port al) (al_host al)))
              else pick_address fuel ciptr host port resetonce
                     (AddrList rest (al_firstaddr al) (al_port al) (al_host al))
          end
      end
  end.

(** Twice the list, and the restart. *)
Definition pick_fuel (al : addrlist_t) : nat :=
  (length (al_addr al) + length (al_firstaddr al) + 2)%nat.

(** The errors that only concern one of several addresses. *)
Definition address_error (al : addrlist_t) (olderrno : Z) : bool :=
  (negb (bool_decide (length (drop 1 (al_addr al)) = 0%nat))
   || negb (bool_decide (length (al_addr al) = length (al_firstaddr al))))
  && ((olderrno =? ENETUNREACH) || (olderrno =? EAFNOSUPPORT)
      || (olderrno =? EADDRNOTAVAIL) || (olderrno =? ETIMEDOUT)
      || (olderrno =? EHOSTDOWN)).

(** The address structure of IPv4-only builds: the host, then the port. *)
Definition connect_addr4 (host port : bytes) : M (option bytes) :=
  tmpaddr ←
    (match host with
     | h0 :: _ =>
         if (h0 <? 128) && isdigit h0
         then a ← sys (C_inet_addr host); mret (u32 (a_val a)) else mret INADDR_NONE
     | [] => mret INADDR_NONE
     end);
  addr ←
    (if tmpaddr =? INADDR_NONE then
       a ← sys (C_gethostbyname host);
       match a_host a with
       | None => ESET EINVAL;; mret None
       | Some hostp =>
           if negb (h_addrtype hostp =? AF_INET) then ESET EPROTOTYPE;; mret None
           else
             match h_addr_list hostp with
             | [] => throw NullDeref
             | h_addr :: _ => b ← buffer_bytes h_addr 4; mret (Some b)
             end
       end
     else mret (Some (le32 tmpaddr)));
  match addr with
  | None => mret None
  | Some addr =>
      if negb (is_numeric port) then
        servp ← sys (C_getservbyname port (str "tcp"));
        if a_ret servp <? 0 then mret None
        else mret (Some (mk_sockaddr_in (u16 (a_val servp)) addr))
      else
        let tmpport := strtol port in
        if (tmpport <? 1024) || (USHRT_MAX <? tmpport) then mret None
        else mret (Some (mk_sockaddr_in (u16 tmpport) addr))
  end.

(** ** connect *)

(** What a failed connect means, [retry] being the extra cases of IPv6 builds. *)
Definition inet_connect_error (retry : bool) (olderrno : Z) : Z :=
  if (olderrno =? ECONNREFUSED) || (olderrno =? EINTR) || retry then TRANS_TRY_CONNECT_AGAIN
  else if (olderrno =? EWOULDBLOCK) || (olderrno =? EINPROGRESS) then TRANS_IN_PROGRESS
  else TRANS_CONNECT_FAILED.

(** From SO_KEEPALIVE to the value returned; [retry] from the errno of connect. *)
Definition do_connect (ciptr : ptr) (sa : bytes) (retry : Z -> bool) : M Z :=
  c ← load_conn ciptr;
  sys (C_setsockopt (fd c) SOL_SOCKET SO_KEEPALIVE [1]);;
  r ← sys_ret (C_connect (fd c) sa);
  if r <? 0 then
    olderrno ← EGET;
    mret (inet_connect_error (retry olderrno) olderrno)
  else
    r ← SocketINETGetAddr ciptr;
    if r <? 0 then mret TRANS_CONNECT_FAILED
    else
      r ← SocketINETGetPeerAddr ciptr;
      if r <? 0 then mret TRANS_CONNECT_FAILED else mret 0.

(** The display number of an X client becomes a TCP port. *)
Definition SocketINETConnect (ciptr : ptr) (host port : option bytes) : M Z :=
  host ← match host with Some h => mret h | None => GetHostname 256 end;
  port ← x_tcp_port port;
  match port with
  | None => throw NullDeref
  | Some port =>
      if IPv6 then
        ok ← addrlist_resolve ciptr host port;
        if negb ok then mret TRANS_CONNECT_FAILED
        else
          al ← get addrlist;
          match al with
          | None => throw NullDeref
          | Some al =>
              picked ← pick_address (pick_fuel al) ciptr host port false al;
              match picked with
              | None =>
                  put_addrlist (AddrList [] (al_firstaddr al) (al_port al) (al_host al));;
                  mret TRANS_CONNECT_FAILED
              | Some (ai, al) =>
                  put_addrlist al;;
                  res ← do_connect ciptr (ai_addr ai) (address_error al);
                  when (negb (res =? 0))
                    (put_addrlist (AddrList (drop 1 (al_addr al)) (al_firstaddr al)
                                     (al_port al) (al_host al)));;
                  mret res
              end
          end
      else
        sa ← connect_addr4 host port;
        match sa with
        | None => mret TRANS_CONNECT_FAILED
        | Some sa => do_connect ciptr sa (fun _ => false)
        end
  end.

(** ** UNIX domain sockets *)

(** The address of one node of a getaddrinfo list, when it is of an INET family. *)
Definition same_address (i j : addrinfo) : bool :=
  (ai_family i =? ai_family j) &&
  (((ai_family i =? AF_INET) && bool_decide (sin_addr (ai_addr i) = sin_addr (ai_addr j))) ||
   ((ai_family i =? AF_INET6) && bool_decide (sin6_addr (ai_addr i) = sin6_addr (ai_addr j)))).

(** char specified_local_addr_list[10][4]: at most 9 addresses are kept. *)
Definition saved_addresses (l : list bytes) : list bytes := take 4 <$> take 9 l.

Definition UnixHostReallyLocal (host : bytes) : M bool :=
  hostnamebuf ← GetHostname 256;
  if strcmp_eq hostnamebuf host then mret true
  else if IPv6 then
    a ← sys (C_getaddrinfo hostnamebuf None 0);
    if negb (a_ret a =? 0) then mret false
    else
      b ← sys (C_getaddrinfo host None 0);
      if negb (a_ret b =? 0) then
        sys (C_freeaddrinfo (a_addrs a));; mret false
      else
        let equiv := existsb (fun i => existsb (same_address i) (a_addrs b)) (a_addrs a) in
        sys (C_freeaddrinfo (a_addrs a));;
        sys (C_freeaddrinfo (a_addrs b));;
        mret equiv
  else
    a ← sys (C_gethostbyname host);
    match a_host a with
    | None => mret false
    | Some hostp =>
        let specified := saved_addresses (h_addr_list hostp) in
        b ← sys (C_gethostbyname hostnamebuf);
        match a_host b with
        | None => mret false
        | Some hostp =>
            mret (existsb (fun x => existsb (fun y => bool_decide (x = take 4 y))
                                      (h_addr_list hostp)) specified)
        end
    end.

(** What a failed connect means; the flag says to give up abstract sockets. *)
Definition unix_connect_error (abstract : bool) (olderrno : Z) : Z * bool :=
  if (olderrno =? EWOULDBLOCK) || (olderrno =? EINPROGRESS) then (TRANS_IN_PROGRESS, false)
  else if olderrno =? EINTR then (TRANS_TRY_CONNECT_AGAIN, false)
  else if (olderrno =? ENOENT) || (olderrno =? ECONNREFUSED) then
    if abstract then (TRANS_TRY_CONNECT_AGAIN, true) else (TRANS_CONNECT_FAILED, false)
  else (TRANS_CONNECT_FAILED, false).

(** From the connect call on: [sockname] is the address, [namelen] its length. *)
Definition unix_connect_at (ciptr : ptr) (abstract : bool) (sockname : bytes) (namelen : Z) : M Z :=
  c ← load_conn ciptr;
  sa ← buffer_bytes sockname namelen;
  r ← sys_ret (C_connect (fd c) sa);
  if r <? 0 then
    olderrno ← EGET;
    let '(res, drop_abstract) := unix_connect_error abstract olderrno in
    when drop_abstract
      (match transptr c with
       | None => throw NullDeref
       | Some t => set_tflags t (fun f => Z.land f (Z.lnot TRANS_ABSTRACT))
       end);;
    mret res
  else
    p ← malloc_bytes namelen;
    set ciptr (set_addr p);;
    if bool_decide (p = NULL) then mret TRANS_CONNECT_FAILED
    else
      q ← malloc_bytes namelen;
      set ciptr (set_peeraddr q);;
      if bool_decide (q = NULL) then mret TRANS_CONNECT_FAILED
      else
        let sockname := if abstract then write_at offsetof_sun_path (str "@") sockname
                        else sockname in
        set ciptr (set_family AF_UNIX);;
        set ciptr (set_addrlen namelen);;
        set ciptr (set_peeraddrlen namelen);;
        b ← buffer_bytes sockname namelen;
        write_bytes p b;;
        b' ← buffer_bytes sockname namelen;
        write_bytes q b';;
        mret 0.

Definition SocketUNIXConnect (ciptr : ptr) (host port : option bytes) : M Z :=
  abstract ← conn_abstract ciptr;
  remote ←
    match host with
    | Some ((h0 :: _) as host) =>
        if negb (h0 =? ch "/") && negb (strcmp_eq host (str "unix"))
        then l ← UnixHostReallyLocal host; mret (negb l) else mret false
    | _ => mret false
    end;
  if (remote : bool) then mret TRANS_CONNECT_FAILED
  else
    match port with
    | None | Some [] => mret TRANS_CONNECT_FAILED
    | Some port =>
        match set_sun_path (Some port) UNIX_PATH abstract with
        | None => mret TRANS_CONNECT_FAILED
        | Some path =>
            let namelen := SUN_LEN path in
            let sockname :=
              mk_sockaddr_un (if abstract then 0 :: drop 1 path else path) in
            unix_connect_at ciptr abstract sockname namelen
        end
    end.
End connect.

(** ** Properties *)

Section props.
Context {cfg : Config} (e : env).

(** *** Reopening the socket for the other family *)

(** The connection at [l] over some descriptor, nothing else changed. *)
Definition refitted (l : positive) (c : conninfo) (s s' : state) : Prop :=
  same_globals s s' /\ exists f, heap s' = <[l := BConn (set_fd f c)]> (heap s).

Lemma set_fd_set_fd f f' c : set_fd f (set_fd f' c) = set_fd f c.
Proof. done. Qed.

Lemma refitted_refl l c s : heap s !! l = Some (BConn c) -> refitted l c s s.
Proof.
  intros Hl. split; [done|]. exists (fd c). rewrite insert_id; [done|]. rewrite Hl. by destruct c.
Qed.

Lemma refitted_trans l c f s1 s2 s3 :
  refitted l c s1 s2 -> refitted l (set_fd f c) s2 s3 -> refitted l c s1 s3.
Proof.
  intros [G1 [f1 H1]] [G2 [f2 H2]]. split; [by eapply same_globals_trans|]. exists f2.
  by rewrite H2, H1, insert_insert_eq, set_fd_set_fd.
Qed.

Lemma refitted_lookup l c s s' :
  refitted l c s s' -> exists f, heap s' !! l = Some (BConn (set_fd f c)).
Proof. intros [_ [f ->]]. exists f. apply lookup_insert_eq. Qed.

Lemma wp_reopen_tcp l c name d host port previndex want s :
  heap s !! l = Some (BConn c) -> -1 <= previndex < Z.of_nat NUMSOCKETFAMILIES ->
  dev_named (index c) name d ->
  wp (reopen_tcp (At l 0) host port previndex want) e s (fun _ s' => refitted l c s s').
Proof.
  intros Hl Hi Hd. unfold reopen_tcp, SocketINETClose. do 4 wp_step.
  apply wp_bind. eapply wp_mono; [by apply wp_SocketOpenCOTSClientBase|].
  intros p s1 [[-> (Hh & Hg & _)]|(i & d' & Hd' & l' & f & -> & Hl' & _ & Hg & Hh & _)].
  - wp_step. apply wp_ret. split; [exact Hg|]. exists (fd c). rewrite Hh. cbn [heap].
    rewrite insert_id; [done|]. rewrite Hl. by destruct c.
  - cbn [heap logged upd_trace] in Hh, Hl'. assert (Hne : l' <> l) by congruence.
    assert (Hln : heap s1 !! l' = Some (BConn (set_index i (set_fd f conn0))))
      by (rewrite Hh; apply lookup_insert_eq).
    assert (Hlc : heap s1 !! l = Some (BConn c)) by (by rewrite Hh, lookup_insert_ne).
    do 5 wp_step. apply wp_bind. eapply wp_dev_at; [exact Hd'|]. do 2 wp_step.
    wp_step. split; [exact Hg|]. exists f. st_simpl. rewrite Hh. cbn [fd set_index set_fd].
    by heap_eq.
Qed.

Lemma dev_named_index i name d : dev_named i name d -> -1 <= i < Z.of_nat NUMSOCKETFAMILIES.
Proof. intros Hd. pose proof (dev_named_lt _ _ _ Hd). destruct Hd as (? & _). lia. Qed.

Lemma wp_address_usable l c name d host port ai s :
  heap s !! l = Some (BConn c) -> dev_named (index c) name d ->
  wp (address_usable (At l 0) host port ai) e s (fun _ s' => refitted l c s s').
Proof.
  intros Hl Hd. unfold address_usable. do 2 wp_step. apply wp_bind.
  eapply wp_dev_at; [exact Hd|].
  assert (Hr : refitted l c s s) by by apply refitted_refl.
  repeat case_bool; try (by apply wp_ret); eapply wp_reopen_tcp; try done;
    first [by eapply dev_named_index | unfold NUMSOCKETFAMILIES; lia].
Qed.

(** *** The list of addresses *)

(** The cursor is in the list, or there is no list. *)
Definition cursor_ok (al : addrlist_t) : Prop :=
  al_firstaddr al = [] \/ al_addr al `suffix_of` al_firstaddr al.
Definition addrlist_ok (al : option addrlist_t) : Prop := forall a, al = Some a -> cursor_ok a.

(** The address chosen is at the cursor of the same list. *)
Definition picked (al : addrlist_t) (r : option (addrinfo * addrlist_t)) : Prop :=
  match r with
  | None => True
  | Some (ai, al') => al_firstaddr al' = al_firstaddr al /\
      (exists rest, al_addr al' = ai :: rest) /\ al_addr al' `suffix_of` al_firstaddr al
  end.

Lemma wp_pick_address fuel l c name d host port (once : bool) al s :
  heap s !! l = Some (BConn c) -> dev_named (index c) name d ->
  al_firstaddr al <> [] -> al_addr al `suffix_of` al_firstaddr al ->
  (length (al_addr al) + (if once then 0 else length (al_firstaddr al)) < fuel)%nat ->
  wp (pick_address fuel (At l 0) host port once al) e s (fun r s' =>
    refitted l c s s' /\ picked al r).
Proof.
  revert once c al s. induction fuel as [|fuel IH];
    intros once c [aa af ap ah] s Hl Hd Hne Hsuf Hfuel; [lia|].
  cbn [pick_address al_addr al_firstaddr al_port al_host] in *.
  (* the address looked at, and what follows *)
  assert (Hstep : forall ai rest (once' : bool), (ai :: rest) `suffix_of` af ->
    (length rest + (if once' then 0 else length af) < fuel)%nat ->
    wp (ok ← address_usable (At l 0) host port ai;
        if (ok : bool) then mret (Some (ai, AddrList (ai :: rest) af ap ah))
        else pick_address fuel (At l 0) host port once' (AddrList rest af ap ah)) e s
      (fun r s' => refitted l c s s' /\ picked (AddrList aa af ap ah) r)).
  { intros ai rest once' Hin Hlen. apply wp_bind. eapply wp_mono; [by eapply wp_address_usable|].
    intros ok s1 H1. destruct ok.
    - apply wp_ret. split; [done|]. split_and!; [done | by exists rest | done].
    - destruct (refitted_lookup _ _ _ _ H1) as [f Hf]. eapply wp_mono; [eapply IH|].
      + exact Hf.
      + exact Hd.
      + exact Hne.
      + cbn. etransitivity; [|exact Hin]. by exists [ai].
      + exact Hlen.
      + intros r s2 [H2 Hp]. split; [by eapply refitted_trans | exact Hp]. }
  destruct aa as [|ai rest].
  - destruct once; [apply wp_ret; split; [by apply refitted_refl | done]|].
    destruct af as [|ai rest]; [done|]. cbn [length] in Hfuel.
    apply (Hstep ai rest true); [done | lia].
  - destruct once; (apply Hstep; [done | cbn [length] in *; lia]).
Qed.

(** Before the search: what addrlist_resolve leaves when it says so. *)
Definition resolved (al : option addrlist_t) : Prop :=
  exists a, al = Some a /\ al_firstaddr a <> [] /\ al_addr a `suffix_of` al_firstaddr a.

(** getaddrinfo that succeeds has found some address. *)
Definition getaddrinfo_law : Prop :=
  forall tr h p t, let a := e tr (C_getaddrinfo h p t) in a_ret a = 0 -> a_addrs a <> [].

(** Only the static list changes. *)
Definition relisted (s s' : state) : Prop :=
  heap s' = heap s /\ tflags s' = tflags s /\ addrlist_ok (addrlist s').

Lemma wp_addrlist_init host port s :
  mallocs e -> addrlist_ok (addrlist s) ->
  wp (addrlist_init host port) e s (fun al s' =>
    heap s' = heap s /\ tflags s' = tflags s /\ cursor_ok al).
Proof.
  intros Hm Hok. unfold addrlist_init. do 2 wp_step.
  destruct (addrlist s) as [al|] eqn:Eal.
  - destruct (_ || _).
    + wp_step. eapply (wp_mono _ _ _ (fun _ s' => heap s' = heap s /\ tflags s' = tflags s)).
      { apply wp_when; intros _; [|done]. by wp_steps. }
      intros _ s1 [Hh Ht]. apply wp_ret. split_and!; [done | done | by left].
    + apply wp_ret. split_and!; [done | done | by apply Hok].
  - do 2 wp_step. specialize (Hm (trace s) sizeof_addrlist). rewrite <-Ha in Hm.
    destruct (Z.ltb_spec (a_ret a) 0); [lia|]. apply wp_ret. split_and!; [done | done | by left].
Qed.

Lemma wp_addrlist_resolve l c name d host port s :
  mallocs e -> getaddrinfo_law -> addrlist_ok (addrlist s) ->
  heap s !! l = Some (BConn c) -> dev_named (index c) name d ->
  wp (addrlist_resolve (At l 0) host port) e s (fun ok s' => relisted s s' /\
    (ok = true -> resolved (addrlist s'))).
Proof.
  intros Hm Hgai Hok Hl Hd. unfold addrlist_resolve. apply wp_bind.
  eapply wp_mono; [by apply wp_addrlist_init|]. intros al s1 (Hh & Ht & Hc).
  unfold put_addrlist. do 2 wp_step.
  assert (Hsome : forall a' : addrlist_t, cursor_ok a' -> addrlist_ok (Some a'))
    by by intros a' Ha' ? [= <-].
  destruct (al_firstaddr al) as [|x xs] eqn:Ef.
  2: { apply wp_ret. split; [split_and!; [done | done | by apply Hsome]|]. intros _.
       exists al. unfold cursor_ok in Hc. rewrite Ef in *. destruct Hc as [Hc|Hc]; [done|].
       by split_and!. }
  cbv zeta. apply wp_bind, wp_modify, wp_bind.
  eapply wp_load_conn; [st_simpl; by rewrite Hh|]. apply wp_bind. eapply wp_dev_at; [exact Hd|]. do 2 wp_step.
  destruct (Z.eqb_spec (a_ret a) 0) as [Hr|Hr]; cbn [negb].
  - do 3 wp_step. split; [split_and!; [done | done | apply Hsome; right; apply suffix_nil]|].
    intros _. eexists. split_and!; [done | | apply suffix_nil]. cbn. rewrite Ha in *. by apply Hgai.
  - do 3 wp_step. split; [split_and!; [done | done | apply Hsome; by left]|]. done.
Qed.

(** *** connect *)

Definition connect_code (r : Z) : Prop :=
  r = 0 \/ r = TRANS_CONNECT_FAILED \/ r = TRANS_TRY_CONNECT_AGAIN \/ r = TRANS_IN_PROGRESS.

Lemma inet_connect_error_code retry er : connect_code (inet_connect_error retry er).
Proof. unfold inet_connect_error, connect_code. repeat case_bool; auto. Qed.

(** The connection [c] after a call that returned [r]: over the descriptor [f], on success
    with its own and its peer's address in new blocks. *)
Definition connected (l : positive) (m : memory) (r : Z) (m' : memory) : Prop :=
  kept_but l m m' /\ exists c', m' !! l = Some (BConn c') /\
    (r = 0 -> exists la lp, addr c' = At la 0 /\ peeraddr c' = At lp 0 /\ la <> lp /\
       m !! la = None /\ m !! lp = None /\
       (exists b, m' !! la = Some (BBytes b)) /\ (exists b, m' !! lp = Some (BBytes b))).

Lemma connected_refl l m c r :
  m !! l = Some (BConn c) -> r <> 0 -> connected l m r m.
Proof. intros Hl Hr. split; [done|]. exists c. by split. Qed.

Lemma connected_failed l m m' c r :
  kept_but l m m' -> m' !! l = Some (BConn c) -> r <> 0 -> connected l m r m'.
Proof. intros Hk Hl Hr. split; [done|]. exists c. by split. Qed.

(** Both addresses found. *)
Lemma connected_both l la lp m m1 m2 c1 c2 b b' :
  is_Some (m !! l) -> m !! la = None -> m1 = <[la := BBytes b]> (<[l := c1]> m) ->
  m1 !! lp = None -> m2 = <[lp := BBytes b']> (<[l := BConn c2]> m1) ->
  addr c2 = At la 0 -> peeraddr c2 = At lp 0 -> connected l m 0 m2.
Proof.
  intros [v Hl] Hla -> Hlp -> Ha Hp. apply lookup_insert_None in Hlp as [Hlp ?].
  apply lookup_insert_None in Hlp as [Hlp ?]. assert (l <> la) by congruence. split.
  - intros x Hx [w Hw]. by rewrite !lookup_insert_ne by congruence.
  - exists c2. split; [by rewrite lookup_insert_ne, lookup_insert_eq|]. intros _.
    exists la, lp. split_and!; try done.
    + exists b. by rewrite lookup_insert_ne, lookup_insert_ne, lookup_insert_eq.
    + exists b'. apply lookup_insert_eq.
Qed.

Lemma connected_once l la m m1 m2 c1 c2 b r :
  is_Some (m !! l) -> m !! la = None -> m1 = <[la := BBytes b]> (<[l := BConn c1]> m) ->
  m2 = m1 \/ m2 = <[l := BConn c2]> m1 -> r <> 0 -> connected l m r m2.
Proof.
  intros [v Hl] Hla -> Hm Hr. assert (l <> la) by congruence.
  assert (Hk : forall x, x <> l -> is_Some (m !! x) -> m2 !! x = m !! x).
  { intros x Hx [w Hw]. destruct Hm as [-> | ->]; by rewrite !lookup_insert_ne by congruence. }
  destruct Hm as [-> | ->]; eapply connected_failed; try done.
  - rewrite lookup_insert_ne by done. apply lookup_insert_eq.
  - apply lookup_insert_eq.
Qed.

Lemma wp_do_connect l c sa retry s :
  env_laws e -> heap s !! l = Some (BConn c) ->
  wp (do_connect (At l 0) sa retry) e s (fun r s' =>
    same_globals s s' /\ connect_code r /\ connected l (heap s) r (heap s')).
Proof.
  intros He Hl. assert (HS : is_Some (heap s !! l)) by by eexists.
  unfold do_connect. do 7 wp_step.
  { wp_steps. split_and!; [done | apply inet_connect_error_code |].
    eapply connected_refl; [exact Hl|]. unfold inet_connect_error. by repeat case_bool. }
  apply wp_bind. eapply wp_mono; [by eapply wp_SocketINETGetAddr|]. st_simpl.
  intros r s1 (Hg1 & _ & [(-> & Hh1)|(-> & la & n & Hla & Hh1)]); cbn [heap] in *.
  { wp_steps. split_and!; [exact Hg1 | right; by left |].
    destruct Hh1 as [-> | ->]; [by eapply connected_refl|].
    eapply connected_failed; [apply kept_but_insert | apply lookup_insert_eq | done]. }
  assert (Hne : l <> la) by congruence. cbn [fd] in Hh1.
  match type of Hh1 with _ = <[_ := BBytes ?b]> _ => set (b1 := b) in * end.
  assert (Hl1 : heap s1 !! l = Some (BConn (with_addr la b1 c)))
    by (rewrite Hh1, lookup_insert_ne by done; apply lookup_insert_eq).
  wp_step. apply wp_bind. eapply wp_mono; [by eapply wp_SocketINETGetPeerAddr|].
  intros r s2 (Hg2 & _ & [(-> & Hh2)|(-> & lp & n2 & Hlp & Hh2)]).
  - wp_steps. split_and!; [by eapply same_globals_trans | right; by left |].
    by eapply connected_once.
  - wp_steps. split_and!; [by eapply same_globals_trans | by left |].
    by eapply connected_both.
Qed.

Lemma connected_refitted l c s s' r m' :
  refitted l c s s' -> connected l (heap s') r m' -> connected l (heap s) r m'.
Proof.
  intros [_ [f Hh]] [Hk (c' & Hl & Hr)]. rewrite Hh in Hk, Hr. split.
  - intros x Hx Hs. rewrite Hk; [by apply lookup_insert_ne | done | by rewrite lookup_insert_ne].
  - exists c'. split; [done|]. intros H0. destruct (Hr H0) as (la & lp & Ha & Hp & Hne & H1 & H2 & H3).
    apply lookup_insert_None in H1 as [H1 _]. apply lookup_insert_None in H2 as [H2 _].
    by exists la, lp.
Qed.

(** What an attempt to connect leaves: one of the four codes, the connection with its
    addresses on success, a list whose cursor can be used again. *)
Definition inet_connected (l : positive) (s : state) (r : Z) (s' : state) : Prop :=
  connect_code r /\ tflags s' = tflags s /\ addrlist_ok (addrlist s') /\
  connected l (heap s) r (heap s').

(** connect itself, at the address picked. *)
Lemma wp_connect_picked l c f ai al al0 s s1 :
  env_laws e -> refitted l c s s1 -> heap s1 !! l = Some (BConn (set_fd f c)) ->
  al_addr al `suffix_of` al_firstaddr al0 -> al_firstaddr al = al_firstaddr al0 ->
  wp (put_addrlist al;;
      res ← do_connect (At l 0) (ai_addr ai) (address_error al);
      when (negb (res =? 0))
        (put_addrlist (AddrList (drop 1 (al_addr al)) (al_firstaddr al) (al_port al) (al_host al)));;
      mret res) e s1 (inet_connected l s).
Proof.
  intros He Href Hl Hsuf Hfirst. apply wp_bind, wp_modify, wp_bind.
  eapply wp_mono; [by eapply wp_do_connect|]. intros r s2 ([Ht Ha] & Hr & Hc).
  pose proof Href as [[Ht1 _] _].
  assert (Hok : forall a : addrlist_t, al_firstaddr a = al_firstaddr al0 ->
    al_addr a `suffix_of` al_firstaddr al0 -> addrlist_ok (Some a)).
  { intros a H1 H2 ? [= <-]. right. by rewrite H1. }
  assert (Hc' : connected l (heap s) r (heap s2)) by by eapply connected_refitted.
  apply wp_bind, wp_when; intros _; [apply wp_modify|]; apply wp_ret.
  - split_and!; [done | cbn; by rewrite Ht | | done]. apply Hok; [done|]. cbn.
    etransitivity; [|exact Hsuf]. exists (take 1 (al_addr al)). by rewrite take_drop.
  - split_and!; [done | by rewrite Ht | | done]. rewrite Ha. by apply Hok.
Qed.

Lemma wp_SocketINETConnect6 l c name d host port s :
  IPv6 = true -> env_laws e -> mallocs e -> getaddrinfo_law ->
  is_client X11_t = true -> is_numeric port = true -> strtol port <= LONG_MAX - X_TCP_PORT ->
  addrlist_ok (addrlist s) -> heap s !! l = Some (BConn c) -> dev_named (index c) name d ->
  wp (SocketINETConnect (At l 0) (Some host) (Some port)) e s (inet_connected l s).
Proof.
  intros H6 He Hm Hgai Hx Hn Hmax Hok Hl Hd. unfold SocketINETConnect.
  apply wp_bind, wp_ret, wp_bind. eapply wp_mono; [by apply wp_x_tcp_port|]. intros p s' [-> ->].
  rewrite H6. apply wp_bind. eapply wp_mono; [by eapply wp_addrlist_resolve|].
  intros ok s1 [(Hh1 & Ht1 & Hok1) Hres].
  assert (Hl1 : heap s1 !! l = Some (BConn c)) by by rewrite Hh1.
  assert (Hfail : forall s2, heap s2 = heap s1 -> tflags s2 = tflags s1 -> addrlist_ok (addrlist s2) ->
    inet_connected l s TRANS_CONNECT_FAILED s2).
  { intros s2 Hh2 Ht2 Hok2. split_and!; [right; by left | congruence | done |].
    rewrite Hh2, Hh1. by eapply connected_refl. }
  destruct ok; cbn [negb]; [|apply wp_ret; by apply Hfail].
  destruct (Hres eq_refl) as (al & Hal & Hne & Hsuf). wp_step. wp_step. rewrite Hal.
  apply wp_bind. eapply wp_mono; [eapply (wp_pick_address _ _ c); try done; unfold pick_fuel; lia|].
  intros r s2 [Href Hp].
  destruct r as [[ai al']|].
  - destruct Hp as (Hf & _ & Hs). destruct (refitted_lookup _ _ _ _ Href) as [f Hlf].
    assert (Hrs : wp (put_addrlist al';;
      res ← do_connect (At l 0) (ai_addr ai) (address_error al');
      when (negb (res =? 0)) (put_addrlist (AddrList (drop 1 (al_addr al')) (al_firstaddr al')
        (al_port al') (al_host al')));; mret res) e s2 (inet_connected l s1))
      by by eapply wp_connect_picked.
    eapply wp_mono; [exact Hrs|]. intros r s3 (Hr & Ht & Ha & Hc).
    split_and!; [done | congruence | done | by rewrite <-Hh1].
  - apply wp_bind, wp_modify, wp_ret. destruct Href as [[Ht2 _] [f Hh2]].
    split_and!; [right; by left | cbn; congruence | |].
    + intros a [= <-]. right. apply suffix_nil.
    + cbn. rewrite Hh2, Hh1. eapply connected_failed; [apply kept_but_insert | apply lookup_insert_eq | done].
Qed.

(** *** UNIX domain sockets *)

Lemma UnixHostReallyLocal_quiet host : logs e quiet_call (UnixHostReallyLocal host).
Proof. unfold UnixHostReallyLocal, GetHostname. logs_solve. Qed.

Lemma length_mk_sockaddr_un path : length (mk_sockaddr_un path) = 110%nat.
Proof. unfold mk_sockaddr_un. rewrite length_app, length_fit. done. Qed.

(** The flags after an attempt: the ones before, but that a refused abstract name makes the
    transport give up abstract names, and asks for another try. *)
Definition unix_flags (t : transport) (s : state) (r : Z) (s' : state) : Prop :=
  tflags s' = tflags s \/
  (HAVE_ABSTRACT_SOCKETS = true /\ has (tflags s t) TRANS_ABSTRACT = true /\
   r = TRANS_TRY_CONNECT_AGAIN /\ forall t', tflags s' t' =
     if decide (t' = t) then Z.land (tflags s t) (Z.lnot TRANS_ABSTRACT) else tflags s t').

Definition unix_connected (l : positive) (t : transport) (s : state) (r : Z) (s' : state) : Prop :=
  connect_code r /\ addrlist s' = addrlist s /\ unix_flags t s r s' /\
  connected l (heap s) r (heap s').

Lemma unix_connected_failed l t c s s' :
  heap s !! l = Some (BConn c) -> heap s' = heap s -> same_globals s s' ->
  unix_connected l t s TRANS_CONNECT_FAILED s'.
Proof.
  intros Hl Hh [Ht Ha]. split_and!; [right; by left | done | by left |].
  rewrite Hh. by eapply connected_refl.
Qed.

Lemma unix_connect_error_cases abstract er :
  let '(r, dropped) := unix_connect_error abstract er in connect_code r /\ r <> 0 /\
    (dropped = true -> abstract = true /\ r = TRANS_TRY_CONNECT_AGAIN).
Proof.
  unfold unix_connect_error, connect_code. repeat case_bool; destruct abstract; cbn;
    (split; [auto 6 | split; [done | intros ?; done || by split]]).
Qed.

Lemma wp_unix_connect_at l c t abstract sockname namelen s :
  heap s !! l = Some (BConn c) -> transptr c = Some t ->
  abstract = HAVE_ABSTRACT_SOCKETS && has (tflags s t) TRANS_ABSTRACT ->
  0 <= namelen <= 110 -> length sockname = 110%nat ->
  wp (unix_connect_at (At l 0) abstract sockname namelen) e s (unix_connected l t s).
Proof.
  intros Hl Ht Habs Hn Hlen. assert (HS : is_Some (heap s !! l)) by by eexists.
  unfold unix_connect_at. do 2 wp_step. apply wp_bind, wp_buffer_bytes; [lia|].
  do 3 wp_step.
  { do 2 wp_step. match goal with |- context [unix_connect_error abstract ?er] =>
      pose proof (unix_connect_error_cases abstract er) as Hc end.
    destruct (unix_connect_error _ _) as [r dropped]. destruct Hc as (Hr & Hr0 & Hdrop).
    cbn iota. wp_step. wp_step.
    - destruct (Hdrop E0) as [Ha' ->]. rewrite Ht. apply wp_modify, wp_ret.
      rewrite Habs in Ha'. apply andb_true_iff in Ha' as [H1 H2].
      split_and!; [done | done | by right | by eapply connected_refl].
    - wp_step. split_and!; [done | done | by left | by eapply connected_refl]. }
  assert (Hw : (length (take (Z.to_nat namelen)
    (if abstract then write_at offsetof_sun_path (str "@") sockname else sockname))
    <= length (replicate (Z.to_nat namelen) 0%Z))%nat).
  { rewrite length_take, length_replicate. lia. }
  assert (Hlen' : namelen <= Z.of_nat (length
    (if abstract then write_at offsetof_sun_path (str "@") sockname else sockname))).
  { destruct abstract; [|lia]. rewrite length_write_at; [lia|]. rewrite Hlen. cbn. lia. }
  wp_steps; try (apply wp_buffer_bytes; [exact Hlen'|]); wp_steps; try exact Hw.
  - split_and!; [right; by left | done | by left |].
    eapply connected_failed; [apply kept_but_insert | apply lookup_insert_eq | done].
  - assert (l0 <> l) by congruence.
    split_and!; [right; by left | done | by left |]. cbn [heap].
    eapply connected_failed; [| apply lookup_insert_eq | done].
    intros x Hx [v Hv]. by rewrite !lookup_insert_ne by congruence.
  - assert (l0 <> l /\ l1 <> l /\ l0 <> l1) as (? & ? & ?) by (split_and!; congruence).
    apply wp_buffer_bytes; [exact Hlen'|]. wp_steps; [exact Hw|].
    split_and!; [by left | done | by left |]. cbn [heap]. split.
    + intros x Hx [v Hv]. by rewrite !lookup_insert_ne by congruence.
    + eexists. split.
      { rewrite lookup_insert_ne, lookup_insert_ne by done. apply lookup_insert_eq. }
      intros _. exists l0, l1. split_and!; try done.
      * eexists. rewrite lookup_insert_ne by done. apply lookup_insert_eq.
      * eexists. apply lookup_insert_eq.
Qed.

Lemma wp_SocketUNIXConnect l c t host port s :
  heap s !! l = Some (BConn c) -> transptr c = Some t -> cstring port ->
  wp (SocketUNIXConnect (At l 0) host (Some port)) e s (unix_connected l t s).
Proof.
  intros Hl Ht Hc. unfold SocketUNIXConnect. apply wp_bind.
  eapply wp_conn_abstract; [done | done |].
  set (abstract := HAVE_ABSTRACT_SOCKETS && has (tflags s t) TRANS_ABSTRACT).
  apply wp_bind. eapply (wp_mono _ _ _ (fun _ s1 => quiet_step s s1)).
  { destruct host as [[|h0 host]|]; [apply quiet_step_refl | | apply quiet_step_refl].
    case_match; [|apply quiet_step_refl]. eapply wp_quiet; [|by intros].
    apply logs_bind; [apply UnixHostReallyLocal_quiet | intros; apply logs_ret]. }
  intros remote s1 (Hh1 & Hg1 & _).
  assert (Hfail : unix_connected l t s TRANS_CONNECT_FAILED s1)
    by by eapply unix_connected_failed.
  destruct remote; [by apply wp_ret|]. destruct port as [|p0 port]; [by apply wp_ret|].
  destruct (set_sun_path _ _ _) as [path|] eqn:Hp; [|by apply wp_ret]. cbv zeta.
  destruct (set_sun_path_Some _ _ _ _ Hp Hc UNIX_PATH_cstring) as (_ & Hlen & _).
  eapply wp_mono.
  - apply (wp_unix_connect_at l c t); [by rewrite Hh1 | done | by rewrite (proj1 Hg1) | |
      apply length_mk_sockaddr_un]. unfold SUN_LEN, strlen. unfold offsetof_sun_path. lia.
  - intros r s2 (Hr & Ha & Hf & Hcn). split_and!; [done | | | by rewrite <-Hh1].
    + by rewrite Ha, (proj2 Hg1).
    + unfold unix_flags in *. by rewrite (proj1 Hg1) in Hf.
Qed.

(** ** The properties *)

(** C21: SocketINETConnect of an IPv6 build ends: the search through the kept address list
    stops after at most one turn from its start, reopening the socket for the other
    family on the way.  It returns one of the four codes, on success with both addresses in
    blocks of the connection, touches no other block, and leaves the list with its cursor
    inside, for the next attempt. *)
Theorem SocketINETConnect_spec l c name d host port s :
  IPv6 = true -> env_laws e -> mallocs e -> getaddrinfo_law ->
  is_client X11_t = true -> is_numeric port = true -> strtol port <= LONG_MAX - X_TCP_PORT ->
  addrlist_ok (addrlist s) -> heap s !! l = Some (BConn c) -> dev_named (index c) name d ->
  wp (SocketINETConnect (At l 0) (Some host) (Some port)) e s (inet_connected l s).
Proof. apply wp_SocketINETConnect6. Qed.

(** SocketUNIXConnect returns one of the four codes and keeps inside of its address
    buffers.  On success the connection has two copies of the address in new blocks; no
    other block changes.  A refused abstract name turns abstract names off for the
    transport and asks for another attempt, nothing else changes the flags. *)
Theorem SocketUNIXConnect_spec l c t host port s :
  heap s !! l = Some (BConn c) -> transptr c = Some t -> cstring port ->
  wp (SocketUNIXConnect (At l 0) host (Some port)) e s (unix_connected l t s).
Proof. apply wp_SocketUNIXConnect. Qed.

End props.

(** A connection to an IPv4 host over an IPv6 socket, when no socket can be had. *)
Definition env_no_socket : env := env_of (fun c =>
  match c with
  | C_socket _ _ _ => Some (ans_err 24)      (* EMFILE *)
  | C_getaddrinfo _ _ _ => Some (Answer 0 0 [] 0 stat0
      [AddrInfo AF_INET (mk_sockaddr_in 6000 [10; 0; 0; 1])] [] None)
  | _ => None
  end).
Definition conn_tcp6 : conninfo := set_index 1 (set_fd 5 (set_transptr (Some SocketTCPFuncs) conn0)).
Definition state_tcp6 : state := upd_heap (<[1%positive := BConn conn_tcp6]> ∅) state0.

(** A socket of the other family is closed before a new one is opened; when that fails,
    the connection keeps the closed descriptor, which Close closes a second time. *)
Theorem SocketINETConnect_double_close :
  wp (r ← SocketINETConnect (cfg := linux X11_t) (At 1 0) (Some (str "host")) (Some (str "0"));
      SocketINETClose (At 1 0);; mret r) env_no_socket state_tcp6
    (fun r s' => r = TRANS_CONNECT_FAILED /\ fd_balance 5 (trace s') = -2).
Proof. by vm_compute. Qed.

(** ** Witnesses *)

Lemma SocketINETConnect_spec_witness :
  wp (SocketINETConnect (cfg := linux X11_t) (At 1 0) (Some (str "host")) (Some (str "0")))
    env_no_socket state_tcp6 (inet_connected 1 state_tcp6).
Proof.
  apply (SocketINETConnect_spec (cfg := linux X11_t) env_no_socket 1 conn_tcp6 (str "tcp")
    (SockDev (str "tcp") AF_INET6 SOCK_STREAM SOCK_DGRAM 0)).
  - reflexivity.
  - split; intros tr f n Hn; cbn; lia.
  - intros tr n. cbn. lia.
  - intros tr h p t. cbv zeta. by vm_compute.
  - reflexivity.
  - by vm_compute.
  - by vm_compute.
  - by intros a.
  - reflexivity.
  - by split_and!.
Defined.

Lemma SocketUNIXConnect_spec_witness :
  wp (SocketUNIXConnect (cfg := linux X11_t) (At 1 0) None (Some (str "0"))) env0 state_tcp6
    (unix_connected (cfg := linux X11_t) 1 SocketTCPFuncs state_tcp6).
Proof.
  by apply (SocketUNIXConnect_spec (cfg := linux X11_t) env0 1 conn_tcp6);
    [| | apply (bool_decide_unpack _)].
Defined.
