(* ===== verification/SockIO.v ===== *)
(** * Input and output of Xtranssock.c

    Reading and writing with descriptors passed along, disconnecting and closing. *)

From S2P Require Import Prelude CLib Xtransint World Logic FdQueue Tables Util SockOpen SockListen SockConnect.
Open Scope Z_scope.

Section io.
Context {cfg : Config}.

(** The int returned and *pend. *)
Definition SocketBytesReadable (ciptr : ptr) : M (Z * Z) :=
  c ← load_conn ciptr;
  a ← sys (C_ioctl (fd c) FIONREAD);
  mret (a_ret a, a_val a).

Definition SocketRecvFd (ciptr : ptr) : M Z := removeFd (RecvFds ciptr).
Definition SocketSendFd (ciptr : ptr) (fd : Z) (do_close : Z) : M Z :=
  appendFd (SendFds ciptr) fd do_close;; mret 0.
Definition SocketRecvFdInvalid (ciptr : ptr) : M Z := ESET EINVAL;; mret (-1).
Definition SocketSendFdInvalid (ciptr : ptr) (fd : Z) (do_close : Z) : M Z :=
  ESET EINVAL;; mret (-1).

Definition MAX_FDS : Z := 128.
Definition sizeof_int : Z := 4.
(** CMSG_LEN and CMSG_SPACE of <sys/socket.h>: a 16 byte header, data rounded up to 8. *)
Definition CMSG_LEN (n : Z) : Z := 16 + n.
Definition CMSG_SPACE (n : Z) : Z := (n + 7) / 8 * 8 + 16.
(** sizeof (union fd_pass) *)
Definition sizeof_fd_pass : Z := CMSG_SPACE (MAX_FDS * sizeof_int).

(** for (i = 0; i < nfd; i++) appendFd (&ciptr->recv_fds, fd[i], 0); *)
Fixpoint append_fds (ciptr : ptr) (fds : list Z) : M unit :=
  match fds with
  | [] => mret tt
  | f :: fds => appendFd (RecvFds ciptr) f 0;; append_fds ciptr fds
  end.

(** The descriptors of the SCM_RIGHTS messages, over all control messages. *)
Fixpoint receive_cmsgs (ciptr : ptr) (ms : list cmsg) : M unit :=
  match ms with
  | [] => mret tt
  | m :: ms =>
      when ((cmsg_level m =? SOL_SOCKET) && (cmsg_type m =? SCM_RIGHTS))
        (append_fds ciptr (cmsg_fds m));;
      receive_cmsgs ciptr ms
  end.

(** The value returned and the bytes written to the buffers of sizes [lens]. *)
Definition receive (ciptr : ptr) (lens : list Z) : M (Z * bytes) :=
  c ← load_conn ciptr;
  a ← sys (C_recvmsg (fd c) lens (CMSG_LEN (MAX_FDS * sizeof_int)));
  when (0 <=? a_ret a) (receive_cmsgs ciptr (a_cmsgs a));;
  mret (a_ret a, a_bytes a).

Definition SocketRead (ciptr : ptr) (size : Z) : M (Z * bytes) :=
  if XTRANS_SEND_FDS then receive ciptr [size]
  else
    c ← load_conn ciptr;
    a ← sys (C_read (fd c) size);
    mret (a_ret a, a_bytes a).

Definition SocketReadv (ciptr : ptr) (lens : list Z) : M (Z * bytes) :=
  if XTRANS_SEND_FDS then receive ciptr lens
  else
    c ← load_conn ciptr;
    a ← sys (C_readv (fd c) lens);
    mret (a_ret a, a_bytes a).

(** for (i = 0; i < nfd; i++) { fds[i] = cf->fd; cf = cf->next; }: the descriptors and
    the cell after the last one. *)
Fixpoint gather_fds (nfd : nat) (cf : ptr) : M (list Z * ptr) :=
  match nfd with
  | O => mret ([], cf)
  | S nfd =>
      c ← load_fd cf;
      '(fds, cf) ← gather_fds nfd (cf_next c);
      mret (cf_fd c :: fds, cf)
  end.

Definition SocketWritev (ciptr : ptr) (iov : list bytes) : M Z :=
  c ← load_conn ciptr;
  if XTRANS_SEND_FDS && negb (bool_decide (send_fds c = NULL)) then
    nfd ← nFd (SendFds ciptr);
    (* the stores to fds[i] stay inside of cmsgbuf *)
    if sizeof_fd_pass <? CMSG_LEN (nfd * sizeof_int) then throw OutOfBounds
    else
      '(fds, cf) ← gather_fds (Z.to_nat nfd) (send_fds c);
      i ← sys_ret (C_sendmsg (fd c) iov (CMsg SOL_SOCKET SCM_RIGHTS fds));
      when (0 <? i) (discardFd (SendFds ciptr) cf false);;
      mret i
  else sys_ret (C_writev (fd c) iov).

Definition SocketWrite (ciptr : ptr) (buf : bytes) : M Z :=
  c ← load_conn ciptr;
  if XTRANS_SEND_FDS && negb (bool_decide (send_fds c = NULL)) then SocketWritev ciptr [buf]
  else sys_ret (C_write (fd c) buf).

Definition SocketDisconnect (ciptr : ptr) : M Z :=
  c ← load_conn ciptr; sys_ret (C_shutdown (fd c) 2).

(** The socket file goes when the connection is a listener's, unless it is not to be
    unlinked, or abstract. *)
Definition unlink_socket (ciptr sockname : ptr) (c : conninfo) : M unit :=
  when (negb (flags c =? 0) && negb (bool_decide (sockname = NULL)))
    (fam ← read_bytes sockname 2;
     when (sa_family fam =? AF_UNIX)
       (b ← read_bytes sockname 3;
        when (negb (nth offsetof_sun_path b 0 =? 0))
          (tf ← (if has (flags c) TRANS_NOUNLINK then mret 0 else conn_tflags ciptr);
           when (negb (has (flags c) TRANS_NOUNLINK || has tf TRANS_ABSTRACT))
             (p ← load_sun_path sockname;
              ignore (sys_ret (C_unlink p)))))).

Definition SocketUNIXClose (ciptr : ptr) : M Z :=
  c ← load_conn ciptr;
  let sockname := addr c in
  when XTRANS_SEND_FDS (cleanupFds ciptr);;
  ret ← sys_ret (C_close (fd c));
  unlink_socket ciptr sockname c;;
  mret ret.

Definition SocketUNIXCloseForCloning (ciptr : ptr) : M Z :=
  c ← load_conn ciptr;
  when XTRANS_SEND_FDS (cleanupFds ciptr);;
  sys_ret (C_close (fd c)).
End io.

(** ** Properties *)

Section props.
Context {cfg : Config} (e : env).

(** What became of descriptors that were to be queued: [true] for queued, [false] for
    closed because there was no memory for a cell. *)
Abbreviation outcome := (list (Z * bool)) (only parsing).

Definition outcome_calls (o : outcome) : list call :=
  flat_map (fun x : Z * bool =>
    C_malloc sizeof_conn_fd :: if x.2 then [] else [C_close x.1]) o.
Definition outcome_queued (o : outcome) : list (Z * Z) :=
  flat_map (fun x : Z * bool => if x.2 then [(x.1, 0)] else []) o.

(** The connection [c] at [l] with its queues, before and after an operation that leaves
    the rest of [c] and of the heap alone. *)
Definition queues_step (m m' : memory) (l : positive) (c : conninfo) (rs ss : list cell)
    (rs' ss' : list cell) : Prop :=
  exists c', conn_queues m' l c' rs' ss' /\ base c' = base c /\
    footprint m m' (conn_locs l rs ss) (conn_locs l rs' ss').

Lemma queues_step_refl m l c rs ss :
  conn_queues m l c rs ss -> queues_step m m l c rs ss rs ss.
Proof. intros Hq. exists c. split_and!; [done | done | apply footprint_refl]. Qed.

Lemma wp_append_fds l fds c rs ss s :
  conn_queues (heap s) l c rs ss ->
  wp (append_fds (At l 0) fds) e s (fun _ s' => exists rs' o,
    o.*1 = fds /\ contents rs' = contents rs ++ outcome_queued o /\
    ran s s' (outcome_calls o) /\ same_globals s s' /\
    queues_step (heap s) (heap s') l c rs ss rs' ss).
Proof.
  revert c rs s. induction fds as [|f fds IH]; intros c rs s Hq.
  { apply wp_ret. exists rs, []. split_and!; [done | | apply ran_refl | done |].
    - by rewrite app_nil_r.
    - by apply queues_step_refl. }
  apply wp_bind. eapply wp_append_recv; [done| |].
  - intros a a' Ha. eapply wp_mono; [by apply (IH c rs)|].
    intros _ s' (rs' & o & Ho & Hc & Hr & Hg & Hst). exists rs', ((f, false) :: o).
    split_and!; [by rewrite fmap_cons, Ho | done | | done | done].
    eapply (ran_trans _ _ _ [C_malloc sizeof_conn_fd; C_close f]); [|exact Hr]. ran_solve.
  - intros a x m' nx p' Ha Hx Hq' Hf. eapply wp_mono; [eapply IH; exact Hq'|].
    intros _ s' (rs' & o & Ho & Hc & Hr & Hg & c' & Hq'' & Hb & Hf').
    exists rs', ((f, true) :: o). split_and!; [by rewrite fmap_cons, Ho | | | done |].
    + rewrite Hc. unfold contents. rewrite fmap_app. cbn. by rewrite <-app_assoc.
    + eapply (ran_trans _ _ _ [C_malloc sizeof_conn_fd]); [|exact Hr]. ran_solve.
    + exists c'. split_and!; [done | by rewrite Hb; destruct c |].
      by eapply footprint_trans.
Qed.

(** The descriptors of the SCM_RIGHTS messages. *)
Definition passed_fds (ms : list cmsg) : list Z :=
  flat_map (fun m => if (cmsg_level m =? SOL_SOCKET) && (cmsg_type m =? SCM_RIGHTS)
                     then cmsg_fds m else []) ms.

(** The loop over the messages queues all of these. *)
Lemma append_fds_app p fds fds' s :
  append_fds p (fds ++ fds') e s = (append_fds p fds ;; append_fds p fds') e s.
Proof.
  revert s. induction fds as [|f fds IH]; intros s; [done|].
  cbn [append_fds app]. unfold mbind, M_bind in *.
  destruct (appendFd (RecvFds p) f 0 e s) as [[] s1|]; [|done]. apply IH.
Qed.

Lemma receive_cmsgs_passed p ms s :
  receive_cmsgs p ms e s = append_fds p (passed_fds ms) e s.
Proof.
  revert s. induction ms as [|m ms IH]; intros s; [done|].
  cbn [receive_cmsgs passed_fds flat_map].
  destruct ((cmsg_level m =? SOL_SOCKET) && (cmsg_type m =? SCM_RIGHTS)); cbn [when app].
  - rewrite append_fds_app. unfold mbind, M_bind.
    destruct (append_fds p (cmsg_fds m) e s) as [[] s1|]; [apply IH | done].
  - apply IH.
Qed.

(** What recvmsg delivered and what became of it. *)
Definition received (l : positive) (c : conninfo) (rs ss : list cell) (lens : list Z)
    (s : state) (n : Z) (data : bytes) (s' : state) : Prop :=
  let cl := C_recvmsg (fd c) lens (CMSG_LEN (MAX_FDS * sizeof_int)) in
  let a := e (trace s) cl in
  n = a_ret a /\ data = a_bytes a /\ same_globals s s' /\
  exists rs' o, o.*1 = (if 0 <=? n then passed_fds (a_cmsgs a) else []) /\
    contents rs' = contents rs ++ outcome_queued o /\
    ran s s' (cl :: outcome_calls o) /\
    queues_step (heap s) (heap s') l c rs ss rs' ss.

Lemma wp_receive l c rs ss lens s :
  conn_queues (heap s) l c rs ss ->
  wp (receive (At l 0) lens) e s (fun '(n, data) s' =>
    received l c rs ss lens s n data s').
Proof.
  intros Hq. pose proof Hq as (Hl & _). unfold receive. do 4 wp_step.
  apply wp_bind. apply wp_when; intros Hn.
  - unfold wp at 1. rewrite receive_cmsgs_passed.
    match goal with |- context [append_fds _ _ e ?st] => set (s1 := st) end.
    pose proof (wp_append_fds l (passed_fds (a_cmsgs a)) c rs ss s1 Hq) as Hw.
    unfold wp in Hw. destruct (append_fds _ _ e s1) as [[] s2|]; [|done].
    destruct Hw as (rs' & o & Ho & Hc & Hr & Hg & Hst). apply wp_ret. unfold received.
    cbv zeta. rewrite <-Ha, Hn. split_and!; [done | done | done |].
    exists rs', o. split_and!; [done | done | | done].
    eapply (ran_trans s s1 s2 [_]); [|exact Hr]. ran_solve.
  - apply wp_ret. unfold received. cbv zeta. rewrite <-Ha, Hn.
    split_and!; [done | done | done |]. exists rs, [].
    split_and!; [done | by rewrite app_nil_r | ran_solve | by apply queues_step_refl].
Qed.

(** The descriptors to send, gathered for sendmsg. *)
Lemma wp_gather_fds cs p s :
  fd_seg (heap s) p NULL cs ->
  wp (gather_fds (length cs) p) e s (fun r s' => r = (c_fd <$> cs, NULL) /\ s' = s).
Proof.
  revert p. induction cs as [|c cs IH]; intros p Hs; cbn [gather_fds length].
  - simpl in Hs. subst p. by apply wp_ret.
  - destruct Hs as [-> (nx & Hc & Hs)]. apply wp_bind. eapply wp_load_fd; [exact Hc|].
    apply wp_bind. eapply wp_mono; [by apply IH|]. intros [fds cf] s' [[= -> ->] ->].
    by apply wp_ret.
Qed.

(** The calls of SocketWritev, and the heap it leaves. *)
Definition written (l : positive) (c : conninfo) (rs ss : list cell) (iov : list bytes)
    (s : state) (n : Z) (s' : state) : Prop :=
  let cl := C_sendmsg (fd c) iov (CMsg SOL_SOCKET SCM_RIGHTS (c_fd <$> ss)) in
  n = a_ret (e (trace s) cl) /\ same_globals s s' /\
  if 0 <? n
  then ran s s' (cl :: (C_close <$> closed_fds false ss)) /\
       heap s' = <[l := BConn (set_send_fds NULL c)]> (del_cells ss (heap s)) /\
       conn_queues (heap s') l (set_send_fds NULL c) rs []
  else ran s s' [cl] /\ heap s' = heap s.

Lemma wp_SocketWritev_fds l c rs ss iov s :
  XTRANS_SEND_FDS = true -> conn_queues (heap s) l c rs ss -> ss <> [] ->
  Z.of_nat (length ss) <= MAX_FDS ->
  wp (SocketWritev (At l 0) iov) e s (written l c rs ss iov s).
Proof.
  intros Hx Hq Hne Hlen. pose proof Hq as (Hl & _ & Hs & _).
  assert (Hp : send_fds c <> NULL).
  { destruct ss as [|c1 ss]; [done|]. destruct Hs as [[-> _] _]. done. }
  unfold SocketWritev. do 2 wp_step. rewrite Hx, (bool_decide_false _ Hp). cbn [andb negb].
  apply wp_bind. eapply wp_nFd; [by simpl; rewrite Hl | exact Hs |].
  assert (E : (sizeof_fd_pass <? CMSG_LEN (Z.of_nat (length ss) * sizeof_int)) = false).
  { apply Z.ltb_ge. unfold CMSG_LEN, sizeof_int, MAX_FDS in *.
    change sizeof_fd_pass with 528. lia. }
  rewrite E, Nat2Z.id. apply wp_bind. eapply wp_mono; [apply wp_gather_fds, Hs|].
  intros ? ? [-> ->]. do 2 wp_step. unfold written. cbv zeta. rewrite <-Ha.
  apply wp_bind, wp_when; intros Hn.
  - eapply wp_discard_send; [exact Hq|]. intros evs er m' Hev -> Hq'. apply wp_ret.
    rewrite Hn. split_and!; [done | done | | done | done].
    eapply (ran_trans _ (logged _ a s) _ [_]); [ran_solve|]. exists evs. split; [done|].
    unfold calls. rewrite Hev. apply reverse_involutive.
  - apply wp_ret. rewrite Hn. split_and!; [done | done | ran_solve | done].
Qed.

(** *** Closing *)

(** The path to unlink when the connection [c] is closed, if any. *)
Definition unlink_path (s : state) (c : conninfo) : option bytes :=
  match addr c, transptr c with
  | At a o, Some t =>
      match heap s !! a with
      | Some (BBytes v) =>
          let sa := drop o v in
          if negb (flags c =? 0) && (sa_family sa =? AF_UNIX) &&
             negb (nth offsetof_sun_path sa 0 =? 0) &&
             negb (has (flags c) TRANS_NOUNLINK) && negb (has (tflags s t) TRANS_ABSTRACT)
          then Some (sun_path_str sa) else None
      | _ => None
      end
  | _, _ => None
  end.

(** The address of a connection is in a block of its own, with family and path; the path is
    a C string if it can be that of a socket file to unlink. *)
Definition addr_ok (m : memory) (l : positive) (c : conninfo) (ls : list positive) : Prop :=
  match addr c with
  | NULL => True
  | At a o => (a ∉ ls) /\ exists v, m !! a = Some (BBytes v) /\ (o + 3 <= length v)%nat /\
      (flags c =? 0) || has (flags c) TRANS_NOUNLINK || terminated (sun_path (drop o v)) = true
  end.

Lemma wp_unlink_socket l c c' s t ls :
  heap s !! l = Some (BConn c') -> transptr c' = Some t -> transptr c = Some t ->
  addr_ok (heap s) l c ls ->
  wp (unlink_socket (At l 0) (addr c) c) e s (fun _ s' =>
    heap s' = heap s /\ same_globals s s' /\
    ran s s' (option_list (C_unlink <$> unlink_path s c))).
Proof.
  intros Hl Ht' Ht Ha. unfold unlink_socket, addr_ok, unlink_path in *.
  assert (Hend : heap s = heap s /\ same_globals s s /\ ran s s [])
    by (split_and!; [done | done | apply ran_refl]).
  destruct (addr c) as [|a o].
  { rewrite andb_false_r. by apply wp_ret. }
  destruct Ha as (_ & v & Hv & Hlen & Hnul). rewrite bool_decide_false, Ht, Hv by done.
  rewrite andb_true_r. cbv zeta.
  destruct (flags c =? 0); cbn [negb when andb]; [by apply wp_ret|].
  apply wp_bind. eapply wp_read_bytes; [exact Hv | lia|].
  assert (Hfam : sa_family (take (Z.to_nat 2) (drop o v)) = sa_family (drop o v)).
  { unfold sa_family, rd_le16. rewrite !nth_take_lt by lia. done. }
  rewrite Hfam. destruct (sa_family (drop o v) =? AF_UNIX); cbn [when andb]; [|done].
  apply wp_bind. eapply wp_read_bytes; [exact Hv | lia|].
  rewrite nth_take_lt by (change offsetof_sun_path with 2%nat; lia).
  destruct (nth offsetof_sun_path (drop o v) 0 =? 0); cbn [negb when andb]; [done|].
  apply wp_bind. destruct (has (flags c) TRANS_NOUNLINK) eqn:Hn; cbn [negb andb].
  { by do 2 apply wp_ret. }
  eapply wp_conn_tflags; [exact Hl | exact Ht'|]. cbn [orb].
  destruct (has (tflags s t) TRANS_ABSTRACT); cbn [negb when]; [by apply wp_ret|].
  wp_steps. split_and!; [done | done | ran_solve].
Qed.

(** The calls of SocketUNIXClose, and the heap it leaves. *)
Definition unix_closed (l : positive) (c : conninfo) (rs ss : list cell) (unlinked : option bytes)
    (s : state) (s' : state) : Prop :=
  same_globals s s' /\
  ran s s' ((if XTRANS_SEND_FDS then C_close <$> closed_fds false ss ++ closed_fds true rs else [])
            ++ [C_close (fd c)] ++ option_list (C_unlink <$> unlinked)) /\
  if XTRANS_SEND_FDS
  then heap s' = emptied (heap s) l c rs ss /\ conn_queues (heap s') l (base c) [] []
  else heap s' = heap s.

Lemma emptied_lookup m l c rs ss x :
  x ∉ conn_locs l rs ss -> emptied m l c rs ss !! x = m !! x.
Proof.
  intros Hx. unfold conn_locs in Hx. unfold emptied.
  rewrite lookup_insert_ne by set_solver. by rewrite !del_cells_lookup by set_solver.
Qed.

Lemma wp_maybe_cleanup l c rs ss s (Q : unit -> state -> Prop) :
  conn_queues (heap s) l c rs ss ->
  (forall s' c', heap s' !! l = Some (BConn c') -> base c' = base c -> same_globals s s' ->
     (forall x, x ∉ conn_locs l rs ss -> heap s' !! x = heap s !! x) ->
     ran s s' (if XTRANS_SEND_FDS then C_close <$> closed_fds false ss ++ closed_fds true rs
               else []) ->
     (if XTRANS_SEND_FDS
      then heap s' = emptied (heap s) l c rs ss /\ conn_queues (heap s') l (base c) [] []
      else heap s' = heap s) -> Q tt s') ->
  wp (when XTRANS_SEND_FDS (cleanupFds (At l 0))) e s Q.
Proof.
  intros Hq HQ. pose proof Hq as (Hl & _). apply wp_when; intros Hx; rewrite Hx in HQ.
  - eapply wp_cleanupFds; [exact Hq|]. intros evs er Hev Hq'.
    eapply (HQ _ (base c)); [apply Hq' | done | done | | | done].
    + intros x Hn. by apply emptied_lookup.
    + exists evs. split; [done|]. unfold calls. by rewrite Hev, reverse_involutive.
  - eapply (HQ s c); try done. apply ran_refl.
Qed.

Lemma wp_SocketUNIXClose l c t rs ss s :
  conn_queues (heap s) l c rs ss -> transptr c = Some t ->
  addr_ok (heap s) l c (conn_locs l rs ss) ->
  wp (SocketUNIXClose (At l 0)) e s (fun r s' =>
    (exists tr, r = a_ret (e tr (C_close (fd c)))) /\
    unix_closed l c rs ss (unlink_path s c) s s').
Proof.
  intros Hq Ht Ha. pose proof Hq as (Hl & _). unfold SocketUNIXClose. do 2 wp_step.
  apply wp_bind. eapply wp_maybe_cleanup; [exact Hq|].
  intros s1 c' Hl1 Hb Hg Hx Hr Hh. do 2 wp_step. apply wp_bind.
  set (s2 := logged (C_close (fd c)) a s1).
  assert (Hu : unlink_path s2 c = unlink_path s c).
  { unfold unlink_path, addr_ok in *. destruct (addr c) as [|ad o]; [done|].
    cbn [heap tflags s2 logged]. rewrite Hx by apply Ha. by rewrite (proj1 Hg). }
  eapply wp_mono; [apply (wp_unlink_socket l c c' s2 t (conn_locs l rs ss)); [done | | done |]|].
  - assert (transptr (base c') = transptr (base c)) as Ht' by by rewrite Hb. by rewrite <-Ht.
  - unfold addr_ok in *. destruct (addr c) as [|ad o]; [done|].
    destruct Ha as (Hn & v & Hv & Hlen). split; [done|]. exists v.
    cbn [heap s2 logged]. by rewrite Hx.
  - intros _ s3 (Hh3 & Hg3 & Hr3). apply wp_ret. split; [subst a; eauto|].
    rewrite Hu in Hr3. split_and!.
    + eapply same_globals_trans; [exact Hg|]. exact Hg3.
    + eapply ran_trans; [exact Hr|]. eapply (ran_trans _ s2 _ [_]); [ran_solve | exact Hr3].
    + rewrite Hh3. exact Hh.
Qed.

(** ** The properties *)

(** C1: SocketWritev with descriptors queued passes exactly these, in their order, along
    with the data in one sendmsg.  When data went out, the descriptors to be closed are
    closed in that order, and the queue's cells are freed; otherwise the queue stays. *)
Theorem SocketWritev_spec l c rs ss iov s :
  XTRANS_SEND_FDS = true -> conn_queues (heap s) l c rs ss -> ss <> [] ->
  Z.of_nat (length ss) <= MAX_FDS ->
  wp (SocketWritev (At l 0) iov) e s (written l c rs ss iov s).
Proof. apply wp_SocketWritev_fds. Qed.

(** C40: nothing bounds the queue: with more than MAX_FDS descriptors in it SocketWritev
    writes behind the end of its control message buffer. *)
Theorem SocketWritev_overrun l c rs ss iov s :
  XTRANS_SEND_FDS = true -> conn_queues (heap s) l c rs ss ->
  MAX_FDS < Z.of_nat (length ss) -> faults (SocketWritev (At l 0) iov) e s OutOfBounds.
Proof.
  intros Hx Hq Hlen. pose proof Hq as (Hl & _ & Hs & _).
  assert (Hp : send_fds c <> NULL).
  { destruct ss as [|c1 ss]; [done|]. destruct Hs as [[-> _] _]. done. }
  apply faults_wpf. unfold SocketWritev. do 2 wpf_step. rewrite Hx, (bool_decide_false _ Hp).
  cbn [andb negb]. wpf_step. apply wpf_wp.
  eapply wp_nFd; [by simpl; rewrite Hl | exact Hs |].
  assert (E : (sizeof_fd_pass <? CMSG_LEN (Z.of_nat (length ss) * sizeof_int)) = true).
  { apply Z.ltb_lt. unfold CMSG_LEN, sizeof_int, MAX_FDS in *.
    change sizeof_fd_pass with 528. lia. }
  rewrite E. wpf_step.
Qed.

(** C2: SocketRead and SocketReadv return what recvmsg does.  Every descriptor of an
    SCM_RIGHTS message is queued for SocketRecvFd behind those that wait already, in the
    order received, or closed when there is no memory to queue it: none is lost.  The rest
    of the connection and of the heap stays as it was. *)
Theorem SocketRead_spec l c rs ss size lens s :
  XTRANS_SEND_FDS = true -> conn_queues (heap s) l c rs ss ->
  wp (SocketRead (At l 0) size) e s (fun '(n, data) s' =>
    received l c rs ss [size] s n data s') /\
  wp (SocketReadv (At l 0) lens) e s (fun '(n, data) s' =>
    received l c rs ss lens s n data s').
Proof.
  intros Hx Hq. unfold SocketRead, SocketReadv. rewrite Hx.
  split; by apply wp_receive.
Qed.

(** The descriptor taken from the received ones, and the queue it leaves. *)
Definition fd_taken (l : positive) (c : conninfo) (rs ss : list cell) (s : state) (r : Z)
    (s' : state) : Prop :=
  match rs with
  | [] => r = -1 /\ s' = s
  | x :: rs' => r = c_fd x /\ heap s' !! c_loc x = None /\ trace s' = trace s /\
      queues_step (heap s) (heap s') l c rs ss rs' ss
  end.

(** The descriptor queued to be sent, or closed for want of memory, whatever [dc]. *)
Definition fd_queued (l : positive) (c : conninfo) (rs ss : list cell) (f dc : Z) (s : state)
    (r : Z) (s' : state) : Prop :=
  r = 0 /\ exists ss',
    ((contents ss' = contents ss ++ [(f, dc)] /\ ran s s' [C_malloc sizeof_conn_fd]) \/
     (ss' = ss /\ ran s s' [C_malloc sizeof_conn_fd; C_close f])) /\
    queues_step (heap s) (heap s') l c rs ss rs ss'.

Lemma wp_SocketRecvFd l c rs ss s :
  conn_queues (heap s) l c rs ss ->
  wp (SocketRecvFd (At l 0)) e s (fd_taken l c rs ss s).
Proof.
  intros Hq. pose proof Hq as (Hl & Hr & _). destruct rs as [|x rs].
  - apply wp_removeFd_nil; [|done]. simpl. rewrite Hl. f_equal. apply Hr.
  - eapply wp_remove_recv; [exact Hq|]. intros m' p' Hq' Hn Hf.
    split_and!; [done | done | done |]. exists (set_recv_fds p' c).
    split_and!; [done | by destruct c | done].
Qed.

Lemma wp_SocketSendFd l c rs ss f dc s :
  conn_queues (heap s) l c rs ss ->
  wp (SocketSendFd (At l 0) f dc) e s (fd_queued l c rs ss f dc s).
Proof.
  intros Hq. apply wp_bind. eapply wp_append_send; [exact Hq | |].
  - intros a a' _ Ha. apply wp_ret. split; [done|]. exists ss. split.
    + right. split; [done | ran_solve].
    + by apply queues_step_refl.
  - intros a x m' nx p' Ha Hx Hq' Hf. apply wp_ret. split; [done|].
    exists (ss ++ [Cell x f dc]). split.
    + left. split; [|ran_solve]. unfold contents. by rewrite fmap_app.
    + exists (set_send_fds p' c). split_and!; [done | by destruct c | done].
Qed.

(** A client takes the oldest received descriptor with SocketRecvFd, -1 when there is
    none, and hands one to the connection with SocketSendFd: it is queued behind those that
    wait to be sent, or closed when there is no memory to queue it, even if the client meant
    to keep it.  Each leaves the other queue, the connection and the heap as they were. *)
Theorem SocketFds_spec l c rs ss f dc s :
  conn_queues (heap s) l c rs ss ->
  wp (SocketRecvFd (At l 0)) e s (fd_taken l c rs ss s) /\
  wp (SocketSendFd (At l 0) f dc) e s (fd_queued l c rs ss f dc s).
Proof. split; [by apply wp_SocketRecvFd | by apply wp_SocketSendFd]. Qed.

(** C7: SocketUNIXClose closes, in this order, the queued descriptors that are to be closed
    after sending, all received ones nobody took, and the connection's own; it frees both
    queues.  It then removes the socket file of a listener if the address is a path that is
    neither abstract nor marked not to be unlinked, and makes no other call. *)
Theorem SocketUNIXClose_spec l c t rs ss s :
  conn_queues (heap s) l c rs ss -> transptr c = Some t ->
  addr_ok (heap s) l c (conn_locs l rs ss) ->
  wp (SocketUNIXClose (At l 0)) e s (fun r s' =>
    (exists tr, r = a_ret (e tr (C_close (fd c)))) /\
    unix_closed l c rs ss (unlink_path s c) s s').
Proof. apply wp_SocketUNIXClose. Qed.
End props.

(** ** Witnesses *)

(** A connection at 1 with the descriptors [fds] to send in the cells behind it. *)
Fixpoint chain (l : positive) (fds : list Z) : list cell :=
  match fds with
  | [] => []
  | f :: fds => Cell l f 1 :: chain (Pos.succ l) fds
  end.
Fixpoint chain_heap (cs : list cell) : memory :=
  match cs with
  | [] => ∅
  | c :: cs =>
      <[c_loc c := BFd (ConnFd (match cs with [] => NULL | c' :: _ => cell_ptr c' end)
                          (c_fd c) (c_close c))]> (chain_heap cs)
  end.
Definition conn_sending (cs : list cell) : conninfo :=
  ConnInfo (Some SocketUNIXFuncs) 4 NULL 1 3 NULL AF_UNIX (At 200 0) 110 NULL 0 NULL
    (match cs with [] => NULL | c' :: _ => cell_ptr c' end).
Definition unix_addr : bytes := mk_sockaddr_un (str "/tmp/.X11-unix/X0").
Definition state_sending (fds : list Z) : state :=
  State [] (<[200%positive := BBytes unix_addr]>
              (<[1%positive := BConn (conn_sending (chain 2 fds))]> (chain_heap (chain 2 fds))))
    1 0 (fun _ => 0) None.

(** The same with the descriptors received. *)
Definition conn_receiving (cs : list cell) : conninfo :=
  set_recv_fds (send_fds (conn_sending cs)) (set_send_fds NULL (conn_sending cs)).
Definition state_receiving (fds : list Z) : state :=
  upd_heap (<[1%positive := BConn (conn_receiving (chain 2 fds))]> (heap (state_sending fds)))
    (state_sending fds).

(** The invariant of a concrete connection. *)
Ltac queue_solve :=
  split_and!;
    [ vm_compute; reflexivity
    | split;
      [ repeat (split; [reflexivity | eexists; split; [vm_compute; reflexivity|]]); reflexivity
      | apply (bool_decide_unpack _); vm_compute; exact I ]
    | split;
      [ repeat (split; [reflexivity | eexists; split; [vm_compute; reflexivity|]]); reflexivity
      | apply (bool_decide_unpack _); vm_compute; exact I ]
    | apply (bool_decide_unpack _); vm_compute; exact I ].

Lemma SocketWritev_spec_witness :
  wp (SocketWritev (cfg := linux X11_t) (At 1 0) [[1; 2]]) env0 (state_sending [7; 8])
    (written env0 1 (conn_sending (chain 2 [7; 8])) [] (chain 2 [7; 8]) [[1; 2]]
       (state_sending [7; 8])).
Proof.
  apply (SocketWritev_spec (cfg := linux X11_t)); [done | queue_solve | done | by vm_compute].
Defined.

Lemma SocketWritev_overrun_witness :
  faults (SocketWritev (cfg := linux X11_t) (At 1 0) [[1; 2]]) env0
    (state_sending (replicate 129 7)) OutOfBounds.
Proof.
  apply (SocketWritev_overrun (cfg := linux X11_t) env0 1
    (conn_sending (chain 2 (replicate 129 7))) [] (chain 2 (replicate 129 7)));
    [done | queue_solve | by vm_compute].
Defined.

(** recvmsg with three descriptors; there is memory for two of them. *)
Definition env_recv : env := fun tr c =>
  match c with
  | C_recvmsg _ _ _ => Answer 2 0 [1; 2] 0 stat0 [] [CMsg SOL_SOCKET SCM_RIGHTS [5; 6; 9]] None
  | C_malloc _ => if (3 <? length tr)%nat then ans_err ENOMEM else ans 0
  | _ => ans 0
  end.

Lemma SocketRead_spec_witness :
  wp (SocketRead (cfg := linux X11_t) (At 1 0) 4096) env_recv (state_sending [7; 8])
    (fun '(n, data) s' => received env_recv 1 (conn_sending (chain 2 [7; 8])) [] (chain 2 [7; 8])
                            [4096] (state_sending [7; 8]) n data s') /\
  wp (SocketReadv (cfg := linux X11_t) (At 1 0) [10; 20]) env_recv (state_sending [7; 8])
    (fun '(n, data) s' => received env_recv 1 (conn_sending (chain 2 [7; 8])) [] (chain 2 [7; 8])
                            [10; 20] (state_sending [7; 8]) n data s').
Proof. apply (SocketRead_spec (cfg := linux X11_t)); [done | queue_solve]. Defined.

Lemma SocketFds_spec_witness :
  wp (SocketRecvFd (At 1 0)) env0 (state_receiving [7; 8])
    (fd_taken 1 (conn_receiving (chain 2 [7; 8])) (chain 2 [7; 8]) [] (state_receiving [7; 8])) /\
  wp (SocketSendFd (At 1 0) 9 1) env0 (state_receiving [7; 8])
    (fd_queued 1 (conn_receiving (chain 2 [7; 8])) (chain 2 [7; 8]) [] 9 1
       (state_receiving [7; 8])).
Proof. apply SocketFds_spec. queue_solve. Defined.

Lemma SocketUNIXClose_spec_witness :
  wp (SocketUNIXClose (cfg := linux X11_t) (At 1 0)) env0 (state_sending [7; 8]) (fun r s' =>
    (exists tr, r = a_ret (env0 tr (C_close 3))) /\
    unix_closed (cfg := linux X11_t) 1 (conn_sending (chain 2 [7; 8])) [] (chain 2 [7; 8])
      (Some (str "/tmp/.X11-unix/X0")) (state_sending [7; 8]) s').
Proof.
  apply (SocketUNIXClose_spec (cfg := linux X11_t) env0 1 (conn_sending (chain 2 [7; 8]))
    SocketUNIXFuncs [] (chain 2 [7; 8]) (state_sending [7; 8])); [queue_solve | done |].
  split; [by apply (bool_decide_unpack _)|]. eexists. split; [vm_compute; reflexivity|].
  split; [apply Nat.leb_le; by vm_compute | by vm_compute].
Defined.
