(* ===== verification/Parse.v ===== *)
(** * Addresses and transports by name (Xtrans.c)

    TRANS(SelectTransport) and TRANS(ParseAddress). *)

From S2P Require Import Prelude CLib Xtransint World Logic Tables Util.
Open Scope Z_scope.

Section parse.
Context {cfg : Config}.

Definition PROTOBUFSIZE : nat := 20.

(** The first transport whose name satisfies [p]. *)
Fixpoint find_transport (p : bytes -> bool) (l : list (transport * Z)) : option transport :=
  match l with
  | [] => None
  | (t, _) :: l => if p (TransName t) then Some t else find_transport p l
  end.

Definition SelectTransport (protocol : bytes) : option transport :=
  if HAVE_STRCASECMP then find_transport (strcasecmp_eq protocol) Xtransports
  else
    (* strncpy (protobuf, protocol, PROTOBUFSIZE - 1), then to lower case *)
    let protobuf := until_nul (strncpy protocol (PROTOBUFSIZE - 1)) in
    find_transport (strcmp_eq (tolower <$> protobuf)) Xtransports.

(** The three parts found in the text: protocol, host and port.  The C code cuts a copy
    of the address by writing NULs into it; here the pieces are values. *)
Definition split_address (address : bytes) : option (bytes * bytes * bytes) :=
  let rest :=
    match strchr address (ch "/") with
    | Some i =>
        (* a '/' ends the protocol *)
        let proto := take i address in
        let mybuf := drop (S i) address in
        if strlen proto =? 0 then
          match mybuf with
          | c :: _ => if c =? ch ":" then Some (str "local", mybuf) else Some (str "tcp", mybuf)
          | [] => Some (str "tcp", mybuf)
          end
        else Some (proto, mybuf)
    | None =>
        match strrchr address (ch ":") with
        | None => None
        | Some O => Some (str "local", address)
        | Some (S _) => Some (str "tcp", address)
        end
    end in
  match rest with
  | None => None
  | Some (proto, mybuf) =>
      match strrchr mybuf (ch ":") with
      | None => None
      | Some j => Some (proto, take j mybuf, drop (S j) mybuf)
      end
  end.

(** An empty host is this machine, a bracketed one may be an IPv6 address. *)
Definition complete_host (proto host : bytes) : M (bytes * bytes) :=
  let host_len := strlen host in
  if host_len =? 0 then h ← GetHostname 256; mret (proto, h)
  else if IPv6 && (3 <? host_len)
          && (strcmp_eq proto (str "tcp") || strcmp_eq proto (str "inet6"))
          && (nth 0 host 0 =? ch "[") && (nth (length host - 1) host 0 =? ch "]") then
    let inner := take (length host - 2) (drop 1 host) in
    a ← sys (C_inet_pton AF_INET6 inner);
    if a_ret a =? 1 then mret (str "inet6", inner) else mret (proto, host)
  else mret (proto, host).

(** Font servers may have a catalogue behind the port; it is dropped. *)
Definition cut_catalogue (port : bytes) : bytes :=
  if is_client FONT_t || is_client FS_t then
    match strchr port (ch "/") with
    | Some i => take i port
    | None => port
    end
  else port.

(** strdup of the components, undone when memory runs out. *)
Definition dup_parts (proto host port : bytes) (tmpptr : ptr) : M (option (ptr * ptr * ptr)) :=
  p ← strdup proto;
  if bool_decide (p = NULL) then free tmpptr;; mret None
  else
    h ← strdup host;
    if bool_decide (h = NULL) then free p;; free tmpptr;; mret None
    else
      q ← strdup port;
      if bool_decide (q = NULL) then free h;; free p;; free tmpptr;; mret None
      else free tmpptr;; mret (Some (p, h, q)).

(** [Some] for the return of 1 with *protocol, *host and *port; on a return of 0 all
    three are NULL. *)
Definition ParseAddress (address : bytes) : M (option (ptr * ptr * ptr)) :=
  tmpptr ← strdup address;
  if bool_decide (tmpptr = NULL) then throw NullDeref      (* strchr (NULL, '/') *)
  else
    match split_address address with
    | None => free tmpptr;; mret None
    | Some (proto, host, port) =>
        '(proto, host) ← complete_host proto host;
        dup_parts proto host (cut_catalogue port) tmpptr
    end.
End parse.

(** ** Properties *)

Section props.
Context {cfg : Config} (e : env).

(** *** The grammar of addresses *)

(** Whether the text behind a leading '/' starts with ':'. *)
Definition starts_colon (s : bytes) : bool :=
  match s with c :: _ => c =? ch ":" | [] => false end.

(** [address_form a p h q]: [a] names protocol [p], host [h] and port [q]. *)
Inductive address_form : bytes -> bytes -> bytes -> bytes -> Prop :=
  | form_full p h q :
      p <> [] -> ch "/" ∉ p -> ch ":" ∉ q ->
      address_form (p ++ ch "/" :: h ++ ch ":" :: q) p h q
  | form_slash h q :
      ch ":" ∉ q -> starts_colon (h ++ ch ":" :: q) = false ->
      address_form (ch "/" :: h ++ ch ":" :: q) (str "tcp") h q
  | form_slash_local h q :
      ch ":" ∉ q -> starts_colon (h ++ ch ":" :: q) = true ->
      address_form (ch "/" :: h ++ ch ":" :: q) (str "local") h q
  | form_tcp h q :
      h <> [] -> ch "/" ∉ h -> ch "/" ∉ q -> ch ":" ∉ q ->
      address_form (h ++ ch ":" :: q) (str "tcp") h q
  | form_local q :
      ch "/" ∉ q -> ch ":" ∉ q -> address_form (ch ":" :: q) (str "local") [] q.

(** Cutting at the first, and at the last occurrence. *)
Lemma strchr_split s c i :
  strchr s c = Some i -> s = take i s ++ c :: drop (S i) s /\ c ∉ take i s.
Proof.
  intros H. apply strchr_Some in H as [H1 H2]. split; [by rewrite (take_drop_middle s i c)|].
  intros Hin. apply elem_of_take in Hin as (j & Hj & Hlt). by eapply H2.
Qed.

Lemma strrchr_split s c i :
  strrchr s c = Some i -> s = take i s ++ c :: drop (S i) s /\ c ∉ drop (S i) s.
Proof.
  intros H. apply strrchr_Some in H as [H1 H2]. split; [by rewrite (take_drop_middle s i c)|done].
Qed.

Lemma split_last_colon s :
  match strrchr s (ch ":") with
  | None => ch ":" ∉ s
  | Some j => s = take j s ++ ch ":" :: drop (S j) s /\ ch ":" ∉ drop (S j) s
  end.
Proof.
  destruct (strrchr s (ch ":")) as [j|] eqn:E; [by apply strrchr_split | by apply strrchr_None].
Qed.

Lemma split_address_sound a p h q :
  split_address a = Some (p, h, q) -> address_form a p h q.
Proof.
  unfold split_address. destruct (strchr a (ch "/")) as [i|] eqn:Ei.
  - apply strchr_split in Ei as [Ha Hp]. set (mybuf := drop (S i) a) in *.
    pose proof (split_last_colon mybuf) as Hm.
    unfold strlen. destruct (Z.eqb_spec (Z.of_nat (length (take i a))) 0) as [Hl|Hl].
    + assert (Ht : take i a = []) by (apply nil_length_inv; lia). rewrite Ht in Ha.
      rewrite Ha. clearbody mybuf. clear Ha Ht Hl Hp.
      destruct mybuf as [|c m]; [done|].
      destruct (strrchr (c :: m) (ch ":")) as [j|] eqn:Ej;
        [|intros Hx; destruct (c =? ch ":"); by rewrite Ej in Hx].
      destruct Hm as [Hm Hq].
      destruct (c =? ch ":") eqn:Ec; rewrite Ej; intros [= <- <- <-];
        change (drop j m) with (drop (S j) (c :: m)) in *;
        set (h' := take j (c :: m)) in *; set (q' := drop (S j) (c :: m)) in *;
        clearbody h' q'; cbn [app]; rewrite Hm;
        [apply form_slash_local | apply form_slash]; try done; by rewrite <-Hm.
    + destruct (strrchr mybuf (ch ":")) as [j|]; [|done]. intros [= <- <- <-].
      destruct Hm as [Hm Hq]. rewrite Ha at 1. rewrite Hm at 1. apply form_full; try done.
      intros Ht. rewrite Ht in Hl. done.
  - apply strchr_None in Ei. destruct (strrchr a (ch ":")) as [[|j]|] eqn:Ej; [| |done].
    + rewrite Ej. intros [= <- <- <-]. apply strrchr_split in Ej as [Ha Hq].
      rewrite Ha at 1. apply form_local; [|done]. rewrite Ha in Ei. set_solver.
    + rewrite Ej. intros [= <- <- <-]. apply strrchr_split in Ej as [Ha Hq].
      rewrite Ha at 1. rewrite Ha in Ei. apply form_tcp; [| set_solver | set_solver | done].
      by destruct a.
Qed.

Lemma split_address_complete a p h q :
  address_form a p h q -> split_address a = Some (p, h, q).
Proof.
  assert (Hc : forall h q, ch ":" ∉ q ->
    strrchr (h ++ ch ":" :: q) (ch ":") = Some (length h)) by (intros; by apply strrchr_app).
  assert (Ht : forall h q : bytes, take (length h) (h ++ ch ":" :: q) = h)
    by (intros; apply take_app_length).
  assert (Hd : forall (h q : bytes) x, drop (S (length h)) (h ++ x :: q) = q).
  { intros h0 q0 x. by rewrite drop_app_ge, Nat.sub_succ_l, Nat.sub_diag by lia. }
  unfold split_address. intros [p0 h0 q0 H1 H2 H3|h0 q0 H1 H2|h0 q0 H1 H2|h0 q0 H1 H2 H3 H4|q0 H1 H2].
  - rewrite strchr_app, take_app_length, Hd by done. unfold strlen.
    destruct (Z.eqb_spec (Z.of_nat (length p0)) 0); [destruct p0; simpl in *; [done|lia]|].
    by rewrite Hc, Ht, Hd.
  - assert (strchr (ch "/" :: h0 ++ ch ":" :: q0) (ch "/") = Some 0%nat) as -> by done.
    cbn [length take drop]. rewrite drop_0.
    unfold strlen. cbn [length]. change (Z.of_nat 0 =? 0) with true.
    destruct (h0 ++ ch ":" :: q0) as [|c m] eqn:E; [by destruct h0|].
    cbn in H2. rewrite H2. cbn beta iota. rewrite <-E, Hc, Ht, Hd by done. done.
  - assert (strchr (ch "/" :: h0 ++ ch ":" :: q0) (ch "/") = Some 0%nat) as -> by done.
    cbn [length take drop]. rewrite drop_0.
    unfold strlen. cbn [length]. change (Z.of_nat 0 =? 0) with true.
    destruct (h0 ++ ch ":" :: q0) as [|c m] eqn:E; [by destruct h0|].
    cbn in H2. rewrite H2. cbn beta iota. rewrite <-E, Hc, Ht, Hd by done. done.
  - assert (strchr (h0 ++ ch ":" :: q0) (ch "/") = None) as ->.
    { apply strchr_None. set_unfold. intros [?|[?|?]]; done. }
    rewrite Hc by done. destruct h0 as [|c h0]; [done|]. cbn [length].
    rewrite (Hc (c :: h0)) by done. change (S (length h0)) with (length (c :: h0)).
    by rewrite Ht, Hd.
  - assert (strchr (ch ":" :: q0) (ch "/") = None) as ->.
    { apply strchr_None. set_unfold. intros [?|?]; done. }
    assert (Hr : strrchr (ch ":" :: q0) (ch ":") = Some 0%nat) by exact (Hc [] q0 H2).
    rewrite Hr. cbn beta iota. rewrite Hr. cbn [take drop]. by rewrite drop_0.
Qed.

(** *** SelectTransport *)

Lemma find_transport_ext p q l :
  (forall t, p (TransName t) = q (TransName t)) -> find_transport p l = find_transport q l.
Proof. intros Hpq. induction l as [|[t i] l IH]; simpl; [done|]. by rewrite Hpq, IH. Qed.

Lemma TransName_lower t :
  tolower <$> TransName t = TransName t /\ (length (TransName t) < 19)%nat.
Proof. destruct t; split; (done || (cbn; lia)). Qed.

Lemma until_nul_strncpy s n : cstring s -> until_nul (strncpy s n) = take n s.
Proof.
  intros Hs. unfold strncpy, fit. destruct (n - length s)%nat as [|k] eqn:E; cbn [replicate].
  - rewrite app_nil_r. apply until_nul_id. by apply cstring_take.
  - rewrite until_nul_cstring; [done | by apply cstring_take].
Qed.

Lemma SelectTransport_casecmp protocol :
  cstring protocol ->
  SelectTransport protocol = find_transport (strcasecmp_eq protocol) Xtransports.
Proof.
  intros Hc. unfold SelectTransport. destruct HAVE_STRCASECMP; [done|].
  rewrite until_nul_strncpy by done. change (PROTOBUFSIZE - 1)%nat with 19%nat.
  apply find_transport_ext. intros t. unfold strcmp_eq, strcasecmp_eq.
  destruct (TransName_lower t) as [-> Hlen]. apply bool_decide_ext.
  destruct (decide (length protocol <= 19)%nat) as [Hl|Hl]; [by rewrite take_ge|].
  split; intros H; apply (f_equal length) in H; rewrite ?length_fmap, ?length_take in H; lia.
Qed.

(** *** ParseAddress *)

(** The name of this machine, as the system tells it after the calls [tr]: at most 255 bytes. *)
Definition machine_name (tr : log) : bytes :=
  take 255 (until_nul (a_bytes (e tr (if NEED_UTSNAME then C_uname else C_gethostname 256)))).

(** A host in brackets, of a protocol that may be IPv6. *)
Definition bracketed (p h inner : bytes) : Prop :=
  IPv6 = true /\ (p = str "tcp" \/ p = str "inet6") /\
  h = str "[" ++ inner ++ str "]" /\ (1 < length inner)%nat.

(** What becomes of the protocol [p] and the host [h] found in the text, when the calls made
    before were [tr]: an empty host is this machine; one in brackets that inet_pton takes is
    the IPv6 address inside; any other stays. *)
Definition host_completed (tr : log) (p h p' h' : bytes) : Prop :=
  (h = [] /\ p' = p /\ h' = machine_name tr) \/
  (bracketed p h h' /\ a_ret (e tr (C_inet_pton AF_INET6 h')) = 1 /\ p' = str "inet6") \/
  (h <> [] /\ p' = p /\ h' = h /\
   forall inner, bracketed p h inner -> a_ret (e tr (C_inet_pton AF_INET6 inner)) <> 1).

Lemma until_nul_take n (b : bytes) : until_nul (take n b) = take n (until_nul b).
Proof.
  revert n. induction b as [|x b IH]; intros [|n]; cbn; try done.
  destruct (x =? 0); [done|]. by rewrite IH.
Qed.

Lemma until_nul_app (b w : bytes) : until_nul (b ++ 0 :: w) = until_nul b.
Proof. induction b as [|x b IH]; cbn; [done|]. by rewrite IH. Qed.

Lemma buffer_name (b : bytes) :
  until_nul (take 255 (take 256 b ++ [0])) = take 255 (until_nul b).
Proof.
  rewrite until_nul_take, until_nul_app, until_nul_take, take_take. done.
Qed.

Lemma wp_machine_name s (Q : bytes -> state -> Prop) :
  (forall s', logs_step quiet_call s s' -> Q (machine_name (trace s)) s') ->
  wp (GetHostname 256) e s Q.
Proof.
  intros HQ. unfold GetHostname, machine_name in *. destruct NEED_UTSNAME.
  - do 2 wp_step. subst. wp_step. set (b := until_nul _) in *.
    assert (take (Z.to_nat (if Z.of_nat 256 <=? strlen b then Z.of_nat 256 - 1 else strlen b)) b
      = take 255 b) as ->.
    { unfold strlen. destruct (Z.leb_spec (Z.of_nat 256) (Z.of_nat (length b))); [done|].
      by rewrite !take_ge by lia. }
    by apply HQ, (logs_logged quiet_call C_uname).
  - do 2 wp_step. subst. wp_step. change (256 - 1)%nat with 255%nat. rewrite buffer_name.
    by apply HQ, (logs_logged quiet_call (C_gethostname 256)).
Qed.

Lemma brackets (h : bytes) :
  (3 < length h)%nat -> nth 0 h 0 = ch "[" -> nth (length h - 1) h 0 = ch "]" ->
  h = str "[" ++ take (length h - 2) (drop 1 h) ++ str "]".
Proof.
  intros Hl H0 H1. destruct h as [|x h]; [simpl in Hl; lia|]. cbn [nth] in H0. subst x.
  cbn [drop length] in *. rewrite drop_0. change (str "[") with [ch "["].
  cbn [app]. f_equal. destruct (exists_last (l := h)) as (h1 & y & ->).
  { intros ->. simpl in Hl. lia. }
  rewrite length_app in *. cbn [length] in *.
  replace (S (length h1 + 1) - 2)%nat with (length h1) by lia.
  replace (S (length h1 + 1) - 1)%nat with (S (length h1)) in H1 by lia. cbn [nth] in H1.
  rewrite take_app_length. rewrite app_nth2, Nat.sub_diag in H1 by lia. cbn in H1. by subst y.
Qed.

Lemma bracketed_inner p h inner : bracketed p h inner -> inner = take (length h - 2) (drop 1 h).
Proof.
  intros (_ & _ & -> & _). rewrite !length_app. cbn [str app drop length]. rewrite drop_0.
  replace (_ - 2)%nat with (length inner) by (simpl; lia). by rewrite take_app_length.
Qed.

(** The test of the code is [bracketed]. *)
Lemma bracketed_test p h :
  IPv6 && (3 <? Z.of_nat (length h)) && (strcmp_eq p (str "tcp") || strcmp_eq p (str "inet6"))
    && (nth 0 h 0 =? ch "[") && (nth (length h - 1) h 0 =? ch "]") = true <->
  bracketed p h (take (length h - 2) (drop 1 h)).
Proof.
  unfold strcmp_eq. rewrite !andb_true_iff, orb_true_iff, !bool_decide_eq_true, Z.ltb_lt, !Z.eqb_eq.
  split.
  - intros ((((H1 & H2) & H3) & H4) & H5). split_and!; [done | done | |].
    + apply brackets; [lia | done | done].
    + rewrite length_take, length_drop. lia.
  - intros (H1 & H2 & H3 & H4). set (inner := take _ _) in *. clearbody inner. subst h.
    split_and!; [done | | done | done |].
    + rewrite !length_app. simpl. lia.
    + rewrite !length_app. cbn [str app length]. rewrite app_comm_cons, app_nth2 by (simpl; lia).
      replace (_ - _)%nat with 0%nat by (simpl; lia). done.
Qed.

Lemma wp_complete_host p h s :
  wp (complete_host p h) e s (fun '(p', h') s' =>
    logs_step quiet_call s s' /\ host_completed (trace s) p h p' h').
Proof.
  unfold complete_host, strlen. cbv zeta.
  destruct (Z.eqb_spec (Z.of_nat (length h)) 0) as [H0|H0].
  { assert (h = []) as -> by (apply nil_length_inv; lia). apply wp_bind, wp_machine_name.
    intros s' Hs'. apply wp_ret. split; [done|]. by left. }
  assert (h <> []) by by intros ->. pose proof (bracketed_test p h) as Hb.
  match goal with |- wp (if ?b then _ else _) _ _ _ => destruct b end.
  - do 2 wp_step. subst a. pose proof (proj1 Hb eq_refl) as Hbr.
    assert (Hl : forall x, logs_step quiet_call s
      (logged (C_inet_pton AF_INET6 (take (length h - 2) (drop 1 h))) x s))
      by (intros; by apply logs_logged).
    destruct (Z.eqb_spec (a_ret (e (trace s) (C_inet_pton AF_INET6
      (take (length h - 2) (drop 1 h))))) 1); apply wp_ret; (split; [apply Hl|]); right.
    + by left.
    + right. split_and!; [done..|]. intros inner Hi. by rewrite (bracketed_inner _ _ _ Hi).
  - apply wp_ret. split; [apply logs_step_refl|]. right. right. split_and!; [done..|].
    intros inner Hi. pose proof (bracketed_inner _ _ _ Hi) as ->. by apply Hb in Hi.
Qed.

(** Three strings in new blocks. *)
Definition dup_blocks (m m' : memory) (r : ptr * ptr * ptr) (p h q : bytes) : Prop :=
  exists lp lh lq, r = (At lp 0, At lh 0, At lq 0) /\ NoDup [lp; lh; lq] /\
    m !! lp = None /\ m !! lh = None /\ m !! lq = None /\
    m' = <[lq := BBytes (q ++ [0])]> (<[lh := BBytes (h ++ [0])]>
           (<[lp := BBytes (p ++ [0])]> m)).

(** Of the calls [new], one was a malloc that found no memory. *)
Definition no_memory (new : log) : Prop := exists n a, (C_malloc n, a) ∈ new /\ a_ret a < 0.

Lemma no_memory_app new new' : no_memory new -> no_memory (new ++ new').
Proof. intros (n & a & Hin & Ha). exists n, a. split; [|done]. apply elem_of_app. by left. Qed.

(** The last of the calls made is the malloc that failed. *)
Ltac no_memory_entry :=
  first
    [ eexists [_]; split; [reflexivity|]
    | eexists [_; _]; split; [reflexivity|]
    | eexists [_; _; _]; split; [reflexivity|] ];
  split; [by repeat constructor|]; split; [|do 2 eexists; split; [by left | done]].

Lemma wp_dup_parts p h q tmp b m s :
  heap s = <[tmp := b]> m -> m !! tmp = None ->
  wp (dup_parts p h q (At tmp 0)) e s (fun r s' => same_globals s s' /\ balanced s s' /\
    exists new, trace s' = new ++ trace s /\ Forall (fun ev => quiet_call ev.1 = true) new /\
    match r with
    | None => heap s' = m /\ no_memory new
    | Some r => dup_blocks m (heap s') r p h q
    end).
Proof.
  intros Hh Ht. assert (Htmp : heap s !! tmp = Some b) by (rewrite Hh; apply lookup_insert_eq).
  unfold dup_parts. wp_steps;
    repeat match goal with Hn : heap s !! _ = None |- _ =>
      rewrite Hh in Hn; apply lookup_insert_None in Hn as [Hn ?] end;
    (split_and!; [done | intros f; balance |]; st_simpl; rewrite Hh).
  1-3: no_memory_entry; by heap_eq.
  eexists [_; _; _]. split; [reflexivity|]. split; [by repeat constructor|].
  exists l, l0, l1. split_and!; try done; [repeat constructor; set_solver | by heap_eq].
Qed.

(** The calls made before the host is completed: those before, and the malloc of the copy. *)
Definition parse_trace (address : bytes) (s : state) : log :=
  asked e (C_malloc (strlen address + 1)) (trace s).

(** The three parts in new blocks; or none, when the text is no address or memory ran out. *)
Definition parsed (address : bytes) (s : state) (r : option (ptr * ptr * ptr)) (s' : state)
    : Prop :=
  same_globals s s' /\ balanced s s' /\ exists new, trace s' = new ++ trace s /\
  Forall (fun ev => quiet_call ev.1 = true) new /\
  match r with
  | None => heap s' = heap s /\ (split_address address = None \/ no_memory new)
  | Some r => exists p h q p' h', split_address address = Some (p, h, q) /\
      host_completed (parse_trace address s) p h p' h' /\
      dup_blocks (heap s) (heap s') r p' h' (cut_catalogue q)
  end.

Lemma wp_ParseAddress address s :
  (forall a, a = e (trace s) (C_malloc (strlen address + 1)) -> 0 <= a_ret a) ->
  wp (ParseAddress address) e s (parsed address s).
Proof.
  intros Hm. unfold ParseAddress. do 3 wp_step; [specialize (Hm a Hans); lia|].
  wp_steps. destruct (split_address address) as [[[p h] q]|] eqn:Hs.
  - apply wp_bind. eapply wp_mono; [apply wp_complete_host|].
    intros [p' h'] s1 (Hl1 & Hc). pose proof (logs_quiet _ _ Hl1) as (Hh1 & Hg1 & Hb1).
    destruct Hl1 as (_ & _ & n1 & Ht1 & Hq1). eapply wp_mono.
    { eapply (wp_dup_parts _ _ _ l); [exact Hh1 | done]. }
    intros r s2 (Hg2 & Hb2 & n2 & Ht2 & Hq2 & Hr). split; [|split].
    + eapply same_globals_trans; [exact Hg1 | exact Hg2].
    + intros f. rewrite Hb2, Hb1. balance.
    + exists ((n2 ++ n1) ++ [(C_malloc (strlen address + 1), a)]). split.
      { rewrite Ht2, Ht1, <-!app_assoc. done. }
      split; [repeat (apply Forall_app; split); [done | done | by repeat constructor]|].
      destruct r as [r|].
      * exists p, h, q, p', h'. split_and!; [done | by subst a | done].
      * destruct Hr. split; [done|]. right. by apply no_memory_app, no_memory_app.
  - wp_steps. split_and!; [done | intros f; balance |]. eexists [_]. split; [done|].
    split; [by repeat constructor|]. split; [by heap_eq | by left].
Qed.

(** With memory, an address of the grammar is parsed. *)
Lemma wp_ParseAddress_some address s :
  mallocs e -> split_address address <> None ->
  wp (ParseAddress address) e s (fun r _ => r <> None).
Proof.
  intros Hm Hs.
  assert (Hstr : forall str s' (Q : ptr -> state -> Prop),
    (forall l s2, Q (At l 0) s2) -> wp (strdup str) e s' Q).
  { intros v s' Q HQ. unfold strdup. apply wp_alloc; [|intros; apply HQ].
    intros a -> Ha. specialize (Hm (trace s') (strlen v + 1)). lia. }
  assert (Hfree : forall l b s', heap s' !! l = Some b ->
    wp (free (At l 0)) e s' (fun _ _ => True)) by (intros; by eapply wp_free).
  unfold ParseAddress. do 3 wp_step; [specialize (Hm (trace s) (strlen address + 1)); subst; lia|].
  wp_step. destruct (split_address address) as [[[p h] q]|]; [|done]. apply wp_bind.
  eapply wp_mono; [apply wp_complete_host|]. intros [p' h'] s1 [(Hh & _) _].
  assert (Hl1 : heap s1 !! l = Some (BBytes (address ++ [0]))) by (rewrite Hh; apply lookup_insert_eq).
  unfold dup_parts. wp_steps; try done;
    match goal with Ha : ?x = e ?tr (C_malloc ?n), Hx : a_ret ?x < 0 |- _ =>
      specialize (Hm tr n); rewrite <-Ha in Hm; lia end.
Qed.

(** ** The properties *)

(** C8: the text is split exactly by the grammar of addresses: protocol up to the first
    '/', port behind the last ':', and the defaults of the four shorter forms; any other
    text is refused. *)
Theorem split_address_spec a p h q :
  split_address a = Some (p, h, q) <-> address_form a p h q.
Proof. split; [apply split_address_sound | apply split_address_complete]. Qed.

(** Looking a protocol up by strcasecmp, or by strcmp on a lower case copy of its first
    19 bytes, finds the same transport. *)
Theorem SelectTransport_spec protocol :
  cstring protocol ->
  SelectTransport protocol = find_transport (strcasecmp_eq protocol) Xtransports.
Proof. apply SelectTransport_casecmp. Qed.

(** C9: ParseAddress ends with the three parts in new blocks of their own: the protocol and
    host of the grammar and the port without catalogue, where an empty host is replaced by the
    name the system gives this machine, and one in brackets of protocol tcp or inet6 by its
    inside, with protocol inet6, exactly when inet_pton takes that as an IPv6 address.  It
    ends with none, and nothing left allocated, only when the text is no address or one of its
    allocations failed.  It opens no descriptor. *)
Theorem ParseAddress_spec address s :
  (forall a, a = e (trace s) (C_malloc (strlen address + 1)) -> 0 <= a_ret a) ->
  wp (ParseAddress address) e s (parsed address s).
Proof. apply wp_ParseAddress. Qed.

(** the copy of the address is not checked: without memory for it ParseAddress searches
    a string at NULL. *)
Lemma ParseAddress_unchecked address s :
  (forall a, a = e (trace s) (C_malloc (strlen address + 1)) -> a_ret a < 0) ->
  faults (ParseAddress address) e s NullDeref.
Proof.
  intros Hm. apply faults_wpf. unfold ParseAddress.
  do 3 wpf_step; [|specialize (Hm a Hans); lia]. by wpf_steps.
Qed.
End props.

(** ** Witnesses *)

Lemma SelectTransport_spec_witness :
  SelectTransport (cfg := linux X11_t) (str "TCP") = Some SocketTCPFuncs /\
  SelectTransport (cfg := linux X11_t) (str "TCP") =
    find_transport (strcasecmp_eq (str "TCP")) (Xtransports (cfg := linux X11_t)).
Proof.
  split; [by vm_compute|]. apply (SelectTransport_spec (cfg := linux X11_t)).
  by apply (bool_decide_unpack _).
Defined.

Lemma ParseAddress_spec_witness :
  wp (ParseAddress (cfg := linux X11_t) (str "tcp/[::1]:0")) env0 state0
    (parsed (cfg := linux X11_t) env0 (str "tcp/[::1]:0") state0).
Proof. apply (ParseAddress_spec (cfg := linux X11_t)). by intros a ->. Defined.

Lemma ParseAddress_unchecked_witness :
  faults (ParseAddress (cfg := linux X11_t) (str "tcp/:0"))
    (env_of (fun _ => Some (ans_err ENOMEM))) state0 NullDeref.
Proof. apply (ParseAddress_unchecked (cfg := linux X11_t)). by intros a ->. Defined.
