(* ===== verification/Trans.v ===== *)
(** * The transport independent interface (Xtrans.c)

    Every public operation goes through the table of function pointers of the
    connection's transport. *)

From S2P Require Import Prelude CLib Xtransint World Logic FdQueue Tables Util SockOpen SockListen SockConnect SockIO Parse.
Open Scope Z_scope.

(** The function pointers of struct _Xtransport. *)
Record Xtransport := XTransport {
  xt_OpenCOTSClient : bytes -> bytes -> bytes -> M ptr;
  xt_OpenCOTSServer : bytes -> bytes -> bytes -> M ptr;
  xt_ReopenCOTSServer : Z -> option bytes -> M ptr;
  xt_SetOption : ptr -> Z -> Z -> M Z;
  xt_CreateListener : ptr -> option bytes -> Z -> M Z;
  xt_ResetListener : option (ptr -> M Z);
  xt_Accept : ptr -> M (ptr * Z);
  xt_Connect : ptr -> option bytes -> option bytes -> M Z;
  xt_BytesReadable : ptr -> M (Z * Z);
  xt_Read : ptr -> Z -> M (Z * bytes);
  xt_Write : ptr -> bytes -> M Z;
  xt_Readv : ptr -> list Z -> M (Z * bytes);
  xt_Writev : ptr -> list bytes -> M Z;
  xt_SendFd : ptr -> Z -> Z -> M Z;
  xt_RecvFd : ptr -> M Z;
  xt_Disconnect : ptr -> M Z;
  xt_Close : ptr -> M Z;
  xt_CloseForCloning : ptr -> M Z
}.

Section trans.
Context {cfg : Config}.

(** SocketTCPFuncs, SocketINETFuncs and SocketINET6Funcs *)
Definition inet_funcs (t : transport) : Xtransport := {|
  xt_OpenCOTSClient := SocketOpenCOTSClient t;
  xt_OpenCOTSServer := SocketOpenCOTSServer t;
  xt_ReopenCOTSServer := SocketReopenCOTSServer t;
  xt_SetOption := SocketSetOption;
  xt_CreateListener := SocketINETCreateListener;
  xt_ResetListener := None;
  xt_Accept := SocketINETAccept;
  xt_Connect := SocketINETConnect;
  xt_BytesReadable := SocketBytesReadable;
  xt_Read := SocketRead;
  xt_Write := SocketWrite;
  xt_Readv := SocketReadv;
  xt_Writev := SocketWritev;
  xt_SendFd := SocketSendFdInvalid;
  xt_RecvFd := SocketRecvFdInvalid;
  xt_Disconnect := SocketDisconnect;
  xt_Close := SocketINETClose;
  xt_CloseForCloning := SocketINETClose
|}.

(** SocketLocalFuncs and SocketUNIXFuncs *)
Definition unix_funcs (t : transport) : Xtransport := {|
  xt_OpenCOTSClient := SocketOpenCOTSClient t;
  xt_OpenCOTSServer := SocketOpenCOTSServer t;
  xt_ReopenCOTSServer := SocketReopenCOTSServer t;
  xt_SetOption := SocketSetOption;
  xt_CreateListener := SocketUNIXCreateListener;
  xt_ResetListener := Some SocketUNIXResetListener;
  xt_Accept := SocketUNIXAccept;
  xt_Connect := SocketUNIXConnect;
  xt_BytesReadable := SocketBytesReadable;
  xt_Read := SocketRead;
  xt_Write := SocketWrite;
  xt_Readv := SocketReadv;
  xt_Writev := SocketWritev;
  xt_SendFd := SocketSendFd;
  xt_RecvFd := SocketRecvFd;
  xt_Disconnect := SocketDisconnect;
  xt_Close := SocketUNIXClose;
  xt_CloseForCloning := SocketUNIXCloseForCloning
|}.

Definition funcs (t : transport) : Xtransport :=
  match t with
  | SocketTCPFuncs | SocketINETFuncs | SocketINET6Funcs => inet_funcs t
  | SocketLocalFuncs | SocketUNIXFuncs => unix_funcs t
  end.

(** ciptr->transptr *)
Definition conn_funcs (ciptr : ptr) : M Xtransport :=
  c ← load_conn ciptr;
  match transptr c with None => throw NullDeref | Some t => mret (funcs t) end.

(** ** Opening *)

Definition Open (type : Z) (address : bytes) : M ptr :=
  parts ← ParseAddress address;
  match parts with
  | None => mret NULL
  | Some (protocol, host, port) =>
      proto ← load_str protocol;
      match SelectTransport proto with
      | None => free protocol;; free host;; free port;; mret NULL
      | Some thistrans =>
          h ← load_str host;
          q ← load_str port;
          ciptr ←
            (if type =? XTRANS_OPEN_COTS_CLIENT
             then xt_OpenCOTSClient (funcs thistrans) proto h q
             else if type =? XTRANS_OPEN_COTS_SERVER
             then xt_OpenCOTSServer (funcs thistrans) proto h q
             else mret NULL);
          if bool_decide (ciptr = NULL) then
            free protocol;; free host;; free port;; mret NULL
          else
            set ciptr (set_transptr (Some thistrans));;
            set ciptr (set_port port);;
            free protocol;; free host;;
            mret ciptr
      end
  end.

(** The transport with the id [trans_id]. *)
Fixpoint transport_of_id (l : list (transport * Z)) (trans_id : Z) : option transport :=
  match l with
  | [] => None
  | (t, id) :: l => if id =? trans_id then Some t else transport_of_id l trans_id
  end.

Definition Reopen (type trans_id f : Z) (port : option bytes) : M ptr :=
  match transport_of_id Xtransports trans_id with
  | None => mret NULL
  | Some thistrans =>
      match port with
      | None => throw NullDeref           (* strdup (port) *)
      | Some port =>
          save_port ← strdup port;
          if bool_decide (save_port = NULL) then mret NULL
          else
            ciptr ←
              (if type =? XTRANS_OPEN_COTS_SERVER
               then xt_ReopenCOTSServer (funcs thistrans) f (Some port)
               else mret NULL);
            if bool_decide (ciptr = NULL) then free save_port;; mret NULL
            else
              set ciptr (set_transptr (Some thistrans));;
              set ciptr (set_port save_port);;
              mret ciptr
      end
  end.

Definition OpenCOTSClient (address : bytes) : M ptr := Open XTRANS_OPEN_COTS_CLIENT address.
Definition OpenCOTSServer (address : bytes) : M ptr := Open XTRANS_OPEN_COTS_SERVER address.
Definition ReopenCOTSServer (trans_id f : Z) (port : option bytes) : M ptr :=
  Reopen XTRANS_OPEN_COTS_SERVER trans_id f port.

Fixpoint id_of_transport (l : list (transport * Z)) (t : transport) : option Z :=
  match l with
  | [] => None
  | (t', id) :: l => if decide (t' = t) then Some id else id_of_transport l t
  end.

(** [Some] of *trans_id, *fd and *port (NULL when out of memory) when the transport is
    in the table; the int returned is 1 exactly for a non-NULL port. *)
Definition GetReopenInfo (ciptr : ptr) : M (option (Z * Z * ptr)) :=
  c ← load_conn ciptr;
  match transptr c with
  | None => mret None
  | Some t =>
      match id_of_transport Xtransports t with
      | None => mret None
      | Some id =>
          s ← load_str (port c);
          p ← strdup s;
          mret (Some (id, fd c, p))
      end
  end.

Definition SetOption (ciptr : ptr) (option arg : Z) : M Z :=
  c ← load_conn ciptr;
  let f := fd c in
  if option =? TRANS_NONBLOCKING then
    if arg =? 1 then
      ret ← sys_ret (C_fcntl f F_GETFL 0);
      if negb (ret =? -1) then sys_ret (C_fcntl f F_SETFL (Z.lor ret O_NONBLOCK))
      else mret ret
    else mret 0
  else if option =? TRANS_CLOSEONEXEC then sys_ret (C_fcntl f F_SETFD FD_CLOEXEC)
  else mret 0.

(** ** Listening *)

Definition CreateListener (ciptr : ptr) (port : option bytes) (lflags : Z) : M Z :=
  x ← conn_funcs ciptr; xt_CreateListener x ciptr port lflags.

(** ret |= f (nolisten[i]) over the list. *)
Fixpoint or_all (f : bytes -> M Z) (l : list bytes) (ret : Z) : M Z :=
  match l with
  | [] => mret ret
  | p :: l => r ← f p; or_all f l (Z.lor ret r)
  end.

(** The common shape of Received, NoListen and Listen: change the flags of the
    transport, after those of the transports it is an alias for.  The aliases of an
    alias are none, [fuel] is the depth of the recursion. *)
Fixpoint change_listen (fuel : nat) (change : Z -> Z) (protocol : bytes) : M Z :=
  match fuel with
  | O => throw OutOfFuel
  | S fuel =>
      match SelectTransport protocol with
      | None => mret (-1)
      | Some trans =>
          fl ← get (fun s => tflags s trans);
          ret ←
            (if has fl TRANS_ALIAS then
               match nolisten trans with
               | Some l => or_all (change_listen fuel change) l 0
               | None => mret 0
               end
             else mret 0);
          set_tflags trans change;;
          mret ret
      end
  end.

Definition listen_fuel : nat := 2.

Definition Received (protocol : bytes) : M Z :=
  change_listen listen_fuel (fun f => Z.lor f TRANS_RECEIVED) protocol.
Definition NoListen (protocol : bytes) : M Z :=
  change_listen listen_fuel (fun f => Z.lor f TRANS_NOLISTEN) protocol.
Definition Listen (protocol : bytes) : M Z :=
  change_listen listen_fuel (fun f => Z.land f (Z.lnot TRANS_NOLISTEN)) protocol.

Definition IsListening (protocol : bytes) : M bool :=
  match SelectTransport protocol with
  | None => mret false
  | Some trans => fl ← get (fun s => tflags s trans); mret (negb (has fl TRANS_NOLISTEN))
  end.

Definition ResetListener (ciptr : ptr) : M Z :=
  x ← conn_funcs ciptr;
  match xt_ResetListener x with
  | Some f => f ciptr
  | None => mret TRANS_RESET_NOOP
  end.

Definition Accept (ciptr : ptr) : M (ptr * Z) :=
  x ← conn_funcs ciptr;
  '(newciptr, status) ← xt_Accept x ciptr;
  (if negb (bool_decide (newciptr = NULL)) then
     c ← load_conn ciptr; set newciptr (set_transptr (transptr c))
   else mret tt);;
  mret (newciptr, status).

(** ** Using a connection *)

Definition Connect (ciptr : ptr) (address : bytes) : M Z :=
  parts ← ParseAddress address;
  match parts with
  | None => mret (-1)
  | Some (protocol, host, port) =>
      q ← load_str port;
      match q with
      | [] => free protocol;; free host;; mret (-1)
      | _ =>
          h ← load_str host;
          x ← conn_funcs ciptr;
          ret ← xt_Connect x ciptr (Some h) (Some q);
          free protocol;; free host;; free port;;
          mret ret
      end
  end.

Definition BytesReadable (ciptr : ptr) : M (Z * Z) :=
  x ← conn_funcs ciptr; xt_BytesReadable x ciptr.
Definition Read (ciptr : ptr) (size : Z) : M (Z * bytes) :=
  x ← conn_funcs ciptr; xt_Read x ciptr size.
Definition Write (ciptr : ptr) (buf : bytes) : M Z :=
  x ← conn_funcs ciptr; xt_Write x ciptr buf.
Definition Readv (ciptr : ptr) (lens : list Z) : M (Z * bytes) :=
  x ← conn_funcs ciptr; xt_Readv x ciptr lens.
Definition Writev (ciptr : ptr) (iov : list bytes) : M Z :=
  x ← conn_funcs ciptr; xt_Writev x ciptr iov.
Definition SendFd (ciptr : ptr) (f do_close : Z) : M Z :=
  x ← conn_funcs ciptr; xt_SendFd x ciptr f do_close.
Definition RecvFd (ciptr : ptr) : M Z :=
  x ← conn_funcs ciptr; xt_RecvFd x ciptr.
Definition Disconnect (ciptr : ptr) : M Z :=
  x ← conn_funcs ciptr; xt_Disconnect x ciptr.

Definition Close (ciptr : ptr) : M Z :=
  x ← conn_funcs ciptr;
  ret ← xt_Close x ciptr;
  FreeConnInfo ciptr;;
  mret ret.

Definition CloseForCloning (ciptr : ptr) : M Z :=
  x ← conn_funcs ciptr;
  ret ← xt_CloseForCloning x ciptr;
  FreeConnInfo ciptr;;
  mret ret.

Definition IsLocal (ciptr : ptr) : M bool :=
  c ← load_conn ciptr; mret (family c =? AF_UNIX).

(** The int returned, *familyp, *addrlenp and *addrp. *)
Definition GetPeerAddr (ciptr : ptr) : M (Z * Z * Z * ptr) :=
  c ← load_conn ciptr;
  p ← malloc_bytes (peeraddrlen c);
  if bool_decide (p = NULL) then mret (-1, family c, peeraddrlen c, NULL)
  else
    b ← read_bytes (peeraddr c) (peeraddrlen c);
    write_bytes p b;;
    mret (0, family c, peeraddrlen c, p).

Definition GetConnectionNumber (ciptr : ptr) : M Z :=
  c ← load_conn ciptr; mret (fd c).
End trans.

(** ** Properties *)

Section props.
Context {cfg : Config} (e : env).

(** *** Listening and not listening *)

(** The alias bits are as the transports are initialised with; nothing changes them. *)
Definition aliases_ok (tf : transport -> Z) : Prop :=
  forall t, has (tf t) TRANS_ALIAS = has (initial_flags t) TRANS_ALIAS.

(** The transports that a change of [t] reaches: those [t] is an alias for, and [t]. *)
Definition reached (t : transport) : list transport :=
  (if has (initial_flags t) TRANS_ALIAS
   then match t with
        | SocketTCPFuncs =>
            SocketINETFuncs :: (if IPv6 then [SocketINET6Funcs] else [])
        | SocketUNIXFuncs => [SocketLocalFuncs]
        | _ => []
        end
   else []) ++ [t].

Definition change_all (change : Z -> Z) (ts : list transport) (tf : transport -> Z)
    : transport -> Z :=
  fun t => if decide (t ∈ ts) then change (tf t) else tf t.

(** The transports with a name find themselves. *)
Lemma SelectTransport_TransName t :
  (t = SocketINET6Funcs -> IPv6 = true) -> SelectTransport (TransName t) = Some t.
Proof.
  intros Ht. rewrite SelectTransport_casecmp by (destruct t; by apply (bool_decide_unpack _)).
  unfold Xtransports. destruct t; destruct IPv6 eqn:E; try (by vm_compute);
    by specialize (Ht eq_refl).
Qed.

Lemma wp_change_plain change p t fuel s :
  SelectTransport p = Some t -> has (tflags s t) TRANS_ALIAS = false ->
  wp (change_listen (S fuel) change p) e s (fun r s' =>
    r = 0 /\ (forall t', tflags s' t' = change_all change [t] (tflags s) t') /\
    heap s' = heap s /\ trace s' = trace s).
Proof.
  intros Hp Ha. cbn [change_listen]. rewrite Hp. do 2 wp_step. rewrite Ha. wp_steps.
  split_and!; [done | | done | done]. intros t'. unfold change_all. st_simpl.
  destruct (decide (t' = t)) as [->|Hne].
  - rewrite decide_True by by left. done.
  - rewrite decide_False; [done|]. set_solver.
Qed.

(** A list of names of transports that are no aliases. *)
Lemma wp_or_all change ts s :
  NoDup ts ->
  (forall t, t ∈ ts -> SelectTransport (TransName t) = Some t /\
     has (tflags s t) TRANS_ALIAS = false) ->
  wp (or_all (change_listen 1 change) (TransName <$> ts) 0) e s (fun r s' =>
    r = 0 /\ (forall t', tflags s' t' = change_all change ts (tflags s) t') /\
    heap s' = heap s /\ trace s' = trace s).
Proof.
  revert s. induction ts as [|t ts IH]; intros s Hnd Hts; cbn [or_all fmap list_fmap].
  { apply wp_ret. split_and!; done. }
  apply NoDup_cons in Hnd as [Hn Hnd].
  destruct (Hts t) as [Hs Ha]; [by left|].
  apply wp_bind. eapply wp_mono; [by eapply wp_change_plain|].
  intros r s1 (-> & Hf1 & Hh1 & Ht1). cbn [Z.lor]. eapply wp_mono.
  - apply IH; [done|]. intros t2 Hin. destruct (Hts t2) as [Hs2 Ha2]; [by right|].
    split; [done|]. rewrite Hf1. unfold change_all. rewrite decide_False; [done|]. set_solver.
  - intros r s2 (-> & Hf2 & Hh2 & Ht2). split_and!; [done | | congruence | congruence].
    intros t'. rewrite Hf2. unfold change_all. rewrite Hf1. unfold change_all.
    repeat case_decide; try done; exfalso; set_solver.
Qed.

Lemma wp_change_listen change p s :
  aliases_ok (tflags s) ->
  wp (change_listen listen_fuel change p) e s (fun r s' =>
    match SelectTransport p with
    | None => r = -1 /\ s' = s
    | Some t =>
        r = 0 /\ (forall t', tflags s' t' = change_all change (reached t) (tflags s) t') /\
        heap s' = heap s /\ trace s' = trace s
    end).
Proof.
  intros Hok. unfold listen_fuel. destruct (SelectTransport p) as [t|] eqn:Hp.
  2: { cbn [change_listen]. rewrite Hp. by apply wp_ret. }
  destruct (has (tflags s t) TRANS_ALIAS) eqn:Ha.
  2: { eapply wp_mono; [by eapply wp_change_plain|]. intros r s' H.
       unfold reached. rewrite <-Hok, Ha. exact H. }
  assert (Hr : exists ts, reached t = ts ++ [t] /\ nolisten t = Some (TransName <$> ts) /\
    NoDup (ts ++ [t]) /\ forall t', t' ∈ ts -> SelectTransport (TransName t') = Some t' /\
      has (tflags s t') TRANS_ALIAS = false).
  { pose proof Ha as Ha'. rewrite Hok in Ha'. unfold reached. rewrite Ha'.
    destruct t; unfold initial_flags in Ha'; try (by destruct HAVE_ABSTRACT_SOCKETS).
    - exists (SocketINETFuncs :: if IPv6 then [SocketINET6Funcs] else []).
      split_and!; [done | unfold nolisten; by destruct IPv6 | destruct IPv6; by apply (bool_decide_unpack _) |].
      intros t' Ht'. rewrite Hok.
      destruct IPv6 eqn:E; (split; [apply SelectTransport_TransName|]); set_solver.
    - exists [SocketLocalFuncs]. split_and!; [done | done | by apply (bool_decide_unpack _) |].
      intros t' ->%list_elem_of_singleton. rewrite Hok.
      split; [by apply SelectTransport_TransName|].
      unfold initial_flags. by destruct HAVE_ABSTRACT_SOCKETS. }
  destruct Hr as (ts & -> & Hn & Hnd & Hts). apply NoDup_app in Hnd as (Hnd & Hd & _).
  remember 1%nat as n eqn:En. cbn [change_listen]. subst n. rewrite Hp. do 2 wp_step.
  rewrite Ha, Hn. apply wp_bind. eapply wp_mono; [by apply wp_or_all|].
  intros r s1 (-> & Hf & Hh & Ht). wp_steps. split_and!; [done | | done | done].
  intros t'. unfold change_all. st_simpl. rewrite !Hf. unfold change_all.
  assert (t ∉ ts) by (intros Hin; apply (Hd t Hin); by left).
  repeat case_decide; subst; try done; exfalso; set_solver.
Qed.

(** Changing another bit keeps the alias bits. *)
Lemma aliases_ok_change change ts tf tf' :
  (forall f, has (change f) TRANS_ALIAS = has f TRANS_ALIAS) ->
  (forall t, tf' t = change_all change ts tf t) -> aliases_ok tf -> aliases_ok tf'.
Proof.
  intros Hc Heq Hok t. rewrite Heq. unfold change_all. case_decide; [rewrite Hc|]; apply Hok.
Qed.

Lemma NOLISTEN_not_ALIAS f : has (Z.lor f TRANS_NOLISTEN) TRANS_ALIAS = has f TRANS_ALIAS.
Proof. by apply has_lor_disjoint. Qed.

(** What the listener switches leave: the aliases, the heap and the outside world. *)
Definition switched (change : Z -> Z) (ts : list transport) (s : state) (r : Z) (s' : state)
    : Prop :=
  r = 0 /\ (forall t, tflags s' t = change_all change ts (tflags s) t) /\
  aliases_ok (tflags s') /\ heap s' = heap s /\ trace s' = trace s.

Lemma wp_switch change p t s :
  (forall f, has (change f) TRANS_ALIAS = has f TRANS_ALIAS) ->
  aliases_ok (tflags s) -> SelectTransport p = Some t ->
  wp (change_listen listen_fuel change p) e s (switched change (reached t) s).
Proof.
  intros Hc Hok Hp. eapply wp_mono; [by apply wp_change_listen|]. intros r s'. rewrite Hp.
  intros (-> & Hf & Hh & Ht). split_and!; try done. by eapply aliases_ok_change.
Qed.

Lemma wp_IsListening q u s (Q : bool -> state -> Prop) :
  SelectTransport q = Some u -> Q (negb (has (tflags s u) TRANS_NOLISTEN)) s ->
  wp (IsListening q) e s Q.
Proof. intros Hq HQ. unfold IsListening. rewrite Hq. by wp_steps. Qed.

(** ** The properties *)

(** C20: NoListen on a protocol, an alias for others or not, turns listening off for exactly
    the transports it stands for, and IsListening says so for every protocol; Listen turns
    them on again and leaves the other flags of every transport as they were.  The alias
    bits, which the recursion over aliases relies on, are an invariant of both. *)
Theorem listening_spec p q t u s :
  aliases_ok (tflags s) -> SelectTransport p = Some t -> SelectTransport q = Some u ->
  wp (NoListen p) e s (fun r s1 =>
    switched (fun f => Z.lor f TRANS_NOLISTEN) (reached t) s r s1 /\
    wp (IsListening q) e s1 (fun b _ =>
      b = negb (bool_decide (u ∈ reached t)) && negb (has (tflags s u) TRANS_NOLISTEN)) /\
    wp (Listen p) e s1 (fun r s2 => r = 0 /\ aliases_ok (tflags s2) /\
      forall t', tflags s2 t' =
        if decide (t' ∈ reached t) then Z.land (tflags s t') (Z.lnot TRANS_NOLISTEN)
        else tflags s t')).
Proof.
  intros Hok Hp Hq.
  eapply wp_mono; [apply wp_switch; [apply NOLISTEN_not_ALIAS | done | exact Hp]|].
  intros r s1 Hs. split; [exact Hs|]. destruct Hs as (-> & Hf & Hok1 & _). split.
  - apply wp_IsListening with u; [done|]. rewrite Hf. unfold change_all.
    case_decide as Hd; [|by rewrite bool_decide_false].
    rewrite bool_decide_true by done. by rewrite has_lor_same.
  - eapply wp_mono; [apply wp_switch; [| exact Hok1 | exact Hp]|].
    { intros f. by apply has_clear_disjoint. }
    intros r s2 (-> & Hf2 & Hok2 & _). split_and!; [done | done |]. intros t'.
    rewrite Hf2. unfold change_all. rewrite Hf. unfold change_all.
    case_decide; [|done]. zbits.
Qed.
End props.

(** ** Witnesses *)

Definition state_flags : state :=
  State [] ∅ 1 0 (initial_flags (cfg := linux X11_t)) None.

Lemma listening_spec_witness :
  wp (NoListen (cfg := linux X11_t) (str "tcp")) env0 state_flags (fun r s1 =>
    switched (cfg := linux X11_t) (fun f => Z.lor f TRANS_NOLISTEN)
      (reached (cfg := linux X11_t) SocketTCPFuncs) state_flags r s1 /\
    wp (IsListening (cfg := linux X11_t) (str "inet6")) env0 s1 (fun b _ =>
      b = negb (bool_decide (SocketINET6Funcs ∈ reached (cfg := linux X11_t) SocketTCPFuncs)) &&
          negb (has (tflags state_flags SocketINET6Funcs) TRANS_NOLISTEN)) /\
    wp (Listen (cfg := linux X11_t) (str "tcp")) env0 s1 (fun r s2 => r = 0 /\
      aliases_ok (cfg := linux X11_t) (tflags s2) /\
      forall t', tflags s2 t' =
        if decide (t' ∈ reached (cfg := linux X11_t) SocketTCPFuncs)
        then Z.land (tflags state_flags t') (Z.lnot TRANS_NOLISTEN)
        else tflags state_flags t')).
Proof. apply (listening_spec (cfg := linux X11_t)); [done | by vm_compute | by vm_compute]. Defined.
