(* ===== verification/Lifecycle.v ===== *)
(** * The life of a connection: opening, reopening, closing and connecting it (Xtrans.c)

    The theorems about the operations of Trans.v that allocate and free connections: what
    they return owns its blocks, and nothing is left of it after Close. *)

From S2P Require Import Prelude CLib Xtransint World Logic FdQueue Tables Util SockOpen SockListen SockConnect SockIO Parse Trans.
Open Scope Z_scope.

Section props.
Context {cfg : Config} (e : env).

(** *** Closing *)

Definition is_unix (t : transport) : bool :=
  match t with SocketLocalFuncs | SocketUNIXFuncs => true | _ => false end.

Lemma wp_conn_funcs l c t s (Q : Xtransport -> state -> Prop) :
  heap s !! l = Some (BConn c) -> transptr c = Some t -> Q (funcs t) s ->
  wp (conn_funcs (At l 0)) e s Q.
Proof.
  intros Hl Ht HQ. apply wp_bind. eapply wp_load_conn; [done|]. by rewrite Ht.
Qed.

(** The connection [c] at [l] of transport [t] owns its strings and queues, all in blocks of
    their own; only UNIX transports pass descriptors. *)
Definition own_all (m : memory) (l : positive) (c : conninfo) (t : transport)
    (rs ss : list cell) : Prop :=
  own_conn m l c /\ conn_queues m l c rs ss /\ transptr c = Some t /\
  (forall x, x ∈ conn_blocks l c -> x ∉ (c_loc <$> rs) ++ (c_loc <$> ss)) /\
  (is_unix t = true -> addr_ok m l c (conn_locs l rs ss)) /\
  (is_unix t && XTRANS_SEND_FDS = false -> rs = [] /\ ss = []).

Definition close_calls (s : state) (c : conninfo) (t : transport) (rs ss : list cell)
    : list call :=
  if is_unix t
  then (if XTRANS_SEND_FDS then C_close <$> closed_fds false ss ++ closed_fds true rs else [])
       ++ [C_close (fd c)] ++ option_list (C_unlink <$> unlink_path s c)
  else [C_close (fd c)].

(** Exactly the blocks of [ls] are freed. *)
Definition freed (m m' : memory) (ls : list positive) : Prop :=
  forall x, m' !! x = if decide (x ∈ ls) then None else m !! x.

Lemma freed_del_locs ls m : freed m (del_locs ls m) ls.
Proof.
  intros x. case_decide; [by apply del_locs_lookup_in | by apply del_locs_lookup].
Qed.

Lemma own_conn_base m m' l c rs ss :
  own_conn m l c -> conn_queues m' l (base c) [] [] ->
  (forall x, x ∈ conn_blocks l c -> x ∉ (c_loc <$> rs) ++ (c_loc <$> ss)) ->
  m' = emptied m l c rs ss -> own_conn m' l (base c).
Proof.
  intros (Hl & Ha & Hp & Hq & Hnd) (Hl' & _) Hdis ->.
  assert (Hne : forall x, x ∈ ptr_loc (addr c) ++ ptr_loc (peeraddr c) ++ ptr_loc (port c) ->
    x <> l).
  { unfold conn_blocks in Hnd. rewrite !app_assoc in Hnd. apply NoDup_app in Hnd as (_ & Hd & _).
    intros x Hx ->. rewrite app_assoc in Hx. apply (Hd l Hx). by left. }
  assert (Hv : forall p, valid_ptr m p -> (forall x, x ∈ ptr_loc p ->
    x ∈ ptr_loc (addr c) ++ ptr_loc (peeraddr c) ++ ptr_loc (port c)) ->
    valid_ptr (emptied m l c rs ss) p).
  { intros [|x o]; [done|]. intros [-> Hx] Hin. split; [done|].
    specialize (Hin x ltac:(by left)). rewrite emptied_lookup; [done|]. unfold conn_locs.
    rewrite not_elem_of_cons. split; [by apply Hne|]. apply Hdis. unfold conn_blocks.
    rewrite !app_assoc in *. apply elem_of_app. by left. }
  split; [done|]. split; [|split; [|split; [|exact Hnd]]]; (apply Hv; [done|]);
    intros x Hx; rewrite !elem_of_app; auto.
Qed.

Lemma emptied_freed m l c rs ss x :
  x <> l -> emptied m l c rs ss !! x =
    if decide (x ∈ (c_loc <$> rs) ++ (c_loc <$> ss)) then None else m !! x.
Proof.
  intros Hx. unfold emptied. rewrite lookup_insert_ne by done.
  destruct (decide (x ∈ c_loc <$> rs)) as [Hr|Hr].
  { rewrite del_cells_lookup_in, decide_True; [done | set_solver | done]. }
  rewrite del_cells_lookup by done. destruct (decide (x ∈ c_loc <$> ss)) as [Hs|Hs].
  - rewrite del_cells_lookup_in, decide_True; [done | set_solver | done].
  - rewrite del_cells_lookup, decide_False; [done | set_solver | done].
Qed.

(** First the queues, then the rest. *)
Lemma freed_both m m1 l c rs ss :
  (forall x, x <> l -> m1 !! x =
     if decide (x ∈ (c_loc <$> rs) ++ (c_loc <$> ss)) then None else m !! x) ->
  freed m (del_locs (conn_blocks l c) m1) (conn_blocks l c ++ conn_locs l rs ss).
Proof.
  intros Hm x. rewrite freed_del_locs.
  assert (Hl : l ∈ conn_blocks l c) by (unfold conn_blocks; set_solver).
  destruct (decide (x ∈ conn_blocks l c)) as [Hx|Hx].
  { rewrite decide_True; [done | set_solver]. }
  rewrite Hm by (intros ->; done). unfold conn_locs.
  destruct (decide (x ∈ (c_loc <$> rs) ++ (c_loc <$> ss))) as [Hin|Hin].
  - rewrite decide_True; [done | set_solver].
  - rewrite decide_False; [done|]. set_unfold. intros [?|[->|?]]; naive_solver.
Qed.

Lemma wp_Close l c t rs ss s :
  own_all (heap s) l c t rs ss ->
  wp (Close (At l 0)) e s (fun r s' => same_globals s s' /\
    ran s s' (close_calls s c t rs ss) /\
    freed (heap s) (heap s') (conn_blocks l c ++ conn_locs l rs ss)).
Proof.
  intros (Ho & Hq & Ht & Hdis & Haddr & Hempty). pose proof Ho as (Hl & _).
  unfold Close. apply wp_bind. eapply wp_conn_funcs; [done | done |]. unfold close_calls.
  assert (Hnoq : is_unix t && XTRANS_SEND_FDS = false -> forall x, x <> l -> heap s !! x =
     if decide (x ∈ (c_loc <$> rs) ++ (c_loc <$> ss)) then None else heap s !! x).
  { intros Hno x _. destruct (Hempty Hno) as [-> ->]. rewrite decide_False; [done|].
    apply not_elem_of_nil. }
  destruct (is_unix t) eqn:Hu.
  - assert (xt_Close (funcs t) = SocketUNIXClose) as -> by by destruct t.
    apply wp_bind. eapply wp_mono; [eapply wp_SocketUNIXClose; eauto|].
    intros r s1 (_ & Hg & Hr & Hh). apply wp_bind.
    assert (Hc : exists c', own_conn (heap s1) l c' /\ conn_blocks l c' = conn_blocks l c).
    { destruct XTRANS_SEND_FDS.
      - destruct Hh as [Hh Hq1]. exists (base c). split; [by eapply own_conn_base | done].
      - exists c. by rewrite Hh. }
    destruct Hc as (c' & Ho' & Hb). eapply wp_FreeConnInfo; [exact Ho'|]. apply wp_ret.
    split_and!; [exact Hg | exact Hr |]. cbn [heap upd_heap]. rewrite Hb.
    apply freed_both. intros x Hx. destruct XTRANS_SEND_FDS.
    + destruct Hh as [-> _]. by apply emptied_freed.
    + rewrite Hh. by apply Hnoq.
  - assert (xt_Close (funcs t) = SocketINETClose) as -> by by destruct t.
    unfold SocketINETClose. do 2 wp_step. wp_step. wp_step. apply wp_bind.
    eapply wp_FreeConnInfo; [exact Ho|]. apply wp_ret.
    split_and!; [done | ran_solve |]. apply freed_both. by apply Hnoq.
Qed.

(** *** Opening *)

(** The connection Open returns: of the transport the address names, over a new descriptor,
    with a copy of the port. *)
Definition trans_conn (t : transport) (i f : Z) (lq : positive) : conninfo :=
  set_port (At lq 0) (set_transptr (Some t) (set_index i (set_fd f conn0))).

Definition open_outcome (address : bytes) (s : state) (p : ptr) (s' : state) : Prop :=
  same_globals s s' /\
  ((p = NULL /\ heap s' = heap s /\ fds_kept none s s') \/
   (exists p0 h0 q0 p1 h1 t i d l lq f,
      split_address address = Some (p0, h0, q0) /\ host_completed e (parse_trace e address s) p0 h0 p1 h1 /\
      SelectTransport (until_nul (p1 ++ [0])) = Some t /\ dev_named i (TransName t) d /\
      p = At l 0 /\ l <> lq /\ heap s !! l = None /\ heap s !! lq = None /\ 0 <= f /\
      heap s' = <[l := BConn (trans_conn t i f lq)]>
                  (<[lq := BBytes (cut_catalogue q0 ++ [0])]> (heap s)) /\
      fds_kept (just f) s s')).

(** OpenCOTSClient or OpenCOTSServer of the transport, NULL for any other kind. *)
Lemma wp_open_by_type type t p h q s :
  wp (if type =? XTRANS_OPEN_COTS_CLIENT
      then xt_OpenCOTSClient (funcs t) p h q
      else if type =? XTRANS_OPEN_COTS_SERVER
      then xt_OpenCOTSServer (funcs t) p h q
      else mret NULL) e s (open_result (TransName t) s).
Proof.
  assert (xt_OpenCOTSClient (funcs t) = SocketOpenCOTSClient t) as -> by by destruct t.
  assert (xt_OpenCOTSServer (funcs t) = SocketOpenCOTSServer t) as -> by by destruct t.
  repeat case_bool.
  - apply wp_SocketOpenCOTSClientBase. unfold NUMSOCKETFAMILIES. lia.
  - apply wp_SocketOpenCOTSServer.
  - apply wp_ret. left. split; [done | apply not_opened_refl].
Qed.

(** Giving up after the address was parsed. *)
Lemma wp_free_parts lp lh lq bp bh bq m s (Q : ptr -> state -> Prop) :
  heap s = <[lq := bq]> (<[lh := bh]> (<[lp := bp]> m)) -> NoDup [lp; lh; lq] ->
  m !! lp = None -> m !! lh = None -> m !! lq = None ->
  Q NULL (upd_heap m s) ->
  wp (free (At lp 0) ;; free (At lh 0) ;; free (At lq 0) ;; mret NULL) e s Q.
Proof.
  intros Hh Hnd H1 H2 H3 HQ.
  assert (lp <> lh /\ lp <> lq /\ lh <> lq) as (? & ? & ?) by
    (apply NoDup_cons in Hnd as [Hn1 Hnd]; apply NoDup_cons in Hnd as [Hn2 _]; set_solver).
  wp_step. eapply wp_free; [rewrite Hh, !lookup_insert_ne by done; apply lookup_insert_eq|].
  wp_step. eapply wp_free.
  { st_simpl. rewrite Hh, lookup_delete_ne, lookup_insert_ne by done. apply lookup_insert_eq. }
  wp_step. eapply wp_free.
  { st_simpl. rewrite Hh, !lookup_delete_ne by done. apply lookup_insert_eq. }
  wp_step. revert HQ. st_simpl.
  assert (delete lq (delete lh (delete lp (heap s))) = m) as ->; [|done].
  rewrite Hh. by heap_eq.
Qed.

(** Parsing opens nothing. *)
Lemma parsed_fds s s1 new :
  trace s1 = new ++ trace s -> Forall (fun ev : event => quiet_call ev.1 = true) new ->
  balanced s s1 -> fds_kept none s s1.
Proof.
  intros Ht Hq Hb. assert (Hl : forall f, lost f (trace s1) = lost f (trace s))
    by (intros f; rewrite Ht; by apply lost_app, quiet_no_limit).
  split; [|done]. intros f. unfold ledger, none. rewrite Hb, Hl. lia.
Qed.

Lemma wp_Open type address s :
  (forall a, a = e (trace s) (C_malloc (strlen address + 1)) -> 0 <= a_ret a) ->
  wp (Open type address) e s (open_outcome address s).
Proof.
  intros Hm. apply wp_bind. eapply wp_mono; [by apply wp_ParseAddress|].
  intros r s1 (Hg1 & Hb1 & new & Htr & Hq & Hr).
  assert (Hk1 : fds_kept none s s1) by by eapply parsed_fds.
  destruct r as [[[protocol host] port]|].
  2: { apply wp_ret. split; [done|]. left. destruct Hr. by split_and!. }
  destruct Hr as (p0 & h0 & q0 & p1 & h1 & Hs & Hc & lp & lh & lq & [= -> -> ->] & Hnd &
    Hlp & Hlh & Hlq & Hh1).
  assert (lp <> lh /\ lp <> lq /\ lh <> lq) as (? & ? & ?) by
    (apply NoDup_cons in Hnd as [Hn1 Hnd']; apply NoDup_cons in Hnd' as [Hn2 _]; set_solver).
  assert (Hvp : heap s1 !! lp = Some (BBytes (p1 ++ [0]))).
  { rewrite Hh1, !lookup_insert_ne by done. apply lookup_insert_eq. }
  assert (Hvh : heap s1 !! lh = Some (BBytes (h1 ++ [0]))).
  { rewrite Hh1, lookup_insert_ne by done. apply lookup_insert_eq. }
  assert (Hvq : heap s1 !! lq = Some (BBytes (cut_catalogue q0 ++ [0])))
    by (rewrite Hh1; apply lookup_insert_eq).
  wp_step. wp_step. rewrite drop_0.
  destruct (SelectTransport (until_nul (p1 ++ [0]))) as [t|] eqn:Ht.
  2: { eapply wp_free_parts; try done. split; [done|]. left. split_and!; try done. }
  do 4 wp_step. apply wp_bind. eapply wp_mono; [apply wp_open_by_type|].
  intros cp s2 [(-> & Hh2 & Hg2 & Hb2)|(i & d & Hd & l & f & -> & Hl & Hf & Hg2 & Hh2 & Hb2)].
  - wp_step. eapply wp_free_parts; [by rewrite Hh2 | done | done | done | done |].
    split; [by eapply same_globals_trans|]. left. split_and!; [done | done |].
    by eapply (fds_kept_after none s s1 s2).
  - rewrite Hh1 in Hl. apply lookup_insert_None in Hl as [Hl ?].
    apply lookup_insert_None in Hl as [Hl ?]. apply lookup_insert_None in Hl as [Hl ?].
    assert (Hl2 : heap s2 !! l = Some (BConn (set_index i (set_fd f conn0))))
      by (rewrite Hh2; apply lookup_insert_eq).
    do 6 wp_step. eapply wp_free.
    { st_simpl. rewrite Hh2, Hh1, !lookup_insert_ne by done. apply lookup_insert_eq. }
    wp_step. eapply wp_free.
    { st_simpl. rewrite Hh2, Hh1, lookup_delete_ne, !lookup_insert_ne by done.
      apply lookup_insert_eq. }
    wp_step. split; [by eapply same_globals_trans|]. right.
    exists p0, h0, q0, p1, h1, t, i, d, l, lq, f.
    split_and!; try done; [|by eapply (fds_kept_after _ s s1 s2)].
    st_simpl. rewrite Hh2, Hh1. unfold trans_conn. by heap_eq.
Qed.

(** What is opened can be closed. *)
Lemma trans_conn_owned t i f lq l b m :
  m !! l = Some (BConn (trans_conn t i f lq)) -> m !! lq = Some b -> l <> lq ->
  own_all m l (trans_conn t i f lq) t [] [].
Proof.
  intros Hl Hq Hne.
  assert (own_conn m l (trans_conn t i f lq)).
  { split_and!; try done. unfold conn_blocks. cbn. repeat constructor; set_solver. }
  assert (conn_queues m l (trans_conn t i f lq) [] []) by
    (split_and!; try done; repeat constructor; apply not_elem_of_nil).
  split; [done|]. split; [done|]. split; [done|]. split; [|by split].
  intros x _. apply not_elem_of_nil.
Qed.

Lemma close_calls_trans_conn s t i f lq :
  close_calls s (trans_conn t i f lq) t [] [] = [C_close f].
Proof. unfold close_calls. by destruct (is_unix t), XTRANS_SEND_FDS. Qed.

Lemma closes_one f f' : closes f' [C_close f] = if f' =? f then 1 else 0.
Proof. cbn. rewrite (Z.eqb_sym f f'). destruct (f' =? f); lia. Qed.

(** Closing right after opening. *)
Definition open_close (p : ptr) : M unit :=
  if bool_decide (p = NULL) then mret tt else ignore (Close p).

Lemma fds_kept_balanced s s' : fds_kept none s s' -> check_open_max = false -> balanced s s'.
Proof.
  intros [H L] Hm f. specialize (H f). specialize (L Hm f). unfold ledger, none in H. lia.
Qed.

Lemma wp_open_close address s p s1 :
  open_outcome address s p s1 -> wp (open_close p) e s1 (fun _ s' =>
    heap s' = heap s /\ same_globals s s' /\ fds_kept none s s').
Proof.
  intros [Hg [(-> & Hh & Hb)|(p0 & h0 & q0 & p1 & h1 & t & i & d & l & lq & f & _ & _ & _ & _ &
    -> & Hne & Hl & Hlq & _ & Hh & Hb)]].
  { unfold open_close. wp_step. by apply wp_ret. }
  unfold open_close. wp_step. apply wp_ignore. eapply wp_mono.
  - apply (wp_Close l (trans_conn t i f lq) t [] []).
    eapply (trans_conn_owned t i f lq l (BBytes (cut_catalogue q0 ++ [0]))); [| |done].
    + rewrite Hh. apply lookup_insert_eq.
    + rewrite Hh, lookup_insert_ne by done. apply lookup_insert_eq.
  - intros _ s' (Hg' & Hr & Hf). rewrite close_calls_trans_conn in Hr. split_and!.
    + apply map_eq. intros x. rewrite Hf, Hh. unfold conn_blocks, conn_locs. cbn.
      case_decide as Hin; [set_unfold; naive_solver|].
      rewrite !lookup_insert_ne; [done | set_solver | set_solver].
    + by eapply same_globals_trans.
    + destruct Hr as (new & Ht & Hc). unfold calls in Hc.
      assert (Hn : Forall (fun ev : event => no_limit ev.1 = true) new).
      { apply (Forall_fmap fst (fun c => no_limit c = true)), Forall_reverse. rewrite Hc.
        by repeat constructor. }
      assert (Hl' : forall f', lost f' (trace s') = lost f' (trace s1))
        by (intros f'; rewrite Ht; by apply lost_app).
      destruct Hb as [Hb1 Hb2]. split; [|intros Hm f'; by rewrite Hl', Hb2].
      intros f'. specialize (Hb1 f'). revert Hb1. unfold ledger, just, none.
      assert (Hr : ran s1 s' [C_close f]) by by exists new.
      rewrite Hl', (ran_closes _ _ _ f' Hr), closes_one by by repeat constructor. lia.
Qed.

(** *** Reopening *)

(** The connection over the descriptor [f], with three copies of the port text of its own. *)
Definition reopened_conn (t : transport) (i f : Z) (port : bytes) (la lp lq : positive)
    : conninfo :=
  let len := strlen port + 3 in
  ConnInfo (Some t) i NULL (Z.lor TRANS_LOCAL TRANS_NOUNLINK) f (At lq 0) AF_UNIX
    (At la 0) len (At lp 0) len NULL NULL.

Definition reopen_outcome (id f : Z) (port : bytes) (s : state) (p : ptr) (s' : state) : Prop :=
  same_globals s s' /\ balanced s s' /\
  ((p = NULL /\ heap s' = heap s) \/
   exists t i d l la lp lq, transport_of_id Xtransports id = Some t /\
     dev_named i (TransName t) d /\ p = At l 0 /\ NoDup [l; la; lp; lq] /\
     (forall x, x ∈ [l; la; lp; lq] -> heap s !! x = None) /\
     heap s' = <[l := BConn (reopened_conn t i f port la lp lq)]>
       (<[lp := BBytes (reopen_addr port)]> (<[la := BBytes (reopen_addr port)]>
         (<[lq := BBytes (port ++ [0])]> (heap s))))).

Lemma wp_det {A} (m : M A) s s1 (P : state -> Prop) :
  wp m e s (fun _ s' => s1 = s') -> wp m e s (fun _ s' => P s') -> P s1.
Proof. unfold wp. destruct (m e s); [by intros -> | done]. Qed.

Lemma wp_Reopen id f port s :
  cstring port -> strlen port <= 13 ->
  wp (ReopenCOTSServer id f (Some port)) e s (reopen_outcome id f port s).
Proof.
  intros Hc Hlen. unfold ReopenCOTSServer, Reopen.
  destruct (transport_of_id Xtransports id) as [t|] eqn:Ht.
  2: { apply wp_ret. split_and!; try done. by left. }
  change (XTRANS_OPEN_COTS_SERVER =? XTRANS_OPEN_COTS_SERVER) with true. cbn iota.
  assert (xt_ReopenCOTSServer (funcs t) = SocketReopenCOTSServer t) as -> by by destruct t.
  do 3 wp_step.
  { wp_steps. split_and!; [done | intros f'; balance | by left]. }
  wp_step. apply wp_bind. eapply wp_mono; [by apply wp_SocketReopenCOTSServer|].
  intros p s1 [[-> (Hh & Hg & Hb)]|(i & d & s2 & Hd & Hr & Hset)].
  - do 2 wp_step. eapply wp_free; [rewrite Hh; apply lookup_insert_eq|]. wp_step.
    split_and!; [exact Hg | | left; split; [done|]].
    + intros f'. st_simpl. rewrite Hb. balance.
    + st_simpl. rewrite Hh. cbn [heap]. by rewrite delete_insert_id.
  - destruct Hr as (l' & la & lp & -> & H1 & H2 & H3 & Hnd & Hg & Hb & Hh).
    cbn [heap] in H1, H2, H3. apply lookup_insert_None in H1 as [H1 N1].
    apply lookup_insert_None in H2 as [H2 N2]. apply lookup_insert_None in H3 as [H3 N3].
    assert (l' <> la /\ l' <> lp /\ la <> lp) as (? & ? & ?) by
      (apply NoDup_cons in Hnd as [M1 Hnd]; apply NoDup_cons in Hnd as [M2 _]; set_solver).
    assert (Hl2 : heap s2 !! l' = Some (BConn (ConnInfo None 0 NULL
      (Z.lor TRANS_LOCAL TRANS_NOUNLINK) f (reopen_port la port) AF_UNIX (At la 0)
      (strlen port + 3) (At lp 0) (strlen port + 3) NULL NULL)))
      by (rewrite Hh, !lookup_insert_ne by done; apply lookup_insert_eq).
    assert (Hs1 : s1 = upd_heap (<[l' := BConn (ConnInfo None i NULL
      (Z.lor TRANS_LOCAL TRANS_NOUNLINK) f (reopen_port la port) AF_UNIX (At la 0)
      (strlen port + 3) (At lp 0) (strlen port + 3) NULL NULL)]> (heap s2)) s2).
    { eapply (wp_det _ _ _ (fun s3 => s3 = _)); [exact Hset|].
      eapply wp_set; [exact Hl2|]. done. }
    subst s1. clear Hset. wp_steps. split_and!; [exact Hg | |].
    + intros f'. st_simpl. rewrite Hb. balance.
    + right. exists t, i, d, l', la, lp, l. split_and!; try done.
      * repeat constructor; set_solver.
      * intros x Hx. set_unfold. naive_solver.
      * st_simpl. rewrite Hh. cbn [heap]. unfold reopened_conn. by heap_eq.
Qed.

Lemma length_reopen_addr_le port : (0 + 3 <= length (reopen_addr port))%nat.
Proof. rewrite length_reopen_addr. unfold strlen. lia. Qed.

Lemma reopened_conn_owned t i f port l la lp lq m m' :
  NoDup [l; la; lp; lq] ->
  m' = <[l := BConn (reopened_conn t i f port la lp lq)]>
       (<[lp := BBytes (reopen_addr port)]> (<[la := BBytes (reopen_addr port)]>
         (<[lq := BBytes (port ++ [0])]> m))) ->
  own_all m' l (reopened_conn t i f port la lp lq) t [] [].
Proof.
  intros Hnd ->.
  assert (l <> la /\ l <> lp /\ l <> lq /\ la <> lp /\ la <> lq /\ lp <> lq)
    as (? & ? & ? & ? & ? & ?).
  { apply NoDup_cons in Hnd as [M1 Hnd]. apply NoDup_cons in Hnd as [M2 Hnd].
    apply NoDup_cons in Hnd as [M3 _]. set_solver. }
  match goal with |- own_all ?m _ ?c _ _ _ => set (h := m); set (k := c) end.
  assert (Hl : h !! l = Some (BConn k)) by apply lookup_insert_eq.
  assert (Hp : h !! lp = Some (BBytes (reopen_addr port)))
    by (unfold h; rewrite lookup_insert_ne by done; apply lookup_insert_eq).
  assert (Ha : h !! la = Some (BBytes (reopen_addr port)))
    by (unfold h; rewrite !lookup_insert_ne by done; apply lookup_insert_eq).
  assert (Hq : h !! lq = Some (BBytes (port ++ [0])))
    by (unfold h; rewrite !lookup_insert_ne by done; apply lookup_insert_eq).
  clearbody h.
  assert (own_conn h l k).
  { split_and!; try done. unfold conn_blocks. cbn. repeat constructor; set_solver. }
  assert (conn_queues h l k [] []) by
    (split_and!; try done; repeat constructor; apply not_elem_of_nil).
  split; [done|]. split; [done|]. split; [done|]. split; [intros x _; apply not_elem_of_nil|].
  split; [|by split]. intros _. split; [set_solver|]. exists (reopen_addr port).
  split; [done|]. split; [apply length_reopen_addr_le | done].
Qed.

Lemma close_calls_reopened s t i f port la lp lq :
  close_calls s (reopened_conn t i f port la lp lq) t [] [] = [C_close f].
Proof.
  unfold close_calls. destruct (is_unix t); [|done].
  assert (unlink_path s (reopened_conn t i f port la lp lq) = None) as ->.
  { unfold unlink_path. cbn. repeat case_match; try done.
    assert (has (Z.lor TRANS_LOCAL TRANS_NOUNLINK) TRANS_NOUNLINK = true) as Hn by done.
    cbn in *. repeat match goal with H : _ && _ = true |- _ => apply andb_true_iff in H as [H ?] end.
    done. }
  by destruct XTRANS_SEND_FDS.
Qed.

(** Closing after reopening leaves nothing but [f] closed. *)
Lemma wp_reopen_close id f port s p s1 :
  reopen_outcome id f port s p s1 ->
  wp (open_close p) e s1 (fun _ s' => heap s' = heap s /\ same_globals s s' /\
    forall f', fd_balance f' (trace s') = fd_balance f' (trace s) -
      (if bool_decide (p = NULL) then 0 else if f' =? f then 1 else 0)).
Proof.
  intros (Hg & Hb & [[-> Hh]|(t & i & d & l & la & lp & lq & _ & _ & -> & Hnd & Hfr & Hh)]).
  { unfold open_close. wp_step. wp_step. split_and!; [done | done |]. intros f'.
    rewrite Hb. lia. }
  unfold open_close. wp_step. apply wp_ignore. eapply wp_mono.
  - apply (wp_Close l (reopened_conn t i f port la lp lq) t [] []).
    by eapply reopened_conn_owned.
  - intros _ s' (Hg' & Hr & Hf). rewrite close_calls_reopened in Hr. split_and!.
    + apply map_eq. intros x. rewrite Hf, Hh. unfold conn_blocks, conn_locs. cbn.
      case_decide as Hin; [symmetry; apply Hfr; set_solver|].
      rewrite !lookup_insert_ne by set_solver. done.
    + by eapply same_globals_trans.
    + intros f'. rewrite (ran_closes _ _ _ f' Hr) by by repeat constructor.
      rewrite closes_one, Hb. lia.
Qed.

(** *** Connecting without a port *)

Lemma wp_Connect_no_port c address p h q s :
  mallocs e -> split_address address = Some (p, h, q) -> cut_catalogue q = [] ->
  wp (Connect c address) e s (fun r s' => r = -1 /\ same_globals s s' /\ balanced s s' /\
    exists l, heap s !! l = None /\ heap s' = <[l := BBytes [0]]> (heap s)).
Proof.
  intros Hm Hs Hq. unfold Connect. apply wp_bind. eapply wp_mono.
  { apply wp_and; [apply wp_ParseAddress | apply (wp_ParseAddress_some e); [done | by rewrite Hs]].
    intros a ->. apply Hm. }
  intros r s1 ((Hg & Hb & new & _ & _ & Hr) & Hsome). destruct r as [[[lp0 lh0] lq0]|]; [|done].
  destruct Hr as (p2 & h2 & q2 & p' & h' & Hs2 & _ & lp & lh & lq & [= -> -> ->] & Hnd &
    H1 & H2 & H3 & Hh).
  rewrite Hs in Hs2. injection Hs2 as <- <- <-. rewrite Hq in Hh.
  assert (lp <> lh /\ lp <> lq /\ lh <> lq) as (? & ? & ?) by
    (apply NoDup_cons in Hnd as [Hn1 Hnd]; apply NoDup_cons in Hnd as [Hn2 _]; set_solver).
  apply wp_bind. eapply wp_load_str; [rewrite Hh; apply lookup_insert_eq | done |]. cbn.
  wp_step. eapply wp_free; [rewrite Hh, !lookup_insert_ne by done; apply lookup_insert_eq|].
  wp_step. eapply wp_free.
  { st_simpl. rewrite Hh, lookup_delete_ne, lookup_insert_ne by done. apply lookup_insert_eq. }
  wp_step. split_and!; [done | done | done |]. exists lq. split; [done|]. st_simpl.
  rewrite Hh. by heap_eq.
Qed.

(** ** The properties *)

(** Open ends without undefined behaviour, given memory for its copy of the address.
    It returns NULL with the heap as it was and every descriptor it opened closed, but for
    those lost at the limit of open files, or one
    connection in two new blocks (itself and its port) over one new descriptor, of the
    transport that the protocol of the address names. *)
Theorem Open_spec type address s :
  (forall a, a = e (trace s) (C_malloc (strlen address + 1)) -> 0 <= a_ret a) ->
  wp (Open type address) e s (open_outcome address s).
Proof. apply wp_Open. Qed.

(** Close makes exactly the calls of closing (the descriptors still queued, the
    connection's own, and the unlink of a listener's path), and frees exactly the blocks
    that the connection owns, each of them once. *)
Theorem Close_spec l c t rs ss s :
  own_all (heap s) l c t rs ss ->
  wp (Close (At l 0)) e s (fun r s' => same_globals s s' /\
    ran s s' (close_calls s c t rs ss) /\
    freed (heap s) (heap s') (conn_blocks l c ++ conn_locs l rs ss)).
Proof. apply wp_Close. Qed.

(** C18: opening a connection and closing it leaves the heap and the static data as they were.
    Every descriptor opened in between is closed, except those that [lost] counts: where the
    build checks the limit of open files, SocketOpen refuses a socket not below the limit
    without closing it.  In the builds without that check the balance of every descriptor is
    what it was. *)
Theorem Open_Close type address s :
  (forall a, a = e (trace s) (C_malloc (strlen address + 1)) -> 0 <= a_ret a) ->
  wp (p ← Open type address; open_close p) e s (fun _ s' =>
    heap s' = heap s /\ same_globals s s' /\
    (forall f, fd_balance f (trace s') - lost f (trace s') =
               fd_balance f (trace s) - lost f (trace s)) /\
    (check_open_max = false -> forall f, fd_balance f (trace s') = fd_balance f (trace s))).
Proof.
  intros Hm. apply wp_bind. eapply wp_mono; [by apply wp_Open|]. intros p s1 Ho.
  eapply wp_mono; [by eapply wp_open_close|]. intros _ s' (Hh & Hg & Hk).
  split_and!; [done | done | | intros Hmax; by apply fds_kept_balanced].
  intros f. destruct Hk as [Hk _]. specialize (Hk f). unfold ledger, none in Hk. lia.
Qed.

(** Reopening a descriptor as a server connection and closing that leaves the heap as it
    was and the descriptor closed once, when it succeeded: the port Reopen stores replaces
    the one that points into the address, which could not be freed. *)
Theorem Reopen_Close id f port s :
  cstring port -> strlen port <= 13 ->
  wp (p ← ReopenCOTSServer id f (Some port); u ← open_close p; mret (p, u)) e s
    (fun '(p, _) s' => heap s' = heap s /\ same_globals s s' /\
      forall f', fd_balance f' (trace s') = fd_balance f' (trace s) -
        (if bool_decide (p = NULL) then 0 else if f' =? f then 1 else 0)).
Proof.
  intros Hc Hl. apply wp_bind. eapply wp_mono; [by apply wp_Reopen|]. intros p s1 Ho.
  apply wp_bind. eapply wp_mono; [by eapply wp_reopen_close|]. intros u s2 H2.
  by apply wp_ret.
Qed.

(** Connect to an address with an empty port fails, and leaks the string of that port:
    one block more is allocated than before. *)
Theorem Connect_leaks_port c address p h q s :
  mallocs e -> split_address address = Some (p, h, q) -> cut_catalogue q = [] ->
  wp (Connect c address) e s (fun r s' => r = -1 /\ same_globals s s' /\ balanced s s' /\
    exists l, heap s !! l = None /\ heap s' = <[l := BBytes [0]]> (heap s)).
Proof. apply wp_Connect_no_port. Qed.
End props.

(** ** Witnesses *)

Lemma Open_spec_witness :
  wp (Open (cfg := linux X11_t) XTRANS_OPEN_COTS_CLIENT (str "tcp/host:0"))
    (env_socks 5 [] [] 0) state0 (open_outcome (cfg := linux X11_t) (env_socks 5 [] [] 0) (str "tcp/host:0") state0).
Proof. apply (Open_spec (cfg := linux X11_t)). by intros a ->. Defined.

(** A TCP connection over descriptor 5 with both addresses and a port. *)
Definition conn_tcp : conninfo :=
  ConnInfo (Some SocketTCPFuncs) 0 NULL 0 5 (At 4 0) AF_INET (At 2 0) 16 (At 3 0) 16 NULL NULL.
Definition state_tcp : state :=
  State [] (<[1%positive := BConn conn_tcp]> (<[2%positive := BBytes (replicate 16 0)]>
    (<[3%positive := BBytes (replicate 16 0)]> (<[4%positive := BBytes [48; 0]]> ∅))))
    5 0 (fun _ => 0) None.

Lemma Close_spec_witness :
  wp (Close (cfg := linux X11_t) (At 1 0)) env0 state_tcp (fun r s' =>
    same_globals state_tcp s' /\
    ran state_tcp s' (close_calls (cfg := linux X11_t) state_tcp conn_tcp SocketTCPFuncs [] []) /\
    freed (heap state_tcp) (heap s')
      (conn_blocks 1 conn_tcp ++ conn_locs 1 [] [])).
Proof.
  apply (Close_spec (cfg := linux X11_t)).
  split; [|split; [queue_solve | split; [done | split; [|split; [|by split]]]]].
  - split; [by vm_compute|].
    do 3 (split; [split; [done | eexists; by vm_compute]|]).
    apply (bool_decide_unpack _). by vm_compute.
  - intros x _. apply not_elem_of_nil.
  - intros _. split; [apply (bool_decide_unpack _); by vm_compute|].
    exists (replicate 16 0). split; [by vm_compute | apply (bool_decide_unpack _); by vm_compute].
Defined.

Lemma Open_Close_witness :
  wp (p ← Open (cfg := linux X11_t) XTRANS_OPEN_COTS_CLIENT (str "tcp/host:0");
      open_close (cfg := linux X11_t) p)
    (env_socks 5 [] [] 0) state0 (fun _ s' =>
    heap s' = ∅ /\ same_globals state0 s' /\
    (forall f, fd_balance f (trace s') - lost f (trace s') = 0) /\
    (check_open_max (cfg := linux X11_t) = false -> forall f, fd_balance f (trace s') = 0)).
Proof. apply (Open_Close (cfg := linux X11_t)). by intros a ->. Defined.

Lemma Reopen_Close_witness :
  wp (p ← ReopenCOTSServer (cfg := linux X11_t) TRANS_SOCKET_UNIX_INDEX 7 (Some (str "0"));
      u ← open_close (cfg := linux X11_t) p; mret (p, u)) env0 state0
    (fun '(p, _) s' => heap s' = heap state0 /\ same_globals state0 s' /\
      forall f', fd_balance f' (trace s') = fd_balance f' (trace state0) -
        (if bool_decide (p = NULL) then 0 else if f' =? 7 then 1 else 0)).
Proof.
  apply (Reopen_Close (cfg := linux X11_t)); [by apply (bool_decide_unpack _) | done].
Defined.

Lemma Connect_leaks_port_witness :
  wp (Connect (cfg := linux X11_t) (At 1 0) (str "tcp/host:")) env0 state0 (fun r s' =>
    r = -1 /\ same_globals state0 s' /\ balanced state0 s' /\
    exists l, heap state0 !! l = None /\ heap s' = <[l := BBytes [0]]> (heap state0)).
Proof. by apply (Connect_leaks_port (cfg := linux X11_t) _ _ _ (str "tcp") (str "host") []). Defined.
