(* ===== verification/Session.v ===== *)
(** * Sessions: a connection in use, from the first operation to Close

    Sequences of the operations of Xtrans.c on one connection over a UNIX domain socket,
    the only kind that passes file descriptors.  Descriptors come in with data, are handed
    to the connection to be sent, are taken by the client; the account below balances
    after every sequence of operations. *)

From S2P Require Import Prelude CLib Xtransint World Logic FdQueue Tables Util SockOpen SockListen SockConnect SockIO Parse Trans Lifecycle.
Open Scope Z_scope.

Section session.
Context {cfg : Config}.

(** ** Sequences of operations *)

Inductive op :=
  | ORead (size : Z)
  | OReadv (lens : list Z)
  | OWrite (buf : bytes)
  | OWritev (iov : list bytes)
  | OSendFd (fd do_close : Z)
  | ORecvFd
  | ODisconnect.

(** The int that the operation returns. *)
Definition run_op (p : ptr) (o : op) : M Z :=
  match o with
  | ORead size => '(n, _) ← Read p size; mret n
  | OReadv lens => '(n, _) ← Readv p lens; mret n
  | OWrite buf => Write p buf
  | OWritev iov => Writev p iov
  | OSendFd f dc => SendFd p f dc
  | ORecvFd => RecvFd p
  | ODisconnect => Disconnect p
  end.

Fixpoint run_ops (p : ptr) (ops : list op) : M (list Z) :=
  match ops with
  | [] => mret []
  | o :: ops => r ← run_op p o; rs ← run_ops p ops; mret (r :: rs)
  end.

(** Use the connection and close it; the results of the operations. *)
Definition session (p : ptr) (ops : list op) : M (list Z) :=
  rs ← run_ops p ops; Close p;; mret rs.

(** ** The account of a descriptor [f] *)

Definition count (f : Z) (l : list Z) : Z :=
  foldr (fun x n => (if x =? f then 1 else 0) + n) 0 l.

(** The client takes it from the connection; the client hands it over to be closed. *)
Definition taken (f : Z) (o : op) (r : Z) : Z :=
  match o with ORecvFd => if r =? f then 1 else 0 | _ => 0 end.
Definition handed (f : Z) (o : op) : Z :=
  match o with OSendFd g dc => if (g =? f) && negb (dc =? 0) then 1 else 0 | _ => 0 end.

Fixpoint all_taken (f : Z) (ops : list op) (rs : list Z) : Z :=
  match ops, rs with
  | o :: ops, r :: rs => taken f o r + all_taken f ops rs
  | _, _ => 0
  end.
Definition all_handed (f : Z) (ops : list op) : Z :=
  foldr (fun o n => handed f o + n) 0 ops.

(** How many descriptors are queued to be sent at most. *)
Definition sends (o : op) : nat := match o with OSendFd _ _ => 1 | _ => 0 end.
Definition all_sends (ops : list op) : nat := foldr (fun o n => (sends o + n)%nat) 0%nat ops.

(** The queues are to close it. *)
Definition held (f : Z) (rs ss : list cell) : Z :=
  count f (closed_fds true rs) + count f (closed_fds false ss).

(** Closed in the log; delivered by the kernel along with data. *)
Definition closed (f : Z) (tr : log) : Z := closes f (tr.*1).

Fixpoint delivered (e : env) (f : Z) (tr : log) : Z :=
  match tr with
  | [] => 0
  | (c, _) :: tr =>
      match c with
      | C_recvmsg _ _ _ =>
          let a := e tr c in
          if 0 <=? a_ret a then count f (passed_fds (a_cmsgs a)) else 0
      | _ => 0
      end + delivered e f tr
  end.
End session.

(** ** Properties *)

Section props.
Context {cfg : Config} (e : env).

(** *** The account along the log *)

Lemma count_app f l1 l2 : count f (l1 ++ l2) = count f l1 + count f l2.
Proof. unfold count. induction l1 as [|x l1 IH]; cbn [app foldr]; lia. Qed.

Lemma closes_reverse f l : closes f (reverse l) = closes f l.
Proof.
  induction l as [|x l IH]; [done|]. rewrite reverse_cons, closes_app, IH.
  change (x :: l) with ([x] ++ l). rewrite closes_app. lia.
Qed.

Lemma closes_closed f l : closes f (C_close <$> l) = count f l.
Proof. unfold closes, count. induction l as [|x l IH]; [done|]. cbn. by rewrite IH. Qed.

Lemma ran_closed s s' cs f : ran s s' cs -> closed f (trace s') = closed f (trace s) + closes f cs.
Proof.
  intros (new & -> & <-). unfold closed, calls. rewrite fmap_app, closes_app, closes_reverse. lia.
Qed.

(** No descriptor is delivered by calls other than recvmsg. *)
Definition is_recvmsg (c : call) : bool := match c with C_recvmsg _ _ _ => true | _ => false end.

Lemma delivered_app f new tr :
  Forall (fun c => is_recvmsg c = false) (new.*1) ->
  delivered e f (new ++ tr) = delivered e f tr.
Proof.
  induction new as [|[c a] new IH]; intros Hf; [done|]. cbn in Hf.
  apply Forall_cons in Hf as [Hc Hf]. cbn. rewrite IH by done. by destruct c.
Qed.

Lemma ran_delivered s s' cs f :
  ran s s' cs -> Forall (fun c => is_recvmsg c = false) cs ->
  delivered e f (trace s') = delivered e f (trace s).
Proof.
  intros (new & -> & <-) Hf. apply delivered_app. unfold calls in Hf. by rewrite Forall_reverse in Hf.
Qed.

Lemma ran_received s s' g lens n cs f :
  ran s s' (C_recvmsg g lens n :: cs) -> Forall (fun c => is_recvmsg c = false) cs ->
  let a := e (trace s) (C_recvmsg g lens n) in
  delivered e f (trace s') = delivered e f (trace s) +
    (if 0 <=? a_ret a then count f (passed_fds (a_cmsgs a)) else 0).
Proof.
  intros (new & -> & Hc) Hf. unfold calls in Hc.
  assert (new.*1 = reverse cs ++ [C_recvmsg g lens n]) as Hn.
  { rewrite <-(reverse_involutive (new.*1)), Hc. by rewrite reverse_cons. }
  apply fmap_app_inv in Hn as (new1 & new2 & H1 & H2 & ->).
  destruct new2 as [|[c a] [|? ?]]; try discriminate H2. injection H2 as <-.
  rewrite <-app_assoc. rewrite delivered_app by (rewrite <-H1; by apply Forall_reverse).
  cbn [app delivered]. cbv zeta. lia.
Qed.

(** *** One operation *)

(** A connection after an operation on its queues. *)
Lemma own_all_step m m' l c c' t rs ss rs' ss' :
  is_unix t = true -> XTRANS_SEND_FDS = true -> own_all m l c t rs ss ->
  conn_queues m' l c' rs' ss' -> base c' = base c ->
  footprint m m' (conn_locs l rs ss) (conn_locs l rs' ss') -> own_all m' l c' t rs' ss'.
Proof.
  intros Hu Hx (Ho & Hq & Ht & Hdis & Haddr & _) Hq' Hb Hf.
  destruct Ho as (Hl & Ha & Hp & Ho & Hnd). specialize (Haddr Hu).
  assert (addr c' = addr c /\ peeraddr c' = peeraddr c /\ port c' = port c /\
    transptr c' = transptr c /\ flags c' = flags c) as (Ea & Ep & Eo & Et & Efl) by (destruct c, c'; by simplify_eq/=).
  assert (Hne : forall x, x ∈ ptr_loc (addr c) ++ ptr_loc (peeraddr c) ++ ptr_loc (port c) ->
    x ∉ conn_locs l rs ss).
  { intros x Hx'. unfold conn_blocks in Hnd, Hdis. rewrite !app_assoc in Hnd.
    apply NoDup_app in Hnd as (_ & Hd & _). rewrite <-app_assoc in Hd.
    apply not_elem_of_cons. split.
    - intros ->. apply (Hd _ Hx'). by left.
    - apply Hdis. rewrite !elem_of_app in *. naive_solver. }
  assert (Hv : forall p, valid_ptr m p -> (forall x, x ∈ ptr_loc p -> x ∉ conn_locs l rs ss) ->
    valid_ptr m' p /\ forall x, x ∈ ptr_loc p -> x ∉ conn_locs l rs' ss').
  { intros [|x o] Hv Hn; [split; [done | intros x Hx'; by apply not_elem_of_nil in Hx']|].
    destruct Hv as [-> [b Hb']]. destruct (footprint_kept _ _ _ _ x b Hf) as [H1 H2];
      [apply Hn; by left | done|]. split; [split; [done | by eexists]|].
    intros y Hy. apply list_elem_of_singleton in Hy as ->. done. }
  destruct (Hv _ Ha) as [Ha' Ha2]; [intros x Hx'; apply Hne; rewrite !elem_of_app; auto|].
  destruct (Hv _ Hp) as [Hp' Hp2]; [intros x Hx'; apply Hne; rewrite !elem_of_app; auto|].
  destruct (Hv _ Ho) as [Ho' Ho2]; [intros x Hx'; apply Hne; rewrite !elem_of_app; auto|].
  split; [|split; [done|split; [by rewrite Et|split; [|split; [|by rewrite Hu, Hx]]]]].
  - unfold own_conn, conn_blocks. rewrite Ea, Ep, Eo. split; [apply Hq'|]. by split_and!.
  - intros x Hx'. unfold conn_blocks in Hx'. rewrite Ea, Ep, Eo, !elem_of_app in Hx'.
    assert (Hin : forall y, y ∉ conn_locs l rs' ss' -> y ∉ (c_loc <$> rs') ++ (c_loc <$> ss'))
      by (intros y Hy; by apply not_elem_of_cons in Hy as [_ ?]).
    destruct Hx' as [Hx'|[Hx'|[Hx'|Hx']]]; [exact (Hin _ (Ha2 _ Hx')) | exact (Hin _ (Hp2 _ Hx')) | exact (Hin _ (Ho2 _ Hx')) |].
    apply list_elem_of_singleton in Hx' as ->. destruct Hq' as (_ & _ & _ & Hnd').
    by apply NoDup_cons in Hnd' as [? _].
  - intros _. unfold addr_ok in *. rewrite Ea, Efl. destruct (addr c) as [|a o]; [done|].
    split; [apply Ha2; by left|]. destruct Haddr as [Hn (v & Hv' & Hlen)]. exists v.
    split; [|done]. by destruct (footprint_kept _ _ _ _ a _ Hf Hn Hv').
Qed.

(** The queues by their contents. *)
Lemma closed_fds_contents dc cs :
  closed_fds dc cs = (filter (fun x => dc || negb (x.2 =? 0) = true) (contents cs)).*1.
Proof.
  induction cs as [|c cs IH]; [done|]. cbn [closed_fds]. unfold contents. rewrite fmap_cons.
  rewrite filter_cons. cbn [snd]. destruct (dc || negb (c_close c =? 0)) eqn:E;
    [rewrite decide_True by done; by rewrite fmap_cons, IH | by rewrite decide_False by done].
Qed.

Lemma count_closed_app f dc cs cs' l :
  contents cs' = contents cs ++ l ->
  count f (closed_fds dc cs') =
    count f (closed_fds dc cs) + count f ((filter (fun x => dc || negb (x.2 =? 0) = true) l).*1).
Proof. intros H. by rewrite !closed_fds_contents, H, filter_app, fmap_app, count_app. Qed.

(** What [o] does to the connection and to the account of every descriptor. *)
Definition stepped (l : positive) (c : conninfo) (t : transport) (rs ss : list cell) (o : op)
    (s : state) (r : Z) (s' : state) : Prop :=
  exists c' rs' ss',
    same_globals s s' /\ conn_queues (heap s') l c' rs' ss' /\ base c' = base c /\
    footprint (heap s) (heap s') (conn_locs l rs ss) (conn_locs l rs' ss') /\
    (length ss' <= length ss + sends o)%nat /\
    forall f, 0 <= f ->
      closed f (trace s') + taken f o r + held f rs' ss' =
      closed f (trace s) + held f rs ss + (delivered e f (trace s') - delivered e f (trace s)) +
      handed f o.

(** Operations that make one call and leave the memory alone. *)
Lemma stepped_logged l c t rs ss o s r k a :
  conn_queues (heap s) l c rs ss -> is_recvmsg k = false ->
  (forall f, closes f [k] = 0 /\ taken f o r = 0 /\ handed f o = 0) ->
  stepped l c t rs ss o s r (logged k a s).
Proof.
  intros Hq Hk Ho. exists c, rs, ss. split_and!; [done | done | done | apply footprint_refl | lia |].
  intros f _. destruct (Ho f) as (H1 & -> & ->).
  assert (Hr : ran s (logged k a s) [k]) by ran_solve.
  rewrite (ran_closed _ _ _ f Hr), (ran_delivered _ _ _ f Hr) by by constructor. lia.
Qed.

Lemma filter_always {A} (P : A -> Prop) `{forall x, Decision (P x)} (l : list A) :
  (forall x, P x) -> filter P l = l.
Proof.
  intros HP. induction l as [|x l IH]; [done|]. by rewrite filter_cons, decide_True, IH by done.
Qed.

(** Received descriptors: queued, or closed. *)
Lemma count_outcome f (o : list (Z * bool)) :
  count f ((outcome_queued o).*1) + closes f (outcome_calls o) = count f (o.*1).
Proof.
  induction o as [|[x b] o IH]; [done|]. rewrite fmap_cons.
  change (outcome_queued ((x, b) :: o)) with ((if b then [(x, 0)] else []) ++ outcome_queued o).
  change (outcome_calls ((x, b) :: o))
    with ((C_malloc sizeof_conn_fd :: if b then [] else [C_close x]) ++ outcome_calls o).
  rewrite fmap_app, !count_app, closes_app. cbn [fst].
  change (x :: o.*1) with ([x] ++ o.*1). rewrite count_app, <-IH. destruct b; cbn; lia.
Qed.

Lemma stepped_received l c t rs ss o lens s n data s' :
  is_unix t = true -> (forall f, taken f o n = 0 /\ handed f o = 0) ->
  received e l c rs ss lens s n data s' -> stepped l c t rs ss o s n s'.
Proof.
  intros Hu Hop (Hn & _ & Hg & rs' & oc & Hoc & Hc & Hr & c' & Hq' & Hb & Hf).
  exists c', rs', ss. split_and!; [done..| lia |]. intros f _. destruct (Hop f) as [-> ->].
  assert (Hpl : Forall (fun c => is_recvmsg c = false) (outcome_calls oc)).
  { apply Forall_forall. intros k Hk. unfold outcome_calls in Hk.
    apply list_elem_of_In, in_flat_map in Hk as ([x b] & _ & Hk). destruct b; cbn in Hk; naive_solver. }
  rewrite (ran_closed _ _ _ f Hr), (ran_received _ _ _ _ _ _ f Hr Hpl). cbv zeta.
  unfold held. rewrite (count_closed_app f true rs rs' _ Hc), filter_always, <-Hn by done.
  pose proof (count_outcome f oc) as Ho. rewrite Hoc in Ho.
  assert (closes f (C_recvmsg (fd c) lens (CMSG_LEN (MAX_FDS * sizeof_int)) :: outcome_calls oc) =
    closes f (outcome_calls oc)) as -> by done.
  destruct (0 <=? n); change (count f []) with 0 in Ho; lia.
Qed.

(** Emptying the queue of sent descriptors. *)
Lemma del_cells_footprint m l c rs ss :
  conn_queues m l c rs ss ->
  footprint m (<[l := BConn (set_send_fds NULL c)]> (del_cells ss m)) (conn_locs l rs ss)
    (conn_locs l rs []).
Proof.
  intros Hq. destruct (conn_queues_notin _ _ _ _ _ Hq) as [_ Hls]. split_and!; intros x H1 H2.
  - unfold conn_locs in H1. rewrite not_elem_of_cons, not_elem_of_app in H1.
    destruct H1 as (? & _ & ?). rewrite lookup_insert_ne by done. by apply del_cells_lookup.
  - unfold conn_locs in H1, H2. cbn [fmap list_fmap] in H2. rewrite app_nil_r in H2.
    assert (x ∈ c_loc <$> ss /\ x <> l) as [Hin Hne] by set_solver.
    rewrite lookup_insert_ne by done. by apply del_cells_lookup_in.
  - exfalso. apply H1. unfold conn_locs in *. set_solver.
Qed.

Lemma stepped_written l c t rs ss o iov s n s' :
  conn_queues (heap s) l c rs ss -> (forall f, taken f o n = 0 /\ handed f o = 0) ->
  written e l c rs ss iov s n s' -> stepped l c t rs ss o s n s'.
Proof.
  intros Hq Hop (Hn & Hg & Hr). destruct (0 <? n).
  - destruct Hr as (Hr & Hh & Hq'). exists (set_send_fds NULL c), rs, [].
    split_and!; [done | done | by destruct c | rewrite Hh; by apply del_cells_footprint | cbn; lia |].
    intros f _. destruct (Hop f) as [-> ->]. rewrite (ran_closed _ _ _ f Hr).
    rewrite (ran_delivered _ _ _ f Hr).
    2: { constructor; [done|]. apply Forall_fmap, Forall_true. done. }
    change (C_sendmsg ?a ?b ?d :: ?l) with ([C_sendmsg a b d] ++ l).
    rewrite closes_app, closes_closed. unfold held. cbn [closed_fds]. cbn. lia.
  - destruct Hr as (Hr & Hh). exists c, rs, ss. rewrite Hh.
    split_and!; [done | done | done | apply footprint_refl | lia |].
    intros f _. destruct (Hop f) as [-> ->].
    rewrite (ran_closed _ _ _ f Hr), (ran_delivered _ _ _ f Hr) by by constructor. cbn. lia.
Qed.

(** Writing sends the queue, if there is one. *)
Lemma wp_writev_step l c t rs ss o iov s :
  XTRANS_SEND_FDS = true -> conn_queues (heap s) l c rs ss -> Z.of_nat (length ss) <= MAX_FDS ->
  (forall f n, taken f o n = 0 /\ handed f o = 0) ->
  wp (SocketWritev (At l 0) iov) e s (stepped l c t rs ss o s).
Proof.
  intros Hx Hq Hlen Hop. destruct ss as [|x ss].
  - pose proof Hq as (Hl & _ & [Hs _] & _). unfold SocketWritev. do 2 wp_step.
    rewrite Hx, (bool_decide_true _ Hs). cbn [andb negb]. wp_step. apply stepped_logged; [done | done|].
    intros f. by destruct (Hop f (a_ret a)).
  - eapply wp_mono; [by apply wp_SocketWritev_fds|]. intros n s' Hw.
    eapply stepped_written; [exact Hq | auto | exact Hw].
Qed.

Lemma wp_write_step l c t rs ss buf s :
  XTRANS_SEND_FDS = true -> conn_queues (heap s) l c rs ss -> Z.of_nat (length ss) <= MAX_FDS ->
  wp (SocketWrite (At l 0) buf) e s (stepped l c t rs ss (OWrite buf) s).
Proof.
  intros Hx Hq Hlen. pose proof Hq as (Hl & _ & [Hs _] & _). unfold SocketWrite. do 2 wp_step.
  rewrite Hx. destruct (bool_decide_reflect (send_fds c = NULL)) as [Hn|Hn]; cbn [andb negb].
  - wp_step. by apply stepped_logged.
  - by apply wp_writev_step.
Qed.

Lemma wp_send_step l c t rs ss g dc s :
  mallocs e -> conn_queues (heap s) l c rs ss ->
  wp (SocketSendFd (At l 0) g dc) e s (stepped l c t rs ss (OSendFd g dc) s).
Proof.
  intros Hm Hq. apply wp_bind. eapply wp_append_send; [exact Hq | |].
  - intros a a' -> Ha. specialize (Hm (trace s) sizeof_conn_fd). lia.
  - intros a x m' nx p' Ha Hx Hq' Hf. apply wp_ret. set (s' := State _ _ _ _ _ _).
    exists (set_send_fds p' c), rs, (ss ++ [Cell x g dc]).
    split_and!; [done | done | by destruct c | done | rewrite length_app; cbn; lia |].
    intros f _. assert (Hr : ran s s' [C_malloc sizeof_conn_fd]) by ran_solve.
    rewrite (ran_closed _ _ _ f Hr), (ran_delivered _ _ _ f Hr) by by constructor. unfold held.
    rewrite (count_closed_app f false ss (ss ++ [Cell x g dc]) [(g, dc)])
      by (unfold contents; by rewrite fmap_app).
    rewrite filter_cons. cbn [taken handed fst snd orb]. destruct (negb (dc =? 0));
      [rewrite decide_True by done | rewrite decide_False by done]; cbn; destruct (g =? f); cbn; lia.
Qed.

Lemma wp_recv_step l c t rs ss s :
  conn_queues (heap s) l c rs ss ->
  wp (SocketRecvFd (At l 0)) e s (stepped l c t rs ss ORecvFd s).
Proof.
  intros Hq. pose proof Hq as (Hl & Hr & _). destruct rs as [|x rs].
  - apply wp_removeFd_nil; [simpl; rewrite Hl; f_equal; apply Hr|].
    exists c, [], ss. split_and!; [done | done | done | apply footprint_refl | lia |].
    intros f Hf. cbn [taken handed]. destruct (Z.eqb_spec (-1) f); lia.
  - eapply wp_remove_recv; [exact Hq|]. intros m' p' Hq' _ Hf.
    exists (set_recv_fds p' c), rs, ss. split_and!; [done | done | by destruct c | done | lia |].
    intros f _. st_simpl. unfold held.
    change (closed_fds true (x :: rs)) with ([c_fd x] ++ closed_fds true rs).
    rewrite count_app. cbn [taken handed count foldr]. lia.
Qed.

Lemma wp_run_op l c t rs ss o s :
  is_unix t = true -> XTRANS_SEND_FDS = true -> mallocs e -> own_all (heap s) l c t rs ss ->
  Z.of_nat (length ss) <= MAX_FDS ->
  wp (run_op (At l 0) o) e s (stepped l c t rs ss o s).
Proof.
  intros Hu Hx Hm Hown Hlen. pose proof Hown as (_ & Hq & Ht & _). pose proof Hq as (Hl & _).
  assert (Hfuncs : funcs t = unix_funcs t) by by destruct t.
  destruct o; cbn [run_op]; [do 2 apply wp_bind | do 2 apply wp_bind | apply wp_bind ..];
    eapply wp_conn_funcs; try done; rewrite Hfuncs;
    cbn [unix_funcs xt_Read xt_Readv xt_Write xt_Writev xt_SendFd xt_RecvFd xt_Disconnect].
  - unfold SocketRead. rewrite Hx. eapply wp_mono; [by apply wp_receive|]. intros [n data] s1 Hr.
    apply wp_ret. by eapply stepped_received.
  - unfold SocketReadv. rewrite Hx. eapply wp_mono; [by apply wp_receive|]. intros [n data] s1 Hr.
    apply wp_ret. by eapply stepped_received.
  - by apply wp_write_step.
  - by apply wp_writev_step.
  - by apply wp_send_step.
  - by apply wp_recv_step.
  - unfold SocketDisconnect. do 3 wp_step. by apply stepped_logged.
Qed.

(** *** Sequences of operations *)

(** The account over all operations; the connection still owns what it should. *)
Definition ran_ops (l : positive) (c : conninfo) (t : transport) (rs ss : list cell)
    (ops : list op) (s : state) (out : list Z) (s' : state) : Prop :=
  exists c' rs' ss',
    length out = length ops /\ same_globals s s' /\ own_all (heap s') l c' t rs' ss' /\
    base c' = base c /\
    footprint (heap s) (heap s') (conn_locs l rs ss) (conn_locs l rs' ss') /\
    forall f, 0 <= f ->
      closed f (trace s') + all_taken f ops out + held f rs' ss' =
      closed f (trace s) + held f rs ss + (delivered e f (trace s') - delivered e f (trace s)) +
      all_handed f ops.

Lemma wp_run_ops l c t rs ss ops s :
  is_unix t = true -> XTRANS_SEND_FDS = true -> mallocs e -> own_all (heap s) l c t rs ss ->
  Z.of_nat (length ss + all_sends ops) <= MAX_FDS ->
  wp (run_ops (At l 0) ops) e s (ran_ops l c t rs ss ops s).
Proof.
  intros Hu Hx Hm. revert c rs ss s. induction ops as [|o ops IH]; intros c rs ss s Hown Hlen.
  { apply wp_ret. exists c, rs, ss. split_and!; [done | done | done | done | apply footprint_refl|].
    intros f _. cbn. lia. }
  cbn [all_sends foldr] in Hlen. fold (all_sends ops) in Hlen. cbn [run_ops]. apply wp_bind.
  eapply wp_mono; [apply wp_run_op; try done; lia|].
  intros r s1 (c1 & rs1 & ss1 & Hg1 & Hq1 & Hb1 & Hf1 & Hl1 & Ha1).
  assert (Hown1 : own_all (heap s1) l c1 t rs1 ss1) by by eapply own_all_step.
  apply wp_bind. eapply wp_mono; [apply (IH c1 rs1 ss1 s1 Hown1); lia|].
  intros out s2 (c2 & rs2 & ss2 & Hn2 & Hg2 & Hown2 & Hb2 & Hf2 & Ha2). apply wp_ret.
  exists c2, rs2, ss2. split_and!; [cbn; by rewrite Hn2 | by eapply same_globals_trans | done |
    by rewrite Hb2 | by eapply footprint_trans |].
  intros f Hf. specialize (Ha1 f Hf). specialize (Ha2 f Hf). cbn [all_taken all_handed foldr].
  fold (all_handed f ops). lia.
Qed.

Lemma closes_close_calls s c t rs ss f :
  is_unix t = true -> XTRANS_SEND_FDS = true ->
  closes f (close_calls s c t rs ss) = held f rs ss + (if fd c =? f then 1 else 0) /\
  Forall (fun c => is_recvmsg c = false) (close_calls s c t rs ss).
Proof.
  intros Hu Hx. unfold close_calls. rewrite Hu, Hx. split.
  - rewrite !closes_app, closes_closed, count_app. unfold held.
    assert (forall o, closes f (option_list (C_unlink <$> o)) = 0) as -> by by intros [].
    cbn. lia.
  - apply Forall_app. split; [by apply Forall_fmap, Forall_true|]. constructor; [done|].
    destruct (unlink_path s c); by repeat constructor.
Qed.

(** C3: any use of a connection over a UNIX domain socket ends well.  Whatever sequence of
    reads, writes, descriptors sent and taken a client makes on a connection that owns its
    blocks, and whatever the kernel answers, no operation leaves the behaviour undefined,
    Close included; afterwards exactly the blocks of the connection are gone from the heap;
    and every descriptor balances: those the connection had, those the kernel delivered and
    those the client handed over to be closed have each been closed once or been taken by
    the client.  Memory for the cells of the queues is assumed, and that the queue to send
    stays within MAX_FDS. *)
Theorem session_spec l c t rs ss ops s :
  is_unix t = true -> XTRANS_SEND_FDS = true -> mallocs e -> own_all (heap s) l c t rs ss ->
  Z.of_nat (length ss + all_sends ops) <= MAX_FDS ->
  wp (session (At l 0) ops) e s (fun out s' =>
    length out = length ops /\ same_globals s s' /\
    freed (heap s) (heap s') (conn_blocks l c ++ conn_locs l rs ss) /\
    forall f, 0 <= f ->
      closed f (trace s') + all_taken f ops out =
      closed f (trace s) + (if fd c =? f then 1 else 0) + held f rs ss +
      (delivered e f (trace s') - delivered e f (trace s)) + all_handed f ops).
Proof.
  intros Hu Hx Hm Hown Hlen. apply wp_bind. eapply wp_mono; [by apply wp_run_ops|].
  intros out s1 (c1 & rs1 & ss1 & Hn & Hg & Hown1 & Hb & Hf & Ha). apply wp_bind.
  eapply wp_mono; [by apply wp_Close|]. intros r s2 (Hg2 & Hr2 & Hfr). apply wp_ret.
  assert (conn_blocks l c1 = conn_blocks l c /\ fd c1 = fd c) as [Eb Efd]
    by (destruct c, c1; by simplify_eq/=).
  destruct (closes_close_calls s1 c1 t rs1 ss1 0 Hu Hx) as [_ Hpl].
  split_and!; [done | by eapply same_globals_trans | |].
  - rewrite Eb in Hfr. destruct Hf as (F1 & F2 & F3). intros x. rewrite Hfr.
    pose proof (F1 x) as F1'. pose proof (F2 x) as F2'. pose proof (F3 x) as F3'.
    destruct (decide (x ∈ conn_blocks l c ++ conn_locs l rs ss)) as [Hin|Hin],
      (decide (x ∈ conn_blocks l c ++ conn_locs l rs1 ss1)) as [Hin1|Hin1]; rewrite elem_of_app in *.
    + done.
    + apply F2'; naive_solver.
    + symmetry. apply F3'; naive_solver.
    + apply F1'; naive_solver.
  - intros f Hf0. specialize (Ha f Hf0). destruct (closes_close_calls s1 c1 t rs1 ss1 f Hu Hx) as [Hc _].
    rewrite (ran_closed _ _ _ f Hr2), (ran_delivered _ _ _ f Hr2 Hpl), Hc, Efd. lia.
Qed.
End props.

(** ** Witness *)

(** A UNIX connection over descriptor 5 with nothing queued; the kernel delivers
    descriptor 7 with every message. *)
Definition conn_unix : conninfo :=
  ConnInfo (Some SocketUNIXFuncs) 0 NULL 0 5 (At 4 0) AF_UNIX (At 2 0) 16 (At 3 0) 16 NULL NULL.
Definition state_unix : state :=
  State [] (<[1%positive := BConn conn_unix]> (<[2%positive := BBytes (replicate 16 0)]>
    (<[3%positive := BBytes (replicate 16 0)]> (<[4%positive := BBytes [48; 0]]> ∅))))
    5 0 (fun _ => 0) None.
Definition env_passing : env := env_of (fun c =>
  match c with
  | C_recvmsg _ _ _ => Some (Answer 4 0 [1; 2; 3; 4] 0 stat0 [] [CMsg SOL_SOCKET SCM_RIGHTS [7]] None)
  | C_sendmsg _ _ _ => Some (ans 3)
  | _ => None
  end).

(** One descriptor is read and taken, one read and left, one sent. *)
Definition uses : list op := [ORead 4; ORead 4; ORecvFd; OSendFd 9 1; OWrite [1; 2; 3]].

Lemma session_spec_witness :
  wp (session (cfg := linux X11_t) (At 1 0) uses) env_passing state_unix (fun out s' =>
    length out = length uses /\ same_globals state_unix s' /\
    freed (heap state_unix) (heap s') (conn_blocks 1 conn_unix ++ conn_locs 1 [] []) /\
    forall f, 0 <= f ->
      closed f (trace s') + all_taken f uses out =
      closed f (trace state_unix) + (if fd conn_unix =? f then 1 else 0) + held f [] [] +
      (delivered env_passing f (trace s') - delivered env_passing f (trace state_unix)) +
      all_handed f uses).
Proof.
  apply (session_spec (cfg := linux X11_t) _ _ _ SocketUNIXFuncs); try done.
  split; [|split; [queue_solve | split; [done | split; [|split; [|done]]]]].
  - split; [by vm_compute|].
    do 3 (split; [split; [done | eexists; by vm_compute]|]).
    apply (bool_decide_unpack _). by vm_compute.
  - intros x _. apply not_elem_of_nil.
  - intros _. split; [apply (bool_decide_unpack _); by vm_compute|].
    exists (replicate 16 0). split; [by vm_compute | apply (bool_decide_unpack _); by vm_compute].
Defined.
