(* ===== verification/Listeners.v ===== *)
(** * Listening on every transport (Xtrans.c)

    TRANS(MakeAllCOTSServerListeners) and what it is built from. *)

From S2P Require Import Prelude CLib Xtransint World Logic FdQueue Tables Util SockOpen SockListen SockConnect SockIO Parse Trans Lifecycle.
Open Scope Z_scope.

Section listeners.
Context {cfg : Config}.

(** The loop over the transports: count, and whether a local one was found. *)
Fixpoint network_count (l : list (transport * Z)) (tf : transport -> Z)
    (count : Z) (found_local : bool) : Z * bool :=
  match l with
  | [] => (count, found_local)
  | (t, _) :: l =>
      if has (tf t) TRANS_ALIAS || has (tf t) TRANS_NOLISTEN
      then network_count l tf count found_local
      else if has (tf t) TRANS_LOCAL then network_count l tf count true
      else network_count l tf (count + 1) found_local
  end.

Definition complete_network_count : M Z :=
  tf ← get tflags;
  let '(count, found_local) := network_count Xtransports tf 0 false in
  mret (count + (if (found_local : bool) then 1 else 0)).

(** temp_ciptrs[ *count_ret ] = ciptr; ++ *count_ret: the array has NUMTRANS elements. *)
Definition push (ciptrs : list ptr) (ciptr : ptr) : M (list ptr) :=
  if (length ciptrs <? NUMTRANS)%nat then mret (ciptrs ++ [ciptr]) else throw OutOfBounds.

Definition SD_LISTEN_FDS_START : Z := 3.

(** Transport id and name for the address of a received descriptor. *)
Definition received_kind (a : bytes) (al : Z) : option (Z * bytes) :=
  let fam := sa_family a in
  if fam =? AF_UNIX then
    Some (TRANS_SOCKET_UNIX_INDEX,
          if (nth offsetof_sun_path a 0 =? 0) && (2 <? al) then str "local" else str "unix")
  else if fam =? AF_INET then Some (TRANS_SOCKET_INET_INDEX, str "inet")
  else if IPv6 && (fam =? AF_INET6) then Some (TRANS_SOCKET_INET6_INDEX, str "inet6")
  else None.

(** for (i = 0; i < systemd_listen_fds && *count_ret < NUMTRANS; i++): the int returned
    and the array with its count. *)
Fixpoint receive_loop (n : nat) (i : Z) (port : option bytes) (ciptrs : list ptr)
    : M (Z * list ptr) :=
  match n with
  | O => mret (0, ciptrs)
  | S n =>
      if (NUMTRANS <=? length ciptrs)%nat then mret (0, ciptrs)
      else
        a ← sys (C_getsockname (i + SD_LISTEN_FDS_START) (Z.of_nat sizeof_sockaddr_storage));
        if a_ret a <? 0 then mret (-1, ciptrs)
        else
          match received_kind (fit sizeof_sockaddr_storage (a_bytes a))
                  (Z.of_nat (length (a_bytes a))) with
          | None => mret (-1, ciptrs)
          | Some (ti, tn) =>
              ciptr ← ReopenCOTSServer ti (i + SD_LISTEN_FDS_START) port;
              if bool_decide (ciptr = NULL) then mret (-1, ciptrs)
              else
                ciptrs ← push ciptrs ciptr;
                ignore (Received tn);;
                receive_loop n (i + 1) port ciptrs
          end
  end.

Definition receive_listening_fds (port : option bytes) (ciptrs : list ptr)
    : M (Z * list ptr) :=
  if HAVE_SYSTEMD_DAEMON then
    n ← sys_ret (C_sd_listen_fds 1);
    if n <? 0 then mret (-1, ciptrs) else receive_loop (Z.to_nat n) 0 port ciptrs
  else mret (0, ciptrs).

(** for (j = 0; j < *count_ret; j++) TRANS(Close) (temp_ciptrs[j]); *)
Fixpoint close_all (ciptrs : list ptr) : M unit :=
  match ciptrs with
  | [] => mret tt
  | p :: l => ignore (Close p);; close_all l
  end.

(** One transport of the loop: [None] to return -1 because a server is running, else
    the array and ipv6_succ. *)
Definition listen_one (t : transport) (id : Z) (port : option bytes) (ciptrs : list ptr)
    (ipv6_succ : bool) : M (option (list ptr * bool)) :=
  fl ← get (fun s => tflags s t);
  if has fl TRANS_ALIAS || has fl TRANS_NOLISTEN || has fl TRANS_RECEIVED
  then mret (Some (ciptrs, ipv6_succ))
  else
    let buffer := snprintf 256 (TransName t ++ str "/:" ++ default [] port) in
    ciptr ← OpenCOTSServer buffer;
    if bool_decide (ciptr = NULL) then mret (Some (ciptrs, ipv6_succ))
    else
      let lflags := if IPv6 && (id =? TRANS_SOCKET_INET_INDEX) && ipv6_succ
                    then ADDR_IN_USE_ALLOWED else 0 in
      status ← CreateListener ciptr port lflags;
      if status <? 0 then
        if status =? TRANS_ADDR_IN_USE then close_all ciptrs;; mret None
        else mret (Some (ciptrs, ipv6_succ))
      else
        ciptrs ← push ciptrs ciptr;
        mret (Some (ciptrs, ipv6_succ || (IPv6 && (id =? TRANS_SOCKET_INET6_INDEX)))).

Fixpoint listen_loop (l : list (transport * Z)) (port : option bytes) (ciptrs : list ptr)
    (ipv6_succ : bool) : M (option (list ptr)) :=
  match l with
  | [] => mret (Some ciptrs)
  | (t, id) :: l =>
      r ← listen_one t id port ciptrs ipv6_succ;
      match r with
      | None => mret None
      | Some (ciptrs, ipv6_succ) => listen_loop l port ciptrs ipv6_succ
      end
  end.

(** The int returned, *partial, *count_ret and *ciptrs_ret; [None] for an output the
    call leaves alone. *)
Definition MakeAllCOTSServerListeners (port : option bytes)
    : M (Z * option Z * Z * option ptr) :=
  '(r, ciptrs) ← receive_listening_fds port [];
  if r <? 0 then mret (-1, None, Z.of_nat (length ciptrs), None)
  else
    r ← listen_loop Xtransports port ciptrs false;
    match r with
    | None => mret (-1, Some 0, 0, Some NULL)
    | Some ciptrs =>
        let count := Z.of_nat (length ciptrs) in
        complete ← complete_network_count;
        let partial := if count <? complete then 1 else 0 in
        if 0 <? count then
          p ← alloc (count * 8) (BConns ciptrs);
          mret (if bool_decide (p = NULL) then -1 else 0, Some partial, count, Some p)
        else mret (0, Some partial, count, Some NULL)
    end.
End listeners.

(** ** Properties *)

Section props.
Context {cfg : Config} (e : env).

(** *** Connections that own their blocks *)

(** A listening connection: where it is, what it is, its transport. *)
Abbreviation listener := (positive * conninfo * transport)%type.

Definition listener_ptr (k : listener) : ptr := At k.1.1 0.
Definition listener_blocks (k : listener) : list positive := conn_blocks k.1.1 k.1.2.
Definition listener_ok (m : memory) (k : listener) : Prop := own_all m k.1.1 k.1.2 k.2 [] [].

(** Connections with blocks of their own, none of which is in [m0]. *)
Definition listeners (m0 m : memory) (ks : list listener) : Prop :=
  Forall (listener_ok m) ks /\ NoDup (concat (listener_blocks <$> ks)) /\
  Forall (fun x => m0 !! x = None) (concat (listener_blocks <$> ks)).

Lemma valid_ptr_kept m m' p :
  (forall x, x ∈ ptr_loc p -> m' !! x = m !! x) -> valid_ptr m p -> valid_ptr m' p.
Proof. destruct p as [|x o]; [done|]. intros H [-> Hx]. split; [done|]. by rewrite H by by left. Qed.

Lemma listener_ok_kept m m' k :
  (forall x, x ∈ listener_blocks k -> m' !! x = m !! x) -> listener_ok m k -> listener_ok m' k.
Proof.
  destruct k as [[l c] t]. unfold listener_ok, listener_blocks, own_all; cbn [fst snd].
  intros Heq (Ho & (Hl & Hr & Hs & Hnd) & Ht & Hdis & Haddr & Hem).
  assert (Hl' : m' !! l = Some (BConn c)).
  { rewrite Heq; [done|]. unfold conn_blocks. rewrite !elem_of_app. do 3 right. by left. }
  destruct Ho as (_ & Ha & Hp & Hq & Hnb).
  split; [|split; [|split; [done|split; [done|split; [|done]]]]].
  - split; [done|]. unfold conn_blocks in Heq. do 3 (split; [
      eapply valid_ptr_kept; [|done]; intros x Hx; apply Heq; rewrite !elem_of_app; auto|]).
    exact Hnb.
  - by split.
  - intros Hu. specialize (Haddr Hu). unfold addr_ok in *. destruct (addr c) as [|a o] eqn:Ead; [done|].
    destruct Haddr as [Hn (v & Hv & Hlen)]. split; [done|]. exists v. split; [|done].
    rewrite Heq; [done|]. unfold conn_blocks. rewrite Ead. by left.
Qed.

Lemma listeners_nil m0 m : listeners m0 m [].
Proof. split; [done|]. split; [constructor | done]. Qed.

(** They survive what leaves their blocks alone. *)
Lemma listeners_kept m0 m m' ks :
  (forall x, x ∈ concat (listener_blocks <$> ks) -> m' !! x = m !! x) ->
  listeners m0 m ks -> listeners m0 m' ks.
Proof.
  intros Heq (Hok & Hnd & Hfr). split; [|done]. apply Forall_forall. intros k Hk.
  rewrite Forall_forall in Hok. eapply listener_ok_kept; [|by apply Hok].
  intros x Hx. apply Heq. apply list_elem_of_In, in_concat. exists (listener_blocks k).
  split; apply list_elem_of_In; [|done]. apply list_elem_of_fmap. eauto.
Qed.

(** *** A listener over a connection just opened *)

(** The connection owns its address and its port; there is nothing else. *)
Lemma listener_owned m l c t la lq b v :
  m !! l = Some (BConn c) -> addr c = At la 0 -> peeraddr c = NULL -> port c = At lq 0 ->
  recv_fds c = NULL -> send_fds c = NULL -> transptr c = Some t ->
  m !! la = Some (BBytes b) -> m !! lq = Some v -> NoDup [la; lq; l] ->
  (is_unix t = true -> (3 <= length b)%nat /\ terminated (sun_path b) = true) -> own_all m l c t [] [].
Proof.
  intros Hl Ha Hp Hq Hr Hs Ht Hla Hlq Hnd Hu.
  assert (own_conn m l c).
  { unfold own_conn, conn_blocks. rewrite Ha, Hp, Hq. split; [exact Hl|].
    split; [split; [reflexivity | by eexists]|]. split; [exact I|].
    split; [split; [reflexivity | by eexists]|]. exact Hnd. }
  split; [done|]. split; [|split; [done|split; [intros x _; apply not_elem_of_nil|split; [|done]]]].
  - unfold conn_queues. rewrite Hr, Hs. split_and!; try done; repeat constructor;
      apply not_elem_of_nil.
  - intros Ht'. unfold addr_ok. rewrite Ha. split; [|exists b; destruct (Hu Ht') as [Hb Hn];
      rewrite drop_0, Hn, orb_true_r; by split_and!].
    unfold conn_locs. cbn. apply NoDup_cons in Hnd as [Hn _]. set_solver.
Qed.

(** What CreateListener makes of the connection [c] at [l]. *)
Definition created (l lq : positive) (t : transport) (s : state) (st : Z) (s' : state) : Prop :=
  same_globals s s' /\ kept_but l (heap s) (heap s') /\ st <= 0 /\
  (st = 0 -> exists c la, heap s !! la = None /\ own_all (heap s') l c t [] [] /\
     conn_blocks l c = [la; lq; l]).

Lemma created_failed l lq t s st s' :
  same_globals s s' -> kept_but l (heap s) (heap s') -> st < 0 -> created l lq t s st s'.
Proof. intros Hg Hk Hs. split_and!; [done | done | lia | lia]. Qed.

(** Both kinds of success: the address in a new block, the connection pointing to it. *)
Lemma created_ok l lq t s s' c c0 la b v :
  same_globals s s' -> heap s !! l = Some (BConn c0) -> heap s !! la = None ->
  heap s !! lq = Some v -> l <> lq ->
  heap s' = <[la := BBytes b]> (<[l := BConn c]> (heap s)) ->
  addr c = At la 0 -> peeraddr c = NULL -> port c = At lq 0 ->
  recv_fds c = NULL -> send_fds c = NULL -> transptr c = Some t ->
  (is_unix t = true -> (3 <= length b)%nat /\ terminated (sun_path b) = true) ->
  created l lq t s 0 s'.
Proof.
  intros Hg Hl Hla Hlq Hne Hh Ha Hp Hq Hr Hs Ht Hu.
  split_and!; [done | rewrite Hh; by apply kept_but_insert2 | done |]. intros _.
  assert (la <> l /\ la <> lq) as [] by (split; congruence).
  exists c, la. split_and!; [done | | unfold conn_blocks; by rewrite Ha, Hp, Hq].
  apply (listener_owned _ _ _ _ la lq b v); try done; rewrite ?Hh.
  - by rewrite lookup_insert_ne, lookup_insert_eq.
  - by rewrite lookup_insert_eq.
  - by rewrite !lookup_insert_ne.
  - repeat constructor; set_solver.
Qed.

Section listening.
Context (u : Z) (port : bytes).
Context (Hlaws : env_laws e) (Hmask : umask_env u e) (Hx11 : is_client X11_t = true).
Context (Hnum : is_numeric port = true) (Hmax : strtol port <= LONG_MAX - X_TCP_PORT).
Context (Hc : cstring port).

Lemma wp_create_inet l lq t i f name d v lflags s :
  is_unix t = false -> heap s !! l = Some (BConn (trans_conn t i f lq)) ->
  heap s !! lq = Some v -> l <> lq -> dev_named i name d ->
  wp (SocketINETCreateListener (At l 0) (Some port) lflags) e s (created l lq t s).
Proof.
  intros Hu Hl Hlq Hne Hd.
  eapply wp_mono; [by eapply wp_SocketINETCreateListener_display|]. intros st s' Hr.
  destruct (unprivileged _) as [n|].
  2: { destruct Hr as [-> ->]. by apply created_failed. }
  destruct Hr as (st1 & s1 & (Hg & k & tr1 & _ & Hm) & Hr).
  destruct Hm as [(-> & Hh & _)|[(-> & _ & Hh & _)|(-> & Hh & _)]].
  2-3: destruct Hr as [-> ->]; apply created_failed; [done | by rewrite Hh | done].
  cbn in Hr. destruct Hr as [(Hg2 & _ & [(-> & Hh2)|(-> & la & n2 & Hla & Hh2)]) _].
  - apply created_failed; [by eapply same_globals_trans | | done].
    destruct Hh2 as [-> | ->]; rewrite Hh, ?insert_insert_eq; apply kept_but_insert.
  - rewrite Hh in Hla, Hh2. apply lookup_insert_None in Hla as [Hla _].
    rewrite insert_insert_eq in Hh2. eapply created_ok; try done.
    + by eapply same_globals_trans.
    + by rewrite Hu.
Qed.

Lemma wp_create_unix l lq t i f name d v lflags s :
  is_unix t = true -> heap s !! l = Some (BConn (trans_conn t i f lq)) ->
  heap s !! lq = Some v -> l <> lq -> dev_named i name d ->
  wp (SocketUNIXCreateListener (At l 0) (Some port) lflags) e s (created l lq t s).
Proof.
  intros Hu Hl Hlq Hne Hd.
  eapply wp_mono; [by eapply (wp_SocketUNIXCreateListener _ u)|]. cbv beta.
  intros st s' (Hg & made & s2 & _ & Hh2 & Hr). destruct made.
  2: { destruct Hr as (-> & Hh & _). apply created_failed; [done | by rewrite Hh | done]. }
  destruct Hr as (nm & s3 & Hn & Hr).
  assert (Hh3 : heap s3 = heap s).
  { rewrite <-Hh2. unfold listener_name in Hn. by destruct port as [|x p], Hn as [_ ->]. }
  destruct (set_sun_path _ _ _) as [path|] eqn:Hpath.
  2: { destruct Hr as (-> & -> & _). apply created_failed; [done | by rewrite Hh3 | done]. }
  destruct Hr as (_ & s0 & s1 & st1 & _ & _ & (_ & k & tr1 & _ & Hm) & Hr). cbv zeta in Hr.
  rewrite Hh3 in Hr. destruct Hm as [(-> & Hh & _)|[(-> & _ & Hh & _)|(-> & Hh & _)]].
  2-3: destruct Hr as (-> & Hr & _); apply created_failed; [done | by rewrite Hr | done].
  cbn [Z.eqb] in Hr. destruct Hr as [_ Hr]. destruct (_ <? 0).
  - destruct Hr as [-> Hh4]. apply created_failed; [done | rewrite Hh4; apply kept_but_insert | done].
  - destruct Hr as (-> & la & Hla & Hh4).
    eapply created_ok; try done. intros _.
    split; [|by eapply terminated_sun_path, set_sun_path_short]. unfold mk_sockaddr_un.
    rewrite length_app, length_fit. unfold sizeof_sun_path, le16. cbn [length]. lia.
Qed.

Lemma wp_create l lq t i f name d v lflags s :
  heap s !! l = Some (BConn (trans_conn t i f lq)) -> heap s !! lq = Some v -> l <> lq ->
  dev_named i name d -> wp (CreateListener (At l 0) (Some port) lflags) e s (created l lq t s).
Proof.
  intros Hl Hlq Hne Hd. apply wp_bind. eapply wp_conn_funcs; [done | done |].
  destruct (is_unix t) eqn:Hu.
  - assert (xt_CreateListener (funcs t) = SocketUNIXCreateListener) as -> by by destruct t.
    by eapply wp_create_unix.
  - assert (xt_CreateListener (funcs t) = SocketINETCreateListener) as -> by by destruct t.
    by eapply wp_create_inet.
Qed.
(** *** The array of listeners *)

Lemma listener_blocks_alloc m k x :
  listener_ok m k -> x ∈ listener_blocks k -> is_Some (m !! x).
Proof.
  destruct k as [[l c] t]. intros ((Hl & Ha & Hp & Hq & _) & _) Hx. cbn [fst snd] in *.
  assert (Hv : forall p, valid_ptr m p -> x ∈ ptr_loc p -> is_Some (m !! x)).
  { intros [|y o] Hy Hin; [by apply not_elem_of_nil in Hin|].
    apply list_elem_of_singleton in Hin as ->. apply Hy. }
  unfold listener_blocks, conn_blocks in Hx. rewrite !elem_of_app in Hx.
  destruct Hx as [Hx|[Hx|[Hx|Hx]]];
    [exact (Hv _ Ha Hx) | exact (Hv _ Hp Hx) | exact (Hv _ Hq Hx) |].
  apply list_elem_of_singleton in Hx as ->. by eexists.
Qed.

Lemma listeners_alloc m0 m ks x :
  listeners m0 m ks -> x ∈ concat (listener_blocks <$> ks) -> is_Some (m !! x).
Proof.
  intros (Hok & _) Hx. apply list_elem_of_In, in_concat in Hx as (bs & Hbs & Hx).
  apply list_elem_of_In, list_elem_of_fmap in Hbs as (k & -> & Hk).
  rewrite Forall_forall in Hok. eapply listener_blocks_alloc; [by apply Hok|].
  by apply list_elem_of_In.
Qed.

Lemma listeners_keep m0 m m' ks : kept m m' -> listeners m0 m ks -> listeners m0 m' ks.
Proof.
  intros Hk Hl. eapply listeners_kept; [|done]. intros x Hx. by eapply Hk, listeners_alloc.
Qed.

Lemma listeners_snoc m0 m m' ks k :
  kept m m' -> kept m0 m -> listeners m0 m ks -> listener_ok m' k -> NoDup (listener_blocks k) ->
  (forall x, x ∈ listener_blocks k -> m !! x = None) -> listeners m0 m' (ks ++ [k]).
Proof.
  intros Hk Hk0 Hl Hok Hnd Hfr. pose proof (listeners_keep _ _ _ _ Hk Hl) as (H1 & H2 & H3).
  unfold listeners. rewrite fmap_app, concat_app. cbn. rewrite app_nil_r. split_and!.
  - apply Forall_app. by split; [|constructor].
  - apply NoDup_app. split_and!; [done | | done]. intros x Hx Hin.
    destruct (listeners_alloc _ _ _ _ Hl Hx) as [b Hb]. rewrite Hfr in Hb; done.
  - apply Forall_app. split; [done|]. apply Forall_forall. intros x Hx.
    destruct (m0 !! x) eqn:Hx0; [|done]. specialize (Hfr x Hx).
    rewrite Hk0 in Hfr by by eexists. congruence.
Qed.

Lemma listeners_cons m0 m k ks :
  listeners m0 m (k :: ks) -> listener_ok m k /\ listeners m0 m ks /\
  (forall x, x ∈ listener_blocks k -> x ∉ concat (listener_blocks <$> ks)).
Proof.
  intros (H1 & H2 & H3). cbn in H2, H3. apply Forall_cons in H1 as [H1 H1'].
  apply NoDup_app in H2 as (_ & Hd & H2). apply Forall_app in H3 as [_ H3].
  by split_and!.
Qed.

(** The calls of closing a listener, and that other blocks have no part in them. *)
Definition listener_close (s : state) (k : listener) : list call :=
  close_calls s k.1.2 k.2 [] [].

Lemma listener_close_kept s s' k :
  same_globals s s' -> (forall x, x ∈ listener_blocks k -> heap s' !! x = heap s !! x) ->
  listener_close s' k = listener_close s k.
Proof.
  intros [Ht _] Hk. unfold listener_close, close_calls. destruct (is_unix k.2); [|done].
  assert (unlink_path s' k.1.2 = unlink_path s k.1.2) as ->; [|done].
  unfold unlink_path. rewrite Ht. destruct (addr k.1.2) as [|x o] eqn:Ea; [done|].
  rewrite Hk; [done|]. unfold listener_blocks, conn_blocks. rewrite Ea. by left.
Qed.

(** From [s] to [s'] the listeners [ks] are closed, each once and in order, and exactly their
    blocks are freed. *)
Definition all_closed (ks : list listener) (s s' : state) : Prop :=
  same_globals s s' /\ ran s s' (concat (listener_close s <$> ks)) /\
  freed (heap s) (heap s') (concat (listener_blocks <$> ks)).

Lemma wp_close_all m0 ks s :
  listeners m0 (heap s) ks ->
  wp (close_all (listener_ptr <$> ks)) e s (fun _ s' => all_closed ks s s').
Proof.
  revert s. induction ks as [|[[l c] t] ks IH]; intros s Hl; cbn [fmap list_fmap close_all].
  { apply wp_ret. split; [done|]. split; [apply ran_refl|].
    intros x. rewrite decide_False; [done | apply not_elem_of_nil]. }
  apply listeners_cons in Hl as (Hok & Hl & Hd). apply wp_bind, wp_ignore.
  eapply wp_mono; [by apply (wp_Close e l c t [] [])|]. intros r s1 (Hg & Hr & Hf).
  assert (Hx1 : forall x, x ∉ listener_blocks (l, c, t) -> heap s1 !! x = heap s !! x).
  { intros x Hx. rewrite Hf, decide_False; [done|]. rewrite elem_of_app. intros [?|Hin]; [done|].
    unfold conn_locs in Hin. cbn in Hin. apply list_elem_of_singleton in Hin as ->. apply Hx.
    unfold listener_blocks, conn_blocks. rewrite !elem_of_app. do 3 right. by left. }
  assert (Hks : forall x, x ∈ concat (listener_blocks <$> ks) -> heap s1 !! x = heap s !! x)
    by (intros x Hx; apply Hx1; intros Hin; by apply (Hd x)).
  eapply wp_mono; [by apply IH, listeners_kept with (heap s)|].
  intros _ s2 (Hg2 & Hr2 & Hf2). split; [by eapply same_globals_trans|]. split.
  - cbn. eapply ran_trans; [exact Hr|].
    assert (listener_close s <$> ks = listener_close s1 <$> ks) as ->; [|done].
    apply list_fmap_ext. intros i k Hi. symmetry. apply listener_close_kept; [done|].
    intros x Hx. apply Hks. apply list_elem_of_In, in_concat. exists (listener_blocks k).
    split; apply list_elem_of_In; [|done]. apply list_elem_of_fmap. exists k.
    split; [done|]. by eapply list_elem_of_lookup_2.
  - intros x. rewrite Hf2. cbn [fmap list_fmap concat].
    destruct (decide (x ∈ concat (listener_blocks <$> ks))) as [Hin|Hin].
    + rewrite decide_True; [done|]. apply elem_of_app. by right.
    + destruct (decide (x ∈ listener_blocks (l, c, t))) as [Hb|Hb].
      * rewrite decide_True by (apply elem_of_app; by left). rewrite Hf, decide_True; [done|].
        apply elem_of_app. by left.
      * rewrite decide_False by (rewrite elem_of_app; by intros [?|?]). by apply Hx1.
Qed.

(** *** The loop over the transports *)

Definition listening (s0 s : state) (ks : list listener) : Prop :=
  same_globals s0 s /\ kept (heap s0) (heap s) /\ listeners (heap s0) (heap s) ks.

(** The transports to listen on: no alias, not switched off, not received from systemd. *)
Definition eligible (tf : transport -> Z) (t : transport) : bool :=
  negb (has (tf t) TRANS_ALIAS || has (tf t) TRANS_NOLISTEN || has (tf t) TRANS_RECEIVED).

Definition eligibles (tf : transport -> Z) (ts : list (transport * Z)) : list transport :=
  filter (fun t => eligible tf t = true) (fst <$> ts).

(** What becomes of a transport: no listener, a server that runs already, or the listener at
    [l]. *)
Inductive outcome := Passed | Busy | Made (l : positive).

(** [tried t id six s o s']: from [s] on the transport is opened and told to listen, if it may
    be, where an address in use is allowed for INET behind a listener of INET6. *)
Definition listen_text (t : transport) : bytes := snprintf 256 (TransName t ++ str "/:" ++ port).
Definition listen_flags (id : Z) (six : bool) : Z :=
  if IPv6 && (id =? TRANS_SOCKET_INET_INDEX) && six then ADDR_IN_USE_ALLOWED else 0.

Inductive tried (t : transport) (id : Z) (six : bool) (s : state) : outcome -> state -> Prop :=
  | tried_not : eligible (tflags s) t = false -> tried t id six s Passed s
  | tried_closed s1 :
      eligible (tflags s) t = true -> OpenCOTSServer (listen_text t) e s = Ok NULL s1 ->
      tried t id six s Passed s1
  | tried_open l s1 st s2 :
      eligible (tflags s) t = true -> OpenCOTSServer (listen_text t) e s = Ok (At l 0) s1 ->
      CreateListener (At l 0) (Some port) (listen_flags id six) e s1 = Ok st s2 ->
      tried t id six s
        (if st <? 0 then if st =? TRANS_ADDR_IN_USE then Busy else Passed else Made l) s2.

(** The transports one after the other, up to a server that runs: the listeners made, and
    whether there is such a server. *)
Inductive tried_all : list (transport * Z) -> bool -> state ->
    list (positive * transport) -> bool -> state -> Prop :=
  | all_tried six s : tried_all [] six s [] false s
  | all_busy t id ts six s s' :
      tried t id six s Busy s' -> tried_all ((t, id) :: ts) six s [] true s'
  | all_passed t id ts six s s1 ls b s' :
      tried t id six s Passed s1 -> tried_all ts six s1 ls b s' ->
      tried_all ((t, id) :: ts) six s ls b s'
  | all_made t id ts six s s1 l ls b s' :
      tried t id six s (Made l) s1 ->
      tried_all ts (six || (IPv6 && (id =? TRANS_SOCKET_INET6_INDEX))) s1 ls b s' ->
      tried_all ((t, id) :: ts) six s ((l, t) :: ls) b s'.

(** After the transport [t]: possibly a listener of it more, or all of them closed. *)
Definition listened_one (s0 : state) (t : transport) (id : Z) (six : bool) (ks : list listener)
    (s : state) (r : option (list ptr * bool)) (s' : state) : Prop :=
  match r with
  | None => exists s1, tried t id six s Busy s1 /\ listening s0 s1 ks /\ all_closed ks s1 s'
  | Some (ps, six') => exists ks', ps = listener_ptr <$> ks' /\ listening s0 s' ks' /\
      ((ks' = ks /\ six' = six /\ tried t id six s Passed s') \/
       (eligible (tflags s0) t = true /\ exists l c, ks' = ks ++ [(l, c, t)] /\
        six' = six || (IPv6 && (id =? TRANS_SOCKET_INET6_INDEX)) /\
        tried t id six s (Made l) s'))
  end.

(** The address that is opened for a transport names that transport. *)
Lemma listen_address t :
  exists q, split_address (snprintf 256 (TransName t ++ str "/:" ++ port)) = Some (TransName t, [], q).
Proof.
  assert (exists q, snprintf 256 (TransName t ++ str "/:" ++ port) = TransName t ++ ch "/" :: ch ":" :: q
    /\ ch ":" ∉ q) as (q & -> & Hq).
  { exists (take (253 - length (TransName t)) port). split.
    - unfold snprintf. rewrite take_app_ge by by destruct t; cbn; lia.
      f_equal. cbn [str app]. destruct t; reflexivity.
    - intros Hin. apply elem_of_take in Hin as (i & Hi & _). apply list_elem_of_lookup_2 in Hi. apply is_numeric_Forall in Hnum.
      rewrite Forall_forall in Hnum. by apply Hnum in Hi. }
  exists q. apply split_address_complete. apply (form_full (TransName t) [] q); [| |done].
  - by destruct t.
  - by destruct t; apply (bool_decide_unpack _).
Qed.

Lemma select_name t id :
  (t, id) ∈ Xtransports -> SelectTransport (until_nul (TransName t ++ [0])) = Some t.
Proof.
  unfold SelectTransport, Xtransports. intros Hin. destruct HAVE_STRCASECMP, IPv6, t; try reflexivity.
  all: exfalso; cbn [app] in Hin; set_solver.
Qed.

Lemma listening_keep s0 s s' ks :
  listening s0 s ks -> same_globals s s' -> kept (heap s) (heap s') -> listening s0 s' ks.
Proof.
  intros (Hg & Hk & Hl) Hg' Hk'. split_and!.
  - by eapply same_globals_trans.
  - by eapply kept_trans.
  - by eapply listeners_keep.
Qed.

Lemma wp_closed s0 s ks :
  listening s0 s ks ->
  wp (close_all (listener_ptr <$> ks)) e s (fun _ s' => all_closed ks s s').
Proof. intros (_ & _ & Hl). by eapply wp_close_all. Qed.

(** What was there before is there still. *)
Lemma all_closed_kept s0 s s' ks :
  listening s0 s ks -> all_closed ks s s' -> same_globals s0 s' /\ kept (heap s0) (heap s').
Proof.
  intros (Hg & Hk & _ & _ & H3) (Hg' & _ & Hf). split; [by eapply same_globals_trans|].
  intros x Hx. rewrite Hf, decide_False; [by apply Hk|]. intros Hin.
  rewrite Forall_forall in H3. rewrite (H3 x Hin) in Hx. by destruct Hx.
Qed.

Lemma wp_push ps p s (Q : list ptr -> state -> Prop) :
  (length ps < NUMTRANS)%nat -> Q (ps ++ [p]) s -> wp (push ps p) e s Q.
Proof.
  intros Hlen HQ. unfold push. destruct (Nat.ltb_spec (length ps) NUMTRANS); [|lia].
  by apply wp_ret.
Qed.

(** The connection Open returned, once CreateListener is done with it. *)
Lemma wp_create_opened s0 s s1 s2 ks t i f l lq c la :
  listening s0 s ks -> same_globals s s1 -> l <> lq -> heap s !! l = None ->
  heap s !! lq = None -> heap s1 !! la = None ->
  (forall x, x <> l -> x <> lq -> heap s1 !! x = heap s !! x) ->
  heap s1 !! l = Some (BConn (trans_conn t i f lq)) ->
  same_globals s1 s2 -> kept (heap s) (heap s2) -> own_all (heap s2) l c t [] [] ->
  conn_blocks l c = [la; lq; l] -> is_Some (heap s1 !! lq) ->
  listening s0 s2 (ks ++ [(l, c, t)]).
Proof.
  intros (Hg & Hk & Hl) Hg1 Hne Hfl Hflq Hfla Hother Hl1 Hg2 Hk2 Hown Hb [b Hlq1].
  assert (la <> l /\ la <> lq) as [Hla1 Hla2] by (split; congruence).
  split_and!.
  - eapply same_globals_trans; [done|]. by eapply same_globals_trans.
  - by eapply kept_trans.
  - apply listeners_snoc with (heap s); try done.
    + unfold listener_blocks. cbn [fst snd]. rewrite Hb. repeat constructor; set_solver.
    + unfold listener_blocks. cbn [fst snd]. rewrite Hb. intros x Hx.
      rewrite !elem_of_cons in Hx. destruct Hx as [->|[->|[->|Hx]]]; [|done|done|].
      * by rewrite <-Hother.
      * by apply not_elem_of_nil in Hx.
Qed.

(** Without a host the name of the transport is not changed. *)
Lemma opened_name t id tr p1 h1 :
  (t, id) ∈ Xtransports -> host_completed e tr (TransName t) [] p1 h1 ->
  SelectTransport (until_nul (p1 ++ [0])) = Some t.
Proof.
  intros Hin [(_ & -> & _)|[((_ & _ & Hh & _) & _)|[? _]]]; [by eapply select_name | discriminate Hh | done].
Qed.

Lemma wp_listen_one s0 t id ks six s :
  mallocs e -> (t, id) ∈ Xtransports -> (length ks < NUMTRANS)%nat -> listening s0 s ks ->
  wp (listen_one t id (Some port) (listener_ptr <$> ks) six) e s
    (listened_one s0 t id six ks s).
Proof.
  intros Hm Hin Hlen Hinv. unfold listen_one. do 2 wp_step.
  match goal with |- wp (if ?b then _ else _) _ _ _ => destruct b eqn:Hfl end.
  { apply wp_ret. exists ks. split_and!; [done | done |]. left. split_and!; [done | done|].
    apply tried_not. unfold eligible. by rewrite Hfl. }
  assert (Hels : eligible (tflags s) t = true) by (unfold eligible; by rewrite Hfl).
  assert (Hel : eligible (tflags s0) t = true) by by rewrite <-(proj1 (proj1 Hinv)).
  cbv zeta. apply wp_bind. eapply wp_mono; [apply wp_run, wp_Open; intros a ->; apply Hm|].
  intros p s1 [Hopen [Hg1 [(-> & Hh1 & _)|(p0 & h0 & q0 & p1 & h1 & t' & i & d & l & lq & f & Hsp &
    Hco & Hse & Hd & -> & Hne & Hl & Hlq & _ & Hh1 & _)]]].
  { wp_step. apply wp_ret. exists ks. split_and!; [done | |].
    - eapply listening_keep; [done | done | by rewrite Hh1].
    - left. split_and!; [done | done | by apply tried_closed]. }
  assert (t' = t) as ->.
  { destruct (listen_address t) as [q Hq]. pose proof (eq_trans (eq_sym Hq) Hsp) as Heq.
    injection Heq as <- <- <-. erewrite (opened_name t id) in Hse; [congruence | done | done]. }
  wp_step. apply wp_bind. eapply wp_mono.
  { apply wp_run. eapply (wp_create l lq t i f); [| | done | exact Hd]; rewrite Hh1;
      [apply lookup_insert_eq | rewrite lookup_insert_ne by done; apply lookup_insert_eq]. }
  intros st s2 (Hcreate & Hg2 & Hk2 & Hst & Hok).
  pose proof (tried_open t id six s l s1 st s2 Hels Hopen Hcreate) as Htr.
  assert (Hg : same_globals s s2) by by eapply same_globals_trans.
  assert (Hother : forall x, x <> l -> x <> lq -> heap s1 !! x = heap s !! x)
    by (intros x ? ?; by rewrite Hh1, !lookup_insert_ne).
  assert (Hk : kept (heap s) (heap s2)).
  { intros x [b Hx]. assert (x <> l /\ x <> lq) as [] by (split; congruence).
    rewrite Hk2; [by apply Hother | done | rewrite Hother by done; by eexists]. }
  assert (Hinv2 : listening s0 s2 ks) by by eapply listening_keep.
  destruct (Z.ltb_spec st 0).
  { destruct (st =? TRANS_ADDR_IN_USE).
    - apply wp_bind. eapply wp_mono; [by apply (wp_closed s0)|]. intros [] s3 H3. apply wp_ret.
      by exists s2.
    - apply wp_ret. exists ks. split_and!; [done | done |]. by left. }
  assert (st = 0) as -> by lia. destruct (Hok eq_refl) as (c & la & Hfla & Hown & Hb).
  apply wp_bind, wp_push; [by rewrite length_fmap|]. apply wp_ret.
  exists (ks ++ [(l, c, t)]). rewrite fmap_app.
  split_and!; [done | | right; split; [done | by exists l, c]].
  eapply (wp_create_opened s0 s s1 s2 ks t i f l lq c la); try done; rewrite Hh1.
  - apply lookup_insert_eq.
  - rewrite lookup_insert_ne by done. rewrite lookup_insert_eq. by eexists.
Qed.

(** Where a listener is, and its transport. *)
Definition listener_at (k : listener) : positive * transport := (k.1.1, k.2).

(** The loop: the listeners made before and new ones, or all of them closed. *)
Definition listened (s0 : state) (ts : list (transport * Z)) (six : bool) (ks : list listener)
    (s : state) (r : option (list ptr)) (s' : state) : Prop :=
  exists new b s1, tried_all ts six s (listener_at <$> new) b s1 /\
    listening s0 s1 (ks ++ new) /\ snd <$> new `sublist_of` eligibles (tflags s0) ts /\
    if b then r = None /\ all_closed (ks ++ new) s1 s'
    else r = Some (listener_ptr <$> (ks ++ new)) /\ s' = s1.

Lemma eligibles_cons tf t id ts :
  eligibles tf ((t, id) :: ts) = if eligible tf t then t :: eligibles tf ts else eligibles tf ts.
Proof.
  unfold eligibles. rewrite fmap_cons. cbn [fst]. rewrite filter_cons.
  by destruct (eligible tf t).
Qed.

Lemma eligibles_sub tf t id ts : eligibles tf ts `sublist_of` eligibles tf ((t, id) :: ts).
Proof. rewrite eligibles_cons. destruct (eligible tf t); [by apply sublist_cons | done]. Qed.

Lemma wp_listen_loop s0 ts ks six s :
  mallocs e -> ts ⊆ Xtransports -> (length ks + length ts <= NUMTRANS)%nat -> listening s0 s ks ->
  wp (listen_loop ts (Some port) (listener_ptr <$> ks) six) e s (listened s0 ts six ks s).
Proof.
  intros Hm. revert ks six s. induction ts as [|[t id] ts IH]; intros ks six s Hts Hlen Hinv;
    cbn [listen_loop length] in *.
  { apply wp_ret. exists [], false, s. rewrite app_nil_r. split_and!; [constructor | done | constructor | done | done]. }
  apply wp_bind. eapply wp_mono.
  { apply wp_listen_one; [done | apply Hts; by left | lia | exact Hinv]. }
  intros [[ps six']|] s1 H1.
  2: { destruct H1 as (s2 & Htr & Hl & Hcl). apply wp_ret. exists [], true, s2.
       rewrite app_nil_r. split_and!; [by apply all_busy | done | apply sublist_nil_l | done | done]. }
  destruct H1 as (ks' & -> & Hinv' & [(-> & -> & Htr)|(Hel & l & c & -> & -> & Htr)]);
    (eapply wp_mono; [apply IH; [set_solver | rewrite ?length_app; cbn [length]; lia | done]|]);
    intros r s2 (new & b & s3 & Hall & Hl3 & Hsub & Hb).
  - exists new, b, s3. split_and!; [by eapply all_passed | done | | done].
    etrans; [exact Hsub | apply eligibles_sub].
  - rewrite <-app_assoc in Hl3, Hb. exists ((l, c, t) :: new), b, s3.
    split_and!; [by eapply all_made | done | | done].
    rewrite eligibles_cons, Hel. by apply sublist_skip.
Qed.

(** What MakeAllCOTSServerListeners returns: -1 because a server is running, the listeners made
    up to there closed, or all the listeners it could make, of transports that may be listened
    on and each at most once in the order of the table, in an array of their own. *)
Definition made_all (s : state) (res : Z * option Z * Z * option ptr) (s' : state) : Prop :=
  let '(r, partial, count, ret) := res in
  let '(n, found_local) := network_count Xtransports (tflags s) 0 false in
  same_globals s s' /\ kept (heap s) (heap s') /\
  exists ks busy s1, tried_all Xtransports false s (listener_at <$> ks) busy s1 /\
    listening s s1 ks /\ snd <$> ks `sublist_of` eligibles (tflags s) Xtransports /\
    if (busy : bool) then
      r = -1 /\ partial = Some 0 /\ count = 0 /\ ret = Some NULL /\ all_closed ks s1 s'
    else
      r = 0 /\ count = Z.of_nat (length ks) /\ (length ks <= NUMTRANS)%nat /\
      partial = Some (if count <? n + (if (found_local : bool) then 1 else 0) then 1 else 0) /\
      match ks with
      | [] => ret = Some NULL /\ s' = s1
      | _ => exists lp, ret = Some (At lp 0) /\ heap s1 !! lp = None /\
          heap s' = <[lp := BConns (listener_ptr <$> ks)]> (heap s1) /\
          trace s' = asked e (C_malloc (count * 8)) (trace s1)
      end.

Lemma wp_MakeAll s :
  mallocs e -> HAVE_SYSTEMD_DAEMON = false ->
  wp (MakeAllCOTSServerListeners (Some port)) e s (made_all s).
Proof.
  intros Hm Hsd. unfold MakeAllCOTSServerListeners, receive_listening_fds. rewrite Hsd.
  apply wp_bind, wp_ret. wp_step. apply wp_bind. eapply wp_mono.
  { apply (wp_listen_loop s Xtransports [] false s Hm); [done | unfold NUMTRANS; cbn [length]; lia|].
    split; [done|]. split; [apply kept_refl | apply listeners_nil]. }
  intros r s1 (ks & busy & s2 & Hall & Hinv & Hsub & Hb). cbn [app] in *. unfold made_all.
  destruct busy.
  { destruct Hb as [-> Hcl]. apply wp_ret. destruct (network_count _ _ _ _) as [n loc].
    destruct (all_closed_kept _ _ _ _ Hinv Hcl). split_and!; [done | done |].
    exists ks, true, s2. by split_and!. }
  destruct Hb as [-> ->].
  assert (length ks <= NUMTRANS)%nat as Hlen.
  { rewrite <-(length_fmap snd ks). apply sublist_length in Hsub. etrans; [exact Hsub|].
    unfold eligibles, NUMTRANS. etrans; [apply length_filter|]. by rewrite length_fmap. }
  pose proof Hinv as (Hg & Hk & Hl).
  cbv zeta. unfold complete_network_count. do 3 wp_step. rewrite (proj1 Hg).
  destruct (network_count _ _ _ _) as [n loc]. wp_step. rewrite length_fmap.
  destruct ks as [|k ks].
  { change (0 <? Z.of_nat (length [])) with false. apply wp_ret. split_and!; [done | done |].
    exists [], false, s2. by split_and!. }
  assert ((0 <? Z.of_nat (length (k :: ks))) = true) as -> by (apply Z.ltb_lt; cbn [length]; lia).
  do 3 wp_step.
  { specialize (Hm (trace s2) (Z.of_nat (length (k :: ks)) * 8)). rewrite <-Hans in Hm. lia. }
  rewrite bool_decide_false by done. split_and!; [done | |].
  - eapply kept_trans; [exact Hk|]. by apply kept_insert_fresh.
  - exists (k :: ks), false, s2. split_and!; try done. exists l. subst a. by split_and!.
Qed.
End listening.

(** ** The properties *)

(** C19: MakeAllCOTSServerListeners for an X display, without descriptors of systemd: it ends
    without undefined behaviour and never fills its array of NUMTRANS past the end.  It tries
    the transports that are neither aliases nor switched off, each once and in the order of the
    table; its listeners are exactly those whose Open gave a connection and whose
    CreateListener did not fail, each a connection that owns its blocks.  It returns -1 exactly
    when CreateListener finds a server running: the listeners made up to there are then closed,
    each once and in order, with exactly their blocks freed (a connection whose CreateListener
    failed is left as it is).  Else it returns all of them in an array of their own (NULL for
    none), with partial telling whether some are missing.  Nothing that was allocated before is
    changed. *)
Theorem MakeAllCOTSServerListeners_spec u port s :
  env_laws e -> umask_env u e -> mallocs e -> HAVE_SYSTEMD_DAEMON = false ->
  is_client X11_t = true -> is_numeric port = true -> cstring port ->
  strtol port <= LONG_MAX - X_TCP_PORT ->
  wp (MakeAllCOTSServerListeners (Some port)) e s (made_all port s).
Proof. intros. by eapply wp_MakeAll. Qed.
End props.

(** ** Descriptors of systemd *)

(** systemd passes five INET sockets; everything else works. *)
Definition env_systemd : env := fun tr c =>
  match c with
  | C_sd_listen_fds _ => ans 5
  | C_getsockname _ n => ans_bytes 0 (take (Z.to_nat n) (mk_sockaddr_in 6000 INADDR_ANY))
  | C_socket _ _ _ => ans 20
  | _ => ans 0
  end.

(** As many received sockets as there are transports fill the array of
    MakeAllCOTSServerListeners; the listener of the next transport, which was not among
    them, is written behind its end. *)
Theorem MakeAllCOTSServerListeners_overflow :
  faults (MakeAllCOTSServerListeners (cfg := linux X11_t) (Some (str "0"))) env_systemd
    state_flags OutOfBounds.
Proof. by vm_compute. Qed.

(** ** Witnesses *)

(** The build without systemd. *)
Definition linux_plain : Config := {|
  cfg_client := X11_t; IPv6 := true; HAVE_STRCASECMP := true; HAVE_ABSTRACT_SOCKETS := true;
  HAVE_SYSTEMD_DAEMON := false; XTRANS_SEND_FDS := true; USE_POLL := true;
  NEED_UTSNAME := true; HAS_STICKY_DIR_BIT := true; HAS_FCHOWN := true; FAIL_HARD := false;
  HAVE_STRLCPY := true |}.

Lemma MakeAllCOTSServerListeners_spec_witness :
  wp (MakeAllCOTSServerListeners (cfg := linux_plain) (Some (str "0"))) (env_socks 5 [] [] 0)
    state_flags (made_all (cfg := linux_plain) (env_socks 5 [] [] 0) (str "0") state_flags).
Proof.
  apply (MakeAllCOTSServerListeners_spec (cfg := linux_plain) _ 0).
  - apply _.
  - intros tr m. reflexivity.
  - intros tr n. cbn. lia.
  - reflexivity.
  - reflexivity.
  - by vm_compute.
  - by apply (bool_decide_unpack _).
  - by vm_compute.
Defined.
