(* ===== verification/Cec.v ===== *)
(** * HDMI CEC messages: the structure (src/include/linux/cec.h)

    struct cec_msg with the operations of cec.h on it, the opcodes and operands that
    cec-funcs.h uses, and the statements its functions are made of. *)

From S2P Require Import Prelude CLib.
Open Scope Z_scope.

(** C operators *)
Declare Scope cec_scope.
Delimit Scope cec_scope with cec.
Notation "x >> n" := (Z.shiftr x n) (at level 52, left associativity) : cec_scope.
Notation "x << n" := (Z.shiftl x n) (at level 52, left associativity) : cec_scope.
Notation "x .& y" := (Z.land x y) (at level 54, left associativity) : cec_scope.
Notation "x .| y" := (Z.lor x y) (at level 56, left associativity) : cec_scope.
Open Scope cec_scope.

(** ** struct cec_msg *)

Definition CEC_MAX_MSG_SIZE : nat := 16.

Record cec_msg := CecMsg {
  tx_ts : Z;
  rx_ts : Z;
  len : Z;
  timeout : Z;
  sequence : Z;
  flags : Z;
  msg : bytes;
  reply : Z;
  rx_status : Z;
  tx_status : Z;
  tx_arb_lost_cnt : Z;
  tx_nack_cnt : Z;
  tx_low_drive_cnt : Z;
  tx_error_cnt : Z
}.

(** msg->msg[i] *)
Notation "m .[ i ]" := (nth i (msg m) 0) (at level 1, left associativity, format "m .[ i ]") : cec_scope.

Definition with_len (v : Z) (m : cec_msg) : cec_msg :=
  CecMsg (tx_ts m) (rx_ts m) v (timeout m) (sequence m) (flags m) (msg m) (reply m)
    (rx_status m) (tx_status m) (tx_arb_lost_cnt m) (tx_nack_cnt m) (tx_low_drive_cnt m)
    (tx_error_cnt m).
Definition with_msg (v : bytes) (m : cec_msg) : cec_msg :=
  CecMsg (tx_ts m) (rx_ts m) (len m) (timeout m) (sequence m) (flags m) v (reply m)
    (rx_status m) (tx_status m) (tx_arb_lost_cnt m) (tx_nack_cnt m) (tx_low_drive_cnt m)
    (tx_error_cnt m).
Definition with_reply (v : Z) (m : cec_msg) : cec_msg :=
  CecMsg (tx_ts m) (rx_ts m) (len m) (timeout m) (sequence m) (flags m) (msg m) v
    (rx_status m) (tx_status m) (tx_arb_lost_cnt m) (tx_nack_cnt m) (tx_low_drive_cnt m)
    (tx_error_cnt m).
Definition with_timeout (v : Z) (m : cec_msg) : cec_msg :=
  CecMsg (tx_ts m) (rx_ts m) (len m) v (sequence m) (flags m) (msg m) (reply m)
    (rx_status m) (tx_status m) (tx_arb_lost_cnt m) (tx_nack_cnt m) (tx_low_drive_cnt m)
    (tx_error_cnt m).

(** ** Statements

    A statement changes the message, or is undefined ([None]): a store outside of
    msg->msg, a copy of more bytes than the source has. *)
Definition cmd : Type := cec_msg -> option cec_msg.

Definition seq_cmd (c1 c2 : cmd) : cmd := fun m => c1 m ≫= c2.
Notation "c1 ;> c2" := (seq_cmd c1 c2) (at level 85, right associativity) : cec_scope.

Definition skip : cmd := fun m => Some m.

(** msg->msg[i] = v, a __u8 *)
Definition put (i : nat) (v : Z) : cmd := fun m =>
  if (i <? CEC_MAX_MSG_SIZE)%nat then Some (with_msg (<[i := u8 v]> (msg m)) m) else None.
(** msg->len = v; msg->reply = v; msg->timeout = v *)
Definition set_len (v : Z) : cmd := fun m => Some (with_len (u32 v) m).
Definition set_reply (v : Z) : cmd := fun m => Some (with_reply (u8 v) m).
Definition set_timeout (v : Z) : cmd := fun m => Some (with_timeout (u32 v) m).
(** msg->len += v *)
Definition add_len (v : Z) : cmd := fun m => set_len (len m + v) m.
(** msg->msg[0] |= 0xf; *)
Definition set_broadcast : cmd := fun m => put 0 (m.[0] .| 0xf) m.
(** msg->msg[msg->len++] = v; *)
Definition append (v : Z) : cmd := fun m => (put (Z.to_nat (len m)) v ;> add_len 1) m.
(** memcpy (msg->msg + off, src, n) *)
Definition copy (off : nat) (src : bytes) (n : Z) : cmd := fun m =>
  if (Z.to_nat n <=? length src)%nat && (off + Z.to_nat n <=? CEC_MAX_MSG_SIZE)%nat
  then Some (with_msg (write_at off (take (Z.to_nat n) src) (msg m)) m) else None.

(** if (b) c; *)
Definition if_cmd (b : bool) (c : cmd) : cmd := if b then c else skip.

(** ** The operations of cec.h *)

Definition cec_msg_initiator (m : cec_msg) : Z := m.[0] >> 4.
Definition cec_msg_destination (m : cec_msg) : Z := m.[0] .& 0xf.
Definition cec_msg_opcode (m : cec_msg) : Z := if 1 <? len m then m.[1] else -1.
Definition cec_msg_is_broadcast (m : cec_msg) : bool := (m.[0] .& 0xf) =? 0xf.

(** memset to 0, then header and length; the old content does not matter. *)
Definition cec_msg_init (initiator destination : Z) : cec_msg :=
  CecMsg 0 0 1 0 0 0
    (u8 ((initiator << 4) .| destination) :: replicate (CEC_MAX_MSG_SIZE - 1) 0)
    0 0 0 0 0 0 0.

(** [orig] may be the message itself. *)
Definition cec_msg_set_reply_to (orig : cec_msg) : cmd :=
  put 0 ((cec_msg_destination orig << 4) .| cec_msg_initiator orig) ;>
  set_timeout 0 ;> set_reply 0.

Definition CEC_TX_STATUS_OK : Z := 1 << 0.
Definition CEC_RX_STATUS_OK : Z := 1 << 0.
Definition CEC_RX_STATUS_FEATURE_ABORT : Z := 1 << 2.

Definition cec_msg_status_is_ok (m : cec_msg) : bool :=
  if negb (tx_status m =? 0) && ((tx_status m .& CEC_TX_STATUS_OK) =? 0) then false
  else if negb (rx_status m =? 0) && ((rx_status m .& CEC_RX_STATUS_OK) =? 0) then false
  else if (tx_status m =? 0) && (rx_status m =? 0) then false
  else (rx_status m .& CEC_RX_STATUS_FEATURE_ABORT) =? 0.

(** ** Opcodes and operands *)

Definition CEC_PHYS_ADDR_INVALID : Z := 0xffff.
Definition CEC_MSG_ACTIVE_SOURCE : Z := 0x82.
Definition CEC_MSG_IMAGE_VIEW_ON : Z := 0x04.
Definition CEC_MSG_TEXT_VIEW_ON : Z := 0x0d.
Definition CEC_MSG_INACTIVE_SOURCE : Z := 0x9d.
Definition CEC_MSG_REQUEST_ACTIVE_SOURCE : Z := 0x85.
Definition CEC_MSG_ROUTING_CHANGE : Z := 0x80.
Definition CEC_MSG_ROUTING_INFORMATION : Z := 0x81.
Definition CEC_MSG_SET_STREAM_PATH : Z := 0x86.
Definition CEC_MSG_STANDBY : Z := 0x36.
Definition CEC_MSG_RECORD_OFF : Z := 0x0b.
Definition CEC_MSG_RECORD_ON : Z := 0x09.
Definition CEC_OP_RECORD_SRC_OWN : Z := 1.
Definition CEC_OP_RECORD_SRC_DIGITAL : Z := 2.
Definition CEC_OP_RECORD_SRC_ANALOG : Z := 3.
Definition CEC_OP_RECORD_SRC_EXT_PLUG : Z := 4.
Definition CEC_OP_RECORD_SRC_EXT_PHYS_ADDR : Z := 5.
Definition CEC_OP_SERVICE_ID_METHOD_BY_DIG_ID : Z := 0.
Definition CEC_OP_SERVICE_ID_METHOD_BY_CHANNEL : Z := 1.
Definition CEC_OP_DIG_SERVICE_BCAST_SYSTEM_ATSC_GEN : Z := 0x01.
Definition CEC_OP_DIG_SERVICE_BCAST_SYSTEM_ATSC_CABLE : Z := 0x10.
Definition CEC_OP_DIG_SERVICE_BCAST_SYSTEM_ATSC_SAT : Z := 0x11.
Definition CEC_OP_DIG_SERVICE_BCAST_SYSTEM_ATSC_T : Z := 0x12.
Definition CEC_MSG_RECORD_STATUS : Z := 0x0a.
Definition CEC_MSG_RECORD_TV_SCREEN : Z := 0x0f.
Definition CEC_MSG_CLEAR_ANALOGUE_TIMER : Z := 0x33.
Definition CEC_MSG_CLEAR_DIGITAL_TIMER : Z := 0x99.
Definition CEC_MSG_CLEAR_EXT_TIMER : Z := 0xa1.
Definition CEC_MSG_SET_ANALOGUE_TIMER : Z := 0x34.
Definition CEC_MSG_SET_DIGITAL_TIMER : Z := 0x97.
Definition CEC_MSG_SET_EXT_TIMER : Z := 0xa2.
Definition CEC_MSG_SET_TIMER_PROGRAM_TITLE : Z := 0x67.
Definition CEC_MSG_TIMER_CLEARED_STATUS : Z := 0x43.
Definition CEC_MSG_TIMER_STATUS : Z := 0x35.
Definition CEC_OP_PROG_INFO_NOT_ENOUGH_SPACE : Z := 0x09.
Definition CEC_OP_PROG_INFO_MIGHT_NOT_BE_ENOUGH_SPACE : Z := 0x0b.
Definition CEC_OP_PROG_ERROR_DUPLICATE : Z := 0x0e.
Definition CEC_MSG_CEC_VERSION : Z := 0x9e.
Definition CEC_MSG_GET_CEC_VERSION : Z := 0x9f.
Definition CEC_MSG_GIVE_PHYSICAL_ADDR : Z := 0x83.
Definition CEC_MSG_GET_MENU_LANGUAGE : Z := 0x91.
Definition CEC_MSG_REPORT_PHYSICAL_ADDR : Z := 0x84.
Definition CEC_MSG_SET_MENU_LANGUAGE : Z := 0x32.
Definition CEC_MSG_REPORT_FEATURES : Z := 0xa6.
Definition CEC_OP_FEAT_EXT : Z := 0x80.
Definition CEC_MSG_GIVE_FEATURES : Z := 0xa5.
Definition CEC_MSG_DECK_CONTROL : Z := 0x42.
Definition CEC_MSG_DECK_STATUS : Z := 0x1b.
Definition CEC_MSG_GIVE_DECK_STATUS : Z := 0x1a.
Definition CEC_OP_STATUS_REQ_OFF : Z := 2.
Definition CEC_MSG_PLAY : Z := 0x41.
Definition CEC_MSG_GIVE_TUNER_DEVICE_STATUS : Z := 0x08.
Definition CEC_MSG_SELECT_ANALOGUE_SERVICE : Z := 0x92.
Definition CEC_MSG_SELECT_DIGITAL_SERVICE : Z := 0x93.
Definition CEC_MSG_TUNER_DEVICE_STATUS : Z := 0x07.
Definition CEC_MSG_TUNER_STEP_DECREMENT : Z := 0x06.
Definition CEC_MSG_TUNER_STEP_INCREMENT : Z := 0x05.
Definition CEC_MSG_DEVICE_VENDOR_ID : Z := 0x87.
Definition CEC_MSG_GIVE_DEVICE_VENDOR_ID : Z := 0x8c.
Definition CEC_MSG_VENDOR_COMMAND : Z := 0x89.
Definition CEC_MSG_VENDOR_COMMAND_WITH_ID : Z := 0xa0.
Definition CEC_MSG_VENDOR_REMOTE_BUTTON_DOWN : Z := 0x8a.
Definition CEC_MSG_VENDOR_REMOTE_BUTTON_UP : Z := 0x8b.
Definition CEC_MSG_SET_OSD_STRING : Z := 0x64.
Definition CEC_MSG_GIVE_OSD_NAME : Z := 0x46.
Definition CEC_MSG_SET_OSD_NAME : Z := 0x47.
Definition CEC_MSG_MENU_REQUEST : Z := 0x8d.
Definition CEC_MSG_MENU_STATUS : Z := 0x8e.
Definition CEC_MSG_USER_CONTROL_PRESSED : Z := 0x44.
Definition CEC_MSG_USER_CONTROL_RELEASED : Z := 0x45.
Definition CEC_MSG_GIVE_DEVICE_POWER_STATUS : Z := 0x8f.
Definition CEC_MSG_REPORT_POWER_STATUS : Z := 0x90.
Definition CEC_MSG_FEATURE_ABORT : Z := 0x00.
Definition CEC_MSG_ABORT : Z := 0xff.
Definition CEC_MSG_GIVE_AUDIO_STATUS : Z := 0x71.
Definition CEC_MSG_GIVE_SYSTEM_AUDIO_MODE_STATUS : Z := 0x7d.
Definition CEC_MSG_REPORT_AUDIO_STATUS : Z := 0x7a.
Definition CEC_MSG_REPORT_SHORT_AUDIO_DESCRIPTOR : Z := 0xa3.
Definition CEC_MSG_REQUEST_SHORT_AUDIO_DESCRIPTOR : Z := 0xa4.
Definition CEC_MSG_SET_SYSTEM_AUDIO_MODE : Z := 0x72.
Definition CEC_MSG_SYSTEM_AUDIO_MODE_REQUEST : Z := 0x70.
Definition CEC_MSG_SYSTEM_AUDIO_MODE_STATUS : Z := 0x7e.
Definition CEC_MSG_SET_AUDIO_RATE : Z := 0x9a.
Definition CEC_MSG_INITIATE_ARC : Z := 0xc0.
Definition CEC_MSG_REPORT_ARC_INITIATED : Z := 0xc1.
Definition CEC_MSG_REPORT_ARC_TERMINATED : Z := 0xc2.
Definition CEC_MSG_REQUEST_ARC_INITIATION : Z := 0xc3.
Definition CEC_MSG_REQUEST_ARC_TERMINATION : Z := 0xc4.
Definition CEC_MSG_TERMINATE_ARC : Z := 0xc5.
Definition CEC_MSG_REQUEST_CURRENT_LATENCY : Z := 0xa7.
Definition CEC_MSG_REPORT_CURRENT_LATENCY : Z := 0xa8.
Definition CEC_MSG_CDC_MESSAGE : Z := 0xf8.
Definition CEC_MSG_CDC_HEC_INQUIRE_STATE : Z := 0x00.
Definition CEC_MSG_CDC_HEC_REPORT_STATE : Z := 0x01.
Definition CEC_MSG_CDC_HEC_SET_STATE_ADJACENT : Z := 0x02.
Definition CEC_MSG_CDC_HEC_REQUEST_DEACTIVATION : Z := 0x04.
Definition CEC_MSG_CDC_HEC_NOTIFY_ALIVE : Z := 0x05.
Definition CEC_MSG_CDC_HEC_DISCOVER : Z := 0x06.
Definition CEC_MSG_CDC_HPD_SET_STATE : Z := 0x10.
Definition CEC_MSG_CDC_HPD_REPORT_STATE : Z := 0x11.

(** ** Well-formed messages *)

(** An array of 16 bytes. *)
Definition cec_ok (m : cec_msg) : Prop :=
  length (msg m) = CEC_MAX_MSG_SIZE /\ Forall is_byte (msg m).

Lemma cec_init_ok i d : cec_ok (cec_msg_init i d).
Proof.
  split; [done|]. cbn [msg cec_msg_init]. constructor.
  - apply (Z.mod_pos_bound _ 256). lia.
  - apply Forall_replicate. unfold is_byte. lia.
Qed.

(** ** Arithmetic of the packing *)

Lemma shiftr_div x n : 0 <= n -> x >> n = x / 2 ^ n.
Proof. intros. by apply Z.shiftr_div_pow2. Qed.

Lemma land_mask x n : 0 <= n -> x .& (2 ^ n - 1) = x mod 2 ^ n.
Proof. intros. by rewrite <-Z.land_ones, Z.ones_equiv by done. Qed.

Lemma land_shifted x y n : 0 <= n -> 0 <= y < 2 ^ n -> Z.land (x * 2 ^ n) y = 0.
Proof.
  intros Hn Hy. apply Z.bits_inj'. intros i Hi. rewrite Z.land_spec, Z.bits_0.
  destruct (Z.ltb_spec i n); [by rewrite Z.mul_pow2_bits_low|].
  rewrite <-(Z.mod_small y (2 ^ n)) by done. rewrite Z.mod_pow2_bits_high by lia.
  apply andb_false_r.
Qed.

(** Disjoint bits add. *)
Lemma lor_add x y n : 0 <= n -> 0 <= y < 2 ^ n -> (x << n) .| y = x * 2 ^ n + y.
Proof.
  intros Hn Hy. rewrite Z.shiftl_mul_pow2 by done. pose proof (land_shifted x y n Hn Hy) as H.
  by rewrite Z.add_nocarry_lxor, Z.lxor_lor.
Qed.
