(* ===== verification/CecMsg.v ===== *)
(** * HDMI CEC messages: packing and unpacking (src/include/linux/cec-funcs.h)

    One definition per function, in the order of the source: cec_msg_* pack operands into
    a message, cec_ops_* read them back.  The operands of a cec_ops_* function are the
    components of its result, in the order of its parameters. *)

From S2P Require Import Prelude CLib Cec.
Open Scope Z_scope.
Open Scope cec_scope.

(** ** One Touch Play *)

Definition cec_msg_active_source (phys_addr : Z) : cmd :=
  set_len 4 ;> set_broadcast ;> put 1 CEC_MSG_ACTIVE_SOURCE ;> put 2 (phys_addr >> 8) ;>
  put 3 (phys_addr .& 0xff).

Definition cec_ops_active_source (m : cec_msg) : Z :=
  u16 ((m.[2] << 8) .| m.[3]).

Definition cec_msg_image_view_on : cmd :=
  set_len 2 ;> put 1 CEC_MSG_IMAGE_VIEW_ON.

Definition cec_msg_text_view_on : cmd :=
  set_len 2 ;> put 1 CEC_MSG_TEXT_VIEW_ON.

(** ** Routing Control *)

Definition cec_msg_inactive_source (phys_addr : Z) : cmd :=
  set_len 4 ;> put 1 CEC_MSG_INACTIVE_SOURCE ;> put 2 (phys_addr >> 8) ;>
  put 3 (phys_addr .& 0xff).

Definition cec_ops_inactive_source (m : cec_msg) : Z :=
  u16 ((m.[2] << 8) .| m.[3]).

Definition cec_msg_request_active_source (reply : Z) : cmd :=
  set_len 2 ;> set_broadcast ;> put 1 CEC_MSG_REQUEST_ACTIVE_SOURCE ;>
  set_reply (if negb (reply =? 0) then CEC_MSG_ACTIVE_SOURCE else 0).

Definition cec_msg_routing_information (phys_addr : Z) : cmd :=
  set_len 4 ;> set_broadcast ;> put 1 CEC_MSG_ROUTING_INFORMATION ;> put 2 (phys_addr >> 8) ;>
  put 3 (phys_addr .& 0xff).

Definition cec_ops_routing_information (m : cec_msg) : Z :=
  u16 ((m.[2] << 8) .| m.[3]).

Definition cec_msg_routing_change (reply orig_phys_addr new_phys_addr : Z) : cmd :=
  set_len 6 ;> set_broadcast ;> put 1 CEC_MSG_ROUTING_CHANGE ;> put 2 (orig_phys_addr >> 8) ;>
  put 3 (orig_phys_addr .& 0xff) ;> put 4 (new_phys_addr >> 8) ;>
  put 5 (new_phys_addr .& 0xff) ;>
  set_reply (if negb (reply =? 0) then CEC_MSG_ROUTING_INFORMATION else 0).

Definition cec_ops_routing_change (m : cec_msg) : Z * Z :=
  (u16 ((m.[2] << 8) .| m.[3]), u16 ((m.[4] << 8) .| m.[5])).

Definition cec_msg_set_stream_path (phys_addr : Z) : cmd :=
  set_len 4 ;> set_broadcast ;> put 1 CEC_MSG_SET_STREAM_PATH ;> put 2 (phys_addr >> 8) ;>
  put 3 (phys_addr .& 0xff).

Definition cec_ops_set_stream_path (m : cec_msg) : Z :=
  u16 ((m.[2] << 8) .| m.[3]).

(** ** Standby *)

Definition cec_msg_standby : cmd :=
  set_len 2 ;> put 1 CEC_MSG_STANDBY.

(** ** One Touch Record *)

Definition cec_msg_record_off (reply : Z) : cmd :=
  set_len 2 ;> put 1 CEC_MSG_RECORD_OFF ;>
  set_reply (if negb (reply =? 0) then CEC_MSG_RECORD_STATUS else 0).

(** struct cec_op_digital_service_id.  The union is three 16 bit words: the transport,
    service and network ids of arib and dvb, the transport id and program number of atsc,
    and for a channel the format in the low byte of the first word, major and minor number
    in the others. *)
Record cec_op_digital_service_id := DigitalServiceId {
  service_id_method : Z;
  dig_bcast_system : Z;
  word0 : Z;
  word1 : Z;
  word2 : Z
}.

Definition transport_id := word0.
Definition service_id := word1.
Definition orig_network_id := word2.
Definition program_number := word1.
Definition channel_number_fmt (d : cec_op_digital_service_id) : Z := u8 (word0 d).
Definition channel_major := word1.
Definition channel_minor := word2.
(** The first word after a store of the format. *)
Definition channel_word (v : Z) (d : cec_op_digital_service_id) : Z :=
  (word0 d .& 0xff00) .| v.

(** The systems of the switch. *)
Definition is_atsc (system : Z) : bool :=
  (system =? CEC_OP_DIG_SERVICE_BCAST_SYSTEM_ATSC_GEN)
  || (system =? CEC_OP_DIG_SERVICE_BCAST_SYSTEM_ATSC_CABLE)
  || (system =? CEC_OP_DIG_SERVICE_BCAST_SYSTEM_ATSC_SAT)
  || (system =? CEC_OP_DIG_SERVICE_BCAST_SYSTEM_ATSC_T).

(** struct cec_op_record_src.  A member of its union is only used when the type says so. *)
Record cec_op_analog := Analog { ana_bcast_type : Z; ana_freq : Z; bcast_system : Z }.
Record cec_op_record_src := RecordSrc {
  type : Z;
  rec_digital : cec_op_digital_service_id;
  rec_analog : cec_op_analog;
  rec_plug : Z;
  rec_phys_addr : Z
}.

(** Channels have their number in the union, ATSC systems two words, all others three. *)
Definition cec_set_digital_service_id (off : nat) (digital : cec_op_digital_service_id) : cmd :=
  put off ((service_id_method digital << 7) .| dig_bcast_system digital) ;>
  (if service_id_method digital =? CEC_OP_SERVICE_ID_METHOD_BY_CHANNEL then
     put (off + 1) ((channel_number_fmt digital << 2) .| (channel_major digital >> 8)) ;>
     put (off + 2) (channel_major digital .& 0xff) ;>
     put (off + 3) (channel_minor digital >> 8) ;>
     put (off + 4) (channel_minor digital .& 0xff) ;>
     put (off + 5) 0 ;> put (off + 6) 0
   else if is_atsc (dig_bcast_system digital) then
     put (off + 1) (transport_id digital >> 8) ;> put (off + 2) (transport_id digital .& 0xff) ;>
     put (off + 3) (program_number digital >> 8) ;>
     put (off + 4) (program_number digital .& 0xff) ;>
     put (off + 5) 0 ;> put (off + 6) 0
   else
     put (off + 1) (transport_id digital >> 8) ;> put (off + 2) (transport_id digital .& 0xff) ;>
     put (off + 3) (service_id digital >> 8) ;> put (off + 4) (service_id digital .& 0xff) ;>
     put (off + 5) (orig_network_id digital >> 8) ;>
     put (off + 6) (orig_network_id digital .& 0xff)).

(** The other systems are read through the dvb member of the union. *)
Definition cec_get_digital_service_id (off : nat) (m : cec_msg)
    (digital : cec_op_digital_service_id) : cec_op_digital_service_id :=
  let service_id_method := m.[off] >> 7 in
  let dig_bcast_system := m.[off] .& 0x7f in
  if service_id_method =? CEC_OP_SERVICE_ID_METHOD_BY_CHANNEL then
    DigitalServiceId service_id_method dig_bcast_system
      (channel_word (u8 (m.[off + 1] >> 2)) digital)
      (u16 (((m.[off + 1] .& 3) << 6) .| m.[off + 2]))
      (u16 ((m.[off + 3] << 8) .| m.[off + 4]))
  else
    DigitalServiceId service_id_method dig_bcast_system
      (u16 ((m.[off + 1] << 8) .| m.[off + 2]))
      (u16 ((m.[off + 3] << 8) .| m.[off + 4]))
      (u16 ((m.[off + 5] << 8) .| m.[off + 6])).

Definition cec_msg_record_on_own : cmd :=
  set_len 3 ;> put 1 CEC_MSG_RECORD_ON ;> put 2 CEC_OP_RECORD_SRC_OWN.

Definition cec_msg_record_on_digital (digital : cec_op_digital_service_id) : cmd :=
  set_len 10 ;> put 1 CEC_MSG_RECORD_ON ;> put 2 CEC_OP_RECORD_SRC_DIGITAL ;>
  cec_set_digital_service_id 3 digital.

Definition cec_msg_record_on_analog (ana_bcast_type ana_freq bcast_system : Z) : cmd :=
  set_len 7 ;> put 1 CEC_MSG_RECORD_ON ;> put 2 CEC_OP_RECORD_SRC_ANALOG ;>
  put 3 ana_bcast_type ;> put 4 (ana_freq >> 8) ;> put 5 (ana_freq .& 0xff) ;>
  put 6 bcast_system.

Definition cec_msg_record_on_plug (plug : Z) : cmd :=
  set_len 4 ;> put 1 CEC_MSG_RECORD_ON ;> put 2 CEC_OP_RECORD_SRC_EXT_PLUG ;> put 3 plug.

Definition cec_msg_record_on_phys_addr (phys_addr : Z) : cmd :=
  set_len 5 ;> put 1 CEC_MSG_RECORD_ON ;> put 2 CEC_OP_RECORD_SRC_EXT_PHYS_ADDR ;>
  put 3 (phys_addr >> 8) ;> put 4 (phys_addr .& 0xff).

Definition cec_msg_record_on (reply : Z) (rec_src : cec_op_record_src) : cmd :=
  (if type rec_src =? CEC_OP_RECORD_SRC_OWN then cec_msg_record_on_own
   else if type rec_src =? CEC_OP_RECORD_SRC_DIGITAL then
     cec_msg_record_on_digital (rec_digital rec_src)
   else if type rec_src =? CEC_OP_RECORD_SRC_ANALOG then
     cec_msg_record_on_analog (ana_bcast_type (rec_analog rec_src))
       (ana_freq (rec_analog rec_src)) (bcast_system (rec_analog rec_src))
   else if type rec_src =? CEC_OP_RECORD_SRC_EXT_PLUG then
     cec_msg_record_on_plug (rec_plug rec_src)
   else if type rec_src =? CEC_OP_RECORD_SRC_EXT_PHYS_ADDR then
     cec_msg_record_on_phys_addr (rec_phys_addr rec_src)
   else skip) ;>
  set_reply (if negb (reply =? 0) then CEC_MSG_RECORD_STATUS else 0).

Definition cec_ops_record_on (m : cec_msg) (rec_src : cec_op_record_src) : cec_op_record_src :=
  let t := m.[2] in
  if t =? CEC_OP_RECORD_SRC_DIGITAL then
    RecordSrc t (cec_get_digital_service_id 3 m (rec_digital rec_src)) (rec_analog rec_src)
      (rec_plug rec_src) (rec_phys_addr rec_src)
  else if t =? CEC_OP_RECORD_SRC_ANALOG then
    RecordSrc t (rec_digital rec_src) (Analog m.[3] (u16 ((m.[4] << 8) .| m.[5])) m.[6])
      (rec_plug rec_src) (rec_phys_addr rec_src)
  else if t =? CEC_OP_RECORD_SRC_EXT_PLUG then
    RecordSrc t (rec_digital rec_src) (rec_analog rec_src) m.[3] (rec_phys_addr rec_src)
  else if t =? CEC_OP_RECORD_SRC_EXT_PHYS_ADDR then
    RecordSrc t (rec_digital rec_src) (rec_analog rec_src) (rec_plug rec_src)
      (u16 ((m.[3] << 8) .| m.[4]))
  else
    RecordSrc t (rec_digital rec_src) (rec_analog rec_src) (rec_plug rec_src)
      (rec_phys_addr rec_src).

Definition cec_msg_record_status (rec_status : Z) : cmd :=
  set_len 3 ;> put 1 CEC_MSG_RECORD_STATUS ;> put 2 rec_status.

Definition cec_ops_record_status (m : cec_msg) : Z :=
  m.[2].

Definition cec_msg_record_tv_screen (reply : Z) : cmd :=
  set_len 2 ;> put 1 CEC_MSG_RECORD_TV_SCREEN ;>
  set_reply (if negb (reply =? 0) then CEC_MSG_RECORD_ON else 0).

(** ** Timer Programming *)

(** Whether a duration goes with the status. *)
Definition has_duration (prog_info prog_error : Z) : bool :=
  (prog_info =? CEC_OP_PROG_INFO_NOT_ENOUGH_SPACE)
  || (prog_info =? CEC_OP_PROG_INFO_MIGHT_NOT_BE_ENOUGH_SPACE)
  || (prog_error =? CEC_OP_PROG_ERROR_DUPLICATE).

Definition cec_msg_timer_status
    (timer_overlap_warning media_info prog_info prog_error duration_hr duration_min : Z) : cmd :=
  set_len 3 ;> put 1 CEC_MSG_TIMER_STATUS ;>
  put 2 ((timer_overlap_warning << 7) .| (media_info << 5) .|
         (if negb (prog_info =? 0) then 0x10 else 0) .|
         (if negb (prog_info =? 0) then prog_info else prog_error)) ;>
  if_cmd (has_duration prog_info prog_error)
    (add_len 2 ;>
     put 3 (((duration_hr / 10) << 4) .| (duration_hr mod 10)) ;>
     put 4 (((duration_min / 10) << 4) .| (duration_min mod 10))).

Definition cec_ops_timer_status (m : cec_msg) : Z * Z * Z * Z * Z * Z :=
  let '(prog_info, prog_error) :=
    if negb ((m.[2] .& 0x10) =? 0) then (m.[2] .& 0xf, 0) else (0, m.[2] .& 0xf) in
  let '(duration_hr, duration_min) :=
    if has_duration prog_info prog_error
    then (u8 ((m.[3] >> 4) * 10 + (m.[3] .& 0xf)), u8 ((m.[4] >> 4) * 10 + (m.[4] .& 0xf)))
    else (0, 0) in
  (u8 (m.[2] >> 7), u8 ((m.[2] >> 5) .& 3), prog_info, prog_error, duration_hr, duration_min).

Definition cec_msg_timer_cleared_status (timer_cleared_status : Z) : cmd :=
  set_len 3 ;> put 1 CEC_MSG_TIMER_CLEARED_STATUS ;> put 2 timer_cleared_status.

Definition cec_ops_timer_cleared_status (m : cec_msg) : Z :=
  m.[2].

Definition cec_msg_clear_analogue_timer
    (reply day month start_hr start_min duration_hr duration_min recording_seq ana_bcast_type ana_freq bcast_system : Z) : cmd :=
  set_len 13 ;> put 1 CEC_MSG_CLEAR_ANALOGUE_TIMER ;> put 2 day ;> put 3 month ;>
  put 4 (((start_hr / 10) << 4) .| (start_hr mod 10)) ;>
  put 5 (((start_min / 10) << 4) .| (start_min mod 10)) ;>
  put 6 (((duration_hr / 10) << 4) .| (duration_hr mod 10)) ;>
  put 7 (((duration_min / 10) << 4) .| (duration_min mod 10)) ;> put 8 recording_seq ;>
  put 9 ana_bcast_type ;> put 10 (ana_freq >> 8) ;> put 11 (ana_freq .& 0xff) ;>
  put 12 bcast_system ;>
  set_reply (if negb (reply =? 0) then CEC_MSG_TIMER_CLEARED_STATUS else 0).

Definition cec_ops_clear_analogue_timer (m : cec_msg) : Z * Z * Z * Z * Z * Z * Z * Z * Z * Z :=
  (m.[2], m.[3], u8 ((m.[4] >> 4) * 10 + (m.[4] .& 0xf)),
   u8 ((m.[5] >> 4) * 10 + (m.[5] .& 0xf)), u8 ((m.[6] >> 4) * 10 + (m.[6] .& 0xf)),
   u8 ((m.[7] >> 4) * 10 + (m.[7] .& 0xf)), m.[8], m.[9], u16 ((m.[10] << 8) .| m.[11]),
   m.[12]).

Definition cec_msg_clear_digital_timer
    (reply day month start_hr start_min duration_hr duration_min recording_seq : Z) (digital : cec_op_digital_service_id) : cmd :=
  set_len 16 ;> set_reply (if negb (reply =? 0) then CEC_MSG_TIMER_CLEARED_STATUS else 0) ;>
  put 1 CEC_MSG_CLEAR_DIGITAL_TIMER ;> put 2 day ;> put 3 month ;>
  put 4 (((start_hr / 10) << 4) .| (start_hr mod 10)) ;>
  put 5 (((start_min / 10) << 4) .| (start_min mod 10)) ;>
  put 6 (((duration_hr / 10) << 4) .| (duration_hr mod 10)) ;>
  put 7 (((duration_min / 10) << 4) .| (duration_min mod 10)) ;> put 8 recording_seq ;>
  cec_set_digital_service_id 9 digital.

Definition cec_ops_clear_digital_timer (m : cec_msg) (digital : cec_op_digital_service_id)
    : Z * Z * Z * Z * Z * Z * Z * cec_op_digital_service_id :=
  (m.[2], m.[3], u8 ((m.[4] >> 4) * 10 + (m.[4] .& 0xf)),
   u8 ((m.[5] >> 4) * 10 + (m.[5] .& 0xf)), u8 ((m.[6] >> 4) * 10 + (m.[6] .& 0xf)),
   u8 ((m.[7] >> 4) * 10 + (m.[7] .& 0xf)), m.[8], cec_get_digital_service_id 9 m digital).

Definition cec_msg_clear_ext_timer
    (reply day month start_hr start_min duration_hr duration_min recording_seq ext_src_spec plug phys_addr : Z) : cmd :=
  set_len 13 ;> put 1 CEC_MSG_CLEAR_EXT_TIMER ;> put 2 day ;> put 3 month ;>
  put 4 (((start_hr / 10) << 4) .| (start_hr mod 10)) ;>
  put 5 (((start_min / 10) << 4) .| (start_min mod 10)) ;>
  put 6 (((duration_hr / 10) << 4) .| (duration_hr mod 10)) ;>
  put 7 (((duration_min / 10) << 4) .| (duration_min mod 10)) ;> put 8 recording_seq ;>
  put 9 ext_src_spec ;> put 10 plug ;> put 11 (phys_addr >> 8) ;> put 12 (phys_addr .& 0xff) ;>
  set_reply (if negb (reply =? 0) then CEC_MSG_TIMER_CLEARED_STATUS else 0).

Definition cec_ops_clear_ext_timer (m : cec_msg) : Z * Z * Z * Z * Z * Z * Z * Z * Z * Z :=
  (m.[2], m.[3], u8 ((m.[4] >> 4) * 10 + (m.[4] .& 0xf)),
   u8 ((m.[5] >> 4) * 10 + (m.[5] .& 0xf)), u8 ((m.[6] >> 4) * 10 + (m.[6] .& 0xf)),
   u8 ((m.[7] >> 4) * 10 + (m.[7] .& 0xf)), m.[8], m.[9], m.[10],
   u16 ((m.[11] << 8) .| m.[12])).

Definition cec_msg_set_analogue_timer
    (reply day month start_hr start_min duration_hr duration_min recording_seq ana_bcast_type ana_freq bcast_system : Z) : cmd :=
  set_len 13 ;> put 1 CEC_MSG_SET_ANALOGUE_TIMER ;> put 2 day ;> put 3 month ;>
  put 4 (((start_hr / 10) << 4) .| (start_hr mod 10)) ;>
  put 5 (((start_min / 10) << 4) .| (start_min mod 10)) ;>
  put 6 (((duration_hr / 10) << 4) .| (duration_hr mod 10)) ;>
  put 7 (((duration_min / 10) << 4) .| (duration_min mod 10)) ;> put 8 recording_seq ;>
  put 9 ana_bcast_type ;> put 10 (ana_freq >> 8) ;> put 11 (ana_freq .& 0xff) ;>
  put 12 bcast_system ;> set_reply (if negb (reply =? 0) then CEC_MSG_TIMER_STATUS else 0).

Definition cec_ops_set_analogue_timer (m : cec_msg) : Z * Z * Z * Z * Z * Z * Z * Z * Z * Z :=
  (m.[2], m.[3], u8 ((m.[4] >> 4) * 10 + (m.[4] .& 0xf)),
   u8 ((m.[5] >> 4) * 10 + (m.[5] .& 0xf)), u8 ((m.[6] >> 4) * 10 + (m.[6] .& 0xf)),
   u8 ((m.[7] >> 4) * 10 + (m.[7] .& 0xf)), m.[8], m.[9], u16 ((m.[10] << 8) .| m.[11]),
   m.[12]).

Definition cec_msg_set_digital_timer
    (reply day month start_hr start_min duration_hr duration_min recording_seq : Z) (digital : cec_op_digital_service_id) : cmd :=
  set_len 16 ;> set_reply (if negb (reply =? 0) then CEC_MSG_TIMER_STATUS else 0) ;>
  put 1 CEC_MSG_SET_DIGITAL_TIMER ;> put 2 day ;> put 3 month ;>
  put 4 (((start_hr / 10) << 4) .| (start_hr mod 10)) ;>
  put 5 (((start_min / 10) << 4) .| (start_min mod 10)) ;>
  put 6 (((duration_hr / 10) << 4) .| (duration_hr mod 10)) ;>
  put 7 (((duration_min / 10) << 4) .| (duration_min mod 10)) ;> put 8 recording_seq ;>
  cec_set_digital_service_id 9 digital.

Definition cec_ops_set_digital_timer (m : cec_msg) (digital : cec_op_digital_service_id)
    : Z * Z * Z * Z * Z * Z * Z * cec_op_digital_service_id :=
  (m.[2], m.[3], u8 ((m.[4] >> 4) * 10 + (m.[4] .& 0xf)),
   u8 ((m.[5] >> 4) * 10 + (m.[5] .& 0xf)), u8 ((m.[6] >> 4) * 10 + (m.[6] .& 0xf)),
   u8 ((m.[7] >> 4) * 10 + (m.[7] .& 0xf)), m.[8], cec_get_digital_service_id 9 m digital).

Definition cec_msg_set_ext_timer
    (reply day month start_hr start_min duration_hr duration_min recording_seq ext_src_spec plug phys_addr : Z) : cmd :=
  set_len 13 ;> put 1 CEC_MSG_SET_EXT_TIMER ;> put 2 day ;> put 3 month ;>
  put 4 (((start_hr / 10) << 4) .| (start_hr mod 10)) ;>
  put 5 (((start_min / 10) << 4) .| (start_min mod 10)) ;>
  put 6 (((duration_hr / 10) << 4) .| (duration_hr mod 10)) ;>
  put 7 (((duration_min / 10) << 4) .| (duration_min mod 10)) ;> put 8 recording_seq ;>
  put 9 ext_src_spec ;> put 10 plug ;> put 11 (phys_addr >> 8) ;> put 12 (phys_addr .& 0xff) ;>
  set_reply (if negb (reply =? 0) then CEC_MSG_TIMER_STATUS else 0).

Definition cec_ops_set_ext_timer (m : cec_msg) : Z * Z * Z * Z * Z * Z * Z * Z * Z * Z :=
  (m.[2], m.[3], u8 ((m.[4] >> 4) * 10 + (m.[4] .& 0xf)),
   u8 ((m.[5] >> 4) * 10 + (m.[5] .& 0xf)), u8 ((m.[6] >> 4) * 10 + (m.[6] .& 0xf)),
   u8 ((m.[7] >> 4) * 10 + (m.[7] .& 0xf)), m.[8], m.[9], m.[10],
   u16 ((m.[11] << 8) .| m.[12])).

(** A C string without its NUL, cut to what fits. *)
Definition cec_msg_set_timer_program_title (prog_title : bytes) : cmd :=
  let l := Z.min (strlen prog_title) 14 in
  set_len (2 + l) ;> put 1 CEC_MSG_SET_TIMER_PROGRAM_TITLE ;> copy 2 (prog_title ++ [0]) l.

(** What is written to the output buffer, its NUL included. *)
Definition cec_ops_set_timer_program_title (m : cec_msg) : bytes :=
  let l := Z.min (if 2 <? len m then len m - 2 else 0) 14 in
  slice 2 (Z.to_nat l) (msg m) ++ [0].

(** ** System Information *)

Definition cec_msg_cec_version (cec_version : Z) : cmd :=
  set_len 3 ;> put 1 CEC_MSG_CEC_VERSION ;> put 2 cec_version.

Definition cec_ops_cec_version (m : cec_msg) : Z :=
  m.[2].

Definition cec_msg_get_cec_version (reply : Z) : cmd :=
  set_len 2 ;> put 1 CEC_MSG_GET_CEC_VERSION ;>
  set_reply (if negb (reply =? 0) then CEC_MSG_CEC_VERSION else 0).

Definition cec_msg_report_physical_addr (phys_addr prim_devtype : Z) : cmd :=
  set_len 5 ;> set_broadcast ;> put 1 CEC_MSG_REPORT_PHYSICAL_ADDR ;> put 2 (phys_addr >> 8) ;>
  put 3 (phys_addr .& 0xff) ;> put 4 prim_devtype.

Definition cec_ops_report_physical_addr (m : cec_msg) : Z * Z :=
  (u16 ((m.[2] << 8) .| m.[3]), m.[4]).

Definition cec_msg_give_physical_addr (reply : Z) : cmd :=
  set_len 2 ;> put 1 CEC_MSG_GIVE_PHYSICAL_ADDR ;>
  set_reply (if negb (reply =? 0) then CEC_MSG_REPORT_PHYSICAL_ADDR else 0).

Definition cec_msg_set_menu_language (language : bytes) : cmd :=
  set_len 5 ;> set_broadcast ;> put 1 CEC_MSG_SET_MENU_LANGUAGE ;> copy 2 language 3.

Definition cec_ops_set_menu_language (m : cec_msg) : bytes := slice 2 3 (msg m) ++ [0].

Definition cec_msg_get_menu_language (reply : Z) : cmd :=
  set_len 2 ;> put 1 CEC_MSG_GET_MENU_LANGUAGE ;>
  set_reply (if negb (reply =? 0) then CEC_MSG_SET_MENU_LANGUAGE else 0).

Definition cec_msg_report_features
    (cec_version all_device_types rc_profile dev_features : Z) : cmd :=
  set_len 6 ;> set_broadcast ;> put 1 CEC_MSG_REPORT_FEATURES ;> put 2 cec_version ;>
  put 3 all_device_types ;> put 4 rc_profile ;> put 5 dev_features.

(** Whether a feature byte has the extension bit. *)
Definition is_ext (v : Z) : bool := negb ((v .& CEC_OP_FEAT_EXT) =? 0).

(** while (p < end && ( *p & CEC_OP_FEAT_EXT)) p++; with [n] the room left before the end. *)
Fixpoint skip_ext (n : nat) (m : cec_msg) (p : nat) : nat :=
  match n with
  | O => p
  | S n => if is_ext m.[p] then skip_ext n m (S p) else p
  end.

(** The pointers into the message are their offsets, [None] is NULL. *)
Definition cec_ops_report_features (m : cec_msg) : Z * Z * option nat * option nat :=
  let p := skip_ext (14 - 4) m 4 in
  let '(p, dev_features) :=
    if negb (is_ext m.[p]) then (skip_ext (15 - p) m p, Some (p + 1)%nat) else (p, None) in
  if is_ext m.[p] then (m.[2], m.[3], None, None)
  else (m.[2], m.[3], Some 4%nat, dev_features).

Definition cec_msg_give_features (reply : Z) : cmd :=
  set_len 2 ;> put 1 CEC_MSG_GIVE_FEATURES ;>
  set_reply (if negb (reply =? 0) then CEC_MSG_REPORT_FEATURES else 0).

(** ** Deck Control *)

Definition cec_msg_deck_control (deck_control_mode : Z) : cmd :=
  set_len 3 ;> put 1 CEC_MSG_DECK_CONTROL ;> put 2 deck_control_mode.

Definition cec_ops_deck_control (m : cec_msg) : Z :=
  m.[2].

Definition cec_msg_deck_status (deck_info : Z) : cmd :=
  set_len 3 ;> put 1 CEC_MSG_DECK_STATUS ;> put 2 deck_info.

Definition cec_ops_deck_status (m : cec_msg) : Z :=
  m.[2].

Definition cec_msg_give_deck_status (reply status_req : Z) : cmd :=
  set_len 3 ;> put 1 CEC_MSG_GIVE_DECK_STATUS ;> put 2 status_req ;>
  set_reply (if negb (reply =? 0) && negb (status_req =? CEC_OP_STATUS_REQ_OFF) then CEC_MSG_DECK_STATUS else 0).

Definition cec_ops_give_deck_status (m : cec_msg) : Z :=
  m.[2].

Definition cec_msg_play (play_mode : Z) : cmd :=
  set_len 3 ;> put 1 CEC_MSG_PLAY ;> put 2 play_mode.

Definition cec_ops_play (m : cec_msg) : Z :=
  m.[2].

(** ** Tuner Control *)

Record cec_op_tuner_device_info := TunerDeviceInfo {
  rec_flag : Z;
  tuner_display_info : Z;
  is_analog : Z;
  tuner_digital : cec_op_digital_service_id;
  tuner_analog : cec_op_analog
}.

Definition cec_msg_tuner_device_status_analog
    (rec_flag tuner_display_info ana_bcast_type ana_freq bcast_system : Z) : cmd :=
  set_len 7 ;> put 1 CEC_MSG_TUNER_DEVICE_STATUS ;>
  put 2 ((rec_flag << 7) .| tuner_display_info) ;> put 3 ana_bcast_type ;>
  put 4 (ana_freq >> 8) ;> put 5 (ana_freq .& 0xff) ;> put 6 bcast_system.

Definition cec_msg_tuner_device_status_digital
    (rec_flag tuner_display_info : Z) (digital : cec_op_digital_service_id) : cmd :=
  set_len 10 ;> put 1 CEC_MSG_TUNER_DEVICE_STATUS ;>
  put 2 ((rec_flag << 7) .| tuner_display_info) ;> cec_set_digital_service_id 3 digital.

Definition cec_msg_tuner_device_status (tuner_dev_info : cec_op_tuner_device_info) : cmd :=
  if negb (is_analog tuner_dev_info =? 0) then
    cec_msg_tuner_device_status_analog (rec_flag tuner_dev_info)
      (tuner_display_info tuner_dev_info) (ana_bcast_type (tuner_analog tuner_dev_info))
      (ana_freq (tuner_analog tuner_dev_info)) (bcast_system (tuner_analog tuner_dev_info))
  else
    cec_msg_tuner_device_status_digital (rec_flag tuner_dev_info)
      (tuner_display_info tuner_dev_info) (tuner_digital tuner_dev_info).

Definition cec_ops_tuner_device_status (m : cec_msg) (tuner_dev_info : cec_op_tuner_device_info)
    : cec_op_tuner_device_info :=
  let analog := len m <? 10 in
  let rec_flag := u8 (m.[2] >> 7) in
  let display := u8 (m.[2] .& 0x7f) in
  if analog then
    TunerDeviceInfo rec_flag display 1 (tuner_digital tuner_dev_info)
      (Analog m.[3] (u16 ((m.[4] << 8) .| m.[5])) m.[6])
  else
    TunerDeviceInfo rec_flag display 0
      (cec_get_digital_service_id 3 m (tuner_digital tuner_dev_info))
      (tuner_analog tuner_dev_info).

Definition cec_msg_give_tuner_device_status (reply status_req : Z) : cmd :=
  set_len 3 ;> put 1 CEC_MSG_GIVE_TUNER_DEVICE_STATUS ;> put 2 status_req ;>
  set_reply (if negb (reply =? 0) && negb (status_req =? CEC_OP_STATUS_REQ_OFF) then CEC_MSG_TUNER_DEVICE_STATUS else 0).

Definition cec_ops_give_tuner_device_status (m : cec_msg) : Z :=
  m.[2].

Definition cec_msg_select_analogue_service (ana_bcast_type ana_freq bcast_system : Z) : cmd :=
  set_len 6 ;> put 1 CEC_MSG_SELECT_ANALOGUE_SERVICE ;> put 2 ana_bcast_type ;>
  put 3 (ana_freq >> 8) ;> put 4 (ana_freq .& 0xff) ;> put 5 bcast_system.

Definition cec_ops_select_analogue_service (m : cec_msg) : Z * Z * Z :=
  (m.[2], u16 ((m.[3] << 8) .| m.[4]), m.[5]).

Definition cec_msg_select_digital_service (digital : cec_op_digital_service_id) : cmd :=
  set_len 9 ;> put 1 CEC_MSG_SELECT_DIGITAL_SERVICE ;> cec_set_digital_service_id 2 digital.

Definition cec_ops_select_digital_service (m : cec_msg) (digital : cec_op_digital_service_id)
    : cec_op_digital_service_id :=
  cec_get_digital_service_id 2 m digital.

Definition cec_msg_tuner_step_decrement : cmd :=
  set_len 2 ;> put 1 CEC_MSG_TUNER_STEP_DECREMENT.

Definition cec_msg_tuner_step_increment : cmd :=
  set_len 2 ;> put 1 CEC_MSG_TUNER_STEP_INCREMENT.

(** ** Vendor Specific Commands *)

Definition cec_msg_device_vendor_id (vendor_id : Z) : cmd :=
  set_len 5 ;> set_broadcast ;> put 1 CEC_MSG_DEVICE_VENDOR_ID ;> put 2 (vendor_id >> 16) ;>
  put 3 ((vendor_id >> 8) .& 0xff) ;> put 4 (vendor_id .& 0xff).

Definition cec_ops_device_vendor_id (m : cec_msg) : Z :=
  u32 ((m.[2] << 16) .| (m.[3] << 8) .| m.[4]).

Definition cec_msg_give_device_vendor_id (reply : Z) : cmd :=
  set_len 2 ;> put 1 CEC_MSG_GIVE_DEVICE_VENDOR_ID ;>
  set_reply (if negb (reply =? 0) then CEC_MSG_DEVICE_VENDOR_ID else 0).

Definition cec_msg_vendor_command (size : Z) (vendor_cmd : bytes) : cmd :=
  let size := if 14 <? size then 14 else size in
  set_len (2 + size) ;> put 1 CEC_MSG_VENDOR_COMMAND ;> copy 2 vendor_cmd size.

(** The size, and that many bytes from the pointer that is returned. *)
Definition cec_ops_vendor_command (m : cec_msg) : Z * bytes :=
  let size := u8 (u32 (len m - 2)) in
  let size := if 14 <? size then 14 else size in
  (size, slice 2 (Z.to_nat size) (msg m)).

Definition cec_msg_vendor_command_with_id (vendor_id size : Z) (vendor_cmd : bytes) : cmd :=
  let size := if 11 <? size then 11 else size in
  set_len (5 + size) ;> put 1 CEC_MSG_VENDOR_COMMAND_WITH_ID ;> put 2 (vendor_id >> 16) ;>
  put 3 ((vendor_id >> 8) .& 0xff) ;> put 4 (vendor_id .& 0xff) ;> copy 5 vendor_cmd size.

Definition cec_ops_vendor_command_with_id (m : cec_msg) : Z * Z * bytes :=
  let size := u8 (u32 (len m - 5)) in
  let size := if 11 <? size then 11 else size in
  (u32 ((m.[2] << 16) .| (m.[3] << 8) .| m.[4]), size, slice 5 (Z.to_nat size) (msg m)).

Definition cec_msg_vendor_remote_button_down (size : Z) (rc_code : bytes) : cmd :=
  let size := if 14 <? size then 14 else size in
  set_len (2 + size) ;> put 1 CEC_MSG_VENDOR_REMOTE_BUTTON_DOWN ;> copy 2 rc_code size.

Definition cec_ops_vendor_remote_button_down (m : cec_msg) : Z * bytes :=
  let size := u8 (u32 (len m - 2)) in
  let size := if 14 <? size then 14 else size in
  (size, slice 2 (Z.to_nat size) (msg m)).

Definition cec_msg_vendor_remote_button_up : cmd :=
  set_len 2 ;> put 1 CEC_MSG_VENDOR_REMOTE_BUTTON_UP.

(** ** OSD Display *)

Definition cec_msg_set_osd_string (disp_ctl : Z) (osd : bytes) : cmd :=
  let l := Z.min (strlen osd) 13 in
  set_len (3 + l) ;> put 1 CEC_MSG_SET_OSD_STRING ;> put 2 disp_ctl ;> copy 3 (osd ++ [0]) l.

Definition cec_ops_set_osd_string (m : cec_msg) : Z * bytes :=
  let l := Z.min (if 3 <? len m then len m - 3 else 0) 13 in
  (m.[2], slice 3 (Z.to_nat l) (msg m) ++ [0]).

(** ** Device OSD Transfer *)

Definition cec_msg_set_osd_name (name : bytes) : cmd :=
  let l := Z.min (strlen name) 14 in
  set_len (2 + l) ;> put 1 CEC_MSG_SET_OSD_NAME ;> copy 2 (name ++ [0]) l.

Definition cec_ops_set_osd_name (m : cec_msg) : bytes :=
  let l := Z.min (if 2 <? len m then len m - 2 else 0) 14 in
  slice 2 (Z.to_nat l) (msg m) ++ [0].

Definition cec_msg_give_osd_name (reply : Z) : cmd :=
  set_len 2 ;> put 1 CEC_MSG_GIVE_OSD_NAME ;>
  set_reply (if negb (reply =? 0) then CEC_MSG_SET_OSD_NAME else 0).

(** ** Device Menu Control *)

Definition cec_msg_menu_status (menu_state : Z) : cmd :=
  set_len 3 ;> put 1 CEC_MSG_MENU_STATUS ;> put 2 menu_state.

Definition cec_ops_menu_status (m : cec_msg) : Z :=
  m.[2].

Definition cec_msg_menu_request (reply menu_req : Z) : cmd :=
  set_len 3 ;> put 1 CEC_MSG_MENU_REQUEST ;> put 2 menu_req ;>
  set_reply (if negb (reply =? 0) then CEC_MSG_MENU_STATUS else 0).

Definition cec_ops_menu_request (m : cec_msg) : Z :=
  m.[2].

(** struct cec_op_ui_command; the one byte members of the union are all play_mode. *)
Record cec_op_channel_data := ChannelData { number_fmt : Z; major : Z; minor : Z }.
Record cec_op_ui_command := UiCommand {
  ui_cmd : Z;
  has_opt_arg : Z;
  channel_identifier : cec_op_channel_data;
  play_mode : Z
}.

(** The commands with one byte for their optional operand. *)
Definition has_byte_operand (ui_cmd : Z) : bool :=
  (ui_cmd =? 0x56) || (ui_cmd =? 0x57) || (ui_cmd =? 0x60) || (ui_cmd =? 0x68)
  || (ui_cmd =? 0x69) || (ui_cmd =? 0x6a).

Definition cec_msg_user_control_pressed (c : cec_op_ui_command) : cmd :=
  set_len 3 ;> put 1 CEC_MSG_USER_CONTROL_PRESSED ;> put 2 (ui_cmd c) ;>
  (if has_opt_arg c =? 0 then skip
   else if has_byte_operand (ui_cmd c) then add_len 1 ;> put 3 (play_mode c)
   else if ui_cmd c =? 0x67 then
     add_len 4 ;>
     put 3 ((number_fmt (channel_identifier c) << 2) .| (major (channel_identifier c) >> 8)) ;>
     put 4 (major (channel_identifier c) .& 0xff) ;>
     put 5 (minor (channel_identifier c) >> 8) ;>
     put 6 (minor (channel_identifier c) .& 0xff)
   else skip).

Definition cec_ops_user_control_pressed (m : cec_msg) (c : cec_op_ui_command)
    : cec_op_ui_command :=
  if len m =? 3 then UiCommand m.[2] 0 (channel_identifier c) (play_mode c)
  else if has_byte_operand m.[2] then UiCommand m.[2] 1 (channel_identifier c) m.[3]
  else if m.[2] =? 0x67 then
    if len m <? 7 then UiCommand m.[2] 0 (channel_identifier c) (play_mode c)
    else
      UiCommand m.[2] 1
        (ChannelData (u8 (m.[3] >> 2)) (u16 (((m.[3] .& 3) << 6) .| m.[4]))
           (u16 ((m.[5] << 8) .| m.[6])))
        (play_mode c)
  else UiCommand m.[2] 0 (channel_identifier c) (play_mode c).

Definition cec_msg_user_control_released : cmd :=
  set_len 2 ;> put 1 CEC_MSG_USER_CONTROL_RELEASED.

(** ** Remote Control Passthrough *)

(** ** Power Status *)

Definition cec_msg_report_power_status (pwr_state : Z) : cmd :=
  set_len 3 ;> put 1 CEC_MSG_REPORT_POWER_STATUS ;> put 2 pwr_state.

Definition cec_ops_report_power_status (m : cec_msg) : Z :=
  m.[2].

Definition cec_msg_give_device_power_status (reply : Z) : cmd :=
  set_len 2 ;> put 1 CEC_MSG_GIVE_DEVICE_POWER_STATUS ;>
  set_reply (if negb (reply =? 0) then CEC_MSG_REPORT_POWER_STATUS else 0).

(** ** General Protocol Messages *)

Definition cec_msg_feature_abort (abort_msg reason : Z) : cmd :=
  set_len 4 ;> put 1 CEC_MSG_FEATURE_ABORT ;> put 2 abort_msg ;> put 3 reason.

Definition cec_ops_feature_abort (m : cec_msg) : Z * Z :=
  (m.[2], m.[3]).

Definition cec_msg_reply_feature_abort (reason : Z) : cmd :=
  (fun m => cec_msg_set_reply_to m m) ;> set_len 4 ;> (fun m => put 2 m.[1] m) ;>
  put 3 reason ;> put 1 CEC_MSG_FEATURE_ABORT.

Definition cec_msg_abort : cmd :=
  set_len 2 ;> put 1 CEC_MSG_ABORT.

(** ** System Audio Control *)

Definition cec_msg_report_audio_status (aud_mute_status aud_vol_status : Z) : cmd :=
  set_len 3 ;> put 1 CEC_MSG_REPORT_AUDIO_STATUS ;>
  put 2 ((aud_mute_status << 7) .| (aud_vol_status .& 0x7f)).

Definition cec_ops_report_audio_status (m : cec_msg) : Z * Z :=
  (u8 (m.[2] >> 7), u8 (m.[2] .& 0x7f)).

Definition cec_msg_give_audio_status (reply : Z) : cmd :=
  set_len 2 ;> put 1 CEC_MSG_GIVE_AUDIO_STATUS ;>
  set_reply (if negb (reply =? 0) then CEC_MSG_REPORT_AUDIO_STATUS else 0).

Definition cec_msg_set_system_audio_mode (sys_aud_status : Z) : cmd :=
  set_len 3 ;> put 1 CEC_MSG_SET_SYSTEM_AUDIO_MODE ;> put 2 sys_aud_status.

Definition cec_ops_set_system_audio_mode (m : cec_msg) : Z :=
  m.[2].

Definition cec_msg_system_audio_mode_request (reply phys_addr : Z) : cmd :=
  set_len (if phys_addr =? 0xffff then 2 else 4) ;> put 1 CEC_MSG_SYSTEM_AUDIO_MODE_REQUEST ;>
  put 2 (phys_addr >> 8) ;> put 3 (phys_addr .& 0xff) ;>
  set_reply (if negb (reply =? 0) then CEC_MSG_SET_SYSTEM_AUDIO_MODE else 0).

Definition cec_ops_system_audio_mode_request (m : cec_msg) : Z :=
  if len m <? 4 then 0xffff else u16 ((m.[2] << 8) .| m.[3]).

Definition cec_msg_system_audio_mode_status (sys_aud_status : Z) : cmd :=
  set_len 3 ;> put 1 CEC_MSG_SYSTEM_AUDIO_MODE_STATUS ;> put 2 sys_aud_status.

Definition cec_ops_system_audio_mode_status (m : cec_msg) : Z :=
  m.[2].

Definition cec_msg_give_system_audio_mode_status (reply : Z) : cmd :=
  set_len 2 ;> put 1 CEC_MSG_GIVE_SYSTEM_AUDIO_MODE_STATUS ;>
  set_reply (if negb (reply =? 0) then CEC_MSG_SYSTEM_AUDIO_MODE_STATUS else 0).

(** The loop over the descriptors, from number [i]. *)
Fixpoint put_descriptors (i : nat) (descriptors : list Z) : cmd :=
  match descriptors with
  | [] => skip
  | d :: descriptors =>
      put (2 + i * 3) ((d >> 16) .& 0xff) ;> put (3 + i * 3) ((d >> 8) .& 0xff) ;>
      put (4 + i * 3) (d .& 0xff) ;> put_descriptors (S i) descriptors
  end.

(** The caller passes an array with at least the elements that are read. *)
Definition cec_msg_report_short_audio_descriptor (num_descriptors : Z) (descriptors : list Z)
    : cmd :=
  let num := if 4 <? num_descriptors then 4 else num_descriptors in
  if (Z.to_nat num <=? length descriptors)%nat then
    set_len (2 + num * 3) ;> put 1 CEC_MSG_REPORT_SHORT_AUDIO_DESCRIPTOR ;>
    put_descriptors 0 (take (Z.to_nat num) descriptors)
  else fun _ => None.

Definition get_descriptor (m : cec_msg) (i : nat) : Z :=
  u32 ((m.[2 + i * 3] << 16) .| (m.[3 + i * 3] << 8) .| m.[4 + i * 3]).

Definition cec_ops_report_short_audio_descriptor (m : cec_msg) : Z * list Z :=
  let num := u8 (u32 (len m - 2) / 3) in
  let num := if 4 <? num then 4 else num in
  (num, get_descriptor m <$> seq 0 (Z.to_nat num)).

Fixpoint put_formats (i : nat) (ids codes : list Z) : cmd :=
  match ids, codes with
  | x :: ids, y :: codes =>
      put (2 + i) ((x << 6) .| (y .& 0x3f)) ;> put_formats (S i) ids codes
  | _, _ => skip
  end.

Definition cec_msg_request_short_audio_descriptor (reply num_descriptors : Z)
    (audio_format_id audio_format_code : list Z) : cmd :=
  let num := if 4 <? num_descriptors then 4 else num_descriptors in
  if (Z.to_nat num <=? length audio_format_id)%nat && (Z.to_nat num <=? length audio_format_code)%nat
  then
    set_len (2 + num) ;> put 1 CEC_MSG_REQUEST_SHORT_AUDIO_DESCRIPTOR ;>
    set_reply (if negb (reply =? 0) then CEC_MSG_REPORT_SHORT_AUDIO_DESCRIPTOR else 0) ;>
    put_formats 0 (take (Z.to_nat num) audio_format_id) (take (Z.to_nat num) audio_format_code)
  else fun _ => None.

Definition cec_ops_request_short_audio_descriptor (m : cec_msg) : Z * list Z * list Z :=
  let num := u8 (u32 (len m - 2)) in
  let num := if 4 <? num then 4 else num in
  (num, (fun i => u8 (m.[2 + i] >> 6)) <$> seq 0 (Z.to_nat num),
   (fun i => u8 (m.[2 + i] .& 0x3f)) <$> seq 0 (Z.to_nat num)).

(** ** Audio Rate Control *)

Definition cec_msg_set_audio_rate (audio_rate : Z) : cmd :=
  set_len 3 ;> put 1 CEC_MSG_SET_AUDIO_RATE ;> put 2 audio_rate.

Definition cec_ops_set_audio_rate (m : cec_msg) : Z :=
  m.[2].

(** ** Audio Return Channel Control *)

Definition cec_msg_report_arc_initiated : cmd :=
  set_len 2 ;> put 1 CEC_MSG_REPORT_ARC_INITIATED.

Definition cec_msg_initiate_arc (reply : Z) : cmd :=
  set_len 2 ;> put 1 CEC_MSG_INITIATE_ARC ;>
  set_reply (if negb (reply =? 0) then CEC_MSG_REPORT_ARC_INITIATED else 0).

Definition cec_msg_request_arc_initiation (reply : Z) : cmd :=
  set_len 2 ;> put 1 CEC_MSG_REQUEST_ARC_INITIATION ;>
  set_reply (if negb (reply =? 0) then CEC_MSG_INITIATE_ARC else 0).

Definition cec_msg_report_arc_terminated : cmd :=
  set_len 2 ;> put 1 CEC_MSG_REPORT_ARC_TERMINATED.

Definition cec_msg_terminate_arc (reply : Z) : cmd :=
  set_len 2 ;> put 1 CEC_MSG_TERMINATE_ARC ;>
  set_reply (if negb (reply =? 0) then CEC_MSG_REPORT_ARC_TERMINATED else 0).

Definition cec_msg_request_arc_termination (reply : Z) : cmd :=
  set_len 2 ;> put 1 CEC_MSG_REQUEST_ARC_TERMINATION ;>
  set_reply (if negb (reply =? 0) then CEC_MSG_TERMINATE_ARC else 0).

(** ** Dynamic Audio Lipsync *)

Definition cec_msg_report_current_latency
    (phys_addr video_latency low_latency_mode audio_out_compensated audio_out_delay : Z) : cmd :=
  set_len 6 ;> set_broadcast ;> put 1 CEC_MSG_REPORT_CURRENT_LATENCY ;>
  put 2 (phys_addr >> 8) ;> put 3 (phys_addr .& 0xff) ;> put 4 video_latency ;>
  put 5 ((low_latency_mode << 2) .| audio_out_compensated) ;>
  if_cmd (audio_out_compensated =? 3) (append audio_out_delay).

Definition cec_ops_report_current_latency (m : cec_msg) : Z * Z * Z * Z * Z :=
  let audio_out_compensated := u8 (m.[5] .& 3) in
  (u16 ((m.[2] << 8) .| m.[3]), m.[4], u8 ((m.[5] >> 2) .& 1), audio_out_compensated,
   if (audio_out_compensated =? 3) && (7 <=? len m) then m.[6] else 0).

Definition cec_msg_request_current_latency (reply phys_addr : Z) : cmd :=
  set_len 4 ;> set_broadcast ;> put 1 CEC_MSG_REQUEST_CURRENT_LATENCY ;>
  put 2 (phys_addr >> 8) ;> put 3 (phys_addr .& 0xff) ;>
  set_reply (if negb (reply =? 0) then CEC_MSG_REPORT_CURRENT_LATENCY else 0).

Definition cec_ops_request_current_latency (m : cec_msg) : Z :=
  u16 ((m.[2] << 8) .| m.[3]).

(** ** Capability Discovery and Control *)

Definition cec_msg_cdc_hec_inquire_state (phys_addr1 phys_addr2 : Z) : cmd :=
  set_len 9 ;> set_broadcast ;> put 1 CEC_MSG_CDC_MESSAGE ;>
  put 4 CEC_MSG_CDC_HEC_INQUIRE_STATE ;> put 5 (phys_addr1 >> 8) ;>
  put 6 (phys_addr1 .& 0xff) ;> put 7 (phys_addr2 >> 8) ;> put 8 (phys_addr2 .& 0xff).

Definition cec_ops_cdc_hec_inquire_state (m : cec_msg) : Z * Z * Z :=
  (u16 ((m.[2] << 8) .| m.[3]), u16 ((m.[5] << 8) .| m.[6]), u16 ((m.[7] << 8) .| m.[8])).

Definition cec_msg_cdc_hec_report_state (target_phys_addr hec_func_state host_func_state
    enc_func_state cdc_errcode has_field hec_field : Z) : cmd :=
  set_len (if negb (has_field =? 0) then 10 else 8) ;> set_broadcast ;>
  put 1 CEC_MSG_CDC_MESSAGE ;> put 4 CEC_MSG_CDC_HEC_REPORT_STATE ;>
  put 5 (target_phys_addr >> 8) ;> put 6 (target_phys_addr .& 0xff) ;>
  put 7 ((hec_func_state << 6) .| (host_func_state << 4) .| (enc_func_state << 2) .| cdc_errcode) ;>
  if_cmd (negb (has_field =? 0)) (put 8 (hec_field >> 8) ;> put 9 (hec_field .& 0xff)).

Definition cec_ops_cdc_hec_report_state (m : cec_msg) : Z * Z * Z * Z * Z * Z * Z * Z :=
  let has_field := if 10 <=? len m then 1 else 0 in
  (u16 ((m.[2] << 8) .| m.[3]), u16 ((m.[5] << 8) .| m.[6]), u8 (m.[7] >> 6),
   u8 ((m.[7] >> 4) .& 3), u8 ((m.[7] >> 4) .& 3), u8 (m.[7] .& 3), has_field,
   if negb (has_field =? 0) then u16 ((m.[8] << 8) .| m.[9]) else 0).

(** The optional addresses, up to the first invalid one. *)
Fixpoint append_addrs (phys_addrs : list Z) : cmd :=
  match phys_addrs with
  | [] => skip
  | a :: phys_addrs =>
      if_cmd (negb (a =? CEC_PHYS_ADDR_INVALID))
        (append (a >> 8) ;> append (a .& 0xff) ;> append_addrs phys_addrs)
  end.

Definition cec_msg_cdc_hec_set_state (phys_addr1 phys_addr2 hec_set_state phys_addr3 phys_addr4
    phys_addr5 : Z) : cmd :=
  set_len 10 ;> set_broadcast ;> put 1 CEC_MSG_CDC_MESSAGE ;>
  put 4 CEC_MSG_CDC_HEC_INQUIRE_STATE ;> put 5 (phys_addr1 >> 8) ;>
  put 6 (phys_addr1 .& 0xff) ;> put 7 (phys_addr2 >> 8) ;> put 8 (phys_addr2 .& 0xff) ;>
  put 9 hec_set_state ;> append_addrs [phys_addr3; phys_addr4; phys_addr5].

Definition cec_ops_cdc_hec_set_state (m : cec_msg) : Z * Z * Z * Z * Z * Z * Z :=
  (u16 ((m.[2] << 8) .| m.[3]), u16 ((m.[5] << 8) .| m.[6]), u16 ((m.[7] << 8) .| m.[8]), m.[9],
   if 12 <=? len m then u16 ((m.[10] << 8) .| m.[11]) else CEC_PHYS_ADDR_INVALID,
   if 14 <=? len m then u16 ((m.[12] << 8) .| m.[13]) else CEC_PHYS_ADDR_INVALID,
   if 16 <=? len m then u16 ((m.[14] << 8) .| m.[15]) else CEC_PHYS_ADDR_INVALID).

Definition cec_msg_cdc_hec_set_state_adjacent (phys_addr1 hec_set_state : Z) : cmd :=
  set_len 8 ;> set_broadcast ;> put 1 CEC_MSG_CDC_MESSAGE ;>
  put 4 CEC_MSG_CDC_HEC_SET_STATE_ADJACENT ;> put 5 (phys_addr1 >> 8) ;>
  put 6 (phys_addr1 .& 0xff) ;> put 7 hec_set_state.

Definition cec_ops_cdc_hec_set_state_adjacent (m : cec_msg) : Z * Z * Z :=
  (u16 ((m.[2] << 8) .| m.[3]), u16 ((m.[5] << 8) .| m.[6]), m.[7]).

Definition cec_msg_cdc_hec_request_deactivation (phys_addr1 phys_addr2 phys_addr3 : Z) : cmd :=
  set_len 11 ;> set_broadcast ;> put 1 CEC_MSG_CDC_MESSAGE ;>
  put 4 CEC_MSG_CDC_HEC_REQUEST_DEACTIVATION ;> put 5 (phys_addr1 >> 8) ;>
  put 6 (phys_addr1 .& 0xff) ;> put 7 (phys_addr2 >> 8) ;> put 8 (phys_addr2 .& 0xff) ;>
  put 9 (phys_addr3 >> 8) ;> put 10 (phys_addr3 .& 0xff).

Definition cec_ops_cdc_hec_request_deactivation (m : cec_msg) : Z * Z * Z * Z :=
  (u16 ((m.[2] << 8) .| m.[3]), u16 ((m.[5] << 8) .| m.[6]), u16 ((m.[7] << 8) .| m.[8]),
   u16 ((m.[9] << 8) .| m.[10])).

Definition cec_msg_cdc_hec_notify_alive : cmd :=
  set_len 5 ;> set_broadcast ;> put 1 CEC_MSG_CDC_MESSAGE ;>
  put 4 CEC_MSG_CDC_HEC_NOTIFY_ALIVE.

Definition cec_ops_cdc_hec_notify_alive (m : cec_msg) : Z :=
  u16 ((m.[2] << 8) .| m.[3]).

Definition cec_msg_cdc_hec_discover : cmd :=
  set_len 5 ;> set_broadcast ;> put 1 CEC_MSG_CDC_MESSAGE ;> put 4 CEC_MSG_CDC_HEC_DISCOVER.

Definition cec_ops_cdc_hec_discover (m : cec_msg) : Z :=
  u16 ((m.[2] << 8) .| m.[3]).

Definition cec_msg_cdc_hpd_set_state (input_port hpd_state : Z) : cmd :=
  set_len 6 ;> set_broadcast ;> put 1 CEC_MSG_CDC_MESSAGE ;> put 4 CEC_MSG_CDC_HPD_SET_STATE ;>
  put 5 ((input_port << 4) .| hpd_state).

Definition cec_ops_cdc_hpd_set_state (m : cec_msg) : Z * Z * Z :=
  (u16 ((m.[2] << 8) .| m.[3]), u8 (m.[5] >> 4), u8 (m.[5] .& 0xf)).

Definition cec_msg_cdc_hpd_report_state (hpd_state hpd_error : Z) : cmd :=
  set_len 6 ;> set_broadcast ;> put 1 CEC_MSG_CDC_MESSAGE ;>
  put 4 CEC_MSG_CDC_HPD_REPORT_STATE ;> put 5 ((hpd_state << 4) .| hpd_error).

Definition cec_ops_cdc_hpd_report_state (m : cec_msg) : Z * Z * Z :=
  (u16 ((m.[2] << 8) .| m.[3]), u8 (m.[5] >> 4), u8 (m.[5] .& 0xf)).
