(* ===== verification/CecCodec.v ===== *)
(** * HDMI CEC messages: what is promised

    Every message that cec-funcs.h can both pack and unpack is a [codec]: the two
    functions, the operands they are meant for, and what unpacking returns.  Messages
    without operands are [request]s. *)

From S2P Require Import Prelude CLib Cec CecMsg.
Open Scope Z_scope.
Open Scope cec_scope.

(** ** Operands *)

Definition is_word (x : Z) : Prop := 0 <= x < 65536.
(** What two decimal digits can say. *)
Definition is_bcd (x : Z) : Prop := 0 <= x < 100.

(** What a cec_ops function finds in its output parameters. *)
Definition digital0 : cec_op_digital_service_id := DigitalServiceId 0 0 0 0 0.

(** A channel with a 6 bit format and a 10 bit major number; the words of an ATSC or of
    another service. *)
Definition digital_ok (d : cec_op_digital_service_id) : Prop :=
  0 <= dig_bcast_system d < 128 /\
  ((service_id_method d = CEC_OP_SERVICE_ID_METHOD_BY_CHANNEL /\ 0 <= word0 d < 64 /\
    0 <= channel_major d < 1024 /\ is_word (channel_minor d)) \/
   (service_id_method d = CEC_OP_SERVICE_ID_METHOD_BY_DIG_ID /\ is_word (word0 d) /\
    is_word (word1 d) /\ is_word (word2 d) /\ (is_atsc (dig_bcast_system d) = true -> word2 d = 0))).

(** The major number of a channel as it is unpacked: its two high bits are shifted by 6
    where 8 were meant, onto the high bits of the other byte. *)
Definition major_back (x : Z) : Z := ((x >> 8) << 6) .| (x .& 0xff).

Definition digital_back (d : cec_op_digital_service_id) : cec_op_digital_service_id :=
  if service_id_method d =? CEC_OP_SERVICE_ID_METHOD_BY_CHANNEL
  then DigitalServiceId (service_id_method d) (dig_bcast_system d) (word0 d)
         (major_back (word1 d)) (word2 d)
  else d.

(** The physical address of a CDC message is filled in by the framework. *)
Definition phys_addr (m : cec_msg) : Z := u16 ((m.[2] << 8) .| m.[3]).

(** A message of the size and opcode, from the same initiator, to all or to the same
    destination. *)
Definition framed (sz op : Z) (all : bool) (m m' : cec_msg) : Prop :=
  cec_ok m' /\ len m' = sz /\ 2 <= sz <= 16 /\ m'.[1] = op /\
  cec_msg_initiator m' = cec_msg_initiator m /\
  cec_msg_destination m' = if all then 0xf else cec_msg_destination m.

(** ** Codecs *)

Record codec := Codec {
  In : Type;
  Out : Type;
  pack : In -> cmd;
  unpack : cec_msg -> Out;
  valid : In -> Prop;
  back : cec_msg -> In -> Out;     (* the message is the one packed into *)
  size : In -> Z;
  opcode : Z;
  bcast : bool;
  asks : In -> option Z;           (* the reply to wait for, if the message sets one *)
  cdc : option Z                   (* the opcode of a CDC message *)
}.

(** The first operand of a message with an answer says whether to wait for it. *)
Definition waits (r a : Z) : option Z := Some (if r =? 0 then 0 else a).

Definition active_source_codec : codec := {|
  pack := cec_msg_active_source; unpack := cec_ops_active_source; valid := fun a => is_word a;
  back := fun _ a => a; size := fun _ => 4; opcode := CEC_MSG_ACTIVE_SOURCE; bcast := true;
  asks := fun _ => None; cdc := None |}.

Definition inactive_source_codec : codec := {|
  pack := cec_msg_inactive_source; unpack := cec_ops_inactive_source;
  valid := fun a => is_word a; back := fun _ a => a; size := fun _ => 4;
  opcode := CEC_MSG_INACTIVE_SOURCE; bcast := false;
  asks := fun _ => None; cdc := None |}.

Definition routing_information_codec : codec := {|
  pack := cec_msg_routing_information; unpack := cec_ops_routing_information;
  valid := fun a => is_word a; back := fun _ a => a; size := fun _ => 4;
  opcode := CEC_MSG_ROUTING_INFORMATION; bcast := true;
  asks := fun _ => None; cdc := None |}.

Definition routing_change_codec : codec := {|
  pack := fun '(r, a, b) => cec_msg_routing_change r a b; unpack := cec_ops_routing_change;
  valid := fun '(r, a, b) => is_word a /\ is_word b; back := fun _ '(r, a, b) => (a, b);
  size := fun _ => 6; opcode := CEC_MSG_ROUTING_CHANGE; bcast := true;
  asks := fun '(r, a, b) => waits r CEC_MSG_ROUTING_INFORMATION; cdc := None |}.

Definition set_stream_path_codec : codec := {|
  pack := cec_msg_set_stream_path; unpack := cec_ops_set_stream_path;
  valid := fun a => is_word a; back := fun _ a => a; size := fun _ => 4;
  opcode := CEC_MSG_SET_STREAM_PATH; bcast := true;
  asks := fun _ => None; cdc := None |}.

Definition record_status_codec : codec := {|
  pack := cec_msg_record_status; unpack := cec_ops_record_status; valid := fun s => is_byte s;
  back := fun _ s => s; size := fun _ => 3; opcode := CEC_MSG_RECORD_STATUS;
  bcast := false;
  asks := fun _ => None; cdc := None |}.

Definition timer_cleared_status_codec : codec := {|
  pack := cec_msg_timer_cleared_status; unpack := cec_ops_timer_cleared_status;
  valid := fun s => is_byte s; back := fun _ s => s; size := fun _ => 3;
  opcode := CEC_MSG_TIMER_CLEARED_STATUS; bcast := false;
  asks := fun _ => None; cdc := None |}.

Definition clear_analogue_timer_codec : codec := {|
  pack := fun '(r, day, month, sh, sm, dh, dm, rs, bt, fr, bs) => cec_msg_clear_analogue_timer
    r day month sh sm dh dm rs bt fr bs; unpack := cec_ops_clear_analogue_timer;
  valid := fun '(r, day, month, sh, sm, dh, dm, rs, bt, fr, bs) => is_byte day /\ is_byte
    month /\ is_bcd sh /\ is_bcd sm /\ is_bcd dh /\ is_bcd dm /\ is_byte rs /\ is_byte bt /\
    is_word fr /\ is_byte bs;
  back := fun _ '(r, day, month, sh, sm, dh, dm, rs, bt, fr, bs) => (day, month, sh, sm, dh,
    dm, rs, bt, fr, bs); size := fun _ => 13; opcode := CEC_MSG_CLEAR_ANALOGUE_TIMER;
  bcast := false;
  asks := fun '(r, day, month, sh, sm, dh, dm, rs, bt, fr, bs) => waits r CEC_MSG_TIMER_CLEARED_STATUS;
  cdc := None |}.

Definition clear_digital_timer_codec : codec := {|
  pack := fun '(r, day, month, sh, sm, dh, dm, rs, dig) => cec_msg_clear_digital_timer r day
    month sh sm dh dm rs dig; unpack := fun m => cec_ops_clear_digital_timer m digital0;
  valid := fun '(r, day, month, sh, sm, dh, dm, rs, dig) => is_byte day /\ is_byte month /\
    is_bcd sh /\ is_bcd sm /\ is_bcd dh /\ is_bcd dm /\ is_byte rs /\ digital_ok dig;
  back := fun _ '(r, day, month, sh, sm, dh, dm, rs, dig) => (day, month, sh, sm, dh, dm, rs,
    digital_back dig); size := fun _ => 16; opcode := CEC_MSG_CLEAR_DIGITAL_TIMER;
  bcast := false;
  asks := fun '(r, day, month, sh, sm, dh, dm, rs, dig) => waits r CEC_MSG_TIMER_CLEARED_STATUS;
  cdc := None |}.

Definition clear_ext_timer_codec : codec := {|
  pack := fun '(r, day, month, sh, sm, dh, dm, rs, es, pl, pa) => cec_msg_clear_ext_timer r
    day month sh sm dh dm rs es pl pa; unpack := cec_ops_clear_ext_timer;
  valid := fun '(r, day, month, sh, sm, dh, dm, rs, es, pl, pa) => is_byte day /\ is_byte
    month /\ is_bcd sh /\ is_bcd sm /\ is_bcd dh /\ is_bcd dm /\ is_byte rs /\ is_byte es /\
    is_byte pl /\ is_word pa;
  back := fun _ '(r, day, month, sh, sm, dh, dm, rs, es, pl, pa) => (day, month, sh, sm, dh,
    dm, rs, es, pl, pa); size := fun _ => 13; opcode := CEC_MSG_CLEAR_EXT_TIMER;
  bcast := false;
  asks := fun '(r, day, month, sh, sm, dh, dm, rs, es, pl, pa) => waits r CEC_MSG_TIMER_CLEARED_STATUS;
  cdc := None |}.

Definition set_analogue_timer_codec : codec := {|
  pack := fun '(r, day, month, sh, sm, dh, dm, rs, bt, fr, bs) => cec_msg_set_analogue_timer r
    day month sh sm dh dm rs bt fr bs; unpack := cec_ops_set_analogue_timer;
  valid := fun '(r, day, month, sh, sm, dh, dm, rs, bt, fr, bs) => is_byte day /\ is_byte
    month /\ is_bcd sh /\ is_bcd sm /\ is_bcd dh /\ is_bcd dm /\ is_byte rs /\ is_byte bt /\
    is_word fr /\ is_byte bs;
  back := fun _ '(r, day, month, sh, sm, dh, dm, rs, bt, fr, bs) => (day, month, sh, sm, dh,
    dm, rs, bt, fr, bs); size := fun _ => 13; opcode := CEC_MSG_SET_ANALOGUE_TIMER;
  bcast := false;
  asks := fun '(r, day, month, sh, sm, dh, dm, rs, bt, fr, bs) => waits r CEC_MSG_TIMER_STATUS;
  cdc := None |}.

Definition set_digital_timer_codec : codec := {|
  pack := fun '(r, day, month, sh, sm, dh, dm, rs, dig) => cec_msg_set_digital_timer r day
    month sh sm dh dm rs dig; unpack := fun m => cec_ops_set_digital_timer m digital0;
  valid := fun '(r, day, month, sh, sm, dh, dm, rs, dig) => is_byte day /\ is_byte month /\
    is_bcd sh /\ is_bcd sm /\ is_bcd dh /\ is_bcd dm /\ is_byte rs /\ digital_ok dig;
  back := fun _ '(r, day, month, sh, sm, dh, dm, rs, dig) => (day, month, sh, sm, dh, dm, rs,
    digital_back dig); size := fun _ => 16; opcode := CEC_MSG_SET_DIGITAL_TIMER;
  bcast := false;
  asks := fun '(r, day, month, sh, sm, dh, dm, rs, dig) => waits r CEC_MSG_TIMER_STATUS;
  cdc := None |}.

Definition set_ext_timer_codec : codec := {|
  pack := fun '(r, day, month, sh, sm, dh, dm, rs, es, pl, pa) => cec_msg_set_ext_timer r day
    month sh sm dh dm rs es pl pa; unpack := cec_ops_set_ext_timer;
  valid := fun '(r, day, month, sh, sm, dh, dm, rs, es, pl, pa) => is_byte day /\ is_byte
    month /\ is_bcd sh /\ is_bcd sm /\ is_bcd dh /\ is_bcd dm /\ is_byte rs /\ is_byte es /\
    is_byte pl /\ is_word pa;
  back := fun _ '(r, day, month, sh, sm, dh, dm, rs, es, pl, pa) => (day, month, sh, sm, dh,
    dm, rs, es, pl, pa); size := fun _ => 13; opcode := CEC_MSG_SET_EXT_TIMER;
  bcast := false;
  asks := fun '(r, day, month, sh, sm, dh, dm, rs, es, pl, pa) => waits r CEC_MSG_TIMER_STATUS;
  cdc := None |}.

Definition cec_version_codec : codec := {|
  pack := cec_msg_cec_version; unpack := cec_ops_cec_version; valid := fun v => is_byte v;
  back := fun _ v => v; size := fun _ => 3; opcode := CEC_MSG_CEC_VERSION; bcast := false;
  asks := fun _ => None; cdc := None |}.

Definition report_physical_addr_codec : codec := {|
  pack := fun '(a, t) => cec_msg_report_physical_addr a t;
  unpack := cec_ops_report_physical_addr; valid := fun '(a, t) => is_word a /\ is_byte t;
  back := fun _ '(a, t) => (a, t); size := fun _ => 5; opcode := CEC_MSG_REPORT_PHYSICAL_ADDR;
  bcast := true;
  asks := fun _ => None; cdc := None |}.

Definition deck_control_codec : codec := {|
  pack := cec_msg_deck_control; unpack := cec_ops_deck_control; valid := fun v => is_byte v;
  back := fun _ v => v; size := fun _ => 3; opcode := CEC_MSG_DECK_CONTROL; bcast := false;
  asks := fun _ => None; cdc := None |}.

Definition deck_status_codec : codec := {|
  pack := cec_msg_deck_status; unpack := cec_ops_deck_status; valid := fun v => is_byte v;
  back := fun _ v => v; size := fun _ => 3; opcode := CEC_MSG_DECK_STATUS; bcast := false;
  asks := fun _ => None; cdc := None |}.

Definition give_deck_status_codec : codec := {|
  pack := fun '(r, v) => cec_msg_give_deck_status r v; unpack := cec_ops_give_deck_status;
  valid := fun '(r, v) => is_byte v; back := fun _ '(r, v) => v; size := fun _ => 3;
  opcode := CEC_MSG_GIVE_DECK_STATUS; bcast := false;
  asks := fun '(r, v) => if v =? CEC_OP_STATUS_REQ_OFF then Some 0 else waits r CEC_MSG_DECK_STATUS;
  cdc := None |}.

Definition play_codec : codec := {|
  pack := cec_msg_play; unpack := cec_ops_play; valid := fun v => is_byte v;
  back := fun _ v => v; size := fun _ => 3; opcode := CEC_MSG_PLAY; bcast := false;
  asks := fun _ => None; cdc := None |}.

Definition give_tuner_device_status_codec : codec := {|
  pack := fun '(r, v) => cec_msg_give_tuner_device_status r v;
  unpack := cec_ops_give_tuner_device_status; valid := fun '(r, v) => is_byte v;
  back := fun _ '(r, v) => v; size := fun _ => 3; opcode := CEC_MSG_GIVE_TUNER_DEVICE_STATUS;
  bcast := false;
  asks := fun '(r, v) => if v =? CEC_OP_STATUS_REQ_OFF then Some 0 else waits r CEC_MSG_TUNER_DEVICE_STATUS;
  cdc := None |}.

Definition select_analogue_service_codec : codec := {|
  pack := fun '(bt, fr, bs) => cec_msg_select_analogue_service bt fr bs;
  unpack := cec_ops_select_analogue_service;
  valid := fun '(bt, fr, bs) => is_byte bt /\ is_word fr /\ is_byte bs;
  back := fun _ '(bt, fr, bs) => (bt, fr, bs); size := fun _ => 6;
  opcode := CEC_MSG_SELECT_ANALOGUE_SERVICE; bcast := false;
  asks := fun _ => None; cdc := None |}.

Definition select_digital_service_codec : codec := {|
  pack := cec_msg_select_digital_service;
  unpack := fun m => cec_ops_select_digital_service m digital0;
  valid := fun dig => digital_ok dig; back := fun _ dig => digital_back dig;
  size := fun _ => 9; opcode := CEC_MSG_SELECT_DIGITAL_SERVICE; bcast := false;
  asks := fun _ => None; cdc := None |}.

Definition device_vendor_id_codec : codec := {|
  pack := cec_msg_device_vendor_id; unpack := cec_ops_device_vendor_id;
  valid := fun v => 0 <= v < 2 ^ 24; back := fun _ v => v; size := fun _ => 5;
  opcode := CEC_MSG_DEVICE_VENDOR_ID; bcast := true;
  asks := fun _ => None; cdc := None |}.

Definition menu_status_codec : codec := {|
  pack := cec_msg_menu_status; unpack := cec_ops_menu_status; valid := fun v => is_byte v;
  back := fun _ v => v; size := fun _ => 3; opcode := CEC_MSG_MENU_STATUS; bcast := false;
  asks := fun _ => None; cdc := None |}.

Definition menu_request_codec : codec := {|
  pack := fun '(r, v) => cec_msg_menu_request r v; unpack := cec_ops_menu_request;
  valid := fun '(r, v) => is_byte v; back := fun _ '(r, v) => v; size := fun _ => 3;
  opcode := CEC_MSG_MENU_REQUEST; bcast := false;
  asks := fun '(r, v) => waits r CEC_MSG_MENU_STATUS; cdc := None |}.

Definition report_power_status_codec : codec := {|
  pack := cec_msg_report_power_status; unpack := cec_ops_report_power_status;
  valid := fun v => is_byte v; back := fun _ v => v; size := fun _ => 3;
  opcode := CEC_MSG_REPORT_POWER_STATUS; bcast := false;
  asks := fun _ => None; cdc := None |}.

Definition feature_abort_codec : codec := {|
  pack := fun '(a, r) => cec_msg_feature_abort a r; unpack := cec_ops_feature_abort;
  valid := fun '(a, r) => is_byte a /\ is_byte r; back := fun _ '(a, r) => (a, r);
  size := fun _ => 4; opcode := CEC_MSG_FEATURE_ABORT; bcast := false;
  asks := fun _ => None; cdc := None |}.

Definition report_audio_status_codec : codec := {|
  pack := fun '(mu, vo) => cec_msg_report_audio_status mu vo;
  unpack := cec_ops_report_audio_status;
  valid := fun '(mu, vo) => 0 <= mu < 2 /\ 0 <= vo < 128; back := fun _ '(mu, vo) => (mu, vo);
  size := fun _ => 3; opcode := CEC_MSG_REPORT_AUDIO_STATUS; bcast := false;
  asks := fun _ => None; cdc := None |}.

Definition set_system_audio_mode_codec : codec := {|
  pack := cec_msg_set_system_audio_mode; unpack := cec_ops_set_system_audio_mode;
  valid := fun v => is_byte v; back := fun _ v => v; size := fun _ => 3;
  opcode := CEC_MSG_SET_SYSTEM_AUDIO_MODE; bcast := false;
  asks := fun _ => None; cdc := None |}.

Definition system_audio_mode_status_codec : codec := {|
  pack := cec_msg_system_audio_mode_status; unpack := cec_ops_system_audio_mode_status;
  valid := fun v => is_byte v; back := fun _ v => v; size := fun _ => 3;
  opcode := CEC_MSG_SYSTEM_AUDIO_MODE_STATUS; bcast := false;
  asks := fun _ => None; cdc := None |}.

Definition set_audio_rate_codec : codec := {|
  pack := cec_msg_set_audio_rate; unpack := cec_ops_set_audio_rate;
  valid := fun v => is_byte v; back := fun _ v => v; size := fun _ => 3;
  opcode := CEC_MSG_SET_AUDIO_RATE; bcast := false;
  asks := fun _ => None; cdc := None |}.

Definition request_current_latency_codec : codec := {|
  pack := fun '(r, a) => cec_msg_request_current_latency r a;
  unpack := cec_ops_request_current_latency; valid := fun '(r, a) => is_word a;
  back := fun _ '(r, a) => a; size := fun _ => 4; opcode := CEC_MSG_REQUEST_CURRENT_LATENCY;
  bcast := true;
  asks := fun '(r, a) => waits r CEC_MSG_REPORT_CURRENT_LATENCY; cdc := None |}.

Definition cdc_hec_inquire_state_codec : codec := {|
  pack := fun '(a, b) => cec_msg_cdc_hec_inquire_state a b;
  unpack := cec_ops_cdc_hec_inquire_state; valid := fun '(a, b) => is_word a /\ is_word b;
  back := fun m '(a, b) => (phys_addr m, a, b); size := fun _ => 9;
  opcode := CEC_MSG_CDC_MESSAGE; bcast := true;
  asks := fun _ => None; cdc := Some CEC_MSG_CDC_HEC_INQUIRE_STATE |}.

Definition cdc_hec_set_state_adjacent_codec : codec := {|
  pack := fun '(a, s) => cec_msg_cdc_hec_set_state_adjacent a s;
  unpack := cec_ops_cdc_hec_set_state_adjacent;
  valid := fun '(a, s) => is_word a /\ is_byte s;
  back := fun m '(a, s) => (phys_addr m, a, s); size := fun _ => 8;
  opcode := CEC_MSG_CDC_MESSAGE; bcast := true;
  asks := fun _ => None; cdc := Some CEC_MSG_CDC_HEC_SET_STATE_ADJACENT |}.

Definition cdc_hec_request_deactivation_codec : codec := {|
  pack := fun '(a, b, c) => cec_msg_cdc_hec_request_deactivation a b c;
  unpack := cec_ops_cdc_hec_request_deactivation;
  valid := fun '(a, b, c) => is_word a /\ is_word b /\ is_word c;
  back := fun m '(a, b, c) => (phys_addr m, a, b, c); size := fun _ => 11;
  opcode := CEC_MSG_CDC_MESSAGE; bcast := true;
  asks := fun _ => None; cdc := Some CEC_MSG_CDC_HEC_REQUEST_DEACTIVATION |}.

Definition cdc_hec_notify_alive_codec : codec := {|
  In := unit; pack := fun _ => cec_msg_cdc_hec_notify_alive;
  unpack := cec_ops_cdc_hec_notify_alive; valid := fun _ => True;
  back := fun m _ => phys_addr m; size := fun _ => 5; opcode := CEC_MSG_CDC_MESSAGE;
  bcast := true;
  asks := fun _ => None; cdc := Some CEC_MSG_CDC_HEC_NOTIFY_ALIVE |}.

Definition cdc_hec_discover_codec : codec := {|
  In := unit; pack := fun _ => cec_msg_cdc_hec_discover; unpack := cec_ops_cdc_hec_discover;
  valid := fun _ => True; back := fun m _ => phys_addr m; size := fun _ => 5;
  opcode := CEC_MSG_CDC_MESSAGE; bcast := true;
  asks := fun _ => None; cdc := Some CEC_MSG_CDC_HEC_DISCOVER |}.

Definition cdc_hpd_set_state_codec : codec := {|
  pack := fun '(p, s) => cec_msg_cdc_hpd_set_state p s; unpack := cec_ops_cdc_hpd_set_state;
  valid := fun '(p, s) => 0 <= p < 16 /\ 0 <= s < 16;
  back := fun m '(p, s) => (phys_addr m, p, s); size := fun _ => 6;
  opcode := CEC_MSG_CDC_MESSAGE; bcast := true;
  asks := fun _ => None; cdc := Some CEC_MSG_CDC_HPD_SET_STATE |}.

Definition cdc_hpd_report_state_codec : codec := {|
  pack := fun '(s, e) => cec_msg_cdc_hpd_report_state s e;
  unpack := cec_ops_cdc_hpd_report_state; valid := fun '(s, e) => 0 <= s < 16 /\ 0 <= e < 16;
  back := fun m '(s, e) => (phys_addr m, s, e); size := fun _ => 6;
  opcode := CEC_MSG_CDC_MESSAGE; bcast := true;
  asks := fun _ => None; cdc := Some CEC_MSG_CDC_HPD_REPORT_STATE |}.

(** ** Messages of several sizes *)

Definition analog0 : cec_op_analog := Analog 0 0 0.
Definition record0 : cec_op_record_src := RecordSrc 0 digital0 analog0 0 0.
Definition tuner0 : cec_op_tuner_device_info := TunerDeviceInfo 0 0 0 digital0 analog0.
Definition ui0 : cec_op_ui_command := UiCommand 0 0 (ChannelData 0 0 0) 0.

Definition analog_ok (a : cec_op_analog) : Prop :=
  is_byte (ana_bcast_type a) /\ is_word (ana_freq a) /\ is_byte (bcast_system a).

(** A source of one of the five types, with the operand of its type. *)
Definition record_ok (r : cec_op_record_src) : Prop :=
  type r = CEC_OP_RECORD_SRC_OWN \/
  (type r = CEC_OP_RECORD_SRC_DIGITAL /\ digital_ok (rec_digital r)) \/
  (type r = CEC_OP_RECORD_SRC_ANALOG /\ analog_ok (rec_analog r)) \/
  (type r = CEC_OP_RECORD_SRC_EXT_PLUG /\ is_byte (rec_plug r)) \/
  (type r = CEC_OP_RECORD_SRC_EXT_PHYS_ADDR /\ is_word (rec_phys_addr r)).

(** Only the operand of the type is sent. *)
Definition record_back (r : cec_op_record_src) : cec_op_record_src :=
  if type r =? CEC_OP_RECORD_SRC_DIGITAL
  then RecordSrc (type r) (digital_back (rec_digital r)) analog0 0 0
  else if type r =? CEC_OP_RECORD_SRC_ANALOG
  then RecordSrc (type r) digital0 (rec_analog r) 0 0
  else if type r =? CEC_OP_RECORD_SRC_EXT_PLUG
  then RecordSrc (type r) digital0 analog0 (rec_plug r) 0
  else if type r =? CEC_OP_RECORD_SRC_EXT_PHYS_ADDR
  then RecordSrc (type r) digital0 analog0 0 (rec_phys_addr r)
  else RecordSrc (type r) digital0 analog0 0 0.

Definition record_size (r : cec_op_record_src) : Z :=
  if type r =? CEC_OP_RECORD_SRC_DIGITAL then 10
  else if type r =? CEC_OP_RECORD_SRC_ANALOG then 7
  else if type r =? CEC_OP_RECORD_SRC_EXT_PLUG then 4
  else if type r =? CEC_OP_RECORD_SRC_EXT_PHYS_ADDR then 5 else 3.

Definition record_on_codec : codec := {|
  pack := fun '(r, s) => cec_msg_record_on r s; unpack := fun m => cec_ops_record_on m record0;
  valid := fun '(r, s) => record_ok s; back := fun _ '(r, s) => record_back s;
  size := fun '(r, s) => record_size s; opcode := CEC_MSG_RECORD_ON; bcast := false;
  asks := fun '(r, s) => waits r CEC_MSG_RECORD_STATUS; cdc := None |}.

(** One of the two codes is sent: the information when there is one, else the error. *)
Definition timer_status_codec : codec := {|
  pack := fun '(w, mi, i, e, dh, dm) => cec_msg_timer_status w mi i e dh dm;
  unpack := cec_ops_timer_status;
  valid := fun '(w, mi, i, e, dh, dm) => 0 <= w < 2 /\ 0 <= mi < 4 /\ 0 <= i < 16 /\
    0 <= e < 16 /\ is_bcd dh /\ is_bcd dm;
  back := fun _ '(w, mi, i, e, dh, dm) =>
    let e := if i =? 0 then e else 0 in
    if has_duration i e then (w, mi, i, e, dh, dm) else (w, mi, i, e, 0, 0);
  size := fun '(w, mi, i, e, dh, dm) => if has_duration i e then 5 else 3;
  opcode := CEC_MSG_TIMER_STATUS; bcast := false;
  asks := fun _ => None; cdc := None |}.

(** Strings are cut to the size of the message. *)
Definition set_timer_program_title_codec : codec := {|
  pack := cec_msg_set_timer_program_title; unpack := cec_ops_set_timer_program_title;
  valid := fun s => cstring s; back := fun _ s => take 14 s ++ [0];
  size := fun s => 2 + Z.min (strlen s) 14; opcode := CEC_MSG_SET_TIMER_PROGRAM_TITLE;
  bcast := false;
  asks := fun _ => None; cdc := None |}.

Definition set_osd_name_codec : codec := {|
  pack := cec_msg_set_osd_name; unpack := cec_ops_set_osd_name; valid := fun s => cstring s;
  back := fun _ s => take 14 s ++ [0]; size := fun s => 2 + Z.min (strlen s) 14;
  opcode := CEC_MSG_SET_OSD_NAME; bcast := false;
  asks := fun _ => None; cdc := None |}.

Definition set_osd_string_codec : codec := {|
  pack := fun '(c, s) => cec_msg_set_osd_string c s; unpack := cec_ops_set_osd_string;
  valid := fun '(c, s) => is_byte c /\ cstring s; back := fun _ '(c, s) => (c, take 13 s ++ [0]);
  size := fun '(c, s) => 3 + Z.min (strlen s) 13; opcode := CEC_MSG_SET_OSD_STRING;
  bcast := false;
  asks := fun _ => None; cdc := None |}.

Definition set_menu_language_codec : codec := {|
  pack := cec_msg_set_menu_language; unpack := cec_ops_set_menu_language;
  valid := fun s => Forall is_byte s /\ (3 <= length s)%nat; back := fun _ s => take 3 s ++ [0];
  size := fun _ => 5; opcode := CEC_MSG_SET_MENU_LANGUAGE; bcast := true;
  asks := fun _ => None; cdc := None |}.

(** Of the pointers to the profile and to the features, what they point to. *)
Definition features_at (m : cec_msg) (r : Z * Z * option nat * option nat)
    : Z * Z * option Z * option Z :=
  let '(v, t, rc, f) := r in (v, t, (fun i => m.[i]) <$> rc, (fun i => m.[i]) <$> f).

(** The profile has one byte; the device features follow it. *)
Definition report_features_codec : codec := {|
  pack := fun '(v, t, rc, f) => cec_msg_report_features v t rc f;
  unpack := fun m => features_at m (cec_ops_report_features m);
  valid := fun '(v, t, rc, f) => is_byte v /\ is_byte t /\ 0 <= rc < 128 /\ is_byte f;
  back := fun _ '(v, t, rc, f) => (v, t, Some rc, Some f); size := fun _ => 6;
  opcode := CEC_MSG_REPORT_FEATURES; bcast := true;
  asks := fun _ => None; cdc := None |}.

Definition tuner_ok (i : cec_op_tuner_device_info) : Prop :=
  0 <= rec_flag i < 2 /\ 0 <= tuner_display_info i < 128 /\
  ((is_analog i = 0 /\ digital_ok (tuner_digital i)) \/
   (is_analog i = 1 /\ analog_ok (tuner_analog i))).

Definition tuner_back (i : cec_op_tuner_device_info) : cec_op_tuner_device_info :=
  if is_analog i =? 0
  then TunerDeviceInfo (rec_flag i) (tuner_display_info i) 0 (digital_back (tuner_digital i)) analog0
  else TunerDeviceInfo (rec_flag i) (tuner_display_info i) 1 digital0 (tuner_analog i).

Definition tuner_device_status_codec : codec := {|
  pack := cec_msg_tuner_device_status; unpack := fun m => cec_ops_tuner_device_status m tuner0;
  valid := fun i => tuner_ok i; back := fun _ i => tuner_back i;
  size := fun i => if is_analog i =? 0 then 10 else 7; opcode := CEC_MSG_TUNER_DEVICE_STATUS;
  bcast := false;
  asks := fun _ => None; cdc := None |}.

(** Buffers are cut to what the message has room for. *)
Definition buffer_ok (room size : Z) (b : bytes) : Prop :=
  is_byte size /\ Forall is_byte b /\ Z.min size room <= Z.of_nat (length b).

Definition vendor_command_codec : codec := {|
  pack := fun '(n, b) => cec_msg_vendor_command n b; unpack := cec_ops_vendor_command;
  valid := fun '(n, b) => buffer_ok 14 n b;
  back := fun _ '(n, b) => (Z.min n 14, take (Z.to_nat (Z.min n 14)) b);
  size := fun '(n, b) => 2 + Z.min n 14; opcode := CEC_MSG_VENDOR_COMMAND; bcast := false;
  asks := fun _ => None; cdc := None |}.

Definition vendor_command_with_id_codec : codec := {|
  pack := fun '(i, n, b) => cec_msg_vendor_command_with_id i n b;
  unpack := cec_ops_vendor_command_with_id;
  valid := fun '(i, n, b) => 0 <= i < 2 ^ 24 /\ buffer_ok 11 n b;
  back := fun _ '(i, n, b) => (i, Z.min n 11, take (Z.to_nat (Z.min n 11)) b);
  size := fun '(i, n, b) => 5 + Z.min n 11; opcode := CEC_MSG_VENDOR_COMMAND_WITH_ID;
  bcast := false;
  asks := fun _ => None; cdc := None |}.

Definition vendor_remote_button_down_codec : codec := {|
  pack := fun '(n, b) => cec_msg_vendor_remote_button_down n b;
  unpack := cec_ops_vendor_remote_button_down; valid := fun '(n, b) => buffer_ok 14 n b;
  back := fun _ '(n, b) => (Z.min n 14, take (Z.to_nat (Z.min n 14)) b);
  size := fun '(n, b) => 2 + Z.min n 14; opcode := CEC_MSG_VENDOR_REMOTE_BUTTON_DOWN;
  bcast := false;
  asks := fun _ => None; cdc := None |}.

Definition channel_ok (c : cec_op_channel_data) : Prop :=
  0 <= number_fmt c < 64 /\ 0 <= major c < 1024 /\ is_word (minor c).

Definition ui_ok (c : cec_op_ui_command) : Prop :=
  is_byte (ui_cmd c) /\ is_byte (has_opt_arg c) /\ is_byte (play_mode c) /\
  channel_ok (channel_identifier c).

(** The size of the optional operand that is sent. *)
Definition ui_operand (c : cec_op_ui_command) : Z :=
  if has_opt_arg c =? 0 then 0 else if has_byte_operand (ui_cmd c) then 1
  else if ui_cmd c =? 0x67 then 4 else 0.

Definition ui_back (c : cec_op_ui_command) : cec_op_ui_command :=
  let ch := channel_identifier c in
  if ui_operand c =? 1 then UiCommand (ui_cmd c) 1 (ChannelData 0 0 0) (play_mode c)
  else if ui_operand c =? 4
  then UiCommand (ui_cmd c) 1 (ChannelData (number_fmt ch) (major_back (major ch)) (minor ch)) 0
  else UiCommand (ui_cmd c) 0 (ChannelData 0 0 0) 0.

Definition user_control_pressed_codec : codec := {|
  pack := cec_msg_user_control_pressed; unpack := fun m => cec_ops_user_control_pressed m ui0;
  valid := fun c => ui_ok c; back := fun _ c => ui_back c; size := fun c => 3 + ui_operand c;
  opcode := CEC_MSG_USER_CONTROL_PRESSED; bcast := false;
  asks := fun _ => None; cdc := None |}.

Definition system_audio_mode_request_codec : codec := {|
  pack := fun '(r, a) => cec_msg_system_audio_mode_request r a;
  unpack := cec_ops_system_audio_mode_request; valid := fun '(r, a) => is_word a;
  back := fun _ '(r, a) => a; size := fun '(r, a) => if a =? 0xffff then 2 else 4;
  opcode := CEC_MSG_SYSTEM_AUDIO_MODE_REQUEST; bcast := false;
  asks := fun '(r, a) => waits r CEC_MSG_SET_SYSTEM_AUDIO_MODE; cdc := None |}.

(** At most four descriptors, or formats, are sent. *)
Definition report_short_audio_descriptor_codec : codec := {|
  pack := fun '(n, l) => cec_msg_report_short_audio_descriptor n l;
  unpack := cec_ops_report_short_audio_descriptor;
  valid := fun '(n, l) => n = Z.of_nat (length l) /\ is_byte n /\ Forall (fun d => 0 <= d < 2 ^ 24) l;
  back := fun _ '(n, l) => (Z.min n 4, take 4 l); size := fun '(n, l) => 2 + Z.min n 4 * 3;
  opcode := CEC_MSG_REPORT_SHORT_AUDIO_DESCRIPTOR; bcast := false;
  asks := fun _ => None; cdc := None |}.

Definition request_short_audio_descriptor_codec : codec := {|
  pack := fun '(r, n, ids, fs) => cec_msg_request_short_audio_descriptor r n ids fs;
  unpack := cec_ops_request_short_audio_descriptor;
  valid := fun '(r, n, ids, fs) => n = Z.of_nat (length ids) /\ length fs = length ids /\
    is_byte n /\ Forall (fun x => 0 <= x < 4) ids /\ Forall (fun x => 0 <= x < 64) fs;
  back := fun _ '(r, n, ids, fs) => (Z.min n 4, take 4 ids, take 4 fs);
  size := fun '(r, n, ids, fs) => 2 + Z.min n 4;
  opcode := CEC_MSG_REQUEST_SHORT_AUDIO_DESCRIPTOR; bcast := false;
  asks := fun '(r, n, ids, fs) => waits r CEC_MSG_REPORT_SHORT_AUDIO_DESCRIPTOR; cdc := None |}.

(** The delay is sent with mode 3 only. *)
Definition report_current_latency_codec : codec := {|
  pack := fun '(a, v, l, c, d) => cec_msg_report_current_latency a v l c d;
  unpack := cec_ops_report_current_latency;
  valid := fun '(a, v, l, c, d) => is_word a /\ is_byte v /\ 0 <= l < 2 /\ 0 <= c < 4 /\ is_byte d;
  back := fun _ '(a, v, l, c, d) => (a, v, l, c, if c =? 3 then d else 0);
  size := fun '(a, v, l, c, d) => if c =? 3 then 7 else 6;
  opcode := CEC_MSG_REPORT_CURRENT_LATENCY; bcast := true;
  asks := fun _ => None; cdc := None |}.

(** The state of the encoder is lost: the one of the host is read twice. *)
Definition cdc_hec_report_state_codec : codec := {|
  pack := fun '(a, h, o, e, r, n, f) => cec_msg_cdc_hec_report_state a h o e r n f;
  unpack := cec_ops_cdc_hec_report_state;
  valid := fun '(a, h, o, e, r, n, f) => is_word a /\ 0 <= h < 4 /\ 0 <= o < 4 /\ 0 <= e < 4 /\
    0 <= r < 4 /\ 0 <= n < 2 /\ is_word f;
  back := fun m '(a, h, o, e, r, n, f) => (phys_addr m, a, h, o, o, r, n, if n =? 0 then 0 else f);
  size := fun '(a, h, o, e, r, n, f) => if n =? 0 then 8 else 10;
  opcode := CEC_MSG_CDC_MESSAGE; bcast := true;
  asks := fun _ => None; cdc := Some CEC_MSG_CDC_HEC_REPORT_STATE |}.

(** The addresses up to the first invalid one. *)
Definition addrs_sent (a b c : Z) : Z :=
  if a =? CEC_PHYS_ADDR_INVALID then 0 else if b =? CEC_PHYS_ADDR_INVALID then 1
  else if c =? CEC_PHYS_ADDR_INVALID then 2 else 3.

(** The opcode in the fifth byte is that of an inquiry, where CEC_MSG_CDC_HEC_SET_STATE was
    meant. *)
Definition cdc_hec_set_state_codec : codec := {|
  pack := fun '(a1, a2, s, a3, a4, a5) => cec_msg_cdc_hec_set_state a1 a2 s a3 a4 a5;
  unpack := cec_ops_cdc_hec_set_state;
  valid := fun '(a1, a2, s, a3, a4, a5) => is_word a1 /\ is_word a2 /\ is_byte s /\ is_word a3 /\
    is_word a4 /\ is_word a5;
  back := fun m '(a1, a2, s, a3, a4, a5) =>
    (phys_addr m, a1, a2, s,
     if 1 <=? addrs_sent a3 a4 a5 then a3 else CEC_PHYS_ADDR_INVALID,
     if 2 <=? addrs_sent a3 a4 a5 then a4 else CEC_PHYS_ADDR_INVALID,
     if 3 <=? addrs_sent a3 a4 a5 then a5 else CEC_PHYS_ADDR_INVALID);
  size := fun '(a1, a2, s, a3, a4, a5) => 10 + 2 * addrs_sent a3 a4 a5;
  opcode := CEC_MSG_CDC_MESSAGE; bcast := true;
  asks := fun _ => None; cdc := Some CEC_MSG_CDC_HEC_INQUIRE_STATE |}.

(** ** What a codec promises *)

(** The reply is set, or left alone in a message without answer; a CDC message has its own
    opcode in the fifth byte. *)
Definition replied (c : codec) (m : cec_msg) (v : In c) (m' : cec_msg) : Prop :=
  reply m' = default (reply m) (asks c v) /\
  match cdc c with Some op => m'.[4] = op | None => True end.

(** Every valid operand is packed, and unpacking returns what [back] says of it. *)
Definition codec_ok (c : codec) : Prop :=
  forall m v, cec_ok m -> valid c v ->
  exists m', pack c v m = Some m' /\ unpack c m' = back c m v /\
             framed (size c v) (opcode c) (bcast c) m m' /\ replied c m v m'.

(** All messages that can be packed and unpacked: those with a fixed layout, and those
    whose size or layout depends on the operands. *)
Definition fixed_codecs : list codec :=
  [active_source_codec; inactive_source_codec; routing_information_codec; routing_change_codec;
   set_stream_path_codec; record_status_codec; timer_cleared_status_codec;
   clear_analogue_timer_codec; clear_digital_timer_codec; clear_ext_timer_codec;
   set_analogue_timer_codec; set_digital_timer_codec; set_ext_timer_codec; cec_version_codec;
   report_physical_addr_codec; deck_control_codec; deck_status_codec; give_deck_status_codec;
   play_codec; give_tuner_device_status_codec; select_analogue_service_codec;
   select_digital_service_codec; device_vendor_id_codec; menu_status_codec; menu_request_codec;
   report_power_status_codec; feature_abort_codec; report_audio_status_codec;
   set_system_audio_mode_codec; system_audio_mode_status_codec; set_audio_rate_codec;
   request_current_latency_codec; cdc_hec_inquire_state_codec; cdc_hec_set_state_adjacent_codec;
   cdc_hec_request_deactivation_codec; cdc_hec_notify_alive_codec; cdc_hec_discover_codec;
   cdc_hpd_set_state_codec; cdc_hpd_report_state_codec].

Definition variable_codecs : list codec :=
  [record_on_codec; timer_status_codec; set_timer_program_title_codec; set_menu_language_codec;
   report_features_codec; tuner_device_status_codec; vendor_command_codec;
   vendor_command_with_id_codec; vendor_remote_button_down_codec; set_osd_string_codec;
   set_osd_name_codec; user_control_pressed_codec; system_audio_mode_request_codec;
   report_short_audio_descriptor_codec; request_short_audio_descriptor_codec;
   report_current_latency_codec; cdc_hec_report_state_codec; cdc_hec_set_state_codec].

Definition codecs : list codec := fixed_codecs ++ variable_codecs.

(** ** Messages without operands *)

(** [ask b] makes the message; with [b] it waits for the answer, if it has one. *)
Record request := Request {
  ask : Z -> cmd;
  code : Z;
  answer : option Z;
  to_all : bool
}.

(** Two bytes; the reply to wait for is set, or left alone in a message without answer. *)
Definition request_ok (r : request) : Prop :=
  forall m b, cec_ok m ->
  exists m', ask r b m = Some m' /\ framed 2 (code r) (to_all r) m m' /\
    reply m' = match answer r with Some a => if b =? 0 then 0 else a | None => reply m end.

Definition requests : list request :=
  [Request (fun _ => cec_msg_image_view_on) CEC_MSG_IMAGE_VIEW_ON None false;
   Request (fun _ => cec_msg_text_view_on) CEC_MSG_TEXT_VIEW_ON None false;
   Request cec_msg_request_active_source CEC_MSG_REQUEST_ACTIVE_SOURCE (Some CEC_MSG_ACTIVE_SOURCE) true;
   Request (fun _ => cec_msg_standby) CEC_MSG_STANDBY None false;
   Request cec_msg_record_off CEC_MSG_RECORD_OFF (Some CEC_MSG_RECORD_STATUS) false;
   Request cec_msg_record_tv_screen CEC_MSG_RECORD_TV_SCREEN (Some CEC_MSG_RECORD_ON) false;
   Request cec_msg_get_cec_version CEC_MSG_GET_CEC_VERSION (Some CEC_MSG_CEC_VERSION) false;
   Request cec_msg_give_physical_addr CEC_MSG_GIVE_PHYSICAL_ADDR
     (Some CEC_MSG_REPORT_PHYSICAL_ADDR) false;
   Request cec_msg_get_menu_language CEC_MSG_GET_MENU_LANGUAGE (Some CEC_MSG_SET_MENU_LANGUAGE) false;
   Request cec_msg_give_features CEC_MSG_GIVE_FEATURES (Some CEC_MSG_REPORT_FEATURES) false;
   Request (fun _ => cec_msg_tuner_step_decrement) CEC_MSG_TUNER_STEP_DECREMENT None false;
   Request (fun _ => cec_msg_tuner_step_increment) CEC_MSG_TUNER_STEP_INCREMENT None false;
   Request cec_msg_give_device_vendor_id CEC_MSG_GIVE_DEVICE_VENDOR_ID
     (Some CEC_MSG_DEVICE_VENDOR_ID) false;
   Request (fun _ => cec_msg_vendor_remote_button_up) CEC_MSG_VENDOR_REMOTE_BUTTON_UP None false;
   Request cec_msg_give_osd_name CEC_MSG_GIVE_OSD_NAME (Some CEC_MSG_SET_OSD_NAME) false;
   Request (fun _ => cec_msg_user_control_released) CEC_MSG_USER_CONTROL_RELEASED None false;
   Request cec_msg_give_device_power_status CEC_MSG_GIVE_DEVICE_POWER_STATUS
     (Some CEC_MSG_REPORT_POWER_STATUS) false;
   Request (fun _ => cec_msg_abort) CEC_MSG_ABORT None false;
   Request cec_msg_give_audio_status CEC_MSG_GIVE_AUDIO_STATUS (Some CEC_MSG_REPORT_AUDIO_STATUS) false;
   Request cec_msg_give_system_audio_mode_status CEC_MSG_GIVE_SYSTEM_AUDIO_MODE_STATUS
     (Some CEC_MSG_SYSTEM_AUDIO_MODE_STATUS) false;
   Request (fun _ => cec_msg_report_arc_initiated) CEC_MSG_REPORT_ARC_INITIATED None false;
   Request cec_msg_initiate_arc CEC_MSG_INITIATE_ARC (Some CEC_MSG_REPORT_ARC_INITIATED) false;
   Request cec_msg_request_arc_initiation CEC_MSG_REQUEST_ARC_INITIATION
     (Some CEC_MSG_INITIATE_ARC) false;
   Request (fun _ => cec_msg_report_arc_terminated) CEC_MSG_REPORT_ARC_TERMINATED None false;
   Request cec_msg_terminate_arc CEC_MSG_TERMINATE_ARC (Some CEC_MSG_REPORT_ARC_TERMINATED) false;
   Request cec_msg_request_arc_termination CEC_MSG_REQUEST_ARC_TERMINATION
     (Some CEC_MSG_TERMINATE_ARC) false].

(** Every answer is the opcode of a message that can be made. *)
Definition answered (r : request) : bool :=
  match answer r with
  | Some a => existsb (fun c => opcode c =? a) codecs || existsb (fun r => code r =? a) requests
  | None => true
  end.
