(* ===== verification/CecRun.v ===== *)
(** * HDMI CEC messages: how the functions are run

    The arithmetic of the packed fields, and the tactics that run a function on symbolic
    operands. *)

From S2P Require Import Prelude CLib Cec CecMsg CecCodec.
Open Scope Z_scope.
Open Scope cec_scope.

(** ** Arithmetic of the fields *)

Lemma u8_id x : is_byte x -> u8 x = x.
Proof. intros Hx. by apply Z.mod_small. Qed.

Lemma u8_byte x : is_byte (u8 x).
Proof. by apply (Z.mod_pos_bound x 256). Qed.

(** Check all values below a bound. *)
Lemma below (n : nat) (P : Z -> Prop) `{forall x, Decision (P x)} x :
  forallb (fun x => bool_decide (P x)) (Z.of_nat <$> seq 0 n) = true ->
  0 <= x < Z.of_nat n -> P x.
Proof.
  intros Hf Hx. rewrite forallb_forall in Hf. apply (bool_decide_eq_true_1 (P x)). apply Hf.
  apply list_elem_of_In, list_elem_of_fmap. exists (Z.to_nat x). split; [lia|].
  apply elem_of_seq. lia.
Qed.

(** A low field added to bits above it. *)
Lemma lor_sum n x y : 0 <= n -> x mod 2 ^ n = 0 -> 0 <= y < 2 ^ n -> x .| y = x + y.
Proof.
  intros Hn Hx Hy. assert (x = x / 2 ^ n * 2 ^ n) as ->.
  { pose proof (Z.div_mod x (2 ^ n)). lia. }
  rewrite <-Z.shiftl_mul_pow2 at 1 by done. by rewrite lor_add.
Qed.

Lemma lor_zero x : 0 .| x = x.
Proof. apply Z.lor_0_l. Qed.

(** The two fields of a byte. *)
Lemma field_hi n hi lo :
  0 <= n -> 0 <= lo < 2 ^ n -> is_byte (hi * 2 ^ n + lo) -> u8 ((hi << n) .| lo) >> n = hi.
Proof.
  intros Hn Hlo Hb. rewrite lor_add, u8_id, shiftr_div by done.
  rewrite Z.div_add_l by lia. rewrite Z.div_small by done. lia.
Qed.
Lemma field_lo n hi lo :
  0 <= n -> 0 <= lo < 2 ^ n -> is_byte (hi * 2 ^ n + lo) ->
  u8 ((hi << n) .| lo) .& (2 ^ n - 1) = lo.
Proof.
  intros Hn Hlo Hb. rewrite lor_add, u8_id, land_mask by done.
  rewrite Z.add_comm, Z.mod_add by lia. by apply Z.mod_small.
Qed.

Lemma flag_hi f x : 0 <= f < 2 -> 0 <= x < 128 -> u8 ((f << 7) .| x) >> 7 = f.
Proof. intros. apply field_hi; unfold is_byte; lia. Qed.
Lemma flag_lo f x : 0 <= f < 2 -> 0 <= x < 128 -> u8 ((f << 7) .| x) .& 0x7f = x.
Proof. intros. apply (field_lo 7); unfold is_byte; lia. Qed.
Lemma nibble_hi x y : 0 <= x < 16 -> 0 <= y < 16 -> u8 ((x << 4) .| y) >> 4 = x.
Proof. intros. apply field_hi; unfold is_byte; lia. Qed.
Lemma nibble_lo x y : 0 <= x < 16 -> 0 <= y < 16 -> u8 ((x << 4) .| y) .& 0xf = y.
Proof. intros. apply (field_lo 4); unfold is_byte; lia. Qed.
Lemma pair_hi x y : 0 <= x < 64 -> 0 <= y < 4 -> u8 ((x << 2) .| y) >> 2 = x.
Proof. intros. apply field_hi; unfold is_byte; lia. Qed.
Lemma pair_lo x y : 0 <= x < 64 -> 0 <= y < 4 -> u8 ((x << 2) .| y) .& 3 = y.
Proof. intros. apply (field_lo 2); unfold is_byte; lia. Qed.

Lemma seven_bits x : 0 <= x < 128 -> x .& 0x7f = x.
Proof. intros. change 0x7f with (2 ^ 7 - 1). rewrite land_mask by lia. by apply Z.mod_small. Qed.

Lemma one_bit x : 0 <= x < 2 -> u8 (x .& 1) = x.
Proof. apply (below 2 (fun x => u8 (x .& 1) = x)). by vm_compute. Qed.

(** The byte of the HEC states: four fields of two bits. *)
Lemma states_byte a b c d :
  0 <= a < 4 -> 0 <= b < 4 -> 0 <= c < 4 -> 0 <= d < 4 ->
  let x := u8 ((a << 6) .| (b << 4) .| (c << 2) .| d) in
  u8 (x >> 6) = a /\ u8 ((x >> 4) .& 3) = b /\ u8 (x .& 3) = d.
Proof.
  intros Ha Hb Hc Hd. rewrite !Z.shiftl_mul_pow2 by lia.
  change (2 ^ 6) with 64. change (2 ^ 4) with 16. change (2 ^ 2) with 4.
  rewrite (lor_sum 6 (a * 64) (b * 16)), (lor_sum 4 _ (c * 4)), (lor_sum 2 _ d) by
    (cbn; Z.div_mod_to_equations; lia).
  change 3 with (2 ^ 2 - 1). cbv zeta. rewrite (u8_id (_ + _)) by (unfold is_byte; lia).
  rewrite !land_mask, !shiftr_div by lia. unfold u8. change (2 ^ 8) with 256.
  change (2 ^ 6) with 64. change (2 ^ 4) with 16. change (2 ^ 2) with 4.
  Z.div_mod_to_equations. lia.
Qed.

(** The byte of a timer status. *)
Lemma timer_byte w k f c :
  0 <= w < 2 -> 0 <= k < 4 -> 0 <= f < 2 -> 0 <= c < 16 ->
  let x := u8 ((w << 7) .| (k << 5) .| f * 16 .| c) in
  u8 (x >> 7) = w /\ u8 ((x >> 5) .& 3) = k /\ x .& 0x10 = f * 16 /\ x .& 0xf = c.
Proof.
  intros Hw Hk Hf Hc. rewrite !Z.shiftl_mul_pow2 by lia.
  change (2 ^ 7) with 128. change (2 ^ 5) with 32.
  rewrite (lor_sum 7 (w * 128) (k * 32)), (lor_sum 5 _ (f * 16)), (lor_sum 4 _ c) by
    (cbn; Z.div_mod_to_equations; lia).
  assert (forall n, is_byte n -> n .& 0x10 = n / 16 mod 2 * 16) as H10.
  { intros n. apply (below 256 (fun n => n .& 0x10 = n / 16 mod 2 * 16)). by vm_compute. }
  change 3 with (2 ^ 2 - 1). change 0xf with (2 ^ 4 - 1). cbv zeta.
  rewrite (u8_id (_ + _)) by (unfold is_byte; lia). rewrite H10 by (unfold is_byte; lia).
  rewrite !land_mask, !shiftr_div by lia. unfold u8. change (2 ^ 8) with 256.
  change (2 ^ 7) with 128. change (2 ^ 5) with 32. change (2 ^ 4) with 16. change (2 ^ 2) with 4.
  Z.div_mod_to_equations. lia.
Qed.

(** The bytes of a word, and of a vendor id. *)
Lemma word_back x : is_word x -> u16 ((u8 (x >> 8) << 8) .| u8 (x .& 0xff)) = x.
Proof.
  unfold is_word. intros Hx. change 0xff with (2 ^ 8 - 1). rewrite land_mask, shiftr_div by lia.
  unfold u8. rewrite Z.mod_mod by done. rewrite lor_add by (try apply Z.mod_pos_bound; lia).
  unfold u16. change (2 ^ 8) with 256. change (2 ^ 16) with 65536.
  Z.div_mod_to_equations. lia.
Qed.

Lemma id_back x : 0 <= x < 2 ^ 24 ->
  u32 ((u8 (x >> 16) << 16) .| (u8 ((x >> 8) .& 0xff) << 8) .| u8 (x .& 0xff)) = x.
Proof.
  change (2 ^ 24) with 16777216. intros Hx. change 0xff with (2 ^ 8 - 1).
  rewrite !land_mask, !shiftr_div by lia. unfold u8. rewrite !Z.mod_mod by done.
  change (2 ^ 8) with 256. change (2 ^ 16) with 65536.
  rewrite (lor_add _ (_ << 8) 16), (lor_sum 8);
    rewrite ?Z.shiftl_mul_pow2 by lia; unfold u32; Z.div_mod_to_equations; lia.
Qed.

(** Two decimal digits. *)
Lemma bcd_back h : is_bcd h ->
  u8 ((u8 (((h / 10) << 4) .| (h mod 10)) >> 4) * 10 +
      (u8 (((h / 10) << 4) .| (h mod 10)) .& 0xf)) = h.
Proof.
  apply (below 100 (fun h => u8 ((u8 (((h / 10) << 4) .| (h mod 10)) >> 4) * 10 +
    (u8 (((h / 10) << 4) .| (h mod 10)) .& 0xf)) = h)). by vm_compute.
Qed.

Lemma major_high x : 0 <= x < 1024 -> 0 <= x >> 8 < 4.
Proof. intros. rewrite shiftr_div by lia. change (2 ^ 8) with 256. Z.div_mod_to_equations. lia. Qed.

Lemma major_word x : 0 <= x < 1024 -> u16 (((x >> 8) << 6) .| u8 (x .& 0xff)) = major_back x.
Proof.
  apply (below 1024 (fun x => u16 (((x >> 8) << 6) .| u8 (x .& 0xff)) = major_back x)).
  by vm_compute.
Qed.

Lemma u8_small x n : 0 <= x < n -> n <= 256 -> u8 x = x.
Proof. intros. apply u8_id. unfold is_byte. lia. Qed.

(** ** Runs of the functions *)

Ltac cec_cases m Hm :=
  let b := fresh "b" in let Hlen := fresh "Hlen" in let Hbytes := fresh "Hbytes" in
  destruct m as [? ? ? ? ? ? b ? ? ? ? ? ? ?];
  destruct Hm as [Hlen Hbytes]; cbn [msg] in Hlen, Hbytes;
  do 16 (destruct b as [|? b]; [discriminate Hlen|]); destruct b; [|discriminate Hlen];
  clear Hlen.

Ltac cec_operands v Hv :=
  hnf in v; repeat match goal with p : _ * _ |- _ => destruct p end;
  match type of Hv with valid ?c _ => cbv beta iota delta [valid c] in Hv end;
  repeat match goal with
  | H : _ /\ _ |- _ =>
      lazymatch type of H with _ <= _ < _ => fail | _ => destruct H end
  end.

Ltac cec_run := cbv -[Z.shiftr Z.shiftl Z.land Z.lor Z.modulo Z.div u8 u16 u32 Z.add Z.mul Z.sub
  Z.eqb Z.ltb Z.leb Z.le Z.lt append is_atsc has_duration has_byte_operand major_back].

(** The three layouts of a digital service. *)
Lemma digital_cases d (P : cec_op_digital_service_id -> Prop) :
  digital_ok d ->
  (forall s f a b, 0 <= s < 128 -> 0 <= f < 64 -> 0 <= a < 1024 -> is_word b ->
    P (DigitalServiceId CEC_OP_SERVICE_ID_METHOD_BY_CHANNEL s f a b)) ->
  (forall s a b, 0 <= s < 128 -> is_atsc s = true -> is_word a -> is_word b ->
    P (DigitalServiceId CEC_OP_SERVICE_ID_METHOD_BY_DIG_ID s a b 0)) ->
  (forall s a b c, 0 <= s < 128 -> is_atsc s = false -> is_word a -> is_word b -> is_word c ->
    P (DigitalServiceId CEC_OP_SERVICE_ID_METHOD_BY_DIG_ID s a b c)) -> P d.
Proof.
  intros Hd H1 H2 H3. destruct d as [mt s a b c], Hd as [Hs [(?&?&?&?)|(?&?&?&?&?)]]; simpl in *; subst.
  - by apply H1.
  - destruct (is_atsc s) eqn:E; [|by apply H3]. assert (c = 0) as -> by auto. by apply H2.
Qed.

(** Decide the comparisons of constants. *)
Ltac cec_bool b :=
  let v := eval vm_compute in b in
  match v with true => idtac | false => idtac end; change b with v; cbv iota.
Ltac cec_bools :=
  repeat match goal with
  | |- context [Z.eqb ?p ?q] => cec_bool (Z.eqb p q)
  | |- context [Z.ltb ?p ?q] => cec_bool (Z.ltb p q)
  | |- context [Z.leb ?p ?q] => cec_bool (Z.leb p q)
  end.

(** The length field so far. *)
Ltac cec_const x := let v := eval vm_compute in x in change x with v.
Ltac cec_len :=
  repeat match goal with
  | |- context [u32 (Zpos ?p)] => cec_const (u32 (Zpos p))
  | |- context [u32 (Zpos ?p + Zpos ?q)] => cec_const (u32 (Zpos p + Zpos q))
  | |- context [u32 (Zpos ?p + ?n * Zpos ?q)] =>
      match n with Zpos _ => idtac | 0 => idtac end; cec_const (u32 (Zpos p + n * Zpos q))
  | |- context [u32 (Zpos ?p - Zpos ?q)] => cec_const (u32 (Zpos p - Zpos q))
  | |- context [u8 (Zpos ?p / Zpos ?q)] => cec_const (u8 (Zpos p / Zpos q))
  | |- context [u8 (0 / Zpos ?q)] => cec_const (u8 (0 / Zpos q))
  | |- context [u8 (Zpos ?p)] => cec_const (u8 (Zpos p))
  | |- context [u8 0] => change (u8 0) with 0
  end.

(** Outcomes of comparisons that are hypotheses. *)
Ltac cec_known :=
  repeat match goal with
  | E : ?b = true |- context [?b] => rewrite E; cbv iota
  | E : ?b = false |- context [?b] => rewrite E; cbv iota
  end.

(** A byte appended to a message of known length. *)
Lemma append_eq n v m :
  len m = Z.of_nat n -> (n < CEC_MAX_MSG_SIZE)%nat ->
  append v m = Some (with_len (Z.of_nat (S n)) (with_msg (<[n := u8 v]> (msg m)) m)).
Proof.
  intros Hl Hn. unfold append, seq_cmd, put, add_len, set_len. rewrite Hl, Nat2Z.id.
  destruct (Nat.ltb_spec n CEC_MAX_MSG_SIZE); [|lia]. cbn. rewrite Hl. do 3 f_equal.
  unfold u32. unfold CEC_MAX_MSG_SIZE in *. rewrite Z.mod_small; lia.
Qed.

Ltac cec_append :=
  match goal with |- context [append ?v ?m] =>
    let l := eval vm_compute in (Z.to_nat (len m)) in
    rewrite (append_eq l v m) by (reflexivity || (unfold CEC_MAX_MSG_SIZE; lia));
    cec_run; cec_len
  end.

Ltac cec_eval :=
  cec_run; cec_len; repeat first [progress cec_known; cec_run; cec_len | cec_append]; cec_bools.

Ltac cec_small :=
  repeat match goal with
  | H : 0 <= ?f < ?n |- context [u8 ?f] => rewrite (u8_small f n H) by lia
  | H : is_byte ?f |- context [u8 ?f] => rewrite (u8_id f H)
  end.

(** The fields of a service, layout by layout. *)
Ltac cec_digital :=
  rewrite ?seven_bits by done; rewrite ?flag_hi, ?flag_lo, ?nibble_hi, ?nibble_lo by done;
  cec_bools; cec_small;
  rewrite ?pair_hi, ?pair_lo, ?lor_zero, ?(u8_small (u8 _) 256) by first [apply major_high; done | lia];
  cec_small; rewrite ?word_back, ?major_word by done.

(** Components of an operand that come back by one of the lemmas above. *)
Ltac cec_field := first [ done | apply u8_id; done | apply word_back; done | apply bcd_back; done
  | apply id_back; done | apply one_bit; done ].
Ltac cec_fields := repeat match goal with |- (_, _) = (_, _) => apply pair_equal_spec; split end;
  cec_known; try cec_field.
(** The message that a pack function makes. *)
Ltac cec_pack := cec_eval; reflexivity.

(** One case for each layout of a digital operand. *)
Ltac cec_layouts :=
  try match goal with H : digital_ok ?d |- _ =>
    pattern d; apply digital_cases; [exact H|clear H; intros..] end.

(** The bits that a broadcast sets. *)
Lemma broadcast_high b : is_byte b -> u8 (b .| 15) >> 4 = b >> 4.
Proof. apply (below 256 (fun b => u8 (b .| 15) >> 4 = b >> 4)). by vm_compute. Qed.
Lemma broadcast_low b : is_byte b -> u8 (b .| 15) .& 15 = 15.
Proof. apply (below 256 (fun b => u8 (b .| 15) .& 15 = 15)). by vm_compute. Qed.


Lemma framed_intro sz op (all : bool) m m' :
  is_byte m.[0] -> length (msg m') = CEC_MAX_MSG_SIZE -> Forall is_byte (tail (msg m')) ->
  m'.[0] = (if all then u8 (m.[0] .| 15) else m.[0]) -> m'.[1] = op -> len m' = sz ->
  2 <= sz <= 16 -> framed sz op all m m'.
Proof.
  unfold framed, cec_ok, cec_msg_initiator, cec_msg_destination. intros Hm Hl Hb H0 -> -> Hsz.
  assert (is_byte m'.[0]) by (rewrite H0; destruct all; auto using u8_byte).
  assert (Forall is_byte (msg m')) by (destruct (msg m'); [done|by constructor]).
  rewrite H0. destruct all; rewrite ?broadcast_high, ?broadcast_low by done; done.
Qed.

Ltac cec_framed :=
  match goal with Hbytes : Forall is_byte _ |- _ =>
    rewrite !Forall_cons in Hbytes; destruct_and? Hbytes end;
  apply framed_intro;
  [ done | reflexivity | cbn [tail msg]; repeat (apply Forall_cons_2; [first [done | apply u8_byte]|]); done
  | reflexivity | reflexivity | cec_eval; reflexivity | cec_eval; lia ].

Ltac cec_replied :=
  split; [|first [exact I | reflexivity]]; cbv [asks default waits]; cec_eval;
  repeat match goal with |- context [?x =? ?y] => destruct (x =? y) end; reflexivity.

(** Introduce the operands; run the two functions on them. *)
Ltac cec_start := let m := fresh "m" in let v := fresh "v" in let Hm := fresh "Hm" in
  let Hv := fresh "Hv" in intros m v Hm Hv; cec_operands v Hv.
Ltac cec_finish :=
  cec_layouts; match goal with Hm : cec_ok ?m |- _ => cec_cases m Hm end;
  (eexists; split; [cec_pack|split; [cec_eval; cec_digital; cec_fields|split; [cec_framed|cec_replied]]]).
Ltac codec_ok := cec_start; cec_finish.

(** ** Messages that end with a copied buffer *)

Lemma put_ok i v b :
  length b = CEC_MAX_MSG_SIZE /\ Forall is_byte b ->
  length (<[i := u8 v]> b) = CEC_MAX_MSG_SIZE /\ Forall is_byte (<[i := u8 v]> b).
Proof.
  intros [Hl Hb]. rewrite length_insert. split; [done|]. apply Forall_insert; [done|apply u8_byte].
Qed.
Lemma cec_ok_head m : cec_ok m -> is_byte m.[0].
Proof. intros [Hl Hb]. destruct (msg m); [done|]. by inversion Hb. Qed.

Lemma nth_write_at i off v b :
  (i < off)%nat -> (off <= length b)%nat -> nth i (write_at off v b) 0 = nth i b 0.
Proof.
  intros Hi Hb. unfold write_at. rewrite app_nth1 by (rewrite length_take; lia).
  rewrite <-(take_drop off b) at 2. by rewrite app_nth1 by (rewrite length_take; lia).
Qed.

Lemma Forall_write_at (P : Z -> Prop) off v b : Forall P v -> Forall P b -> Forall P (write_at off v b).
Proof.
  intros Hv Hb. unfold write_at. apply Forall_app. split; [by apply Forall_take|].
  apply Forall_app. split; [done | by apply Forall_drop].
Qed.

(** The copy of [n] bytes to [off] ends a message of that size. *)
Lemma copy_tail off src n op (all : bool) m m0 :
  cec_ok m -> cec_ok m0 -> Forall is_byte src -> (2 <= off)%nat -> 0 <= n ->
  n <= Z.of_nat (length src) -> Z.of_nat off + n <= 16 -> len m0 = Z.of_nat off + n ->
  m0.[0] = (if all then u8 (m.[0] .| 15) else m.[0]) -> m0.[1] = op ->
  exists m', copy off src n m0 = Some m' /\ slice off (Z.to_nat n) (msg m') = take (Z.to_nat n) src /\
    len m' = Z.of_nat off + n /\ (forall i, (i < off)%nat -> m'.[i] = m0.[i]) /\
    reply m' = reply m0 /\
    framed (Z.of_nat off + n) op all m m'.
Proof.
  intros Hm [Hl0 Hb0] Hs Hoff Hn Hsrc Hsz Hlen H0 H1. unfold CEC_MAX_MSG_SIZE in Hl0.
  assert (length (take (Z.to_nat n) src) = Z.to_nat n) as Ht by (rewrite length_take; lia).
  unfold copy. rewrite (proj2 (Nat.leb_le _ _)), (proj2 (Nat.leb_le _ _)) by (unfold CEC_MAX_MSG_SIZE; lia).
  cbn [andb]. eexists. split; [done|]. cbn [msg with_msg len].
  assert (forall i, (i < off)%nat -> nth i (write_at off (take (Z.to_nat n) src) (msg m0)) 0 = m0.[i])
    as Hi by (intros; apply nth_write_at; lia).
  split; [rewrite <-Ht at 1; apply slice_write_at; lia|]. do 3 (split; [done|]).
  apply framed_intro; cbn [msg with_msg len]; rewrite ?Hi by lia; try done; [by apply cec_ok_head | | | lia].
  - rewrite length_write_at; [done|lia].
  - apply Forall_tail, Forall_write_at; [by apply Forall_take | done].
Qed.


Lemma cstring_bytes s : cstring s -> Forall is_byte (s ++ [0]).
Proof.
  intros Hs. apply Forall_app. split; [|by repeat constructor].
  eapply Forall_impl; [exact Hs|]. unfold is_byte. intros; cbn in *; lia.
Qed.

Lemma u32_len off n : 0 <= off -> 0 <= n -> off + n <= 16 -> u32 (off + n) = off + n.
Proof. intros. apply Z.mod_small. lia. Qed.

(** The length of a text is read back from the length of the message. *)
Lemma text_len off n room :
  0 <= off -> 0 <= n <= room -> Z.min (if off <? off + n then off + n - off else 0) room = n.
Proof. intros. destruct (Z.ltb_spec off (off + n)); lia. Qed.

Lemma take_text (s : bytes) (room : nat) :
  take (Z.to_nat (Z.min (strlen s) (Z.of_nat room))) (s ++ [0]) = take room s.
Proof.
  unfold strlen. destruct (decide (length s <= room)%nat).
  - rewrite Z.min_l, Nat2Z.id, take_app_length, take_ge by lia. done.
  - rewrite Z.min_r, Nat2Z.id, take_app_le by lia. done.
Qed.

Ltac cec_side :=
  first [ done | by (unfold cec_ok; cbn [msg with_msg]; repeat apply put_ok) | by apply cstring_bytes
        | by (match goal with Hm : cec_ok ?m |- _ => cec_cases m Hm end)
        | unfold strlen; rewrite ?length_app; cbn [length]; lia ].

(** Copy [n] bytes of [src] to [off] of the message [m0], made from [m]. *)
Ltac cec_copy off src n op all m m0 :=
  let m' := fresh "m'" in let Hrun := fresh "Hrun" in let Hslice := fresh "Hslice" in
  let Hlen := fresh "Hlen" in let Hlow := fresh "Hlow" in let Hf := fresh "Hf" in
  let Hrep := fresh "Hrep" in
  destruct (copy_tail off src n op all m m0) as (m' & Hrun & Hslice & Hlen & Hlow & Hrep & Hf);
  [try cec_side..|exists m'; split; [|split; [|split; [exact Hf|try (split; [exact Hrep|exact I])]]]].

(** A text of at most [room] bytes after [op]. *)
Lemma text_sent op (room : nat) s m :
  cec_ok m -> cstring s -> (room <= 14)%nat -> is_byte op ->
  let l := Z.min (strlen s) (Z.of_nat room) in
  exists m', (set_len (2 + l) ;> put 1 op ;> copy 2 (s ++ [0]) l) m = Some m' /\
    slice 2 (Z.to_nat (Z.min (if 2 <? len m' then len m' - 2 else 0) (Z.of_nat room))) (msg m') ++ [0]
      = take room s ++ [0] /\
    framed (2 + l) op false m m' /\ (reply m' = reply m /\ True).
Proof.
  intros Hm Hs Hr Hop l. subst l.
  cec_copy 2%nat (s ++ [0]) (Z.min (strlen s) (Z.of_nat room)) op false m
    (with_msg (<[1%nat := u8 op]> (msg m)) (with_len (2 + Z.min (strlen s) (Z.of_nat room)) m)).
  - cec_cases m Hm. cbn. by apply u8_id.
  - rewrite <-Hrun. unfold seq_cmd, set_len. cbn -[copy Z.add u32 u8].
    rewrite u32_len by (unfold strlen; lia). done.
  - rewrite Hlen, (text_len 2) by (unfold strlen; lia). by rewrite Hslice, take_text.
Qed.

(** The statements before the copy make [m0]. *)
Ltac cec_before := match goal with Hrun : copy _ _ _ _ = Some ?m' |- _ = Some ?m' =>
  rewrite <-Hrun; cbn -[copy Z.add Z.min Z.ltb u32 u8]; rewrite ?u32_len by (unfold strlen; lia);
  reflexivity end.

(** Sizes of buffers. *)
Lemma buffer_min n room : (if room <? n then room else n) = Z.min n room.
Proof. destruct (Z.ltb_spec room n); lia. Qed.

Lemma buffer_len off n : 0 <= off -> 0 <= n -> off + n <= 16 -> u8 (u32 (off + n - off)) = n.
Proof.
  intros. rewrite Z.add_simpl_l. unfold u32. rewrite Z.mod_small by lia. apply u8_id.
  unfold is_byte. lia.
Qed.

Lemma format_hi i f : 0 <= i < 4 -> 0 <= f < 64 -> u8 (u8 ((i << 6) .| (f .& 0x3f)) >> 6) = i.
Proof.
  intros. change 0x3f with (2 ^ 6 - 1). rewrite land_mask by lia. change (2 ^ 6) with 64.
  rewrite Z.mod_small, field_hi by (unfold is_byte; lia). by apply (u8_small i 4).
Qed.
Lemma format_lo i f : 0 <= i < 4 -> 0 <= f < 64 -> u8 (u8 ((i << 6) .| (f .& 0x3f)) .& 0x3f) = f.
Proof.
  intros. change 0x3f with (2 ^ 6 - 1). rewrite (land_mask f), Z.mod_small by lia.
  rewrite field_lo by (unfold is_byte; lia). by apply (u8_small f 64).
Qed.

Lemma descriptor_back x : 0 <= x < 2 ^ 24 ->
  u32 ((u8 ((x >> 16) .& 0xff) << 16) .| (u8 ((x >> 8) .& 0xff) << 8) .| u8 (x .& 0xff)) = x.
Proof.
  intros Hx. rewrite <-(id_back x) at 4 by done. do 4 f_equal.
  change 0xff with (2 ^ 8 - 1). rewrite land_mask by lia. apply Z.mod_mod. done.
Qed.

