(* ===== verification/CecProps.v ===== *)
(** * HDMI CEC messages: theorems

    [codec_ok] of every codec and [request_ok] of every request, in groups that need the
    same reasoning, and the properties of all of them. *)

From S2P Require Import Prelude CLib Cec CecMsg CecCodec CecRun.
Open Scope Z_scope.
Open Scope cec_scope.

(** ** Messages of a fixed layout *)

Lemma fixed_codecs_ok : Forall codec_ok fixed_codecs.
Proof. repeat (apply Forall_cons_2; [codec_ok|]). constructor. Qed.

(** ** Messages with cases *)

Lemma report_features_short m :
  is_ext m.[4] = false -> cec_ops_report_features m = (m.[2], m.[3], Some 4%nat, Some 5%nat).
Proof.
  intros E. unfold cec_ops_report_features. by repeat (cbn -[is_ext nth]; rewrite E).
Qed.

Lemma no_ext x : 0 <= x < 128 -> is_ext (u8 x) = false.
Proof. apply (below 128 (fun x => is_ext (u8 x) = false)). by vm_compute. Qed.

Lemma report_features_ok : codec_ok report_features_codec.
Proof.
  cec_start. cec_cases m Hm. eexists; split; [cec_pack|split; [|split; [cec_framed|cec_replied]]].
  cbv [unpack report_features_codec back features_at]. rewrite report_features_short by by apply no_ext.
  cec_run. cbn [fmap option_fmap option_map nth msg]. cec_fields; f_equal; apply u8_id; unfold is_byte in *; lia.
Qed.

Lemma system_audio_mode_request_ok : codec_ok system_audio_mode_request_codec.
Proof.
  intros m [r a] Hm Ha. hnf in Ha.
  destruct (a =? 0xffff) eqn:E; cec_finish. symmetry. by apply Z.eqb_eq.
Qed.

Lemma report_current_latency_ok : codec_ok report_current_latency_codec.
Proof.
  intros m [[[[a v] l] c] d] Hm (Ha & Hv & Hl & Hc & Hd). destruct (c =? 3) eqn:E; cec_finish.
Qed.

Lemma cdc_hec_report_state_ok : codec_ok cdc_hec_report_state_codec.
Proof.
  intros m [[[[[[a h] o] e] r] n] f] Hm (Ha & Hh & Ho & He & Hr & Hn & Hf).
  destruct (states_byte h o e r) as (H1 & H2 & H3); [done..|].
  destruct (n =? 0) eqn:E; cec_finish; lia.
Qed.

Lemma cdc_hec_set_state_ok : codec_ok cdc_hec_set_state_codec.
Proof.
  intros m [[[[[a1 a2] s] a3] a4] a5] Hm (Ha1 & Ha2 & Hs & Ha3 & Ha4 & Ha5).
  cbv [pack unpack back size opcode bcast cdc_hec_set_state_codec cec_msg_cdc_hec_set_state
    append_addrs if_cmd addrs_sent].
  destruct (a3 =? CEC_PHYS_ADDR_INVALID) eqn:E3; [cec_finish|].
  destruct (a4 =? CEC_PHYS_ADDR_INVALID) eqn:E4; [cec_finish|].
  destruct (a5 =? CEC_PHYS_ADDR_INVALID) eqn:E5; cec_finish.
Qed.

Lemma has_duration_info i e : has_duration i 0 = true -> has_duration i e = true.
Proof. unfold has_duration. destruct (i =? _), (i =? _); done. Qed.

Lemma timer_status_ok : codec_ok timer_status_codec.
Proof.
  intros m [[[[[w mi] i] e] dh] dm] Hm (Hw & Hmi & Hi & He & Hdh & Hdm).
  destruct (i =? 0) eqn:E0; [apply Z.eqb_eq in E0 as -> | ].
  - destruct (timer_byte w mi 0 e) as (H1 & H2 & H3 & H4); [lia..|].
    change (0 * 16) with 0 in *. destruct (has_duration 0 e) eqn:E; cec_finish.
    all: rewrite H1, H2, H3, H4; cec_bools; rewrite E; cec_fields.
  - destruct (timer_byte w mi 1 i) as (H1 & H2 & H3 & H4); [lia..|].
    change (1 * 16) with 16 in *. pose proof (has_duration_info i e) as Hd.
    destruct (has_duration i e) eqn:E, (has_duration i 0) eqn:E';
      try (discriminate Hd; done); cec_finish.
    all: rewrite H1, H2, H3, H4; cec_bools; rewrite ?E, ?E'; cec_fields.
Qed.

Lemma record_on_ok : codec_ok record_on_codec.
Proof.
  intros m [r [t d [bt fr bs] p a]] Hm Hv. hnf in Hv.
  cbn [type rec_digital rec_analog rec_plug rec_phys_addr] in Hv.
  destruct Hv as [->|[[-> Hd]|[[-> (? & ? & ?)]|[[-> ?]|[-> ?]]]]];
    cbn [ana_bcast_type ana_freq bcast_system] in *; cec_finish.
Qed.

Lemma tuner_device_status_ok : codec_ok tuner_device_status_codec.
Proof.
  intros m [f i n d [bt fr bs]] Hm (Hf & Hi & [[? Hd]|[? (? & ? & ?)]]);
    cbn [rec_flag tuner_display_info is_analog tuner_digital tuner_analog ana_bcast_type ana_freq
      bcast_system] in *; subst; cec_finish.
Qed.

Lemma user_control_pressed_ok : codec_ok user_control_pressed_codec.
Proof.
  intros m [u o [f ma mi] p] Hm (Hu & Ho & Hp & Hf & Hma & Hmi).
  cbn [ui_cmd has_opt_arg channel_identifier play_mode number_fmt major minor] in *.
  cbv [pack unpack back size opcode bcast user_control_pressed_codec ui_operand
    cec_msg_user_control_pressed ui_cmd has_opt_arg].
  destruct (o =? 0) eqn:E; [|destruct (has_byte_operand u) eqn:Eb; [|destruct (u =? 0x67) eqn:E7]];
    cec_finish.
Qed.

(** ** Messages with a text or a buffer *)

Lemma set_osd_name_ok : codec_ok set_osd_name_codec.
Proof. intros m s Hm Hs. by apply (text_sent _ 14). Qed.
Lemma set_timer_program_title_ok : codec_ok set_timer_program_title_codec.
Proof. intros m s Hm Hs. by apply (text_sent _ 14). Qed.

Lemma set_osd_string_ok : codec_ok set_osd_string_codec.
Proof.
  intros m [c s] Hm [Hc Hs]. cec_copy 3%nat (s ++ [0]) (Z.min (strlen s) 13)
    CEC_MSG_SET_OSD_STRING false m
    (with_msg (<[2%nat := u8 c]> (<[1%nat := u8 CEC_MSG_SET_OSD_STRING]> (msg m)))
       (with_len (3 + Z.min (strlen s) 13) m)); [cec_before|].
  cbv [unpack back set_osd_string_codec]. unfold cec_ops_set_osd_string.
  rewrite Hlen, (text_len 3), Hslice, Hlow by (unfold strlen; lia).
  f_equal; [|exact (f_equal (fun x => x ++ [0]) (take_text s 13))]. cec_cases m Hm. by apply u8_id.
Qed.

Lemma set_menu_language_ok : codec_ok set_menu_language_codec.
Proof.
  intros m s Hm [Hs Hl]. cec_copy 2%nat s 3 CEC_MSG_SET_MENU_LANGUAGE true m
    (with_msg (<[1%nat := u8 CEC_MSG_SET_MENU_LANGUAGE]> (<[0%nat := u8 (m.[0] .| 0xf)]> (msg m)))
       (with_len 5 m)); [cec_before|].
  cbv [unpack back set_menu_language_codec]. unfold cec_ops_set_menu_language. f_equal. exact Hslice.
Qed.

(** A buffer of at most 14 bytes after [op]. *)
Lemma buffer_sent op n b m :
  cec_ok m -> buffer_ok 14 n b -> is_byte op ->
  let size := if 14 <? n then 14 else n in
  exists m', (set_len (2 + size) ;> put 1 op ;> copy 2 b size) m = Some m' /\
    (let size := u8 (u32 (len m' - 2)) in
     let size := if 14 <? size then 14 else size in
     (size, slice 2 (Z.to_nat size) (msg m'))) = (Z.min n 14, take (Z.to_nat (Z.min n 14)) b) /\
    framed (2 + Z.min n 14) op false m m' /\ (reply m' = reply m /\ True).
Proof.
  intros Hm (Hn & Hb & Hl) Hop size. subst size. rewrite buffer_min. unfold is_byte in Hn.
  cec_copy 2%nat b (Z.min n 14) op false m
    (with_msg (<[1%nat := u8 op]> (msg m)) (with_len (2 + Z.min n 14) m)).
  - cec_cases m Hm. cbn. by apply u8_id.
  - cec_before.
  - rewrite Hlen, (buffer_len 2) by lia. cbv zeta. by rewrite buffer_min, Z.min_l, Hslice by lia.
Qed.

Lemma vendor_command_ok : codec_ok vendor_command_codec.
Proof. intros m [n b] Hm Hv. by apply buffer_sent. Qed.
Lemma vendor_remote_button_down_ok : codec_ok vendor_remote_button_down_codec.
Proof. intros m [n b] Hm Hv. by apply buffer_sent. Qed.

Lemma vendor_command_with_id_ok : codec_ok vendor_command_with_id_codec.
Proof.
  intros m [[i n] b] Hm (Hi & Hn & Hb & Hl). unfold is_byte in Hn. 
  cec_copy 5%nat b (Z.min n 11) CEC_MSG_VENDOR_COMMAND_WITH_ID false m
    (with_msg (<[4%nat := u8 (i .& 0xff)]> (<[3%nat := u8 ((i >> 8) .& 0xff)]>
      (<[2%nat := u8 (i >> 16)]> (<[1%nat := u8 CEC_MSG_VENDOR_COMMAND_WITH_ID]> (msg m)))))
      (with_len (5 + Z.min n 11) m)).
  - cbv [pack vendor_command_with_id_codec]. unfold cec_msg_vendor_command_with_id. rewrite buffer_min. cec_before.
  - cbv [unpack back vendor_command_with_id_codec]. unfold cec_ops_vendor_command_with_id.
    rewrite Hlen, (buffer_len 5), buffer_min, Z.min_l, Hslice, !Hlow by lia.
    repeat f_equal. cec_cases m Hm. by apply id_back.
Qed.

(** ** Audio descriptors *)

Ltac cec_lists :=
  repeat match goal with H : Forall _ (_ :: _) |- _ => apply Forall_cons in H as [? H] end.

Lemma request_short_audio_descriptor_ok : codec_ok request_short_audio_descriptor_codec.
Proof.
  intros m [[[r n] ids] fs] Hm (Hn & Hl & Hb & Hi & Hf).
  destruct ids as [|i1 [|i2 [|i3 [|i4 [|i5 ids]]]]], fs as [|f1 [|f2 [|f3 [|f4 [|f5 fs]]]]];
    try discriminate Hl; cec_lists.
  1-5: cbn in Hn; subst n; cec_finish; repeat f_equal; by rewrite ?format_hi, ?format_lo.
  assert ((4 <? n) = true) as E by (cbn [length] in Hn; lia).
  cbv [back size request_short_audio_descriptor_codec]. rewrite (Z.min_r n 4) by lia.
  cec_finish; repeat f_equal; by rewrite ?format_hi, ?format_lo.
Qed.

Lemma report_short_audio_descriptor_ok : codec_ok report_short_audio_descriptor_codec.
Proof.
  intros m [n l] Hm (Hn & Hb & Hl).
  destruct l as [|i1 [|i2 [|i3 [|i4 [|i5 l]]]]]; cec_lists.
  1-5: cbn in Hn; subst n; cec_finish; repeat f_equal; by apply descriptor_back.
  assert ((4 <? n) = true) as E by (cbn [length] in Hn; lia).
  cbv [back size report_short_audio_descriptor_codec]. rewrite (Z.min_r n 4) by lia.
  cec_finish; repeat f_equal; by apply descriptor_back.
Qed.

(** ** All messages *)

Lemma codecs_ok : Forall codec_ok codecs.
Proof.
  apply Forall_app. split; [apply fixed_codecs_ok|].
  repeat (apply Forall_cons_2; [first
    [ apply record_on_ok
    | apply timer_status_ok
    | apply set_timer_program_title_ok
    | apply set_menu_language_ok
    | apply report_features_ok
    | apply tuner_device_status_ok
    | apply vendor_command_ok
    | apply vendor_command_with_id_ok
    | apply vendor_remote_button_down_ok
    | apply set_osd_string_ok
    | apply set_osd_name_ok
    | apply user_control_pressed_ok
    | apply system_audio_mode_request_ok
    | apply report_short_audio_descriptor_ok
    | apply request_short_audio_descriptor_ok
    | apply report_current_latency_ok
    | apply cdc_hec_report_state_ok
    | apply cdc_hec_set_state_ok ]|]).
  constructor.
Qed.

Lemma requests_ok : Forall request_ok requests.
Proof.
  repeat (apply Forall_cons_2; [intros m b Hm; cec_cases m Hm;
    (eexists; split; [cec_pack|split; [cec_framed|cec_eval; try (destruct (b =? 0)); done]])|]).
  constructor.
Qed.

(** A feature abort goes back to where the message came from. *)
Lemma reply_feature_abort_ok m reason :
  cec_ok m -> is_byte reason ->
  exists m', cec_msg_reply_feature_abort reason m = Some m' /\ cec_ok m' /\ len m' = 4 /\
    cec_msg_initiator m' = cec_msg_destination m /\ cec_msg_destination m' = cec_msg_initiator m /\
    cec_msg_opcode m' = CEC_MSG_FEATURE_ABORT /\ cec_ops_feature_abort m' = (m.[1], reason) /\
    reply m' = 0 /\ timeout m' = 0.
Proof.
  intros Hm Hr. cec_cases m Hm. rewrite !Forall_cons in Hbytes. destruct_and? Hbytes.
  eexists. split; [cec_pack|]. unfold cec_msg_initiator, cec_msg_destination. cbn [msg nth].
  assert (0 <= z < 256) by done. change 15 with (2 ^ 4 - 1). rewrite land_mask by lia.
  assert (0 <= z mod 2 ^ 4 < 16) by (by apply Z.mod_pos_bound).
  assert (0 <= z >> 4 < 16).
  { rewrite shiftr_div by lia. change (2 ^ 4) with 16. Z.div_mod_to_equations. lia. }
  rewrite nibble_hi, (nibble_lo _ _ : _ -> _ -> _ .& (2 ^ 4 - 1) = _) by done.
  split; [split; [done|]; repeat (apply Forall_cons_2; [first [done | apply u8_byte]|]); done|].
  do 4 (split; [done|]). split; [|done].
  cbv [cec_ops_feature_abort nth msg]. by rewrite !u8_id by done.
Qed.

Lemma in_fixed c : List.In c fixed_codecs -> c ∈ codecs.
Proof. intros. apply elem_of_app. left. by apply list_elem_of_In. Qed.
Lemma in_variable c : List.In c variable_codecs -> c ∈ codecs.
Proof. intros. apply elem_of_app. right. by apply list_elem_of_In. Qed.

(** ** Properties *)

(** C10: what is packed comes back.  For every message that can be packed and unpacked, and
    valid operands, packing is defined and unpacking returns the operands; for the pointers
    into the message that cec_ops_report_features returns, the bytes they point to are
    compared.  Texts and buffers come back cut to the room of the message, operands that the
    type of the message leaves out as 0 or as the invalid address, and two are lost by the
    code: the high bits of a channel's major number ([major_back]), and in a HEC report the
    state of the encoder. *)
Theorem codecs_roundtrip c m v :
  c ∈ codecs -> cec_ok m -> valid c v ->
  exists m', pack c v m = Some m' /\ unpack c m' = back c m v.
Proof.
  intros Hc Hm Hv. pose proof codecs_ok as H. rewrite Forall_forall in H.
  destruct (H c Hc m v Hm Hv) as (m' & Hp & Hu & _). eauto.
Qed.

Lemma codecs_roundtrip_witness :
  exists m', pack set_osd_string_codec (0x40, str "Hello, CEC world") (cec_msg_init 4 0) = Some m' /\
    unpack set_osd_string_codec m' = (0x40, str "Hello, CEC wo" ++ [0]).
Proof.
  apply (codecs_roundtrip set_osd_string_codec (cec_msg_init 4 0) (0x40, str "Hello, CEC world")).
  - apply in_variable. cbn. tauto.
  - apply cec_init_ok.
  - split; [by unfold is_byte|]. apply (bool_decide_unpack _). by vm_compute.
Defined.



Lemma major_kept x : 0 <= x < 1024 -> (major_back x = x <-> x < 256).
Proof.
  apply (below 1024 (fun x => major_back x = x <-> x < 256)). by vm_compute.
Qed.

(** A channel loses the high bits of its major number: a service that is selected by
    channel comes back with its major number only if that is below 256, although ten bits
    of it are sent. *)
Theorem channel_major_lost d m :
  cec_ok m -> digital_ok d -> service_id_method d = CEC_OP_SERVICE_ID_METHOD_BY_CHANNEL ->
  exists m', cec_msg_select_digital_service d m = Some m' /\
    (channel_major (cec_ops_select_digital_service m' digital0) = channel_major d <->
     channel_major d < 256).
Proof.
  intros Hm Hd Hc. pose proof codecs_ok as H. rewrite Forall_forall in H.
  destruct (H select_digital_service_codec ltac:(apply in_fixed; cbn; tauto) m d Hm Hd)
    as (m' & Hp & Hu & _).
  exists m'. split; [exact Hp|]. change (cec_ops_select_digital_service m' digital0)
    with (unpack select_digital_service_codec m'). rewrite Hu. cbn [back select_digital_service_codec].
  unfold digital_back. rewrite Hc. cbn. apply major_kept.
  destruct Hd as [_ [(_ & _ & ? & _)|(Hm' & _)]]; [done|]. by rewrite Hc in Hm'.
Qed.

Lemma channel_major_lost_witness :
  exists m', cec_msg_select_digital_service (DigitalServiceId 1 0x10 2 300 5) (cec_msg_init 4 0) = Some m' /\
    (channel_major (cec_ops_select_digital_service m' digital0) = 300 <-> 300 < 256).
Proof.
  apply (channel_major_lost (DigitalServiceId 1 0x10 2 300 5)).
  - apply cec_init_ok.
  - split; [cbn; lia|]. left. unfold is_word. cbn. repeat split; lia.
  - reflexivity.
Defined.
