(* ===== verification/Words.v ===== *)
(** * Words and their bytes

    Unsigned words as integers, their bytes from the lowest to the highest, and memory as the
    list of its bytes, read and written in the order of the machine.  The interface
    [Conversions] is what the headers for a byte order have to offer. *)

From S2P Require Import Prelude CLib.
Open Scope Z_scope.

Inductive width := W16 | W32 | W64.
Definition size_of (w : width) : nat := match w with W16 => 2 | W32 => 4 | W64 => 8 end.
(** The conversion to an unsigned type. *)
Definition cast (w : width) (x : Z) : Z := match w with W16 => u16 x | W32 => u32 x | W64 => u64 x end.

(** Byte [k] of a word. *)
Definition octet (k : Z) (x : Z) : Z := Z.land (Z.shiftr x (8 * k)) 255.
Definition le_bytes (n : nat) (x : Z) : bytes := (fun k => octet (Z.of_nat k) x) <$> seq 0 n.
Fixpoint le_val (b : bytes) : Z :=
  match b with [] => 0 | c :: b => c + 256 * le_val b end.

(** The order of the bytes of a word in memory. *)
Class Endian := big_endian : bool.

Definition in_order `{Endian} (b : bytes) : bytes := if big_endian then reverse b else b.
Definition native `{Endian} (w : width) (x : Z) : bytes := in_order (le_bytes (size_of w) x).

(** *p, and an assignment to it, for the address [p] of memory [m].  [None]: out of bounds. *)
Definition load `{Endian} (w : width) (m : bytes) (p : nat) : option Z :=
  if (p + size_of w <=? length m)%nat then Some (le_val (in_order (slice p (size_of w) m))) else None.
Definition store `{Endian} (w : width) (m : bytes) (p : nat) (x : Z) : option bytes :=
  if (p + size_of w <=? length m)%nat then Some (write_at p (native w x) m) else None.

(** ** Byte order conversions

    What a header for a byte order offers.  The names without a suffix take a value, those in
    p read the word at an address, those in s convert it in place.  [bool]: the compiler takes
    the argument for a constant. *)
Class Conversions := {
  order :: Endian;
  constant_cpu_to_le : width -> Z -> Z;
  constant_le_to_cpu : width -> Z -> Z;
  constant_cpu_to_be : width -> Z -> Z;
  constant_be_to_cpu : width -> Z -> Z;
  cpu_to_le : width -> bool -> Z -> Z;
  le_to_cpu : width -> bool -> Z -> Z;
  cpu_to_be : width -> bool -> Z -> Z;
  be_to_cpu : width -> bool -> Z -> Z;
  cpu_to_lep : width -> bool -> bytes -> nat -> option Z;
  le_to_cpup : width -> bool -> bytes -> nat -> option Z;
  cpu_to_bep : width -> bool -> bytes -> nat -> option Z;
  be_to_cpup : width -> bool -> bytes -> nat -> option Z;
  cpu_to_les : width -> bool -> bytes -> nat -> option bytes;
  le_to_cpus : width -> bool -> bytes -> nat -> option bytes;
  cpu_to_bes : width -> bool -> bytes -> nat -> option bytes;
  be_to_cpus : width -> bool -> bytes -> nat -> option bytes;
  constant_htonl : Z -> Z;
  constant_ntohl : Z -> Z;
  constant_htons : Z -> Z;
  constant_ntohs : Z -> Z
}.

Definition be_bytes (n : nat) (x : Z) : bytes := reverse (le_bytes n x).
Definition be_val (b : bytes) : Z := le_val (reverse b).

(** A value converted to an order is, stored, its bytes in that order; bytes in that order,
    loaded and converted, are the value; so for words at an address and in place. *)
Record converts (to from : width -> bool -> Z -> Z)
    (top fromp : width -> bool -> bytes -> nat -> option Z)
    (tos froms : width -> bool -> bytes -> nat -> option bytes)
    (to_bytes : nat -> Z -> bytes) (of_bytes : bytes -> Z) `{Endian} : Prop := {
  converts_to w cp x : native w (to w cp x) = to_bytes (size_of w) x;
  converts_from w cp b : length b = size_of w -> Forall is_byte b ->
    from w cp (le_val (in_order b)) = of_bytes b;
  converts_inverse w cp cp' x : from w cp (to w cp' x) = cast w x;
  converts_top w cp m p : Forall is_byte m -> top w cp m p = (x ← load w m p; Some (to w cp x));
  converts_fromp w cp m p : (p + size_of w <= length m)%nat -> Forall is_byte m ->
    fromp w cp m p = Some (of_bytes (slice p (size_of w) m));
  converts_tos w cp m p x : load w m p = Some x -> Forall is_byte m ->
    tos w cp m p = Some (write_at p (to_bytes (size_of w) x) m);
  converts_froms w cp m p m' : Forall is_byte m -> (p + size_of w <= length m)%nat ->
    froms w cp m p = Some m' -> load w m' p = Some (of_bytes (slice p (size_of w) m))
}.

Class ConversionLaws (C : Conversions) : Prop := {
  le_law : converts cpu_to_le le_to_cpu cpu_to_lep le_to_cpup cpu_to_les le_to_cpus le_bytes le_val;
  be_law : converts cpu_to_be be_to_cpu cpu_to_bep be_to_cpup cpu_to_bes be_to_cpus be_bytes be_val;
  constant_law w cp x :
    constant_cpu_to_le w x = cpu_to_le w cp x /\ constant_le_to_cpu w x = le_to_cpu w cp x /\
    constant_cpu_to_be w x = cpu_to_be w cp x /\ constant_be_to_cpu w x = be_to_cpu w cp x;
  network_law x :
    native W32 (constant_htonl x) = be_bytes 4 x /\ native W16 (constant_htons x) = be_bytes 2 x /\
    constant_ntohl (constant_htonl x) = u32 x /\ constant_ntohs (constant_htons x) = u16 x
}.

(** ** Bytes of expressions *)

Section octet.
Context (x y k : Z).

Lemma octet_range : 0 <= octet k x < 256.
Proof.
  unfold octet. change 255 with (Z.ones 8). rewrite Z.land_ones by lia.
  apply Z.mod_pos_bound. lia.
Qed.

Lemma octet_lor : octet k (Z.lor x y) = Z.lor (octet k x) (octet k y).
Proof. unfold octet. by rewrite Z.shiftr_lor, Z.land_lor_distr_l. Qed.

Lemma octet_land : octet k (Z.land x y) = Z.land (octet k x) (octet k y).
Proof.
  unfold octet. rewrite Z.shiftr_land. zbits.
Qed.

Lemma octet_shiftr d : 0 <= k -> 0 <= d -> octet k (Z.shiftr x (8 * d)) = octet (k + d) x.
Proof. intros Hk Hd. unfold octet. rewrite Z.shiftr_shiftr by lia. do 2 f_equal. lia. Qed.

Lemma octet_shiftl_high d : 0 <= d <= k -> octet k (Z.shiftl x (8 * d)) = octet (k - d) x.
Proof.
  intros Hd. unfold octet. f_equal. apply Z.bits_inj'. intros i Hi.
  rewrite !Z.shiftr_spec, Z.shiftl_spec by lia. f_equal. lia.
Qed.

Lemma octet_shiftl_low d : 0 <= k < d -> octet k (Z.shiftl x (8 * d)) = 0.
Proof.
  intros Hd. unfold octet. apply Z.bits_inj'. intros i Hi.
  rewrite Z.land_spec, Z.shiftr_spec, Z.bits_0 by lia. destruct (decide (i < 8)).
  - rewrite Z.shiftl_spec_low by lia. done.
  - change 255 with (Z.ones 8). rewrite Z.ones_spec_high by lia. by rewrite andb_false_r.
Qed.

Lemma octet_mod n : 0 <= k < n -> octet k (x mod 2 ^ (8 * n)) = octet k x.
Proof.
  intros Hk. unfold octet. rewrite <-Z.land_ones by lia. apply Z.bits_inj'. intros i Hi.
  rewrite !Z.land_spec, !Z.shiftr_spec, Z.land_spec by lia. destruct (decide (i < 8)).
  - rewrite Z.ones_spec_low by lia. by rewrite andb_true_r.
  - change 255 with (Z.ones 8). rewrite (Z.ones_spec_high 8 i) by lia. by rewrite !andb_false_r.
Qed.

Lemma octet_mod_high n : 0 <= n <= k -> octet k (x mod 2 ^ (8 * n)) = 0.
Proof.
  intros Hk. unfold octet. rewrite <-Z.land_ones by lia. apply Z.bits_inj'. intros i Hi.
  rewrite !Z.land_spec, !Z.shiftr_spec, Z.land_spec, Z.bits_0 by lia.
  rewrite (Z.ones_spec_high (8 * n)) by lia. by rewrite !andb_false_r.
Qed.

Lemma octet_full : Z.land (octet k x) 255 = octet k x.
Proof. unfold octet. by rewrite <-Z.land_assoc. Qed.
End octet.

Lemma octet_u16 k x : 0 <= k < 2 -> octet k (u16 x) = octet k x.
Proof. apply octet_mod. Qed.
Lemma octet_u32 k x : 0 <= k < 4 -> octet k (u32 x) = octet k x.
Proof. apply octet_mod. Qed.
Lemma octet_u32_high k x : 4 <= k -> octet k (u32 x) = 0.
Proof. intros Hk. apply (octet_mod_high x k 4). lia. Qed.
Lemma octet_u64 k x : 0 <= k < 8 -> octet k (u64 x) = octet k x.
Proof. apply octet_mod. Qed.

(** ** Ranges of expressions *)

(** No bits from [n] on. *)
Definition below (n : Z) (x : Z) : Prop := Z.land x (Z.ones n) = x.

Lemma below_range n x : 0 <= n -> below n x <-> 0 <= x < 2 ^ n.
Proof.
  intros Hn. unfold below. rewrite Z.land_ones by done. split.
  - intros <-. apply Z.mod_pos_bound. lia.
  - apply Z.mod_small.
Qed.
Lemma below_lor n x y : below n x -> below n y -> below n (Z.lor x y).
Proof. unfold below. intros Hx Hy. by rewrite Z.land_lor_distr_l, Hx, Hy. Qed.
Lemma below_land n x c : below n c -> below n (Z.land x c).
Proof. unfold below. intros Hc. by rewrite <-Z.land_assoc, Hc. Qed.

(** The range of an expression of masks and shifts. *)
Ltac below_solve :=
  repeat first [ apply below_lor | apply below_land; reflexivity
               | rewrite Z.shiftl_land; apply below_land; reflexivity
               | rewrite Z.shiftr_land; apply below_land; reflexivity ].

(** ** Words from bytes and back *)

Lemma length_le_bytes n x : length (le_bytes n x) = n.
Proof. unfold le_bytes. by rewrite length_fmap, length_seq. Qed.

Lemma is_byte_le_bytes n x : Forall is_byte (le_bytes n x).
Proof. apply Forall_fmap, Forall_true. intros k. apply octet_range. Qed.

Lemma le_bytes_S n x : le_bytes (S n) x = octet 0 x :: le_bytes n (Z.shiftr x 8).
Proof.
  unfold le_bytes. cbn [seq fmap list_fmap]. f_equal. rewrite <-fmap_S_seq, <-list_fmap_compose.
  apply list_fmap_ext. intros i k _. unfold compose.
  etransitivity; [|symmetry; exact (octet_shiftr x (Z.of_nat k) 1 ltac:(lia) ltac:(lia))].
  f_equal. lia.
Qed.

Lemma le_val_bytes n x : 0 <= x < 2 ^ (8 * Z.of_nat n) -> le_val (le_bytes n x) = x.
Proof.
  revert x. induction n as [|n IH]; intros x Hx; [cbn in *; lia|].
  rewrite le_bytes_S. cbn [le_val]. unfold octet. rewrite Z.mul_0_r, Z.shiftr_0_r.
  change 255 with (Z.ones 8). rewrite Z.land_ones, Z.shiftr_div_pow2 by lia. change (2 ^ 8) with 256.
  rewrite IH.
  - pose proof (Z.div_mod x 256). lia.
  - split; [apply Z.div_pos; lia|]. apply Z.div_lt_upper_bound; [lia|].
    replace (8 * Z.of_nat (S n)) with (8 + 8 * Z.of_nat n) in Hx by lia.
    rewrite Z.pow_add_r in Hx by lia. lia.
Qed.

Lemma le_val_range b : Forall is_byte b -> 0 <= le_val b < 2 ^ (8 * Z.of_nat (length b)).
Proof.
  induction 1 as [|c b Hc _ IH]; [done|]. cbn [le_val length]. unfold is_byte in Hc.
  replace (8 * Z.of_nat (S (length b))) with (8 + 8 * Z.of_nat (length b)) by lia.
  rewrite Z.pow_add_r by lia. change (2 ^ 8) with 256. lia.
Qed.

Lemma le_bytes_val b : Forall is_byte b -> le_bytes (length b) (le_val b) = b.
Proof.
  induction 1 as [|c b Hc Hb IH]; [done|]. cbn [length]. rewrite le_bytes_S. cbn [le_val].
  unfold is_byte in Hc. f_equal.
  - unfold octet. rewrite Z.mul_0_r, Z.shiftr_0_r. change 255 with (Z.ones 8).
    rewrite Z.land_ones by lia. change (2 ^ 8) with 256.
    rewrite Z.mul_comm, Z.mod_add, Z.mod_small by lia. done.
  - rewrite Z.shiftr_div_pow2 by lia. change (2 ^ 8) with 256.
    rewrite Z.mul_comm, Z.div_add, Z.div_small by lia. exact IH.
Qed.

(** A word is given by its bytes. *)
Lemma le_bytes_inj n x y :
  0 <= x < 2 ^ (8 * Z.of_nat n) -> 0 <= y < 2 ^ (8 * Z.of_nat n) -> le_bytes n x = le_bytes n y -> x = y.
Proof. intros Hx Hy E. by rewrite <-(le_val_bytes n x), <-(le_val_bytes n y), E. Qed.

Lemma cast_range w x : 0 <= cast w x < 2 ^ (8 * Z.of_nat (size_of w)).
Proof. destruct w; apply Z.mod_pos_bound; lia. Qed.

Lemma cast_small w x : 0 <= x < 2 ^ (8 * Z.of_nat (size_of w)) -> cast w x = x.
Proof. destruct w; apply Z.mod_small. Qed.

Lemma le_bytes_cast w x : le_bytes (size_of w) (cast w x) = le_bytes (size_of w) x.
Proof.
  apply list_fmap_ext. intros i k Hk. apply lookup_seq in Hk as [-> Hk].
  destruct w; cbn in Hk; [apply octet_u16 | apply octet_u32 | apply octet_u64]; lia.
Qed.

Section memory.
Context `{Endian} (w : width).

Lemma in_order_involutive b : in_order (in_order b) = b.
Proof. unfold in_order. destruct big_endian; [apply reverse_involutive | done]. Qed.

Lemma length_in_order b : length (in_order b) = length b.
Proof. unfold in_order. destruct big_endian; [apply length_reverse | done]. Qed.

Lemma length_native x : length (native w x) = size_of w.
Proof. unfold native. rewrite length_in_order. apply length_le_bytes. Qed.

Lemma is_byte_in_order b : Forall is_byte b -> Forall is_byte (in_order b).
Proof. unfold in_order. destruct big_endian; [apply Forall_reverse | done]. Qed.

(** The word that bytes in memory stand for. *)
Lemma native_val b :
  length b = size_of w -> Forall is_byte b -> native w (le_val (in_order b)) = b.
Proof.
  intros Hl Hb. unfold native. rewrite <-Hl, <-(length_in_order b) at 1.
  rewrite le_bytes_val by by apply is_byte_in_order. apply in_order_involutive.
Qed.

Lemma load_val b p x :
  (p + size_of w <= length b)%nat -> load w b p = Some x -> x = le_val (in_order (slice p (size_of w) b)).
Proof. intros _. unfold load. case_match; [by intros [= <-] | done]. Qed.

Lemma load_store m p x m' :
  0 <= x < 2 ^ (8 * Z.of_nat (size_of w)) -> store w m p x = Some m' -> load w m' p = Some x.
Proof.
  intros Hx. unfold store, load. destruct (Nat.leb_spec (p + size_of w) (length m)); [|done].
  intros [= <-]. rewrite length_write_at by by rewrite length_native.
  rewrite (proj2 (Nat.leb_le _ _)) by done. f_equal.
  rewrite <-(length_native x), slice_write_at by by rewrite length_native.
  unfold native. rewrite in_order_involutive. by apply le_val_bytes.
Qed.
End memory.

(** ** Writing consecutive pieces *)

Lemma write_at_app (p : nat) (a b m : bytes) :
  (p + length a + length b <= length m)%nat ->
  write_at (p + length a) b (write_at p a m) = write_at p (a ++ b) m.
Proof.
  intros Hl. unfold write_at. rewrite length_app.
  rewrite take_app_ge by (rewrite length_take; lia). rewrite length_take.
  replace (p + length a - p `min` length m)%nat with (length a) by lia.
  rewrite take_app_length. rewrite <-!app_assoc. do 3 f_equal.
  rewrite drop_app_ge by (rewrite length_take; lia). rewrite length_take.
  rewrite drop_app_ge by lia. rewrite drop_drop. f_equal. lia.
Qed.

Lemma write_at_app_rev (p : nat) (a b m : bytes) :
  (p + length a + length b <= length m)%nat ->
  write_at p a (write_at (p + length a) b m) = write_at p (a ++ b) m.
Proof.
  intros Hl. unfold write_at. rewrite length_app.
  rewrite take_app_le by (rewrite length_take; lia). rewrite take_take.
  replace (p `min` (p + length a))%nat with p by lia. rewrite <-!app_assoc. do 2 f_equal.
  rewrite drop_app_ge by (rewrite length_take; lia). rewrite length_take.
  replace (p + length a - (p + length a) `min` length m)%nat with 0%nat by lia.
  rewrite drop_0. do 2 f_equal. lia.
Qed.

(** A part of what was written. *)
Lemma slice_write_at_part (p k n : nat) (v m : bytes) :
  (k + n <= length v)%nat -> (p + length v <= length m)%nat ->
  slice (p + k) n (write_at p v m) = slice k n v.
Proof.
  intros Hk Hp. unfold slice, write_at.
  rewrite drop_app_ge by (rewrite length_take; lia). rewrite length_take.
  replace (p + k - p `min` length m)%nat with k by lia.
  rewrite drop_app_le by lia. rewrite take_app_le by (rewrite length_drop; lia). done.
Qed.

(** What comes before stays. *)
Lemma slice_write_at_before (p k n : nat) (v m : bytes) :
  (k + n <= p)%nat -> (p <= length m)%nat -> slice k n (write_at p v m) = slice k n m.
Proof.
  intros Hk Hp. unfold slice, write_at. rewrite !take_drop_commute.
  rewrite take_app_le by (rewrite length_take; lia). rewrite take_take. do 2 f_equal. lia.
Qed.

Lemma slice_app (n : nat) (a b : bytes) : slice (length a) n (a ++ b) = take n b.
Proof. unfold slice. by rewrite drop_app_length. Qed.

(** The bytes [b] are at [p]. *)
Definition has (m : bytes) (p : nat) (b : bytes) : Prop := slice p (length b) m = b.

Lemma has_app m p a b : has m p (a ++ b) <-> has m p a /\ has m (p + length a) b.
Proof.
  unfold has, slice. rewrite length_app, <-(drop_drop m). split.
  - intros H. split.
    + apply (f_equal (take (length a))) in H. rewrite take_take, take_app_length in H.
      by replace (length a `min` (length a + length b))%nat with (length a) in H by lia.
    + apply (f_equal (drop (length a))) in H. rewrite drop_app_length in H.
      by rewrite <-take_drop_commute in H.
  - intros [H1 H2]. rewrite <-(take_drop (length a) (take _ (drop p m))), take_take, <-take_drop_commute.
    f_equal; [|exact H2]. etrans; [|exact H1]. f_equal. lia.
Qed.

Lemma has_bounds m p b : has m p b -> b <> [] -> (p + length b <= length m)%nat.
Proof.
  intros H Hb. apply (f_equal length) in H. unfold slice in H. rewrite length_take, length_drop in H.
  assert (length b <> 0%nat) by by destruct b. lia.
Qed.

Lemma has_write m p b : (p + length b <= length m)%nat -> has (write_at p b m) p b.
Proof. intros H. unfold has. by apply slice_write_at. Qed.

Lemma load_has `{Endian} w m p x : has m p (native w x) -> load w m p = Some (cast w x).
Proof.
  intros Hh. pose proof (has_bounds _ _ _ Hh) as Hp. rewrite length_native in Hp.
  unfold load. unfold has in Hh. rewrite length_native in Hh. rewrite Hh.
  rewrite (proj2 (Nat.leb_le _ _)) by (apply Hp; intros E; apply (f_equal length) in E; rewrite length_native in E; by destruct w).
  f_equal. unfold native. rewrite in_order_involutive, <-(le_bytes_cast w). apply le_val_bytes, cast_range.
Qed.
