(* ===== verification/Swab.v ===== *)
(** * Byte swapping

    The functions of src/include/linux/swab.h with those of src/include/asm/swab.h, and the
    macros of src/include/bits/byteswap.h.  Every way through their conditionals reverses the
    bytes of a word. *)

From S2P Require Import Prelude CLib Words.
Open Scope Z_scope.

(** ** Constant folding *)

Definition ___constant_swab16 (x : Z) : Z :=
  u16 (Z.lor (Z.shiftl (Z.land (u16 x) 0x00ff) 8) (Z.shiftr (Z.land (u16 x) 0xff00) 8)).

Definition ___constant_swab32 (x : Z) : Z :=
  u32 (Z.lor (Z.lor (Z.lor (Z.shiftl (Z.land (u32 x) 0x000000ff) 24)
                           (Z.shiftl (Z.land (u32 x) 0x0000ff00) 8))
                    (Z.shiftr (Z.land (u32 x) 0x00ff0000) 8))
             (Z.shiftr (Z.land (u32 x) 0xff000000) 24)).

Definition ___constant_swab64 (x : Z) : Z :=
  u64 (Z.lor (Z.lor (Z.lor (Z.lor (Z.lor (Z.lor (Z.lor
    (Z.shiftl (Z.land (u64 x) 0x00000000000000ff) 56)
    (Z.shiftl (Z.land (u64 x) 0x000000000000ff00) 40))
    (Z.shiftl (Z.land (u64 x) 0x0000000000ff0000) 24))
    (Z.shiftl (Z.land (u64 x) 0x00000000ff000000) 8))
    (Z.shiftr (Z.land (u64 x) 0x000000ff00000000) 8))
    (Z.shiftr (Z.land (u64 x) 0x0000ff0000000000) 24))
    (Z.shiftr (Z.land (u64 x) 0x00ff000000000000) 40))
    (Z.shiftr (Z.land (u64 x) 0xff00000000000000) 56)).

Definition ___constant_swahw32 (x : Z) : Z :=
  u32 (Z.lor (Z.shiftl (Z.land (u32 x) 0x0000ffff) 16) (Z.shiftr (Z.land (u32 x) 0xffff0000) 16)).

Definition ___constant_swahb32 (x : Z) : Z :=
  u32 (Z.lor (Z.shiftl (Z.land (u32 x) 0x00ff00ff) 8) (Z.shiftr (Z.land (u32 x) 0xff00ff00) 8)).

(** ** What the machine offers

    [None]: the macro is not defined.  No header of the tree defines the variants of these
    that take a pointer. *)
Class Arch := {
  arch_swab16 : option (Z -> Z);
  arch_swab32 : option (Z -> Z);
  arch_swab64 : option (Z -> Z);
  arch_swahw32 : option (Z -> Z);
  arch_swahb32 : option (Z -> Z);
  builtin_bswap16 : option (Z -> Z);      (* __HAVE_BUILTIN_BSWAP16__ *)
  builtin_bswap32 : option (Z -> Z);
  builtin_bswap64 : option (Z -> Z);
  SWAB_64_THRU_32 : bool;
  BITS_PER_LONG : Z
}.

Definition provided (o : option (Z -> Z)) (f : Z -> Z) (x : Z) : Z :=
  match o with Some g => g x | None => f x end.

(** What it offers computes the same on the values of the type. *)
Definition agrees (n : nat) (o : option (Z -> Z)) (f : Z -> Z) : Prop :=
  forall g x, o = Some g -> 0 <= x < 2 ^ (8 * Z.of_nat n) -> g x = f x.
Class ArchLaws (A : Arch) : Prop := {
  arch16_ok : agrees 2 arch_swab16 ___constant_swab16;
  arch32_ok : agrees 4 arch_swab32 ___constant_swab32;
  arch64_ok : agrees 8 arch_swab64 ___constant_swab64;
  archhw_ok : agrees 4 arch_swahw32 ___constant_swahw32;
  archhb_ok : agrees 4 arch_swahb32 ___constant_swahb32;
  builtin16_ok : agrees 2 builtin_bswap16 ___constant_swab16;
  builtin32_ok : agrees 4 builtin_bswap32 ___constant_swab32;
  builtin64_ok : agrees 8 builtin_bswap64 ___constant_swab64;
  long_ok : BITS_PER_LONG = 32 \/ BITS_PER_LONG = 64
}.

(** ** Functions

    [cp]: the compiler takes the argument for a constant. *)
Section functions.
Context `{Arch}.

Definition __fswab16 (val : Z) : Z := provided arch_swab16 ___constant_swab16 val.
Definition __fswab32 (val : Z) : Z := provided arch_swab32 ___constant_swab32 val.
Definition __fswab64 (val : Z) : Z :=
  match arch_swab64 with
  | Some g => g val
  | None =>
      if SWAB_64_THRU_32 then
        let h := u32 (Z.shiftr val 32) in
        let l := u32 (Z.land val (Z.shiftl 1 32 - 1)) in
        Z.lor (u64 (Z.shiftl (__fswab32 l) 32)) (__fswab32 h)
      else ___constant_swab64 val
  end.
Definition __fswahw32 (val : Z) : Z := provided arch_swahw32 ___constant_swahw32 val.
Definition __fswahb32 (val : Z) : Z := provided arch_swahb32 ___constant_swahb32 val.

Definition __swab16 (cp : bool) (x : Z) : Z :=
  match builtin_bswap16 with
  | Some g => u16 (g (u16 x))
  | None => if cp then ___constant_swab16 x else __fswab16 (u16 x)
  end.
Definition __swab32 (cp : bool) (x : Z) : Z :=
  match builtin_bswap32 with
  | Some g => u32 (g (u32 x))
  | None => if cp then ___constant_swab32 x else __fswab32 (u32 x)
  end.
Definition __swab64 (cp : bool) (x : Z) : Z :=
  match builtin_bswap64 with
  | Some g => u64 (g (u64 x))
  | None => if cp then ___constant_swab64 x else __fswab64 (u64 x)
  end.
Definition __swab (cp : bool) (y : Z) : Z :=
  if BITS_PER_LONG =? 64 then __swab64 cp y else __swab32 cp y.
Definition __swahw32 (cp : bool) (x : Z) : Z :=
  if cp then ___constant_swahw32 x else __fswahw32 (u32 x).
Definition __swahb32 (cp : bool) (x : Z) : Z :=
  if cp then ___constant_swahb32 x else __fswahb32 (u32 x).

(** Of a word in memory, and in place. *)
Section memory.
Context `{Endian}.

Definition __swab16p (cp : bool) (m : bytes) (p : nat) : option Z :=
  x ← load W16 m p; Some (__swab16 cp x).
Definition __swab32p (cp : bool) (m : bytes) (p : nat) : option Z :=
  x ← load W32 m p; Some (__swab32 cp x).
Definition __swab64p (cp : bool) (m : bytes) (p : nat) : option Z :=
  x ← load W64 m p; Some (__swab64 cp x).
Definition __swahw32p (cp : bool) (m : bytes) (p : nat) : option Z :=
  x ← load W32 m p; Some (__swahw32 cp x).
Definition __swahb32p (cp : bool) (m : bytes) (p : nat) : option Z :=
  x ← load W32 m p; Some (__swahb32 cp x).

Definition __swab16s (cp : bool) (m : bytes) (p : nat) : option bytes :=
  x ← __swab16p cp m p; store W16 m p x.
Definition __swab32s (cp : bool) (m : bytes) (p : nat) : option bytes :=
  x ← __swab32p cp m p; store W32 m p x.
Definition __swab64s (cp : bool) (m : bytes) (p : nat) : option bytes :=
  x ← __swab64p cp m p; store W64 m p x.
Definition __swahw32s (cp : bool) (m : bytes) (p : nat) : option bytes :=
  x ← __swahw32p cp m p; store W32 m p x.
Definition __swahb32s (cp : bool) (m : bytes) (p : nat) : option bytes :=
  x ← __swahb32p cp m p; store W32 m p x.
End memory.
End functions.

(** ** asm/swab.h, for x86

    The instructions bswapl and bswapq are parameters. *)
Section x86.
Context (bswapl bswapq : Z -> Z) (i386 : bool).

Definition __arch_swab32 (val : Z) : Z := bswapl val.
(** On i386 the halves go through registers that are exchanged afterwards. *)
Definition __arch_swab64 (val : Z) : Z :=
  if i386 then
    let a := u32 val in
    let b := Z.shiftr val 32 in
    let '(a, b) := (bswapl a, bswapl b) in
    let '(a, b) := (b, a) in
    Z.lor (Z.shiftl b 32) a
  else bswapq val.

#[export] Instance x86 : Arch := {|
  arch_swab16 := None; arch_swab32 := Some __arch_swab32; arch_swab64 := Some __arch_swab64;
  arch_swahw32 := None; arch_swahb32 := None;
  builtin_bswap16 := None; builtin_bswap32 := None; builtin_bswap64 := None;
  SWAB_64_THRU_32 := i386; BITS_PER_LONG := if i386 then 32 else 64
|}.
End x86.

(** ** bits/byteswap.h *)

Definition __bswap_constant_16 (x : Z) : Z :=
  u16 (Z.lor (Z.land (Z.shiftr x 8) 0xff) (Z.shiftl (Z.land x 0xff) 8)).

Definition __bswap_constant_32 (x : Z) : Z :=
  Z.lor (Z.lor (Z.lor (Z.shiftr (Z.land x 0xff000000) 24) (Z.shiftr (Z.land x 0x00ff0000) 8))
               (Z.shiftl (Z.land x 0x0000ff00) 8))
        (Z.shiftl (Z.land x 0x000000ff) 24).

Definition __bswap_constant_64 (x : Z) : Z :=
  Z.lor (Z.lor (Z.lor (Z.lor (Z.lor (Z.lor (Z.lor
    (Z.shiftr (Z.land x 0xff00000000000000) 56)
    (Z.shiftr (Z.land x 0x00ff000000000000) 40))
    (Z.shiftr (Z.land x 0x0000ff0000000000) 24))
    (Z.shiftr (Z.land x 0x000000ff00000000) 8))
    (Z.shiftl (Z.land x 0x00000000ff000000) 8))
    (Z.shiftl (Z.land x 0x0000000000ff0000) 24))
    (Z.shiftl (Z.land x 0x000000000000ff00) 40))
    (Z.shiftl (Z.land x 0x00000000000000ff) 56).

(** The compilers' built-in functions, where there are any. *)
Section byteswap.
Context (builtin16 builtin32 builtin64 : option (Z -> Z)).
Definition __bswap_16 (__bsx : Z) : Z := provided builtin16 __bswap_constant_16 __bsx.
Definition __bswap_32 (__bsx : Z) : Z := provided builtin32 __bswap_constant_32 __bsx.
Definition __bswap_64 (__bsx : Z) : Z := provided builtin64 __bswap_constant_64 __bsx.
End byteswap.

(** ** The bytes of results *)

Lemma octet_land_255 c x k : octet k c = 255 -> octet k (Z.land x c) = octet k x.
Proof. intros E. rewrite octet_land, E. apply octet_full. Qed.
Lemma octet_land_0 c x k : octet k c = 0 -> octet k (Z.land x c) = 0.
Proof. intros E. by rewrite octet_land, E, Z.land_0_r. Qed.

(** A byte of an expression, as a byte of what the expression is made of. *)
Ltac octet_step :=
  match goal with
  | |- context [octet ?k (u16 ?x)] => rewrite (octet_u16 k x) by lia
  | |- context [octet ?k (u32 ?x)] => rewrite (octet_u32 k x) by lia
  | |- context [octet ?k (u32 ?x)] => rewrite (octet_u32_high k x) by lia
  | |- context [octet ?k (u64 ?x)] => rewrite (octet_u64 k x) by lia
  | |- context [octet ?k (Z.lor ?x ?y)] => rewrite (octet_lor x y k)
  | |- context [octet ?k (Z.shiftl ?x ?s)] =>
      let d := eval compute in (s / 8) in
      first [ rewrite (octet_shiftl_low x k d : _ -> octet k (Z.shiftl x s) = 0) by lia
            | let j := eval compute in (k - d) in
              rewrite (octet_shiftl_high x k d : _ -> octet k (Z.shiftl x s) = octet j x) by lia ]
  | |- context [octet ?k (Z.shiftr ?x ?s)] =>
      let d := eval compute in (s / 8) in
      let j := eval compute in (k + d) in
      rewrite (octet_shiftr x k d : _ -> _ -> octet k (Z.shiftr x s) = octet j x) by lia
  | |- context [octet ?k (Z.land ?x ?c)] =>
      first [ rewrite (octet_land_255 c x k eq_refl) | rewrite (octet_land_0 c x k eq_refl) ]
  | |- _ => rewrite !Z.lor_0_l
  | |- _ => rewrite !Z.lor_0_r
  end.

Ltac octets :=
  cbv [le_bytes fmap list_fmap seq Z.of_nat Pos.of_succ_nat Pos.succ]; repeat octet_step; done.

Lemma swab16_bytes x : le_bytes 2 (___constant_swab16 x) = [octet 1 x; octet 0 x].
Proof. unfold ___constant_swab16. octets. Qed.
Lemma swab32_bytes x :
  le_bytes 4 (___constant_swab32 x) = [octet 3 x; octet 2 x; octet 1 x; octet 0 x].
Proof. unfold ___constant_swab32. octets. Qed.
Lemma swab64_bytes x :
  le_bytes 8 (___constant_swab64 x) =
  [octet 7 x; octet 6 x; octet 5 x; octet 4 x; octet 3 x; octet 2 x; octet 1 x; octet 0 x].
Proof. unfold ___constant_swab64. octets. Qed.
Lemma swahw32_bytes x :
  le_bytes 4 (___constant_swahw32 x) = [octet 2 x; octet 3 x; octet 0 x; octet 1 x].
Proof. unfold ___constant_swahw32. octets. Qed.
Lemma swahb32_bytes x :
  le_bytes 4 (___constant_swahb32 x) = [octet 1 x; octet 0 x; octet 3 x; octet 2 x].
Proof. unfold ___constant_swahb32. octets. Qed.
Lemma bswap16_bytes x : le_bytes 2 (__bswap_constant_16 x) = [octet 1 x; octet 0 x].
Proof. unfold __bswap_constant_16. octets. Qed.
Lemma bswap32_bytes x :
  le_bytes 4 (__bswap_constant_32 x) = [octet 3 x; octet 2 x; octet 1 x; octet 0 x].
Proof. unfold __bswap_constant_32. octets. Qed.
Lemma bswap64_bytes x :
  le_bytes 8 (__bswap_constant_64 x) =
  [octet 7 x; octet 6 x; octet 5 x; octet 4 x; octet 3 x; octet 2 x; octet 1 x; octet 0 x].
Proof. unfold __bswap_constant_64. octets. Qed.

Definition constant_swab (w : width) : Z -> Z :=
  match w with W16 => ___constant_swab16 | W32 => ___constant_swab32 | W64 => ___constant_swab64 end.

Lemma constant_swab_range w x : 0 <= constant_swab w x < 2 ^ (8 * Z.of_nat (size_of w)).
Proof. destruct w; [apply (cast_range W16) | apply (cast_range W32) | apply (cast_range W64)]. Qed.

(** Conversion unfolds the constants last. *)
Strategy 100 [___constant_swab16 ___constant_swab32 ___constant_swab64
  __bswap_constant_16 __bswap_constant_32 __bswap_constant_64 u16 u32 u64].

(** The macros of both headers compute the same. *)
Lemma bswap16_swab16 x : __bswap_constant_16 x = ___constant_swab16 x.
Proof.
  apply (le_bytes_inj 2); [exact (cast_range W16 _) | exact (constant_swab_range W16 x) |].
  by rewrite bswap16_bytes, swab16_bytes.
Qed.
Lemma bswap32_swab32 x : __bswap_constant_32 x = ___constant_swab32 x.
Proof.
  apply (le_bytes_inj 4); [| exact (constant_swab_range W32 x) | by rewrite bswap32_bytes, swab32_bytes].
  apply below_range; [done|]. unfold __bswap_constant_32. below_solve.
Qed.
Lemma bswap64_swab64 x : __bswap_constant_64 x = ___constant_swab64 x.
Proof.
  apply (le_bytes_inj 8); [| exact (constant_swab_range W64 x) | by rewrite bswap64_bytes, swab64_bytes].
  apply below_range; [done|]. unfold __bswap_constant_64. below_solve.
Qed.

(** ** The reversal *)

Lemma constant_swab_bytes w x :
  le_bytes (size_of w) (constant_swab w x) = reverse (le_bytes (size_of w) x).
Proof. destruct w; [apply swab16_bytes | apply swab32_bytes | apply swab64_bytes]. Qed.

(** Only the bytes of the type matter. *)
Lemma constant_swab_cast w x : constant_swab w (cast w x) = constant_swab w x.
Proof.
  apply (le_bytes_inj (size_of w)); [apply constant_swab_range | apply constant_swab_range |].
  by rewrite !constant_swab_bytes, le_bytes_cast.
Qed.

Lemma constant_swab_involutive w x : constant_swab w (constant_swab w x) = cast w x.
Proof.
  apply (le_bytes_inj (size_of w)); [apply constant_swab_range | apply cast_range |].
  by rewrite !constant_swab_bytes, reverse_involutive, le_bytes_cast.
Qed.

(** Both halves reversed and exchanged. *)
Lemma swab64_halves x : 0 <= x < 2 ^ 64 ->
  Z.lor (u64 (Z.shiftl (___constant_swab32 (u32 (Z.land x (Z.shiftl 1 32 - 1)))) 32))
        (___constant_swab32 (u32 (Z.shiftr x 32))) = ___constant_swab64 x.
Proof.
  intros Hx. apply (le_bytes_inj 8); [| apply (cast_range W64) |].
  - apply below_range; [lia|]. apply below_lor; (apply below_range; [lia|]).
    + apply (cast_range W64).
    + pose proof (cast_range W32 (___constant_swab32 (u32 (Z.shiftr x 32)))) as Hr.
      pose proof (constant_swab_range W32 (u32 (Z.shiftr x 32))). cbn in *. lia.
  - rewrite swab64_bytes. unfold ___constant_swab32. octets.
Qed.

Lemma u32_u32 x : u32 (u32 x) = u32 x.
Proof. apply Z.mod_mod. lia. Qed.

(** ** Every way through the conditionals *)

Section laws.
Context {A : Arch} {HA : ArchLaws A}.

Lemma provided_ok n o f x :
  agrees n o f -> 0 <= x < 2 ^ (8 * Z.of_nat n) -> provided o f x = f x.
Proof. intros Ho Hx. unfold provided. destruct o as [g|] eqn:E; [by apply Ho | done]. Qed.

Lemma fswab16_ok x : 0 <= x < 2 ^ 16 -> __fswab16 x = ___constant_swab16 x.
Proof. intros Hx. apply (provided_ok 2); [apply arch16_ok | done]. Qed.
Lemma fswab32_ok x : 0 <= x < 2 ^ 32 -> __fswab32 x = ___constant_swab32 x.
Proof. intros Hx. apply (provided_ok 4); [apply arch32_ok | done]. Qed.
Lemma fswab64_ok x : 0 <= x < 2 ^ 64 -> __fswab64 x = ___constant_swab64 x.
Proof.
  intros Hx. unfold __fswab64. destruct arch_swab64 as [g|] eqn:E; [by apply arch64_ok|].
  destruct SWAB_64_THRU_32; [|done]. cbv zeta.
  rewrite !fswab32_ok by apply (cast_range W32). by apply swab64_halves.
Qed.

Definition swab (w : width) : bool -> Z -> Z :=
  match w with W16 => __swab16 | W32 => __swab32 | W64 => __swab64 end.

(** The three ways of a macro: a built-in, the constant, the function. *)
Lemma swab_ways (w : width) (b : option (Z -> Z)) (cp : bool) (f g : Z -> Z) x :
  agrees (size_of w) b g -> (forall y, 0 <= y < 2 ^ (8 * Z.of_nat (size_of w)) -> f y = g y) ->
  (forall y, cast w (g y) = g y) -> (forall y, g (cast w y) = g y) ->
  match b with
  | Some h => cast w (h (cast w x))
  | None => if cp then g x else f (cast w x)
  end = g x.
Proof.
  intros Hb Hf Hc Hg. pose proof (cast_range w x) as Hx. destruct b as [h|].
  - by rewrite (Hb h), Hc, Hg.
  - destruct cp; [done|]. by rewrite Hf, Hg.
Qed.

Lemma swab_constant w cp x : swab w cp x = constant_swab w x.
Proof.
  assert (Hc : forall y, cast w (constant_swab w y) = constant_swab w y)
    by (intros y; apply cast_small, constant_swab_range).
  pose proof (constant_swab_cast w) as Hg. destruct w.
  - exact (swab_ways W16 builtin_bswap16 cp __fswab16 (constant_swab W16) x builtin16_ok fswab16_ok Hc Hg).
  - exact (swab_ways W32 builtin_bswap32 cp __fswab32 (constant_swab W32) x builtin32_ok fswab32_ok Hc Hg).
  - exact (swab_ways W64 builtin_bswap64 cp __fswab64 (constant_swab W64) x builtin64_ok fswab64_ok Hc Hg).
Qed.

Lemma swahw32_constant cp x : __swahw32 cp x = ___constant_swahw32 (u32 x).
Proof.
  unfold __swahw32, __fswahw32. destruct cp.
  - unfold ___constant_swahw32. by rewrite u32_u32.
  - apply (provided_ok 4); [apply archhw_ok | apply (cast_range W32)].
Qed.
Lemma swahb32_constant cp x : __swahb32 cp x = ___constant_swahb32 (u32 x).
Proof.
  unfold __swahb32, __fswahb32. destruct cp.
  - unfold ___constant_swahb32. by rewrite u32_u32.
  - apply (provided_ok 4); [apply archhb_ok | apply (cast_range W32)].
Qed.
End laws.

(** ** In place *)

Section in_place.
Context {A : Arch} {HA : ArchLaws A} `{Endian}.

(** Reading a word, an operation that rearranges its bytes, and writing it back. *)
Lemma in_place (w : width) (f : Z -> Z) (g : bytes -> bytes) m p :
  (forall x, le_bytes (size_of w) (f x) = g (le_bytes (size_of w) x)) ->
  Forall is_byte m ->
  (x ← load w m p; store w m p (f x)) =
  if (p + size_of w <=? length m)%nat
  then Some (write_at p (in_order (g (in_order (slice p (size_of w) m)))) m) else None.
Proof.
  intros Hf Hm. unfold load, store. destruct (Nat.leb_spec (p + size_of w) (length m)); [|done].
  cbn. do 2 f_equal. unfold native. rewrite Hf. do 2 f_equal.
  assert (Hl : length (in_order (slice p (size_of w) m)) = size_of w)
    by (rewrite length_in_order; by apply length_slice).
  rewrite <-Hl at 1. apply le_bytes_val, is_byte_in_order.
  by apply Forall_take, Forall_drop.
Qed.

Lemma in_order_reverse b : in_order (reverse (in_order b)) = reverse b.
Proof. unfold in_order. destruct big_endian; [by rewrite !reverse_involutive | done]. Qed.

(** The word at an address reversed in memory. *)
Definition reversed (w : width) (m : bytes) (p : nat) : option bytes :=
  if (p + size_of w <=? length m)%nat
  then Some (write_at p (reverse (slice p (size_of w) m)) m) else None.

Lemma swab_in_place w cp m p : Forall is_byte m ->
  (x ← load w m p; store w m p (swab w cp x)) = reversed w m p.
Proof.
  intros Hm. rewrite (in_place w (swab w cp) reverse) by
    (try done; intros x; by rewrite swab_constant, constant_swab_bytes).
  unfold reversed. by rewrite in_order_reverse.
Qed.
End in_place.

(** The halves of a 32-bit word exchanged, and the bytes within its halves. *)
Definition exchange_halves (b : bytes) : bytes := drop 2 b ++ take 2 b.
Definition exchange_bytes (b : bytes) : bytes := reverse (take 2 b) ++ reverse (drop 2 b).

Lemma swahw32_exchange {A : Arch} {HA : ArchLaws A} cp x :
  le_bytes 4 (__swahw32 cp x) = exchange_halves (le_bytes 4 x).
Proof. rewrite swahw32_constant, swahw32_bytes. by rewrite !octet_u32 by lia. Qed.
Lemma swahb32_exchange {A : Arch} {HA : ArchLaws A} cp x :
  le_bytes 4 (__swahb32 cp x) = exchange_bytes (le_bytes 4 x).
Proof. rewrite swahb32_constant, swahb32_bytes. by rewrite !octet_u32 by lia. Qed.

(** C15: byte swapping.  On every machine whose instructions and built-ins do what they
    document, whether or not the compiler folds constants and with 64-bit words taken whole
    or through 32-bit halves: swab16, swab32 and swab64 return a value of their type whose
    bytes are those of the argument reversed, so they are their own inverses on it; swahw32
    exchanges the halves of a word and swahb32 the bytes of each half; the functions that work
    in place reverse the bytes at the address in memory of either byte order, or are out of
    its bounds, and touch no others. *)
Theorem swab_reverses {A : Arch} {HA : ArchLaws A} (E : Endian) (cp : bool) :
  (forall w x, (0 <= swab w cp x < 2 ^ (8 * Z.of_nat (size_of w))) /\
    le_bytes (size_of w) (swab w cp x) = reverse (le_bytes (size_of w) x) /\
    (forall cp', swab w cp' (swab w cp x) = cast w x)) /\
  (forall x, le_bytes 4 (__swahw32 cp x) = exchange_halves (le_bytes 4 x) /\
    le_bytes 4 (__swahb32 cp x) = exchange_bytes (le_bytes 4 x)) /\
  (forall m p, Forall is_byte m ->
    __swab16s cp m p = reversed W16 m p /\ __swab32s cp m p = reversed W32 m p /\
    __swab64s cp m p = reversed W64 m p).
Proof.
  split; [|split].
  - intros w x. rewrite swab_constant. split; [apply constant_swab_range|].
    split; [apply constant_swab_bytes|]. intros cp'. by rewrite swab_constant, constant_swab_involutive.
  - intros x. split; [apply swahw32_exchange | apply swahb32_exchange].
  - intros m p Hm. rewrite <-!(swab_in_place _ cp) by done.
    unfold __swab16s, __swab32s, __swab64s, __swab16p, __swab32p, __swab64p. cbn [swab].
    split_and!; by destruct (load _ _ _).
Qed.

(** What the instructions of x86 are relied on for. *)
Lemma x86_laws (bswapl bswapq : Z -> Z) (i386 : bool) :
  (forall x, 0 <= x < 2 ^ 32 -> bswapl x = constant_swab W32 x) ->
  (forall x, 0 <= x < 2 ^ 64 -> bswapq x = constant_swab W64 x) ->
  ArchLaws (x86 bswapl bswapq i386).
Proof.
  intros Hl Hq. split; try (by intros ? ? [=]).
  - intros g x [= <-] Hx. by apply Hl.
  - intros g x [= <-] Hx. unfold __arch_swab64. destruct i386; [|by apply Hq].
    change (8 * Z.of_nat 8) with 64 in Hx. rewrite <-swab64_halves by done.
    assert (Hh : 0 <= Z.shiftr x 32 < 2 ^ 32).
    { rewrite Z.shiftr_div_pow2 by lia. split; [apply Z.div_pos; lia|].
      apply Z.div_lt_upper_bound; lia. }
    rewrite !Hl by (done || apply (cast_range W32)). cbn [constant_swab].
    change (Z.shiftl 1 32 - 1) with (Z.ones 32). rewrite (Z.land_ones x) by lia.
    fold (u32 x). rewrite u32_u32.
    replace (u32 (Z.shiftr x 32)) with (Z.shiftr x 32) by (symmetry; by apply (cast_small W32)).
    f_equal. symmetry. apply (cast_small W64).
    pose proof (constant_swab_range W32 (u32 x)) as Hr.
    change (0 <= ___constant_swab32 (u32 x) < 2 ^ 32) in Hr.
    rewrite Z.shiftl_mul_pow2 by lia. change (2 ^ (8 * Z.of_nat (size_of W64))) with (2 ^ 32 * 2 ^ 32).
    nia.
  - cbn. destruct i386; lia.
Qed.

(** A machine of each kind: the reversal of four and eight bytes, on i386 and on x86_64. *)
Lemma swab_reverses_witness :
  let A32 := x86 ___constant_swab32 ___constant_swab64 true in
  let A64 := x86 ___constant_swab32 ___constant_swab64 false in
  @__swab64 A32 false 0x0102030405060708 = 0x0807060504030201 /\
  @__swab A64 false 0x0102030405060708 = 0x0807060504030201 /\
  @__swahb32 A64 false 0x12345678 = 0x34127856 /\
  le_bytes 8 (@swab A32 W64 false 0x0102030405060708) = reverse (le_bytes 8 0x0102030405060708) /\
  @__swab16s A64 true true [1; 2; 3; 4] 1 = Some [1; 3; 2; 4].
Proof.
  assert (H32 : ArchLaws (x86 ___constant_swab32 ___constant_swab64 true)) by (by apply x86_laws).
  assert (H64 : ArchLaws (x86 ___constant_swab32 ___constant_swab64 false)) by (by apply x86_laws).
  cbv zeta. split; [vm_compute; reflexivity|]. split; [vm_compute; reflexivity|].
  split; [vm_compute; reflexivity|]. split.
  - destruct (@swab_reverses _ H32 true false) as [H _]. exact (proj1 (proj2 (H W64 0x0102030405060708))).
  - destruct (@swab_reverses _ H64 true true) as [_ [_ H]].
    apply (H [1; 2; 3; 4] 1%nat). repeat constructor; cbn; lia.
Defined.
