(* ===== verification/LittleEndian.v ===== *)
(** * Conversions on little-endian machines

    The macros and functions of src/include/linux/byteorder/little_endian.h.  [cp] says whether the
    compiler takes the argument of a byte swap for a constant; a function whose name ends in p
    reads the word at an address, a macro whose name ends in s converts it in place. *)

From S2P Require Import Prelude CLib Words Swab.
Open Scope Z_scope.

#[local] Instance byte_order : Endian := false.

Section conversions.
Context `{Arch}.

(** ** Constants *)

Definition __constant_htonl (x : Z) : Z := u32 (___constant_swab32 x).
Definition __constant_ntohl (x : Z) : Z := ___constant_swab32 (u32 x).
Definition __constant_htons (x : Z) : Z := u16 (___constant_swab16 x).
Definition __constant_ntohs (x : Z) : Z := ___constant_swab16 (u16 x).
Definition __constant_cpu_to_le64 (x : Z) : Z := u64 (u64 x).
Definition __constant_le64_to_cpu (x : Z) : Z := u64 (u64 x).
Definition __constant_cpu_to_le32 (x : Z) : Z := u32 (u32 x).
Definition __constant_le32_to_cpu (x : Z) : Z := u32 (u32 x).
Definition __constant_cpu_to_le16 (x : Z) : Z := u16 (u16 x).
Definition __constant_le16_to_cpu (x : Z) : Z := u16 (u16 x).
Definition __constant_cpu_to_be64 (x : Z) : Z := u64 (___constant_swab64 x).
Definition __constant_be64_to_cpu (x : Z) : Z := ___constant_swab64 (u64 (u64 x)).
Definition __constant_cpu_to_be32 (x : Z) : Z := u32 (___constant_swab32 x).
Definition __constant_be32_to_cpu (x : Z) : Z := ___constant_swab32 (u32 (u32 x)).
Definition __constant_cpu_to_be16 (x : Z) : Z := u16 (___constant_swab16 x).
Definition __constant_be16_to_cpu (x : Z) : Z := ___constant_swab16 (u16 (u16 x)).

(** ** Values *)

Definition __cpu_to_le64 (cp : bool) (x : Z) : Z := u64 (u64 x).
Definition __le64_to_cpu (cp : bool) (x : Z) : Z := u64 (u64 x).
Definition __cpu_to_le32 (cp : bool) (x : Z) : Z := u32 (u32 x).
Definition __le32_to_cpu (cp : bool) (x : Z) : Z := u32 (u32 x).
Definition __cpu_to_le16 (cp : bool) (x : Z) : Z := u16 (u16 x).
Definition __le16_to_cpu (cp : bool) (x : Z) : Z := u16 (u16 x).
Definition __cpu_to_be64 (cp : bool) (x : Z) : Z := u64 (__swab64 cp x).
Definition __be64_to_cpu (cp : bool) (x : Z) : Z := __swab64 cp (u64 (u64 x)).
Definition __cpu_to_be32 (cp : bool) (x : Z) : Z := u32 (__swab32 cp x).
Definition __be32_to_cpu (cp : bool) (x : Z) : Z := __swab32 cp (u32 (u32 x)).
Definition __cpu_to_be16 (cp : bool) (x : Z) : Z := u16 (__swab16 cp x).
Definition __be16_to_cpu (cp : bool) (x : Z) : Z := __swab16 cp (u16 (u16 x)).

(** ** Words in memory *)

Definition __cpu_to_le64p (cp : bool) (m : bytes) (p : nat) : option Z := x ← load W64 m p; Some (u64 x).
Definition __le64_to_cpup (cp : bool) (m : bytes) (p : nat) : option Z := x ← load W64 m p; Some (u64 x).
Definition __cpu_to_le32p (cp : bool) (m : bytes) (p : nat) : option Z := x ← load W32 m p; Some (u32 x).
Definition __le32_to_cpup (cp : bool) (m : bytes) (p : nat) : option Z := x ← load W32 m p; Some (u32 x).
Definition __cpu_to_le16p (cp : bool) (m : bytes) (p : nat) : option Z := x ← load W16 m p; Some (u16 x).
Definition __le16_to_cpup (cp : bool) (m : bytes) (p : nat) : option Z := x ← load W16 m p; Some (u16 x).
Definition __cpu_to_be64p (cp : bool) (m : bytes) (p : nat) : option Z := x ← __swab64p cp m p; Some (u64 x).
Definition __be64_to_cpup (cp : bool) (m : bytes) (p : nat) : option Z := __swab64p cp m p.
Definition __cpu_to_be32p (cp : bool) (m : bytes) (p : nat) : option Z := x ← __swab32p cp m p; Some (u32 x).
Definition __be32_to_cpup (cp : bool) (m : bytes) (p : nat) : option Z := __swab32p cp m p.
Definition __cpu_to_be16p (cp : bool) (m : bytes) (p : nat) : option Z := x ← __swab16p cp m p; Some (u16 x).
Definition __be16_to_cpup (cp : bool) (m : bytes) (p : nat) : option Z := __swab16p cp m p.

Definition __cpu_to_le64s (cp : bool) (m : bytes) (p : nat) : option bytes := Some m.
Definition __le64_to_cpus (cp : bool) (m : bytes) (p : nat) : option bytes := Some m.
Definition __cpu_to_le32s (cp : bool) (m : bytes) (p : nat) : option bytes := Some m.
Definition __le32_to_cpus (cp : bool) (m : bytes) (p : nat) : option bytes := Some m.
Definition __cpu_to_le16s (cp : bool) (m : bytes) (p : nat) : option bytes := Some m.
Definition __le16_to_cpus (cp : bool) (m : bytes) (p : nat) : option bytes := Some m.
Definition __cpu_to_be64s (cp : bool) (m : bytes) (p : nat) : option bytes := __swab64s cp m p.
Definition __be64_to_cpus (cp : bool) (m : bytes) (p : nat) : option bytes := __swab64s cp m p.
Definition __cpu_to_be32s (cp : bool) (m : bytes) (p : nat) : option bytes := __swab32s cp m p.
Definition __be32_to_cpus (cp : bool) (m : bytes) (p : nat) : option bytes := __swab32s cp m p.
Definition __cpu_to_be16s (cp : bool) (m : bytes) (p : nat) : option bytes := __swab16s cp m p.
Definition __be16_to_cpus (cp : bool) (m : bytes) (p : nat) : option bytes := __swab16s cp m p.

(** The interface. *)
Definition conversions : Conversions := {|
  order := byte_order;
  constant_cpu_to_le := fun w => match w with W16 => __constant_cpu_to_le16 | W32 => __constant_cpu_to_le32 | W64 => __constant_cpu_to_le64 end;
  constant_le_to_cpu := fun w => match w with W16 => __constant_le16_to_cpu | W32 => __constant_le32_to_cpu | W64 => __constant_le64_to_cpu end;
  constant_cpu_to_be := fun w => match w with W16 => __constant_cpu_to_be16 | W32 => __constant_cpu_to_be32 | W64 => __constant_cpu_to_be64 end;
  constant_be_to_cpu := fun w => match w with W16 => __constant_be16_to_cpu | W32 => __constant_be32_to_cpu | W64 => __constant_be64_to_cpu end;
  cpu_to_le := fun w => match w with W16 => __cpu_to_le16 | W32 => __cpu_to_le32 | W64 => __cpu_to_le64 end;
  le_to_cpu := fun w => match w with W16 => __le16_to_cpu | W32 => __le32_to_cpu | W64 => __le64_to_cpu end;
  cpu_to_be := fun w => match w with W16 => __cpu_to_be16 | W32 => __cpu_to_be32 | W64 => __cpu_to_be64 end;
  be_to_cpu := fun w => match w with W16 => __be16_to_cpu | W32 => __be32_to_cpu | W64 => __be64_to_cpu end;
  cpu_to_lep := fun w => match w with W16 => __cpu_to_le16p | W32 => __cpu_to_le32p | W64 => __cpu_to_le64p end;
  le_to_cpup := fun w => match w with W16 => __le16_to_cpup | W32 => __le32_to_cpup | W64 => __le64_to_cpup end;
  cpu_to_bep := fun w => match w with W16 => __cpu_to_be16p | W32 => __cpu_to_be32p | W64 => __cpu_to_be64p end;
  be_to_cpup := fun w => match w with W16 => __be16_to_cpup | W32 => __be32_to_cpup | W64 => __be64_to_cpup end;
  cpu_to_les := fun w => match w with W16 => __cpu_to_le16s | W32 => __cpu_to_le32s | W64 => __cpu_to_le64s end;
  le_to_cpus := fun w => match w with W16 => __le16_to_cpus | W32 => __le32_to_cpus | W64 => __le64_to_cpus end;
  cpu_to_bes := fun w => match w with W16 => __cpu_to_be16s | W32 => __cpu_to_be32s | W64 => __cpu_to_be64s end;
  be_to_cpus := fun w => match w with W16 => __be16_to_cpus | W32 => __be32_to_cpus | W64 => __be64_to_cpus end;
  constant_htonl := __constant_htonl; constant_ntohl := __constant_ntohl;
  constant_htons := __constant_htons; constant_ntohs := __constant_ntohs
|}.
End conversions.
