(* ===== verification/Endian.v ===== *)
(** * Both byte orders

    The headers for big-endian and for little-endian machines fulfil the interface of byte
    order conversions.  The conversions of the C library (src/include/endian.h and
    src/include/netinet/in.h) for either order. *)

From S2P Require Import Prelude CLib Words Swab BigEndian LittleEndian.
Open Scope Z_scope.

(** ** Conversions that keep a word and conversions that reverse it *)

Lemma cast_cast w x : cast w (cast w x) = cast w x.
Proof. apply cast_small, cast_range. Qed.
Lemma cast_constant_swab w x : cast w (constant_swab w x) = constant_swab w x.
Proof. apply cast_small, constant_swab_range. Qed.

Section converts.
Context (E : Endian) (to from : width -> bool -> Z -> Z).
Context (top fromp : width -> bool -> bytes -> nat -> option Z).
Context (tos froms : width -> bool -> bytes -> nat -> option bytes).
Context (to_bytes : nat -> Z -> bytes) (of_bytes : bytes -> Z).

Lemma load_range w m p x : Forall is_byte m -> load w m p = Some x -> cast w x = x.
Proof.
  intros Hm. unfold load. destruct (Nat.leb_spec (p + size_of w) (length m)); [|done].
  intros [= <-]. apply cast_small.
  pose proof (le_val_range (in_order (slice p (size_of w) m))) as Hr.
  rewrite length_in_order, length_slice in Hr by done.
  by apply Hr, is_byte_in_order, Forall_take, Forall_drop.
Qed.

Lemma load_in w m p : (p + size_of w <= length m)%nat ->
  load w m p = Some (le_val (in_order (slice p (size_of w) m))).
Proof. intros H. unfold load. by rewrite (proj2 (Nat.leb_le _ _)). Qed.

(** Storing the word that was there. *)
Lemma write_native w m p x : load w m p = Some x -> Forall is_byte m -> write_at p (native w x) m = m.
Proof.
  unfold load. destruct (Nat.leb_spec (p + size_of w) (length m)); [|done]. intros [= <-] Hm.
  rewrite native_val; [| by apply length_slice | by apply Forall_take, Forall_drop].
  unfold write_at. rewrite length_slice by done. unfold slice.
  rewrite <-drop_drop, take_drop. apply take_drop.
Qed.

Lemma converts_same :
  (forall w cp x, to w cp x = cast w x) -> (forall w cp x, from w cp x = cast w x) ->
  (forall w cp m p, top w cp m p = (x ← load w m p; Some (cast w x))) ->
  (forall w cp m p, fromp w cp m p = (x ← load w m p; Some (cast w x))) ->
  (forall w cp m p, tos w cp m p = Some m) -> (forall w cp m p, froms w cp m p = Some m) ->
  (forall n x, in_order (le_bytes n x) = to_bytes n x) -> (forall b, le_val (in_order b) = of_bytes b) ->
  converts to from top fromp tos froms to_bytes of_bytes.
Proof.
  intros Hto Hof Htop Hofp Htos Hofs Hb Hv. split.
  - intros w cp x. unfold native. by rewrite Hto, le_bytes_cast.
  - intros w cp b Hl Hm. rewrite Hof, Hv. apply cast_small. rewrite <-Hv, <-Hl, <-(length_in_order b).
    by apply le_val_range, is_byte_in_order.
  - intros w cp cp' x. by rewrite Hto, Hof, cast_cast.
  - intros w cp m p _. rewrite Htop. destruct (load w m p) as [x|]; cbn; [by rewrite Hto | done].
  - intros w cp m p Hp Hm. rewrite Hofp, (load_in w m p Hp). cbn. rewrite <-Hv. f_equal.
    eapply load_range; [exact Hm | by apply load_in].
  - intros w cp m p x Hx Hm. rewrite Htos, <-Hb. f_equal. symmetry. by apply write_native.
  - intros w cp m p m' Hm Hp. rewrite Hofs, <-Hv. intros [= <-]. by apply load_in.
Qed.

Lemma converts_swapped :
  (forall w cp x, to w cp x = constant_swab w x) -> (forall w cp x, from w cp x = constant_swab w x) ->
  (forall w cp m p, top w cp m p = (x ← load w m p; Some (constant_swab w x))) ->
  (forall w cp m p, fromp w cp m p = (x ← load w m p; Some (constant_swab w x))) ->
  (forall w cp m p, Forall is_byte m -> tos w cp m p = reversed w m p) ->
  (forall w cp m p, Forall is_byte m -> froms w cp m p = reversed w m p) ->
  (forall n x, in_order (reverse (le_bytes n x)) = to_bytes n x) ->
  (forall b, le_val (reverse (in_order b)) = of_bytes b) ->
  converts to from top fromp tos froms to_bytes of_bytes.
Proof.
  intros Hto Hof Htop Hofp Htos Hofs Hb Hv.
  assert (Hval : forall w b, length b = size_of w -> Forall is_byte b ->
    constant_swab w (le_val (in_order b)) = of_bytes b).
  { intros w b Hl Hm. rewrite <-Hv. apply (le_bytes_inj (size_of w)); [apply constant_swab_range | |].
    - rewrite <-Hl, <-(length_in_order b), <-length_reverse.
      by apply le_val_range, Forall_reverse, is_byte_in_order.
    - rewrite constant_swab_bytes.
      replace (size_of w) with (length (in_order b)) by (by rewrite length_in_order).
      rewrite le_bytes_val by by apply is_byte_in_order. rewrite <-length_reverse.
      symmetry. by apply le_bytes_val, Forall_reverse, is_byte_in_order. }
  assert (Hslice : forall w m p, (p + size_of w <= length m)%nat -> Forall is_byte m ->
    constant_swab w (le_val (in_order (slice p (size_of w) m))) = of_bytes (slice p (size_of w) m)).
  { intros w m p Hp Hm. apply Hval; [by apply length_slice | by apply Forall_take, Forall_drop]. }
  split.
  - intros w cp x. unfold native. by rewrite Hto, constant_swab_bytes.
  - intros w cp b Hl Hm. rewrite Hof. by apply Hval.
  - intros w cp cp' x. by rewrite Hto, Hof, constant_swab_involutive.
  - intros w cp m p _. rewrite Htop. destruct (load w m p) as [x|]; cbn; [by rewrite Hto | done].
  - intros w cp m p Hp Hm. rewrite Hofp, (load_in w m p Hp). cbn. by rewrite Hslice.
  - intros w cp m p x Hx Hm. rewrite Htos by done. unfold reversed. unfold load in Hx.
    destruct (Nat.leb_spec (p + size_of w) (length m)) as [Hp|]; [|done]. injection Hx as <-.
    rewrite <-Hb. do 2 f_equal. rewrite <-(in_order_reverse (slice _ _ _)). do 2 f_equal.
    pose proof (le_bytes_val (in_order (slice p (size_of w) m))) as Hr.
    rewrite length_in_order, length_slice in Hr by done. symmetry.
    by apply Hr, is_byte_in_order, Forall_take, Forall_drop.
  - intros w cp m p m' Hm Hp. rewrite Hofs by done. unfold reversed.
    rewrite (proj2 (Nat.leb_le _ _)) by done. intros [= <-].
    assert (Hl : length (reverse (slice p (size_of w) m)) = size_of w)
      by (rewrite length_reverse; by apply length_slice).
    rewrite load_in by (rewrite length_write_at; lia). rewrite <-Hl at 1.
    rewrite slice_write_at by lia. f_equal. rewrite <-Hv. unfold in_order.
    destruct big_endian; rewrite ?reverse_involutive; done.
Qed.
End converts.

(** ** The headers *)

Section headers.
Context {A : Arch} {HA : ArchLaws A} (E : Endian).

Definition swabp (w : width) : bool -> bytes -> nat -> option Z :=
  match w with W16 => __swab16p | W32 => __swab32p | W64 => __swab64p end.
Definition swabs (w : width) : bool -> bytes -> nat -> option bytes :=
  match w with W16 => __swab16s | W32 => __swab32s | W64 => __swab64s end.

Lemma to_swapped w cp x : cast w (swab w cp x) = constant_swab w x.
Proof. by rewrite swab_constant, cast_constant_swab. Qed.
Lemma from_swapped w cp x : swab w cp (cast w (cast w x)) = constant_swab w x.
Proof. by rewrite swab_constant, !constant_swab_cast. Qed.
Lemma constant_to w cp x : cast w (constant_swab w x) = cast w (swab w cp x).
Proof. by rewrite swab_constant. Qed.
Lemma constant_from w cp x : constant_swab w (cast w (cast w x)) = swab w cp (cast w (cast w x)).
Proof. by rewrite swab_constant. Qed.
Lemma constant_network w x :
  native w (cast w (constant_swab w x)) = in_order (reverse (le_bytes (size_of w) x)) /\
  constant_swab w (cast w (cast w (constant_swab w x))) = cast w x.
Proof.
  split; [unfold native; by rewrite le_bytes_cast, constant_swab_bytes|].
  by rewrite !constant_swab_cast, constant_swab_involutive.
Qed.
Lemma swabp_load w cp m p : swabp w cp m p = (x ← load w m p; Some (constant_swab w x)).
Proof.
  trans (x ← load w m p; Some (swab w cp x)); [by destruct w|].
  destruct (load w m p) as [x|]; cbn; [by rewrite swab_constant | done].
Qed.
Lemma swabp_cast w cp m p :
  (x ← swabp w cp m p; Some (cast w x)) = (x ← load w m p; Some (constant_swab w x)).
Proof. rewrite swabp_load. destruct (load w m p) as [x|]; cbn; [by rewrite cast_constant_swab | done]. Qed.
Lemma swabs_reversed w cp m p : Forall is_byte m -> swabs w cp m p = reversed w m p.
Proof.
  intros Hm. rewrite <-(swab_in_place w cp) by done.
  trans (x ← (x ← load w m p; Some (swab w cp x)); store w m p x); [by destruct w|].
  by destruct (load w m p).
Qed.
End headers.

(** A law for all widths, at each of them. *)
Ltac widths L :=
  let w := fresh "w" in intros w; destruct w; intros;
  [apply (L W16) | apply (L W32) | apply (L W64)]; try done.

Section orders.
Context {A : Arch} {HA : ArchLaws A}.

(** The laws of an order from those of its two kinds of conversions. *)
Ltac same := apply converts_same; [widths cast_cast | widths cast_cast | by intros [] | by intros []
      | by intros [] | by intros [] | done | done].
Ltac swapped E := apply converts_swapped; [widths (to_swapped (A := A)) | widths (from_swapped (A := A)) | widths (swabp_cast E)
      | widths (swabp_load E) | widths (swabs_reversed E) | widths (swabs_reversed E) | |].

Lemma big_endian_laws : ConversionLaws BigEndian.conversions.
Proof.
  split.
  - swapped BigEndian.byte_order.
    + intros n x. apply reverse_involutive.
    + intros b. apply (f_equal le_val), reverse_involutive.
  - same.
  - intros w cp x. split_and!; [| | by destruct w | by destruct w].
    + pose proof (constant_to w cp x) as Hc. by destruct w.
    + pose proof (constant_from w cp x) as Hc. by destruct w.
  - intros x. split_and!.
    + apply (f_equal reverse). exact (eq_trans (le_bytes_cast W32 _) (le_bytes_cast W32 x)).
    + apply (f_equal reverse). exact (eq_trans (le_bytes_cast W16 _) (le_bytes_cast W16 x)).
    + exact (eq_trans (cast_cast W32 _) (eq_trans (cast_cast W32 _) (cast_cast W32 x))).
    + exact (eq_trans (cast_cast W16 _) (eq_trans (cast_cast W16 _) (cast_cast W16 x))).
Qed.

Lemma little_endian_laws : ConversionLaws LittleEndian.conversions.
Proof.
  split.
  - same.
  - swapped LittleEndian.byte_order; done.
  - intros w cp x. split_and!; [by destruct w | by destruct w | |].
    + pose proof (constant_to w cp x) as Hc. by destruct w.
    + pose proof (constant_from w cp x) as Hc. by destruct w.
  - intros x. destruct (constant_network LittleEndian.byte_order W32 x) as [H1 H2].
    destruct (constant_network LittleEndian.byte_order W16 x) as [H3 H4].
    cbn [constant_htonl constant_ntohl constant_htons constant_ntohs LittleEndian.conversions].
    unfold LittleEndian.__constant_htonl, LittleEndian.__constant_ntohl,
      LittleEndian.__constant_htons, LittleEndian.__constant_ntohs.
    cbn [constant_swab cast] in H1, H2, H3, H4. split_and!; [exact H1 | exact H3 | exact H2 | exact H4].
Qed.
End orders.

(** C14: byte order conversions.  The headers for both byte orders keep the contract: converted
    to little- or big-endian and stored, a value is its bytes in that order; bytes in that
    order, loaded and converted, are the value; the functions on addresses and the macros that
    convert in place do this to the word there; constants are converted the same; host to
    network order is big-endian and back. *)
Theorem conversions_correct {A : Arch} {HA : ArchLaws A} :
  ConversionLaws BigEndian.conversions /\ ConversionLaws LittleEndian.conversions.
Proof. split; [apply big_endian_laws | apply little_endian_laws]. Qed.

Lemma conversions_correct_witness :
  let A := x86 ___constant_swab32 ___constant_swab64 false in
  ConversionLaws (@LittleEndian.conversions A) /\
  @LittleEndian.__cpu_to_be32 A false 0x01020304 = 0x04030201 /\
  @native LittleEndian.byte_order W32 (@LittleEndian.__cpu_to_be32 A false 0x01020304) = [1; 2; 3; 4] /\
  @LittleEndian.__be16_to_cpup A true [0; 1; 2; 3] 1 = Some 0x0102 /\
  @BigEndian.__le32_to_cpus A true [9; 1; 2; 3; 4] 1 = Some [9; 4; 3; 2; 1].
Proof.
  cbv zeta. split; [|vm_compute; repeat split; reflexivity].
  apply (@conversions_correct _ (x86_laws ___constant_swab32 ___constant_swab64 false
    (fun x _ => eq_refl) (fun x _ => eq_refl))).
Defined.

(** ** The C library *)

(** bits/uintn-identity.h *)
Definition __uint16_identity (__x : Z) : Z := __x.
Definition __uint32_identity (__x : Z) : Z := __x.
Definition __uint64_identity (__x : Z) : Z := __x.

(** The compiler's built-in functions for bits/byteswap.h. *)
Class Gcc := { gcc_bswap16 : option (Z -> Z); gcc_bswap32 : option (Z -> Z); gcc_bswap64 : option (Z -> Z) }.
Class GccLaws (G : Gcc) : Prop := {
  gcc16_ok : agrees 2 gcc_bswap16 ___constant_swab16;
  gcc32_ok : agrees 4 gcc_bswap32 ___constant_swab32;
  gcc64_ok : agrees 8 gcc_bswap64 ___constant_swab64
}.

Section libc.
Context `{Endian} `{Gcc}.

Definition libc_swap (w : width) (x : Z) : Z :=
  match w with
  | W16 => __bswap_16 gcc_bswap16 (u16 x)
  | W32 => __bswap_32 gcc_bswap32 (u32 x)
  | W64 => __bswap_64 gcc_bswap64 (u64 x)
  end.
Definition libc_same (w : width) (x : Z) : Z :=
  match w with
  | W16 => __uint16_identity (u16 x)
  | W32 => __uint32_identity (u32 x)
  | W64 => __uint64_identity (u64 x)
  end.

(** netinet/in.h *)
Definition ntohl (x : Z) : Z :=
  if big_endian then __uint32_identity (u32 x) else __bswap_32 gcc_bswap32 (u32 x).
Definition ntohs (x : Z) : Z :=
  if big_endian then __uint16_identity (u16 x) else __bswap_16 gcc_bswap16 (u16 x).
Definition htonl (x : Z) : Z :=
  if big_endian then __uint32_identity (u32 x) else __bswap_32 gcc_bswap32 (u32 x).
Definition htons (x : Z) : Z :=
  if big_endian then __uint16_identity (u16 x) else __bswap_16 gcc_bswap16 (u16 x).

(** endian.h *)
Definition htobe16 (x : Z) : Z := if big_endian then __uint16_identity (u16 x) else __bswap_16 gcc_bswap16 (u16 x).
Definition htole16 (x : Z) : Z := if big_endian then __bswap_16 gcc_bswap16 (u16 x) else __uint16_identity (u16 x).
Definition be16toh (x : Z) : Z := if big_endian then __uint16_identity (u16 x) else __bswap_16 gcc_bswap16 (u16 x).
Definition le16toh (x : Z) : Z := if big_endian then __bswap_16 gcc_bswap16 (u16 x) else __uint16_identity (u16 x).
Definition htobe32 (x : Z) : Z := if big_endian then __uint32_identity (u32 x) else __bswap_32 gcc_bswap32 (u32 x).
Definition htole32 (x : Z) : Z := if big_endian then __bswap_32 gcc_bswap32 (u32 x) else __uint32_identity (u32 x).
Definition be32toh (x : Z) : Z := if big_endian then __uint32_identity (u32 x) else __bswap_32 gcc_bswap32 (u32 x).
Definition le32toh (x : Z) : Z := if big_endian then __bswap_32 gcc_bswap32 (u32 x) else __uint32_identity (u32 x).
Definition htobe64 (x : Z) : Z := if big_endian then __uint64_identity (u64 x) else __bswap_64 gcc_bswap64 (u64 x).
Definition htole64 (x : Z) : Z := if big_endian then __bswap_64 gcc_bswap64 (u64 x) else __uint64_identity (u64 x).
Definition be64toh (x : Z) : Z := if big_endian then __uint64_identity (u64 x) else __bswap_64 gcc_bswap64 (u64 x).
Definition le64toh (x : Z) : Z := if big_endian then __bswap_64 gcc_bswap64 (u64 x) else __uint64_identity (u64 x).

Definition hto (be : bool) (w : width) : Z -> Z :=
  match be, w with
  | true, W16 => htobe16 | true, W32 => htobe32 | true, W64 => htobe64
  | false, W16 => htole16 | false, W32 => htole32 | false, W64 => htole64
  end.
Definition toh (be : bool) (w : width) : Z -> Z :=
  match be, w with
  | true, W16 => be16toh | true, W32 => be32toh | true, W64 => be64toh
  | false, W16 => le16toh | false, W32 => le32toh | false, W64 => le64toh
  end.

Context {HG : GccLaws _}.

Lemma libc_swap_ok w x : libc_swap w x = constant_swab w x.
Proof.
  assert (Hp : forall b f g, agrees (size_of w) b (constant_swab w) -> (forall y, f y = constant_swab w y) ->
    g x = provided b f (cast w x) -> g x = constant_swab w x).
  { intros b f g Hb Hf ->. unfold provided. destruct b as [k|].
    - rewrite (Hb k) by (done || apply cast_range). apply constant_swab_cast.
    - by rewrite Hf, constant_swab_cast. }
  destruct w.
  - exact (Hp gcc_bswap16 __bswap_constant_16 (libc_swap W16) gcc16_ok bswap16_swab16 eq_refl).
  - exact (Hp gcc_bswap32 __bswap_constant_32 (libc_swap W32) gcc32_ok bswap32_swab32 eq_refl).
  - exact (Hp gcc_bswap64 __bswap_constant_64 (libc_swap W64) gcc64_ok bswap64_swab64 eq_refl).
Qed.

Lemma libc_same_ok w x : libc_same w x = cast w x.
Proof. by destruct w. Qed.

(** A conversion keeps a word of the machine's order and reverses one of the other. *)
Lemma hto_ok be w x : hto be w x = if Bool.eqb be big_endian then cast w x else constant_swab w x.
Proof.
  rewrite <-libc_swap_ok, <-libc_same_ok.
  destruct be, w; cbn [hto]; unfold htobe16, htobe32, htobe64, htole16, htole32, htole64;
    by destruct big_endian.
Qed.
Lemma toh_ok be w x : toh be w x = hto be w x.
Proof. by destruct be, w. Qed.

Lemma native_hto be w x :
  native w (hto be w x) = if be then be_bytes (size_of w) x else le_bytes (size_of w) x.
Proof.
  rewrite hto_ok. unfold native, in_order, be_bytes.
  destruct be, big_endian; cbn [Bool.eqb]; by rewrite ?le_bytes_cast, ?constant_swab_bytes, ?reverse_involutive.
Qed.

Lemma toh_hto be w x : toh be w (hto be w x) = cast w x.
Proof.
  rewrite toh_ok, !hto_ok. destruct (Bool.eqb be big_endian);
    [apply cast_cast | apply constant_swab_involutive].
Qed.

Lemma toh_val be w b : length b = size_of w -> Forall is_byte b ->
  toh be w (le_val (in_order b)) = if be then be_val b else le_val b.
Proof.
  intros Hl Hb. rewrite toh_ok. apply (le_bytes_inj (size_of w)).
  - rewrite hto_ok. destruct (Bool.eqb _ _); [apply cast_range | apply constant_swab_range].
  - rewrite <-Hl. destruct be; [|by apply le_val_range].
    rewrite <-(length_reverse b). by apply le_val_range, Forall_reverse.
  - assert (Hn : le_bytes (size_of w) (le_val (in_order b)) = in_order b).
    { rewrite <-Hl, <-(length_in_order b). by apply le_bytes_val, is_byte_in_order. }
    trans (if Bool.eqb be big_endian then in_order b else reverse (in_order b)).
    + rewrite hto_ok. destruct (Bool.eqb _ _); [by rewrite le_bytes_cast | by rewrite constant_swab_bytes, Hn].
    + unfold in_order. assert (Hr : le_bytes (size_of w) (le_val (reverse b)) = reverse b)
        by (rewrite <-Hl, <-(length_reverse b); by apply le_bytes_val, Forall_reverse).
      assert (Hf : le_bytes (size_of w) (le_val b) = b) by (rewrite <-Hl; by apply le_bytes_val).
      unfold be_val. destruct be, big_endian; cbn [Bool.eqb]; by rewrite ?Hr, ?Hf, ?reverse_involutive.
Qed.
End libc.

(** The conversions of the C library are those of the kernel headers of the same order. *)
Definition same_conversions (C : Conversions) (G : Gcc) : Prop := forall w cp x,
  hto false w x = cpu_to_le w cp x /\ toh false w x = le_to_cpu w cp x /\
  hto true w x = cpu_to_be w cp x /\ toh true w x = be_to_cpu w cp x.

(** The conversions of the C library.  For either order of the machine and each width: the
    result of htobe and htole stored is the bytes of the value in the order named; betoh and
    letoh of bytes loaded are the value the bytes have in that order; converting there and back
    is the conversion to the unsigned type; htons, htonl and their inverses are the big-endian
    ones; and all compute what the kernel's macros for the same machine compute, with or
    without the compiler's built-ins. *)
Theorem libc_conversions (G : Gcc) (HG : GccLaws G) :
  (forall (E : Endian) be w x,
    native w (hto be w x) = (if be then be_bytes else le_bytes) (size_of w) x /\
    toh be w (hto be w x) = cast w x) /\
  (forall (E : Endian) be w b, length b = size_of w -> Forall is_byte b ->
    toh be w (le_val (in_order b)) = (if be then be_val else le_val) b) /\
  (forall E : Endian, htons = htobe16 /\ ntohs = be16toh /\ htonl = htobe32 /\ ntohl = be32toh) /\
  (forall A : Arch, ArchLaws A ->
    same_conversions BigEndian.conversions G /\ same_conversions LittleEndian.conversions G).
Proof.
  split; [|split; [|split]].
  - intros E be w x. rewrite native_hto, toh_hto. by destruct be.
  - intros E be w b Hl Hb. rewrite toh_val by done. by destruct be.
  - intros E. by split_and!.
  - intros A HA.
    assert (Ht : forall (E : Endian) be w x,
      toh be w x = if Bool.eqb be big_endian then cast w x else constant_swab w x)
      by (intros E be w x; etrans; [apply toh_ok | apply hto_ok]).
    split; intros w cp x;
      pose proof (eq_sym (to_swapped w cp x)) as Hs; pose proof (eq_sym (from_swapped w cp x)) as Hf;
      pose proof (eq_sym (cast_cast w x)) as Hc;
      (split_and!; [etrans; [apply hto_ok|] | etrans; [apply Ht|] | etrans; [apply hto_ok|] | etrans; [apply Ht|]]).
    all: first [ etrans; [exact Hc | by destruct w] | etrans; [exact Hs | by destruct w]
               | etrans; [exact Hf | by destruct w] ].
Qed.

Lemma libc_conversions_witness :
  let G := {| gcc_bswap16 := Some ___constant_swab16; gcc_bswap32 := None; gcc_bswap64 := None |} in
  @htonl false G 0x7f000001 = 0x0100007f /\ @htonl true G 0x7f000001 = 0x7f000001 /\
  @htons false G 6000 = 0x7017 /\
  @ntohs false G (le_val [0x17; 0x70]) = 6000 /\
  (forall x, @toh false G true W64 (@hto false G true W64 x) = u64 x).
Proof.
  set (G := {| gcc_bswap16 := Some ___constant_swab16; gcc_bswap32 := None; gcc_bswap64 := None |}).
  assert (HG : GccLaws G) by (split; [by intros g x [= <-] | done | done]).
  cbv zeta. split; [vm_compute; reflexivity|]. split; [vm_compute; reflexivity|].
  split; [vm_compute; reflexivity|]. destruct (libc_conversions G HG) as (H1 & H2 & H3 & _). split.
  - destruct (H3 false) as (_ & -> & _).
    apply (H2 false true W16 [0x17; 0x70] eq_refl). repeat constructor; cbn; lia.
  - intros x. apply (proj2 (H1 false true W64 x)).
Defined.
