(* ===== verification/Tlv.v ===== *)
(** * TIPC's configuration messages

    The TLVs and the message header of src/include/linux/tipc_config.h in a buffer of bytes: a
    TLV is a length and a type in network byte order, the value, and padding to a multiple of
    4.  A pointer is an offset into the buffer; [None] is an access outside of it. *)

From S2P Require Import Prelude CLib Words Swab Endian.
Open Scope Z_scope.

(** ** memcpy and memset into the buffer *)

Definition memcpy (m : bytes) (p : nat) (src : bytes) (n : nat) : option bytes :=
  if (n <=? length src)%nat && (p + n <=? length m)%nat then Some (write_at p (take n src) m) else None.
Definition memset (m : bytes) (p : nat) (c : Z) (n : nat) : option bytes :=
  if (p + n <=? length m)%nat then Some (write_at p (replicate n c) m) else None.

(** ** struct tlv_desc: tlv_len at 0, tlv_type at 2 *)

Definition sizeof_tlv_desc : Z := 4.
Definition TLV_ALIGNTO : Z := 4.
Definition TLV_ALIGN (datalen : Z) : Z := Z.land (datalen + (TLV_ALIGNTO - 1)) (Z.lnot (TLV_ALIGNTO - 1)).
Definition TLV_LENGTH (datalen : Z) : Z := sizeof_tlv_desc + datalen.
Definition TLV_SPACE (datalen : Z) : Z := TLV_ALIGN (TLV_LENGTH datalen).
Definition TLV_DATA (tlv : nat) : nat := (tlv + Z.to_nat (TLV_LENGTH 0))%nat.

Section tlv.
Context `{Endian} `{Gcc}.

Definition tlv_len (m : bytes) (tlv : nat) : option Z := load W16 m tlv.
Definition tlv_type (m : bytes) (tlv : nat) : option Z := load W16 m (tlv + 2).

Definition TLV_OK (m : bytes) (tlv : nat) (space : Z) : option bool :=
  if TLV_SPACE 0 <=? space then n ← tlv_len m tlv; Some (ntohs n <=? space) else Some false.

Definition TLV_CHECK (m : bytes) (tlv : nat) (space exp_type : Z) : option bool :=
  ok ← TLV_OK m tlv space;
  if ok : bool then t ← tlv_type m tlv; Some (ntohs t =? exp_type) else Some false.

Definition TLV_GET_LEN (m : bytes) (tlv : nat) : option Z := n ← tlv_len m tlv; Some (ntohs n).

Definition TLV_SET_LEN (m : bytes) (tlv : nat) (len : Z) : option bytes := store W16 m tlv (htons len).

Definition TLV_CHECK_TYPE (m : bytes) (tlv : nat) (type : Z) : option bool :=
  t ← tlv_type m tlv; Some (ntohs t =? type).

Definition TLV_SET_TYPE (m : bytes) (tlv : nat) (type : Z) : option bytes :=
  store W16 m (tlv + 2) (htons type).

(** [data]: the bytes it points to, or NULL. *)
Definition TLV_SET (m : bytes) (tlv : nat) (type : Z) (data : option bytes) (len : Z) : option (bytes * Z) :=
  let tlv_len := TLV_LENGTH len in
  m ← store W16 m (tlv + 2) (htons type);
  m ← store W16 m tlv (htons tlv_len);
  m ← match data with
      | Some data =>
          if negb (len =? 0) then
            m ← memcpy m (TLV_DATA tlv) data (Z.to_nat len);
            memset m (TLV_DATA tlv + Z.to_nat len) 0 (Z.to_nat (TLV_SPACE len - tlv_len))
          else Some m
      | None => Some m
      end;
  Some (m, TLV_SPACE len).

(** ** Lists of TLVs *)

Record tlv_list_desc := { tlv_ptr : nat; tlv_space : Z }.

Definition TLV_LIST_INIT (data : nat) (space : Z) : tlv_list_desc := {| tlv_ptr := data; tlv_space := space |}.
Definition TLV_LIST_EMPTY (list : tlv_list_desc) : bool := tlv_space list =? 0.
(** The space is converted to the type of TLV_CHECK's parameter. *)
Definition TLV_LIST_CHECK (m : bytes) (list : tlv_list_desc) (exp_type : Z) : option bool :=
  TLV_CHECK m (tlv_ptr list) (u16 (tlv_space list)) exp_type.
Definition TLV_LIST_DATA (list : tlv_list_desc) : nat := TLV_DATA (tlv_ptr list).
Definition TLV_LIST_STEP (m : bytes) (list : tlv_list_desc) : option tlv_list_desc :=
  n ← tlv_len m (tlv_ptr list);
  let space := u16 (TLV_ALIGN (ntohs n)) in
  Some {| tlv_ptr := tlv_ptr list + Z.to_nat space; tlv_space := u32 (tlv_space list - space) |}.

(** ** struct tipc_cfg_msg_hdr: tcm_len at 0, tcm_type at 4, tcm_flags at 6, 8 bytes reserved *)

Definition sizeof_tipc_cfg_msg_hdr : Z := 16.
Definition TCM_ALIGN (datalen : Z) : Z := Z.land (datalen + 3) (Z.lnot 3).
Definition TCM_LENGTH (datalen : Z) : Z := sizeof_tipc_cfg_msg_hdr + datalen.
Definition TCM_SPACE (datalen : Z) : Z := TCM_ALIGN (TCM_LENGTH datalen).
Definition TCM_DATA (tcm_hdr : nat) : nat := (tcm_hdr + Z.to_nat (TCM_LENGTH 0))%nat.

Definition TCM_SET (m : bytes) (msg : nat) (cmd flags : Z) (data : option bytes) (data_len : Z) :
    option (bytes * Z) :=
  let msg_len := TCM_LENGTH data_len in
  m ← store W32 m msg (htonl msg_len);
  m ← store W16 m (msg + 4) (htons cmd);
  m ← store W16 m (msg + 6) (htons flags);
  m ← match data with
      | Some data =>
          if negb (data_len =? 0) then
            m ← memcpy m (TCM_DATA msg) data (Z.to_nat data_len);
            memset m (TCM_DATA msg + Z.to_nat data_len) 0 (Z.to_nat (TCM_SPACE data_len - msg_len))
          else Some m
      | None => Some m
      end;
  Some (m, TCM_SPACE data_len).
End tlv.

(** ** Alignment *)

Lemma TLV_ALIGN_mod n : TLV_ALIGN n = (n + 3) / 4 * 4.
Proof.
  unfold TLV_ALIGN, TLV_ALIGNTO. change (4 - 1) with (Z.ones 2). rewrite <-Z.ldiff_land, Z.ldiff_ones_r by lia.
  rewrite Z.shiftl_mul_pow2, Z.shiftr_div_pow2 by lia. done.
Qed.

Lemma TLV_ALIGN_bounds n : n <= TLV_ALIGN n < n + 4 /\ TLV_ALIGN n mod 4 = 0.
Proof.
  rewrite TLV_ALIGN_mod. pose proof (Z.div_mod (n + 3) 4). pose proof (Z.mod_pos_bound (n + 3) 4).
  split; [lia|]. apply Z.mod_mul. lia.
Qed.

(** ** What TLV_SET writes *)

Definition blen (v : bytes) : Z := Z.of_nat (length v).
Definition tlv_bytes (type : Z) (v : bytes) : bytes :=
  be_bytes 2 (TLV_LENGTH (blen v)) ++ be_bytes 2 type ++ v ++
  replicate (Z.to_nat (TLV_SPACE (blen v) - TLV_LENGTH (blen v))) 0.

Lemma length_be_bytes n x : length (be_bytes n x) = n.
Proof. unfold be_bytes. rewrite length_reverse. apply length_le_bytes. Qed.

Lemma TLV_SPACE_bounds n : TLV_LENGTH n <= TLV_SPACE n < TLV_LENGTH n + 4 /\ TLV_SPACE n mod 4 = 0.
Proof. apply TLV_ALIGN_bounds. Qed.

Lemma length_tlv_bytes type v : Z.of_nat (length (tlv_bytes type v)) = TLV_SPACE (blen v).
Proof.
  unfold tlv_bytes. rewrite !length_app, !length_be_bytes, length_replicate.
  pose proof (TLV_SPACE_bounds (blen v)). unfold TLV_LENGTH, sizeof_tlv_desc, blen in *. lia.
Qed.

Lemma store_in `{Endian} w m p x :
  (p + size_of w <= length m)%nat -> store w m p x = Some (write_at p (native w x) m).
Proof. intros Hp. unfold store. by rewrite (proj2 (Nat.leb_le _ _)). Qed.

Lemma memcpy_in m p src n :
  (n <= length src)%nat -> (p + n <= length m)%nat -> memcpy m p src n = Some (write_at p (take n src) m).
Proof. intros H1 H2. unfold memcpy. by rewrite !(proj2 (Nat.leb_le _ _)). Qed.

Lemma memset_in m p c n : (p + n <= length m)%nat -> memset m p c n = Some (write_at p (replicate n c) m).
Proof. intros H. unfold memset. by rewrite (proj2 (Nat.leb_le _ _)). Qed.

Section set.
Context (E : Endian) (G : Gcc) {HG : GccLaws G}.

Lemma native_htons x : native W16 (htons x) = be_bytes 2 x.
Proof. exact (native_hto true W16 x). Qed.
Lemma native_htonl x : native W32 (htonl x) = be_bytes 4 x.
Proof. exact (native_hto true W32 x). Qed.

(** A header, a value and padding behind it, in two stores. *)
Lemma header_value m p (hd v : bytes) (pad : nat) :
  (p + length hd + length v + pad <= length m)%nat ->
  (m ← memcpy (write_at p hd m) (p + length hd) v (length v);
   memset m (p + length hd + length v) 0 pad) = Some (write_at p (hd ++ v ++ replicate pad 0) m).
Proof.
  intros Hp. rewrite memcpy_in; [|lia|rewrite length_write_at; lia]. rewrite firstn_all. cbn.
  rewrite write_at_app by lia.
  rewrite memset_in by (rewrite length_write_at; rewrite ?length_app; lia). f_equal.
  rewrite <-Nat.add_assoc, <-length_app, write_at_app by (rewrite length_app, length_replicate; lia).
  by rewrite <-app_assoc.
Qed.

Lemma TLV_SET_descriptor m p type n :
  (p + 4 <= length m)%nat ->
  (m ← store W16 m (p + 2) (htons type); store W16 m p (htons n)) =
  Some (write_at p (be_bytes 2 n ++ be_bytes 2 type) m).
Proof.
  intros Hp. rewrite store_in by (cbn; lia). cbn.
  rewrite store_in by (rewrite length_write_at; rewrite ?length_native; cbn; lia). f_equal.
  rewrite !native_htons. rewrite <-(length_be_bytes 2 n) at 1.
  apply write_at_app_rev. rewrite !length_be_bytes. lia.
Qed.

Lemma TLV_SET_value m p type v :
  (p + length (tlv_bytes type v) <= length m)%nat ->
  TLV_SET m p type (Some v) (blen v) = Some (write_at p (tlv_bytes type v) m, TLV_SPACE (blen v)).
Proof.
  intros Hp. pose proof (length_tlv_bytes type v) as Hl. pose proof (TLV_SPACE_bounds (blen v)) as [Hb _].
  unfold TLV_LENGTH, sizeof_tlv_desc, blen in Hb.
  assert (Hp4 : (p + 4 <= length m)%nat) by (unfold blen in *; lia).
  pose proof (TLV_SET_descriptor m p type (TLV_LENGTH (blen v)) Hp4) as Hd.
  unfold TLV_SET. cbn zeta. destruct (store W16 m (p + 2) (htons type)) as [m1|]; cbn in Hd |- *; [|done].
  rewrite Hd. cbn. destruct (Z.eqb_spec (blen v) 0) as [Hz|Hz]; cbn.
  - assert (v = []) as -> by (destruct v; [done | unfold blen in Hz; cbn in Hz; lia]).
    unfold tlv_bytes. change (replicate _ 0) with (@nil Z). by rewrite !app_nil_r.
  - pose proof (header_value m p (be_bytes 2 (TLV_LENGTH (blen v)) ++ be_bytes 2 type) v
      (Z.to_nat (TLV_SPACE (blen v) - TLV_LENGTH (blen v)))) as Hh.
    rewrite length_app, !length_be_bytes in Hh. unfold TLV_DATA.
    change (Z.to_nat (TLV_LENGTH 0)) with (2 + 2)%nat. assert (Hn : Z.to_nat (blen v) = length v) by apply Nat2Z.id.
    rewrite Hn.
    rewrite <-app_assoc in Hh. unfold tlv_bytes.
    destruct (memcpy _ _ _ _) as [m2|] eqn:Em; cbn in Hh |- *.
    + rewrite Hh; [done|]. unfold TLV_LENGTH, sizeof_tlv_desc in *. unfold blen in *. lia.
    + exfalso. discriminate Hh. unfold TLV_LENGTH, sizeof_tlv_desc in *. unfold blen in *. lia.
Qed.
End set.

(** ** Reading what is there *)

Section get.
Context (E : Endian) (G : Gcc) {HG : GccLaws G}.

Lemma load_be16 m p x : has m p (be_bytes 2 x) -> exists n, load W16 m p = Some n /\ ntohs n = u16 x.
Proof.
  intros H. pose proof (has_bounds _ _ _ H) as Hp. rewrite length_be_bytes in Hp.
  exists (le_val (in_order (be_bytes 2 x))). split.
  - rewrite load_in by (apply Hp; by destruct (be_bytes 2 x) eqn:Eb; [apply (f_equal length) in Eb;
      rewrite length_be_bytes in Eb|]). unfold has in H. rewrite length_be_bytes in H. cbn [size_of].
    by rewrite H.
  - etrans; [apply (toh_val true W16); [apply length_be_bytes|]|].
    + unfold be_bytes. apply Forall_reverse, is_byte_le_bytes.
    + unfold be_val, be_bytes. rewrite reverse_involutive. rewrite <-(le_bytes_cast W16).
      apply (le_val_bytes 2), (cast_range W16).
Qed.

(** A TLV at [p] whose length and type fit. *)
Section one.
Context (m : bytes) (p : nat) (type : Z) (v : bytes).
Context (Hm : has m p (tlv_bytes type v)) (Ht : u16 type = type) (Hv : TLV_LENGTH (blen v) <= 65532).

Lemma tlv_length_u16 : u16 (TLV_LENGTH (blen v)) = TLV_LENGTH (blen v).
Proof. apply Z.mod_small. unfold TLV_LENGTH, sizeof_tlv_desc, blen in *. lia. Qed.

Lemma tlv_parts :
  (exists n, tlv_len m p = Some n /\ ntohs n = TLV_LENGTH (blen v)) /\
  (exists t, tlv_type m p = Some t /\ ntohs t = type) /\
  slice (TLV_DATA p) (length v) m = v.
Proof.
  unfold tlv_bytes in Hm. apply has_app in Hm as [H1 H2]. apply has_app in H2 as [H2 H3].
  rewrite !length_be_bytes in *. apply has_app in H3 as [H3 _]. split; [|split].
  - destruct (load_be16 _ _ _ H1) as (n & Hn & En). exists n. by rewrite <-tlv_length_u16.
  - destruct (load_be16 _ _ _ H2) as (t & Hn & Et). exists t. split; [exact Hn | by rewrite Et].
  - unfold has in H3. unfold TLV_DATA. replace (p + Z.to_nat (TLV_LENGTH 0))%nat with (p + 2 + 2)%nat; [done|].
    change (Z.to_nat (TLV_LENGTH 0)) with 4%nat. lia.
Qed.

Lemma TLV_CHECK_at space t : 4 <= space ->
  TLV_CHECK m p space t = Some ((TLV_LENGTH (blen v) <=? space) && (type =? t)).
Proof.
  intros Hs. destruct tlv_parts as ((n & Hn & En) & (t' & Ht' & Et) & _).
  unfold TLV_CHECK, TLV_OK. change (TLV_SPACE 0) with 4. rewrite (proj2 (Z.leb_le _ _)) by done.
  rewrite Hn. cbn. rewrite En. destruct (_ <=? space); [|done]. rewrite Ht'. cbn. by rewrite Et.
Qed.

Lemma TLV_LIST_STEP_at space : TLV_SPACE (blen v) <= space < 2 ^ 32 ->
  TLV_LIST_STEP m {| tlv_ptr := p; tlv_space := space |} =
  Some {| tlv_ptr := p + length (tlv_bytes type v); tlv_space := space - TLV_SPACE (blen v) |}.
Proof.
  intros Hs. destruct tlv_parts as ((n & Hn & En) & _). unfold TLV_LIST_STEP.
  cbn [tlv_ptr tlv_space]. rewrite Hn. cbn [mbind option_bind]. rewrite En. fold (TLV_SPACE (blen v)).
  pose proof (TLV_SPACE_bounds (blen v)) as [Hb Hmod]. pose proof (Z.div_mod (TLV_SPACE (blen v)) 4).
  assert (Hu : u16 (TLV_SPACE (blen v)) = TLV_SPACE (blen v)).
  { apply Z.mod_small. unfold TLV_LENGTH, sizeof_tlv_desc, blen in *. lia. }
  rewrite Hu. do 2 f_equal.
  - rewrite <-(length_tlv_bytes type). lia.
  - apply Z.mod_small. unfold TLV_LENGTH, sizeof_tlv_desc, blen in *. lia.
Qed.
End one.
End get.

(** ** Messages of several TLVs

    A client that writes TLVs one behind the other, and one that reads values of expected
    types. *)
Section clients.
Context `{Endian} `{Gcc}.

Fixpoint write_tlvs (m : bytes) (p : nat) (tlvs : list (Z * bytes)) : option (bytes * nat) :=
  match tlvs with
  | [] => Some (m, p)
  | (type, v) :: tlvs =>
      '(m, n) ← TLV_SET m p type (Some v) (blen v); write_tlvs m (p + Z.to_nat n) tlvs
  end.

Fixpoint read_tlvs (m : bytes) (types : list Z) (l : tlv_list_desc) : option (list bytes * tlv_list_desc) :=
  match types with
  | [] => Some ([], l)
  | type :: types =>
      ok ← TLV_LIST_CHECK m l type;
      if ok : bool then
        n ← TLV_GET_LEN m (tlv_ptr l);
        let v := slice (TLV_LIST_DATA l) (Z.to_nat (n - TLV_LENGTH 0)) m in
        l ← TLV_LIST_STEP m l;
        '(vs, l) ← read_tlvs m types l;
        Some (v :: vs, l)
      else Some ([], l)
  end.
End clients.

Definition tlvs_bytes (tlvs : list (Z * bytes)) : bytes := concat ((fun '(t, v) => tlv_bytes t v) <$> tlvs).
Definition tlvs_size (tlvs : list (Z * bytes)) : Z := blen (tlvs_bytes tlvs).

Section messages.
Context (E : Endian) (G : Gcc) {HG : GccLaws G}.

Lemma write_tlvs_ok tlvs m p :
  (p + length (tlvs_bytes tlvs) <= length m)%nat ->
  write_tlvs m p tlvs = Some (write_at p (tlvs_bytes tlvs) m, (p + length (tlvs_bytes tlvs))%nat).
Proof.
  revert m p. induction tlvs as [|[type v] tlvs IH]; intros m p Hp; cbn [write_tlvs].
  - cbn. do 2 f_equal; [|lia]. unfold write_at. cbn. by rewrite Nat.add_0_r, take_drop.
  - change (tlvs_bytes ((type, v) :: tlvs)) with (tlv_bytes type v ++ tlvs_bytes tlvs) in *.
    rewrite length_app in *. rewrite TLV_SET_value by (done || lia). cbn [mbind option_bind].
    rewrite <-(length_tlv_bytes type v), Nat2Z.id.
    rewrite IH by (rewrite length_write_at; lia). rewrite write_at_app by lia. do 2 f_equal. lia.
Qed.

Lemma read_tlvs_ok tlvs m p :
  has m p (tlvs_bytes tlvs) -> Forall (fun t => u16 t = t) tlvs.*1 -> tlvs_size tlvs < 65536 ->
  read_tlvs m tlvs.*1 {| tlv_ptr := p; tlv_space := tlvs_size tlvs |} =
    Some (tlvs.*2, {| tlv_ptr := p + length (tlvs_bytes tlvs); tlv_space := 0 |}).
Proof.
  revert p. induction tlvs as [|[type v] tlvs IH]; intros p Hm Hty Hs; cbn [fmap list_fmap read_tlvs fst snd].
  - cbn. by rewrite Nat.add_0_r.
  - unfold tlvs_size, blen in Hs |- *.
    change (tlvs_bytes ((type, v) :: tlvs)) with (tlv_bytes type v ++ tlvs_bytes tlvs) in *.
    rewrite length_app, Nat2Z.inj_add, length_tlv_bytes in *.
    apply has_app in Hm as [Hm Hr]. apply Forall_cons in Hty as [Ht Hty].
    pose proof (TLV_SPACE_bounds (blen v)) as [Hb Hmod]. pose proof (Z.div_mod (TLV_SPACE (blen v)) 4).
    assert (Hv : TLV_LENGTH (blen v) <= 65532) by lia.
    assert (H4 : 4 <= TLV_LENGTH (blen v)) by (unfold TLV_LENGTH, sizeof_tlv_desc, blen; lia).
    destruct (tlv_parts E G m p type v Hm Ht Hv) as ((n & Hn & En) & _ & Hd).
    unfold TLV_LIST_CHECK. cbn [tlv_ptr tlv_space].
    assert (Hu : u16 (TLV_SPACE (blen v) + Z.of_nat (length (tlvs_bytes tlvs))) =
      TLV_SPACE (blen v) + Z.of_nat (length (tlvs_bytes tlvs))) by (apply Z.mod_small; lia).
    rewrite Hu, (TLV_CHECK_at E G m p type v Hm Ht Hv) by lia.
    rewrite (proj2 (Z.leb_le _ _)), Z.eqb_refl by lia. cbn [mbind option_bind andb].
    unfold TLV_GET_LEN. rewrite Hn. cbn [mbind option_bind]. rewrite En.
    rewrite (TLV_LIST_STEP_at E G m p type v Hm Ht Hv) by lia. cbn [mbind option_bind].
    replace (TLV_SPACE (blen v) + Z.of_nat (length (tlvs_bytes tlvs)) - TLV_SPACE (blen v))
      with (tlvs_size tlvs) by (unfold tlvs_size, blen; lia).
    rewrite IH; [|done|done|unfold tlvs_size, blen; lia]. cbn [mbind option_bind].
    unfold TLV_LIST_DATA. cbn [tlv_ptr].
    replace (Z.to_nat (TLV_LENGTH (blen v) - TLV_LENGTH 0)) with (length v)
      by (unfold TLV_LENGTH, blen; lia).
    rewrite Hd. do 3 f_equal. lia.
Qed.
End messages.

(** C12: a message of TLVs.  Values written one behind the other with TLV_SET, and nothing else
    in the buffer, are read back with TLV_LIST_INIT, CHECK, DATA, GET_LEN and STEP under
    their types, in order; the list is then empty.  On machines of either byte order, for
    messages of less than 65536 bytes. *)
Theorem tlv_roundtrip (E : Endian) (G : Gcc) (HG : GccLaws G) (tlvs : list (Z * bytes)) m p :
  (p + length (tlvs_bytes tlvs) <= length m)%nat -> tlvs_size tlvs < 65536 ->
  Forall (fun t => 0 <= t < 65536) tlvs.*1 ->
  exists m' l', write_tlvs m p tlvs = Some (m', (p + length (tlvs_bytes tlvs))%nat) /\
    length m' = length m /\ take p m' = take p m /\
    drop (p + length (tlvs_bytes tlvs)) m' = drop (p + length (tlvs_bytes tlvs)) m /\
    read_tlvs m' tlvs.*1 (TLV_LIST_INIT p (tlvs_size tlvs)) = Some (tlvs.*2, l') /\
    TLV_LIST_EMPTY l' = true.
Proof.
  intros Hp Hs Ht. eexists _, _. split; [by apply (write_tlvs_ok E G)|].
  split; [by apply length_write_at|]. split; [|split; [|split]].
  - unfold write_at. rewrite take_app_le by (rewrite length_take; lia). rewrite take_take.
    f_equal. lia.
  - unfold write_at. rewrite app_assoc, drop_app_length'; [done|].
    rewrite length_app, length_take. lia.
  - apply (read_tlvs_ok E G); [by apply has_write | | done].
    eapply Forall_impl; [exact Ht|]. intros t Hr. by apply Z.mod_small.
  - done.
Qed.

Lemma tlv_roundtrip_witness :
  let G := {| gcc_bswap16 := None; gcc_bswap32 := None; gcc_bswap64 := None |} in
  exists m' l', @write_tlvs false G (replicate 24 7) 2 [(3, [1; 2; 3; 4; 5]); (9, [])] = Some (m', 18%nat) /\
    length m' = 24%nat /\ take 2 m' = [7; 7] /\ drop 18 m' = replicate 6 7 /\
    @read_tlvs false G m' [3; 9] (TLV_LIST_INIT 2 16) = Some ([[1; 2; 3; 4; 5]; []], l') /\
    TLV_LIST_EMPTY l' = true.
Proof.
  cbv zeta. set (G := {| gcc_bswap16 := None; gcc_bswap32 := None; gcc_bswap64 := None |}).
  assert (HG : GccLaws G) by (split; by intros g x [=]).
  apply (tlv_roundtrip false G HG [(3, [1; 2; 3; 4; 5]); (9, [])] (replicate 24 7) 2).
  - vm_compute. lia.
  - vm_compute. done.
  - cbn. repeat (apply Forall_cons_2; [lia|]). apply Forall_nil_2.
Defined.

(** ** Single operations *)

Section single.
Context (E : Endian) (G : Gcc) {HG : GccLaws G}.

(** Without a value the descriptor is written, and the space for the value is left alone. *)
Lemma TLV_SET_no_value m p type n (data : option bytes) :
  (p + 4 <= length m)%nat -> data = None \/ n = 0 ->
  TLV_SET m p type data n =
    Some (write_at p (be_bytes 2 (TLV_LENGTH n) ++ be_bytes 2 type) m, TLV_SPACE n).
Proof.
  intros Hp Hd. pose proof (TLV_SET_descriptor E G m p type (TLV_LENGTH n) Hp) as H.
  unfold TLV_SET. cbn zeta. destruct (store W16 m (p + 2) (htons type)) as [m1|]; [|done].
  cbn [mbind option_bind] in H |- *. rewrite H. cbn [mbind option_bind].
  destruct data as [d|]; [|done]. destruct Hd as [? | ->]; done.
Qed.

(** The header of a message in three stores. *)
Lemma TCM_SET_header m p cmd flags n :
  (p + 16 <= length m)%nat ->
  (m ← store W32 m p (htonl n); m ← store W16 m (p + 4) (htons cmd); store W16 m (p + 6) (htons flags)) =
  Some (write_at p (be_bytes 4 n ++ be_bytes 2 cmd ++ be_bytes 2 flags) m).
Proof.
  intros Hp. rewrite store_in by (cbn; lia). cbn [mbind option_bind].
  rewrite store_in by (rewrite length_write_at; rewrite ?length_native; cbn; lia). cbn [mbind option_bind].
  rewrite (native_htonl E G), !(native_htons E G).
  rewrite <-(length_be_bytes 4 n) at 1. rewrite write_at_app by (rewrite !length_be_bytes; lia).
  rewrite store_in by (rewrite length_write_at; rewrite ?length_app, ?length_be_bytes; cbn; lia).
  rewrite (native_htons E G). f_equal.
  replace (p + 6)%nat with (p + length (be_bytes 4 n ++ be_bytes 2 cmd))%nat
    by (rewrite length_app, !length_be_bytes; lia).
  rewrite write_at_app by (rewrite length_app, !length_be_bytes; lia). by rewrite <-app_assoc.
Qed.

(** A value and padding behind a header that is there. *)
Lemma memcpy_memset m p v pad :
  (p + length v + pad <= length m)%nat ->
  (m ← memcpy m p v (length v); memset m (p + length v) 0 pad) =
  Some (write_at p (v ++ replicate pad 0) m).
Proof.
  intros Hp. rewrite memcpy_in by lia. cbn [mbind option_bind]. rewrite firstn_all.
  rewrite memset_in by (rewrite length_write_at; lia). f_equal.
  apply write_at_app. rewrite length_replicate. lia.
Qed.

Lemma TCM_SPACE_bounds n : TCM_LENGTH n <= TCM_SPACE n < TCM_LENGTH n + 4 /\ TCM_SPACE n mod 4 = 0.
Proof. apply TLV_ALIGN_bounds. Qed.

Lemma TCM_SET_value m p cmd flags v :
  (p + Z.to_nat (TCM_SPACE (blen v)) <= length m)%nat ->
  TCM_SET m p cmd flags (Some v) (blen v) =
    Some (write_at (p + 16) (v ++ replicate (Z.to_nat (TCM_SPACE (blen v) - TCM_LENGTH (blen v))) 0)
           (write_at p (be_bytes 4 (TCM_LENGTH (blen v)) ++ be_bytes 2 cmd ++ be_bytes 2 flags) m),
          TCM_SPACE (blen v)).
Proof.
  intros Hp. pose proof (TCM_SPACE_bounds (blen v)) as [Hb _].
  assert (Hl : TCM_LENGTH (blen v) = 16 + Z.of_nat (length v)) by done.
  assert (Hp16 : (p + 16 <= length m)%nat) by lia.
  pose proof (TCM_SET_header m p cmd flags (TCM_LENGTH (blen v)) Hp16) as Hh.
  unfold TCM_SET. cbn zeta. destruct (store W32 m p _) as [m1|]; [|done]. cbn [mbind option_bind] in Hh |- *.
  destruct (store W16 m1 _ _) as [m2|]; [|done]. cbn [mbind option_bind] in Hh |- *.
  rewrite Hh. cbn [mbind option_bind].
  set (hd := be_bytes 4 _ ++ _). assert (Hhd : length hd = 8%nat)
    by (unfold hd; by rewrite !length_app, !length_be_bytes).
  assert (Hm : length (write_at p hd m) = length m) by (apply length_write_at; lia).
  assert (Hn : Z.to_nat (blen v) = length v) by apply Nat2Z.id. rewrite Hn.
  change (TCM_DATA p) with (p + 16)%nat. destruct (Z.eqb_spec (blen v) 0) as [Hz|Hz]; cbn [negb].
  - assert (v = []) as -> by (destruct v; [done | unfold blen in Hz; cbn in Hz; lia]).
    change (replicate _ 0) with (@nil Z). cbn [mbind option_bind app]. do 2 f_equal.
    unfold write_at at 2. cbn [length app]. by rewrite Nat.add_0_r, take_drop.
  - by rewrite memcpy_memset by lia.
Qed.
End single.

(** TLV_SET and TCM_SET.  With room for the descriptor, the value and the padding, TLV_SET
    writes exactly these at its address, length and type in network byte order, and returns
    their size, a multiple of 4; without a value it writes the descriptor only.  TCM_SET
    writes length, command and flags, leaves the 8 reserved bytes, and then value and padding.
    The length in a descriptor is the low 16 bits of the size. *)
Theorem TLV_SET_spec (E : Endian) (G : Gcc) (HG : GccLaws G) m p :
  (forall type v, (p + Z.to_nat (TLV_SPACE (blen v)) <= length m)%nat ->
    TLV_SET m p type (Some v) (blen v) = Some (write_at p (tlv_bytes type v) m, TLV_SPACE (blen v)) /\
    Z.of_nat (length (tlv_bytes type v)) = TLV_SPACE (blen v) /\ TLV_SPACE (blen v) mod 4 = 0) /\
  (forall type n, (p + 4 <= length m)%nat ->
    TLV_SET m p type None n =
      Some (write_at p (be_bytes 2 (TLV_LENGTH n) ++ be_bytes 2 type) m, TLV_SPACE n)) /\
  (forall cmd flags v, (p + Z.to_nat (TCM_SPACE (blen v)) <= length m)%nat ->
    TCM_SET m p cmd flags (Some v) (blen v) =
      Some (write_at (p + 16) (v ++ replicate (Z.to_nat (TCM_SPACE (blen v) - TCM_LENGTH (blen v))) 0)
             (write_at p (be_bytes 4 (TCM_LENGTH (blen v)) ++ be_bytes 2 cmd ++ be_bytes 2 flags) m),
            TCM_SPACE (blen v))).
Proof.
  split; [|split].
  - intros type v Hp. pose proof (length_tlv_bytes type v) as Hl.
    split; [apply (TLV_SET_value E G); lia|]. split; [done|]. apply TLV_SPACE_bounds.
  - intros type n Hp. apply (TLV_SET_no_value E G); auto.
  - intros cmd flags v. apply (TCM_SET_value E G).
Qed.

Lemma TLV_SET_spec_witness :
  let G := {| gcc_bswap16 := None; gcc_bswap32 := None; gcc_bswap64 := None |} in
  @TLV_SET false G (replicate 14 7) 1 0x1234 (Some [1; 2; 3; 4; 5]) 5 =
    Some ([7; 0; 9; 0x12; 0x34; 1; 2; 3; 4; 5; 0; 0; 0; 7], 12).
Proof.
  cbv zeta. set (G := {| gcc_bswap16 := None; gcc_bswap32 := None; gcc_bswap64 := None |}).
  assert (HG : GccLaws G) by (split; by intros g x [=]).
  destruct (TLV_SET_spec false G HG (replicate 14 7) 1) as [H _].
  exact (proj1 (H 0x1234 [1; 2; 3; 4; 5] ltac:(vm_compute; lia))).
Defined.

(** ** Messages from elsewhere *)

(** A reader that goes through the list as long as TLVs are accepted and their length is at
    least that of a descriptor; it counts them. *)
Fixpoint scan_tlvs `{Endian} `{Gcc} (fuel : nat) (m : bytes) (l : tlv_list_desc) : option nat :=
  if TLV_LIST_EMPTY l then Some 0%nat
  else match fuel with
  | O => None
  | S fuel =>
      ok ← TLV_OK m (tlv_ptr l) (u16 (tlv_space l));
      n ← (if ok : bool then TLV_GET_LEN m (tlv_ptr l) else Some 0);
      if TLV_LENGTH 0 <=? n then l ← TLV_LIST_STEP m l; k ← scan_tlvs fuel m l; Some (S k) else Some 0%nat
  end.

Section scan.
Context (E : Endian) (G : Gcc) {HG : GccLaws G}.

Lemma ntohs_range x : 0 <= ntohs x < 65536.
Proof.
  assert (Hn : ntohs x = if big_endian then cast W16 x else constant_swab W16 x).
  { etrans; [exact (hto_ok true W16 x)|]. by destruct big_endian. }
  rewrite Hn. destruct big_endian; [apply (cast_range W16) | apply (constant_swab_range W16)].
Qed.

(** How a step moves, by the length in the descriptor. *)
Lemma TLV_LIST_STEP_cases m l x :
  tlv_len m (tlv_ptr l) = Some x -> 0 <= tlv_space l < 2 ^ 32 ->
  TLV_LIST_STEP m l = Some
    (if (ntohs x =? 0) || (65532 <? ntohs x) then l
     else {| tlv_ptr := tlv_ptr l + Z.to_nat (TLV_ALIGN (ntohs x));
             tlv_space := if TLV_ALIGN (ntohs x) <=? tlv_space l then tlv_space l - TLV_ALIGN (ntohs x)
                          else 2 ^ 32 + tlv_space l - TLV_ALIGN (ntohs x) |}).
Proof.
  intros Hx Hs. unfold TLV_LIST_STEP. rewrite Hx. cbn [mbind option_bind]. cbv zeta.
  pose proof (ntohs_range x) as Hr. pose proof (TLV_ALIGN_bounds (ntohs x)) as [Hb Hm].
  pose proof (Z.div_mod (TLV_ALIGN (ntohs x)) 4 ltac:(lia)) as Hd.
  destruct (Z.eqb_spec (ntohs x) 0) as [Hz|Hz].
  { rewrite Hz. change (u16 (TLV_ALIGN 0)) with 0. rewrite Nat.add_0_r, Z.sub_0_r. unfold u32.
    rewrite Z.mod_small by done. by destruct l. }
  destruct (Z.ltb_spec 65532 (ntohs x)) as [Hlt|Hle]; cbn [orb].
  { assert (TLV_ALIGN (ntohs x) = 65536) as -> by lia. change (u16 65536) with 0.
    rewrite Nat.add_0_r, Z.sub_0_r. unfold u32. rewrite Z.mod_small by done. by destruct l. }
  assert (Hu : u16 (TLV_ALIGN (ntohs x)) = TLV_ALIGN (ntohs x)) by (apply Z.mod_small; lia).
  rewrite Hu. do 2 f_equal. unfold u32. destruct (Z.leb_spec (TLV_ALIGN (ntohs x)) (tlv_space l)).
  - apply Z.mod_small. lia.
  - rewrite <-(Z.mod_add _ 1) by lia. rewrite Z.mod_small by lia. lia.
Qed.

Lemma load_in_bounds m p w : (p + size_of w <= length m)%nat -> is_Some (load w m p).
Proof. intros Hp. rewrite (load_in E) by done. by eexists. Qed.

Lemma scan_tlvs_ok fuel m l :
  (tlv_ptr l + Z.to_nat (tlv_space l) <= length m)%nat -> 0 <= tlv_space l < 65536 ->
  tlv_space l mod 4 = 0 -> (Z.to_nat (tlv_space l / 4) <= fuel)%nat ->
  exists k, scan_tlvs fuel m l = Some k /\ 4 * Z.of_nat k <= tlv_space l.
Proof.
  revert l. induction fuel as [|fuel IH]; intros l Hp Hs Hm Hf;
    pose proof (Z.div_mod (tlv_space l) 4 ltac:(lia)) as Hd; cbn [scan_tlvs]; unfold TLV_LIST_EMPTY;
    destruct (Z.eqb_spec (tlv_space l) 0) as [Hz|Hz];
    [exists 0%nat; split; [done | lia] | lia | exists 0%nat; split; [done | lia] |].
  destruct (load_in_bounds m (tlv_ptr l) W16) as [x Hx]; [cbn; lia|].
  assert (Hu : u16 (tlv_space l) = tlv_space l) by (apply Z.mod_small; lia).
  unfold TLV_OK, TLV_GET_LEN, tlv_len. change (TLV_SPACE 0) with 4. change (TLV_LENGTH 0) with 4.
  rewrite Hu, (proj2 (Z.leb_le _ _)), Hx by lia. cbn [mbind option_bind].
  destruct (Z.leb_spec (ntohs x) (tlv_space l)) as [Hn|Hn]; cbn [mbind option_bind];
    [|exists 0%nat; split; [done | lia]].
  destruct (Z.leb_spec 4 (ntohs x)) as [H4|H4]; [|exists 0%nat; split; [done | lia]].
  rewrite (TLV_LIST_STEP_cases m l x Hx) by lia.
  pose proof (TLV_ALIGN_bounds (ntohs x)) as [Hb Ham]. pose proof (Z.div_mod (TLV_ALIGN (ntohs x)) 4 ltac:(lia)) as Had.
  destruct (Z.eqb_spec (ntohs x) 0) as [|_]; [lia|]. destruct (Z.ltb_spec 65532 (ntohs x)) as [|_]; [lia|].
  cbn [orb mbind option_bind]. rewrite (proj2 (Z.leb_le _ _)) by lia.
  set (l' := {| tlv_ptr := _; tlv_space := _ |}).
  destruct (IH l') as (k & Hk & Hle); cbn [l' tlv_ptr tlv_space].
  - lia.
  - lia.
  - rewrite Zminus_mod, Hm, Ham. done.
  - apply Nat2Z.inj_le. rewrite Z2Nat.id by (apply Z.div_pos; lia).
    assert ((tlv_space l - TLV_ALIGN (ntohs x)) / 4 < tlv_space l / 4); [|lia].
    apply Z.div_lt_upper_bound; lia.
  - rewrite Hk. cbn. exists (S k). split; [done|]. cbn [l' tlv_space] in Hle. lia.
Qed.
End scan.

(** What TLV_LIST_STEP relies on.  TLV_OK accepts a TLV of any length up to the space; but a
    step from one of length 0, or of more than 65532, does not move, and one whose padding ends
    behind the space takes the space around to almost 2^32, so that the list is not empty and
    the next TLV is outside of it. *)
Lemma TLV_LIST_STEP_unchecked (E : Endian) (G : Gcc) (HG : GccLaws G) m l x :
  tlv_len m (tlv_ptr l) = Some x -> 4 <= tlv_space l < 65536 -> ntohs x <= tlv_space l ->
  TLV_OK m (tlv_ptr l) (u16 (tlv_space l)) = Some true /\
  (ntohs x = 0 \/ 65532 < ntohs x -> TLV_LIST_STEP m l = Some l) /\
  (ntohs x <= 65532 -> tlv_space l < TLV_ALIGN (ntohs x) ->
    exists l', TLV_LIST_STEP m l = Some l' /\ TLV_LIST_EMPTY l' = false /\
      2 ^ 32 - 4 < tlv_space l' /\ (tlv_ptr l + Z.to_nat (tlv_space l) < tlv_ptr l')%nat).
Proof.
  intros Hx Hs Hn. pose proof (ntohs_range E G x) as Hr.
  assert (Hu : u16 (tlv_space l) = tlv_space l) by (apply Z.mod_small; lia).
  pose proof (TLV_LIST_STEP_cases E G m l x Hx) as Hstep. split; [|split].
  - unfold TLV_OK. change (TLV_SPACE 0) with 4. rewrite Hu, (proj2 (Z.leb_le 4 _)), Hx by lia.
    cbn. f_equal. by apply Z.leb_le.
  - intros Hc. rewrite Hstep by lia.
    destruct (Z.eqb_spec (ntohs x) 0), (Z.ltb_spec 65532 (ntohs x)); try done. lia.
  - intros H1 H2. pose proof (TLV_ALIGN_bounds (ntohs x)) as [Hb _]. rewrite Hstep by lia.
    destruct (Z.eqb_spec (ntohs x) 0) as [Hz|_]; [rewrite Hz in H2; change (TLV_ALIGN 0) with 0 in H2; lia|].
    destruct (Z.ltb_spec 65532 (ntohs x)) as [|_]; [lia|]. cbn [orb].
    destruct (Z.leb_spec (TLV_ALIGN (ntohs x)) (tlv_space l)) as [|_]; [lia|].
    eexists. split; [done|]. unfold TLV_LIST_EMPTY. cbn [tlv_space tlv_ptr].
    split; [apply Z.eqb_neq; lia|]. split; lia.
Qed.

(** C24: TLVs from elsewhere.  Whatever the bytes are: in a buffer whose space is a multiple of
    4 and fits 16 bits, a reader that accepts only what TLV_OK accepts, with a length of at
    least 4, comes to an end after at most a TLV per 4 bytes and never reads outside.  The reader
    has to ask for that length, and for a space that is a multiple of 4: TLV_OK accepts a TLV of
    any length up to the space, but TLV_LIST_STEP from one of length 0, or of more than 65532,
    does not move, and from one whose padding ends behind the space it takes the space around to
    almost 2^32, so that the list is not empty and the next TLV is outside of it. *)
Theorem tlv_list_walk (E : Endian) (G : Gcc) (HG : GccLaws G) m :
  (forall p space,
     (p + Z.to_nat space <= length m)%nat -> 0 <= space < 65536 -> space mod 4 = 0 ->
     exists k, scan_tlvs (Z.to_nat (space / 4)) m (TLV_LIST_INIT p space) = Some k /\ 4 * Z.of_nat k <= space) /\
  (forall l x,
     tlv_len m (tlv_ptr l) = Some x -> 4 <= tlv_space l < 65536 -> ntohs x <= tlv_space l ->
     TLV_OK m (tlv_ptr l) (u16 (tlv_space l)) = Some true /\
     (ntohs x = 0 \/ 65532 < ntohs x -> TLV_LIST_STEP m l = Some l) /\
     (ntohs x <= 65532 -> tlv_space l < TLV_ALIGN (ntohs x) ->
       exists l', TLV_LIST_STEP m l = Some l' /\ TLV_LIST_EMPTY l' = false /\
         2 ^ 32 - 4 < tlv_space l' /\ (tlv_ptr l + Z.to_nat (tlv_space l) < tlv_ptr l')%nat)).
Proof.
  split; [intros p space Hp Hs Hm; by apply (scan_tlvs_ok E G) | intros l x; by apply (TLV_LIST_STEP_unchecked E G HG)].
Qed.

(** Two TLVs; one of length 5 in a space of 5, and one of length 0. *)
Lemma tlv_list_walk_witness :
  let G := {| gcc_bswap16 := None; gcc_bswap32 := None; gcc_bswap64 := None |} in
  (exists k, @scan_tlvs false G 3 [0; 8; 0; 1; 5; 6; 7; 8; 0; 3; 0; 1] (TLV_LIST_INIT 0 12) = Some k /\
    4 * Z.of_nat k <= 12) /\
  (exists l', @TLV_LIST_STEP false G [0; 5; 0; 1; 9] (TLV_LIST_INIT 0 5) = Some l' /\
     TLV_LIST_EMPTY l' = false /\ 2 ^ 32 - 4 < tlv_space l' /\ (5 < tlv_ptr l')%nat) /\
  @TLV_LIST_STEP false G [0; 0; 0; 1] (TLV_LIST_INIT 0 4) = Some (TLV_LIST_INIT 0 4).
Proof.
  cbv zeta. set (G := {| gcc_bswap16 := None; gcc_bswap32 := None; gcc_bswap64 := None |}).
  assert (HG : GccLaws G) by (split; by intros g x [=]). split; [|split].
  - apply (tlv_list_walk false G HG [0; 8; 0; 1; 5; 6; 7; 8; 0; 3; 0; 1]) with (p := 0%nat) (space := 12);
      [cbn; lia | lia | done].
  - destruct (proj2 (tlv_list_walk false G HG [0; 5; 0; 1; 9]) (TLV_LIST_INIT 0 5) 0x0500)
      as (_ & _ & H); [done | cbn; lia | vm_compute; done |].
    apply H; vm_compute; done.
  - destruct (proj2 (tlv_list_walk false G HG [0; 0; 0; 1]) (TLV_LIST_INIT 0 4) 0)
      as (_ & H & _); [done | cbn; lia | vm_compute; done |].
    apply H. left. done.
Defined.
