(* ===== verification/Bsearch.v ===== *)
(** * Binary search

    bsearch of src/include/bits/stdlib-bsearch.h.  The comparison function is a parameter;
    the calls it gets are part of the result. *)

From S2P Require Import Prelude CLib.
Open Scope Z_scope.

Section bsearch.
Context (compar : Z -> Z -> Z).      (* of the key's and the element's address *)
Context (key base size : Z).

(** while (l < u): the result, NULL is [None], and the addresses compared with. *)
Fixpoint bsearch_loop (fuel : nat) (l u : Z) : option (option Z * list Z) :=
  if l <? u then
    match fuel with
    | O => None
    | S fuel =>
        let idx := u64 (l + u) / 2 in
        let p := base + u64 (idx * size) in
        let comparison := compar key p in
        if comparison <? 0 then '(r, ps) ← bsearch_loop fuel l idx; Some (r, p :: ps)
        else if 0 <? comparison then '(r, ps) ← bsearch_loop fuel (u64 (idx + 1)) u; Some (r, p :: ps)
        else Some (Some p, [p])
    end
  else Some (None, []).

(** Half of the elements are left after each round. *)
Definition bsearch_fuel (nmemb : Z) : nat := Z.to_nat (Z.log2 nmemb + 1).

Definition bsearch (nmemb : Z) : option (option Z * list Z) := bsearch_loop (bsearch_fuel nmemb) 0 nmemb.

(** ** What the search does *)

Definition elem (i : Z) : Z := base + i * size.
(** The comparison with element [i]. *)
Definition cmp (i : Z) : Z := compar key (elem i).

(** The array is sorted for the comparison: elements that are less than the key, that is with
    a positive comparison, come first, and then those that are equal. *)
Definition sorted_for (nmemb : Z) : Prop := forall i j, 0 <= i < j -> j < nmemb ->
  (0 < cmp j -> 0 < cmp i) /\ (cmp i < 0 -> cmp j < 0).

Section array.
Context (nmemb : Z) (Hn : 0 <= nmemb <= 2 ^ 63) (Hs : 0 <= size) (Hb : nmemb * size < 2 ^ 64).

Lemma middle l u : 0 <= l < u -> u <= nmemb ->
  let idx := u64 (l + u) / 2 in
  (l <= idx < u) /\ u64 (idx + 1) = idx + 1 /\ base + u64 (idx * size) = elem idx /\
  2 * (idx - l) <= u - l /\ 2 * (u - (idx + 1)) < u - l.
Proof.
  intros Hl Hu. cbv zeta. unfold u64. rewrite (Z.mod_small (l + u)) by lia.
  pose proof (Z.div_mod (l + u) 2 ltac:(lia)) as Hd. pose proof (Z.mod_pos_bound (l + u) 2 ltac:(lia)).
  set (idx := (l + u) / 2) in *. assert (l <= idx < u) by lia.
  rewrite !Z.mod_small; [unfold elem; lia | nia | lia].
Qed.

(** A result of the loop from [l] to [u]. *)
Definition found (l u : Z) (r : option Z) (ps : list Z) : Prop :=
  Forall (fun p => exists i, (l <= i < u) /\ p = elem i) ps /\
  match r with
  | Some p => exists i, (l <= i < u) /\ p = elem i /\ cmp i = 0
  | None => sorted_for nmemb -> forall i, l <= i < u -> cmp i <> 0
  end.

Lemma found_cons l u l' u' r ps p i :
  l <= l' -> u' <= u -> l <= i < u -> p = elem i -> (r = None -> sorted_for nmemb ->
    forall j, l <= j < u -> ~ l' <= j < u' -> cmp j <> 0) ->
  found l' u' r ps -> found l u r (p :: ps).
Proof.
  intros Hl Hu Hi -> Ho [Hps Hr]. split.
  - constructor; [by exists i|]. eapply Forall_impl; [exact Hps|]. intros p (j & Hj & ->). exists j. split; [lia | done].
  - destruct r as [p|].
    + destruct Hr as (j & Hj & -> & Hc). exists j. split; [lia | done].
    + intros Hsort j Hj. destruct (decide (l' <= j < u')) as [Hin|Hout]; [by apply Hr|]. by apply Ho.
Qed.

Lemma bsearch_loop_ok fuel l u :
  0 <= l <= u -> u <= nmemb -> u - l < 2 ^ Z.of_nat fuel ->
  exists r ps, bsearch_loop fuel l u = Some (r, ps) /\ (length ps <= fuel)%nat /\ found l u r ps.
Proof.
  revert l u. induction fuel as [|fuel IH]; intros l u Hl Hu Hf; cbn [bsearch_loop];
    destruct (Z.ltb_spec l u) as [Hlt|Hge]; cbv zeta.
  - cbn in Hf. lia.
  - exists None, []. split; [done|]. split; [done|]. split; [constructor|]. intros _ i Hi. lia.
  - destruct (middle l u ltac:(lia) Hu) as (Hm & -> & -> & Hleft & Hright).
    set (idx := u64 (l + u) / 2) in *. fold (cmp idx).
    rewrite Nat2Z.inj_succ, Z.pow_succ_r in Hf by lia.
    destruct (Z.ltb_spec (cmp idx) 0) as [Hc|Hc]; [|destruct (Z.ltb_spec 0 (cmp idx)) as [Hc'|Hc']].
    + destruct (IH l idx) as (r & ps & -> & Hps & Hr); [lia | lia | lia |]. cbn.
      exists r, (elem idx :: ps). split; [done|]. split; [cbn; lia|].
      eapply (found_cons l u l idx); [lia | lia | exact Hm | done | | done].
      intros _ Hsort j Hj Hout. destruct (decide (j = idx)) as [->|Hne]; [lia|].
      pose proof (proj2 (Hsort idx j ltac:(lia) ltac:(lia)) Hc). lia.
    + destruct (IH (idx + 1) u) as (r & ps & -> & Hps & Hr); [lia | lia | lia |]. cbn.
      exists r, (elem idx :: ps). split; [done|]. split; [cbn; lia|].
      eapply (found_cons l u (idx + 1) u); [lia | lia | exact Hm | done | | done].
      intros _ Hsort j Hj Hout. destruct (decide (j = idx)) as [->|Hne]; [lia|].
      pose proof (proj1 (Hsort j idx ltac:(lia) ltac:(lia)) Hc'). lia.
    + exists (Some (elem idx)), [elem idx]. split; [done|]. split; [cbn; lia|]. split.
      * constructor; [by exists idx | constructor].
      * exists idx. split; [done|]. split; [done | lia].
  - exists None, []. split; [done|]. split; [cbn; lia|]. split; [constructor|]. intros _ i Hi. lia.
Qed.
End array.
End bsearch.

(** C13: bsearch.  Over an array of at most 2^63 elements, with any comparison function, the
    search ends after at most log2 (nmemb) + 1 comparisons, all with elements of the array;
    what it returns is the address of an element that compares equal; and if the array is
    sorted for the comparison, NULL means that no element compares equal. *)
Theorem bsearch_correct (compar : Z -> Z -> Z) (key base nmemb size : Z) :
  0 <= nmemb <= 2 ^ 63 -> 0 <= size -> nmemb * size < 2 ^ 64 ->
  exists r calls, bsearch compar key base size nmemb = Some (r, calls) /\
    Z.of_nat (length calls) <= Z.log2 nmemb + 1 /\
    Forall (fun p => exists i, (0 <= i < nmemb) /\ p = base + i * size) calls /\
    match r with
    | Some p => exists i, (0 <= i < nmemb) /\ p = base + i * size /\ compar key p = 0
    | None => sorted_for compar key base size nmemb ->
        forall i, 0 <= i < nmemb -> compar key (base + i * size) <> 0
    end.
Proof.
  intros Hn Hs Hb.
  assert (Hlog : 0 <= Z.log2 nmemb) by apply Z.log2_nonneg.
  destruct (bsearch_loop_ok compar key base size nmemb Hn Hs Hb (bsearch_fuel nmemb) 0 nmemb)
    as (r & ps & Hr & Hl & Hps & Hf); [lia | lia | |].
  - unfold bsearch_fuel. rewrite Z2Nat.id by lia. rewrite Z.add_1_r.
    destruct (decide (nmemb = 0)) as [->|Hz]; [done|]. pose proof (Z.log2_spec nmemb). lia.
  - exists r, ps. split; [exact Hr|]. unfold bsearch_fuel in Hl. split; [lia|]. split; [done|].
    destruct r as [p|]; [|done]. destruct Hf as (i & Hi & -> & Hc). by exists i.
Qed.

(** The squares of 0, ..., 6 as words of 8 bytes; a search for 16, and one for 17, which is not
    there. *)
Lemma bsearch_correct_witness :
  let compar key p := key - (p / 8) * (p / 8) in
  (exists calls, bsearch compar 16 0 8 7 = Some (Some 32, calls) /\ Z.of_nat (length calls) <= 3) /\
  (exists calls, bsearch compar 17 0 8 7 = Some (None, calls)) /\
  forall i, 0 <= i < 7 -> compar 17 (0 + i * 8) <> 0.
Proof.
  cbv zeta. set (compar := fun key p => key - (p / 8) * (p / 8)).
  destruct (bsearch_correct compar 16 0 7 8) as (r & calls & H & Hl & _ & _); [lia | lia | lia |].
  destruct (bsearch_correct compar 17 0 7 8) as (r' & calls' & H' & _ & _ & Hr'); [lia | lia | lia |].
  assert (r = Some 32) as -> by (vm_compute in H; congruence).
  assert (r' = None) as -> by (vm_compute in H'; congruence).
  split; [by exists calls|]. split; [by exists calls'|]. apply Hr'.
  intros i j Hi Hj. unfold cmp, elem, compar. rewrite !Z.add_0_l, !Z.div_mul by lia. nia.
Defined.

(** More elements than 2^63, of size 0 or in no real memory: the sum of the bounds wraps, and a
    search for what is behind all elements goes on for ever. *)
Lemma bsearch_wraps key fuel : bsearch_loop (fun _ _ => 1) key 0 0 fuel 1 (2 ^ 64 - 1) = None.
Proof.
  induction fuel as [|fuel IH]; [done|]. cbn [bsearch_loop]. cbv zeta.
  change (1 <? 2 ^ 64 - 1) with true. change (u64 (u64 (1 + (2 ^ 64 - 1)) / 2 + 1)) with 1.
  by rewrite IH.
Qed.
