(* ===== verification/Virtio.v ===== *)
(** * Virtio rings

    The layout of a ring in one piece of memory and the decision whether the other side is to
    be notified, from src/include/linux/virtio_ring.h, on a machine with 64-bit addresses. *)

From S2P Require Import Prelude CLib.
Open Scope Z_scope.

Definition sizeof_virtio16 : Z := 2.
(** struct vring_desc: addr, len, flags, next. *)
Definition sizeof_vring_desc : Z := 16.
(** struct vring_used_elem: id, len. *)
Definition sizeof_vring_used_elem : Z := 8.
(** ring[] of struct vring_avail and struct vring_used is behind flags and idx. *)
Definition offsetof_ring : Z := 4.

Record vring := { num : Z; desc : Z; avail : Z; used : Z }.

(** Addresses of ring[i]. *)
Definition avail_ring (vr : vring) (i : Z) : Z := avail vr + offsetof_ring + i * sizeof_virtio16.
Definition used_ring (vr : vring) (i : Z) : Z := used vr + offsetof_ring + i * sizeof_vring_used_elem.

(** The addresses of the event indexes. *)
Definition vring_used_event (vr : vring) : Z := avail_ring vr (num vr).
Definition vring_avail_event (vr : vring) : Z := used_ring vr (num vr).

Definition vring_init (num p align : Z) : vring :=
  let avail := p + u64 (num * sizeof_vring_desc) in
  let ring_num := avail + offsetof_ring + num * sizeof_virtio16 in
  {| num := num; desc := p; avail := avail;
     used := Z.land (u64 (ring_num + sizeof_virtio16 + align - 1)) (u64 (Z.lnot (u64 (align - 1)))) |}.

(** The additions are on 64 bits, but 3 + num on 32, and so is the result. *)
Definition vring_size (num align : Z) : Z :=
  u32 (Z.land (u64 (sizeof_vring_desc * num + sizeof_virtio16 * u32 (3 + num) + align - 1))
              (u64 (Z.lnot (u64 (align - 1))))
       + sizeof_virtio16 * 3 + sizeof_vring_used_elem * num).

Definition vring_need_event (event_idx new_idx old : Z) : bool :=
  u16 (new_idx - event_idx - 1) <? u16 (new_idx - old).

(** ** Rounding up to a power of 2 *)

Lemma mask_align k x : 0 <= k < 64 -> 0 <= x < 2 ^ 64 ->
  Z.land x (u64 (Z.lnot (u64 (2 ^ k - 1)))) = x / 2 ^ k * 2 ^ k.
Proof.
  intros Hk Hx. assert (Hp : 0 < 2 ^ k < 2 ^ 64) by (split; [lia | apply Z.pow_lt_mono_r; lia]).
  unfold u64. rewrite (Z.mod_small (2 ^ k - 1)) by lia.
  rewrite <-Z.land_ones by lia. rewrite Z.land_assoc, <-(Z.land_comm (Z.ones 64)), Z.land_assoc.
  rewrite (Z.land_comm (Z.ones 64) x), Z.land_ones, Z.mod_small by lia.
  replace (2 ^ k - 1) with (Z.ones k) by (rewrite Z.ones_equiv; lia).
  rewrite <-Z.ldiff_land, Z.ldiff_ones_r, Z.shiftl_mul_pow2, Z.shiftr_div_pow2 by lia. done.
Qed.

(** [x] rounded up to a multiple of [a]. *)
Definition align_up (a x : Z) : Z := (x + a - 1) / a * a.

Lemma align_up_bounds a x : 0 < a -> x <= align_up a x < x + a /\ align_up a x mod a = 0.
Proof.
  intros Ha. unfold align_up. pose proof (Z.div_mod (x + a - 1) a ltac:(lia)).
  pose proof (Z.mod_pos_bound (x + a - 1) a Ha). split; [lia|]. apply Z.mod_mul. lia.
Qed.

Lemma align_up_add a x p : 0 < a -> p mod a = 0 -> align_up a (p + x) = p + align_up a x.
Proof.
  intros Ha Hp. unfold align_up. pose proof (Z.div_mod p a ltac:(lia)) as Hd.
  replace (p + x + a - 1) with (x + a - 1 + p / a * a) by lia. rewrite Z.div_add by lia. lia.
Qed.

(** C39: the layout of a ring.  For a power of 2 as alignment, of at least the size of the
    fields, aligned memory and a ring whose size fits 32 bits: the descriptors, the ring of
    available heads with the used event, and the ring of used heads with the available event
    follow each other without overlap; the used ring is aligned, with less than [align] bytes
    of padding before it; and the whole ends exactly vring_size bytes behind its start. *)
Theorem vring_layout (n p k : Z) :
  let align := 2 ^ k in
  let vr := vring_init n p align in
  2 <= k < 32 -> 0 <= n < 2 ^ 27 -> 0 <= p < 2 ^ 63 -> p mod align = 0 ->
  18 * n + 6 + align + 6 + 8 * n < 2 ^ 32 ->
  desc vr = p /\ avail vr = desc vr + 16 * n /\
  vring_used_event vr + 2 <= used vr < vring_used_event vr + 2 + align /\
  used vr mod align = 0 /\ (avail vr) mod 2 = 0 /\ used vr mod 4 = 0 /\
  vring_avail_event vr + 2 = p + vring_size n align.
Proof.
  cbv zeta. intros Hk Hn Hp Hm Hsize.
  assert (Ha : 4 <= 2 ^ k < 2 ^ 32)
    by (split; [change 4 with (2 ^ 2); apply Z.pow_le_mono_r; lia | apply Z.pow_lt_mono_r; lia]).
  assert (Hdesc : u64 (n * 16) = n * 16) by (apply Z.mod_small; lia).
  set (x := n * 16 + 4 + n * 2 + 2).
  assert (Hused : used (vring_init n p (2 ^ k)) = p + align_up (2 ^ k) x).
  { cbn [used vring_init]. unfold offsetof_ring, sizeof_vring_desc, sizeof_virtio16. rewrite Hdesc.
    assert (Hu : u64 (p + n * 16 + 4 + n * 2 + 2 + 2 ^ k - 1) = p + x + 2 ^ k - 1)
      by (unfold u64; rewrite Z.mod_small; subst x; lia).
    rewrite Hu, mask_align by (subst x; lia). by apply align_up_add; [lia|]. }
  assert (Hsz : vring_size n (2 ^ k) = align_up (2 ^ k) x + 6 + 8 * n).
  { unfold vring_size, sizeof_vring_desc, sizeof_virtio16, sizeof_vring_used_elem.
    assert (Hu3 : u32 (3 + n) = 3 + n) by (apply Z.mod_small; lia). rewrite Hu3.
    assert (Hu : u64 (16 * n + 2 * (3 + n) + 2 ^ k - 1) = x + 2 ^ k - 1)
      by (unfold u64; rewrite Z.mod_small; subst x; lia).
    rewrite Hu, mask_align by (subst x; lia). fold (align_up (2 ^ k) x).
    pose proof (align_up_bounds (2 ^ k) x ltac:(lia)) as [Hb _]. unfold u32. rewrite Z.mod_small; subst x; lia. }
  pose proof (align_up_bounds (2 ^ k) x ltac:(lia)) as [Hb Hmod].
  unfold vring_used_event, vring_avail_event, avail_ring, used_ring. rewrite Hused, Hsz.
  cbn [desc avail num vring_init]. unfold offsetof_ring, sizeof_vring_desc, sizeof_virtio16, sizeof_vring_used_elem.
  rewrite Hdesc.
  assert (H4 : forall z, z mod 2 ^ k = 0 -> z mod 4 = 0).
  { intros z Hz. apply Z.mod_divide in Hz; [|lia]. apply Z.mod_divide; [lia|]. etrans; [|exact Hz].
    exists (2 ^ (k - 2)). change 4 with (2 ^ 2). rewrite <-Z.pow_add_r by lia. f_equal. lia. }
  assert (Hu : (p + align_up (2 ^ k) x) mod 2 ^ k = 0) by (rewrite Zplus_mod, Hm, Hmod; apply Z.mod_0_l; lia).
  split; [done|]. split; [lia|]. split; [subst x; lia|]. split; [done|].
  split; [|split; [by apply H4 | subst x; lia]].
  pose proof (H4 p Hm) as Hp4. pose proof (Z.div_mod p 4 ltac:(lia)). rewrite Z.mod_eq by lia.
  assert ((p + n * 16) / 2 = 2 * (p / 4) + 8 * n) as -> by (symmetry; apply Z.div_unique with 0; lia). lia.
Qed.

(** A ring of 4 entries at 4096, aligned to 4096. *)
Lemma vring_layout_witness :
  vring_init 4 4096 4096 = {| num := 4; desc := 4096; avail := 4160; used := 8192 |} /\
  vring_avail_event (vring_init 4 4096 (2 ^ 12)) + 2 = 4096 + vring_size 4 (2 ^ 12).
Proof.
  split; [vm_compute; reflexivity|].
  apply (vring_layout 4 4096 12); [lia | lia | lia | reflexivity | lia].
Defined.

(** ** Notification *)

Lemma need_event_spec event new old :
  0 <= new - old < 65536 ->
  vring_need_event (u16 event) (u16 new) (u16 old) = true <->
  exists i, (old <= i < new) /\ u16 i = u16 event.
Proof.
  intros Hd. unfold vring_need_event. rewrite Z.ltb_lt. unfold u16. change (2 ^ 16) with 65536.
  assert (E1 : (new mod 65536 - event mod 65536 - 1) mod 65536 = (new - 1 - event) mod 65536).
  { rewrite <-Zminus_mod_idemp_l. rewrite <-Zminus_mod. rewrite Zminus_mod_idemp_l. f_equal. lia. }
  assert (E2 : (new mod 65536 - old mod 65536) mod 65536 = new - old)
    by (rewrite <-Zminus_mod; apply Z.mod_small; lia).
  rewrite E1, E2. set (j := (new - 1 - event) mod 65536).
  pose proof (Z.mod_pos_bound (new - 1 - event) 65536 ltac:(lia)) as Hj. fold j in Hj. split.
  - intros Hlt. exists (new - 1 - j). split; [lia|]. unfold j.
    rewrite Zminus_mod_idemp_r. f_equal. lia.
  - intros (i & Hi & He). assert (j = new - 1 - i); [|lia]. unfold j.
    rewrite Zminus_mod, <-He, <-Zminus_mod. apply Z.mod_small. lia.
Qed.

(** C33: vring_need_event.  With indexes that run freely and are compared modulo 2^16: if the
    index went from [old] to [new_idx], by less than 2^16, the other side is notified exactly
    if it went past the event index it asked for; so of two consecutive moves one notifies if
    and only if the move in one notifies, and no notification is lost or made twice. *)
Theorem vring_need_event_spec (event old mid new : Z) :
  old <= mid <= new -> new - old < 65536 ->
  (vring_need_event (u16 event) (u16 new) (u16 old) = true <->
    exists i, (old <= i < new) /\ u16 i = u16 event) /\
  vring_need_event (u16 event) (u16 new) (u16 old) =
    xorb (vring_need_event (u16 event) (u16 mid) (u16 old)) (vring_need_event (u16 event) (u16 new) (u16 mid)).
Proof.
  intros Hm Hd. split; [apply need_event_spec; lia|].
  pose proof (need_event_spec event new old ltac:(lia)) as H1.
  pose proof (need_event_spec event mid old ltac:(lia)) as H2.
  pose proof (need_event_spec event new mid ltac:(lia)) as H3.
  assert (Hone : forall i j, old <= i < new -> old <= j < new -> u16 i = u16 j -> i = j).
  { intros i j Hi Hj E. unfold u16 in E. change (2 ^ 16) with 65536 in E.
    pose proof (Z.div_mod i 65536). pose proof (Z.div_mod j 65536). lia. }
  destruct (vring_need_event _ (u16 mid) _) eqn:E2, (vring_need_event _ (u16 new) (u16 mid)) eqn:E3; cbn.
  - destruct H2 as [H2 _], H3 as [H3 _]. destruct (H2 eq_refl) as (i & Hi & Ei), (H3 eq_refl) as (j & Hj & Ej).
    assert (i = j) by (apply Hone; [lia | lia | congruence]). lia.
  - apply H1. destruct (proj1 H2 eq_refl) as (i & Hi & Ei). exists i. split; [lia | done].
  - apply H1. destruct (proj1 H3 eq_refl) as (i & Hi & Ei). exists i. split; [lia | done].
  - destruct (vring_need_event _ (u16 new) (u16 old)) eqn:E1; [|done]. destruct (proj1 H1 eq_refl) as (i & Hi & Ei).
    destruct (decide (i < mid)).
    + discriminate (proj2 H2). exists i. split; [lia | done].
    + discriminate (proj2 H3). exists i. split; [lia | done].
Qed.

(** Across the end of the 16 bits: from 65534 to 65538, the event index being 1. *)
Lemma vring_need_event_spec_witness :
  vring_need_event 1 2 65534 = xorb (vring_need_event 1 0 65534) (vring_need_event 1 2 0) /\
  vring_need_event 1 2 65534 = true.
Proof.
  split; [|reflexivity].
  destruct (vring_need_event_spec 65537 65534 65536 65538 ltac:(lia) ltac:(lia)) as [_ H]. exact H.
Defined.
