(* ===== verification/Bcache.v ===== *)
(** * Keys and flags of bcache

    The bit fields of src/include/linux/bcache.h, the keys of its trees and how they follow
    each other in a node. *)

From S2P Require Import Prelude CLib Words.
Open Scope Z_scope.

(** ** BITMASK *)

(** ~(~0ULL << size) *)
Definition mask (size : Z) : Z := u64 (Z.lnot (u64 (Z.shiftl (2 ^ 64 - 1) size))).

(** The functions that BITMASK (name, type, field, offset, size) defines, on the field; [w] is
    its type. *)
Definition BITMASK_get (field offset size : Z) : Z := Z.land (Z.shiftr field offset) (mask size).
Definition BITMASK_set (w : width) (field offset size v : Z) : Z :=
  let field := cast w (Z.land field (u64 (Z.lnot (u64 (Z.shiftl (mask size) offset))))) in
  cast w (Z.lor field (u64 (Z.shiftl (Z.land v (mask size)) offset))).

(** ** struct bkey *)

Record bkey := { high : Z; low : Z; ptr : list Z }.

Definition set_high (k : bkey) (h : Z) : bkey := {| high := h; low := low k; ptr := ptr k |}.
Definition KEY_FIELD (offset size : Z) (k : bkey) : Z := BITMASK_get (high k) offset size.
Definition SET_KEY_FIELD (offset size : Z) (k : bkey) (v : Z) : bkey :=
  set_high k (BITMASK_set W64 (high k) offset size v).

Definition KEY_SIZE_BITS : Z := 16.
Definition KEY_PTRS : bkey -> Z := KEY_FIELD 60 3.
Definition SET_KEY_PTRS : bkey -> Z -> bkey := SET_KEY_FIELD 60 3.
Definition HEADER_SIZE : bkey -> Z := KEY_FIELD 58 2.
Definition SET_HEADER_SIZE : bkey -> Z -> bkey := SET_KEY_FIELD 58 2.
Definition KEY_CSUM : bkey -> Z := KEY_FIELD 56 2.
Definition SET_KEY_CSUM : bkey -> Z -> bkey := SET_KEY_FIELD 56 2.
Definition KEY_PINNED : bkey -> Z := KEY_FIELD 55 1.
Definition SET_KEY_PINNED : bkey -> Z -> bkey := SET_KEY_FIELD 55 1.
Definition KEY_DIRTY : bkey -> Z := KEY_FIELD 36 1.
Definition SET_KEY_DIRTY : bkey -> Z -> bkey := SET_KEY_FIELD 36 1.
Definition KEY_SIZE : bkey -> Z := KEY_FIELD 20 KEY_SIZE_BITS.
Definition SET_KEY_SIZE : bkey -> Z -> bkey := SET_KEY_FIELD 20 KEY_SIZE_BITS.
Definition KEY_INODE : bkey -> Z := KEY_FIELD 0 20.
Definition SET_KEY_INODE : bkey -> Z -> bkey := SET_KEY_FIELD 0 20.

Definition KEY_OFFSET (k : bkey) : Z := low k.
Definition SET_KEY_OFFSET (k : bkey) (v : Z) : bkey := {| high := high k; low := v; ptr := ptr k |}.

(** The macro's arguments are not masked. *)
Definition KEY (inode offset size : Z) : bkey :=
  {| high := Z.lor (Z.lor (Z.shiftl 1 63) (u64 (Z.shiftl (u64 size) 20))) inode;
     low := u64 offset; ptr := [] |}.
Definition ZERO_KEY : bkey := KEY 0 0 0.
Definition MAX_KEY_INODE : Z := Z.lnot (Z.shiftl (-1) 20).
Definition MAX_KEY_OFFSET : Z := Z.shiftr (2 ^ 64 - 1) 1.
Definition MAX_KEY : bkey := KEY MAX_KEY_INODE MAX_KEY_OFFSET 0.
Definition KEY_START (k : bkey) : Z := u64 (KEY_OFFSET k - KEY_SIZE k).
Definition START_KEY (k : bkey) : bkey := KEY (KEY_INODE k) (KEY_START k) 0.

(** k->ptr[i]; [None]: there is none. *)
Definition PTR_FIELD (offset size : Z) (k : bkey) (i : nat) : option Z :=
  p ← ptr k !! i; Some (BITMASK_get p offset size).
Definition SET_PTR_FIELD (offset size : Z) (k : bkey) (i : nat) (v : Z) : option bkey :=
  p ← ptr k !! i;
  Some {| high := high k; low := low k; ptr := <[i := BITMASK_set W64 p offset size v]> (ptr k) |}.

Definition PTR_DEV_BITS : Z := 12.
Definition PTR_DEV : bkey -> nat -> option Z := PTR_FIELD 51 PTR_DEV_BITS.
Definition SET_PTR_DEV : bkey -> nat -> Z -> option bkey := SET_PTR_FIELD 51 PTR_DEV_BITS.
Definition PTR_OFFSET : bkey -> nat -> option Z := PTR_FIELD 8 43.
Definition SET_PTR_OFFSET : bkey -> nat -> Z -> option bkey := SET_PTR_FIELD 8 43.
Definition PTR_GEN : bkey -> nat -> option Z := PTR_FIELD 0 8.
Definition SET_PTR_GEN : bkey -> nat -> Z -> option bkey := SET_PTR_FIELD 0 8.

Definition PTR_CHECK_DEV : Z := Z.shiftl 1 PTR_DEV_BITS - 1.
Definition MAKE_PTR (gen offset dev : Z) : Z :=
  Z.lor (Z.lor (u64 (Z.shiftl (u64 dev) 51)) (u64 (Z.shiftl (u64 offset) 8))) gen.

(** ** Keys in memory

    A node is an array of 64-bit words, a pointer to a key an index into it. *)

Definition bkey_u64s (k : bkey) : Z := 16 / 8 + KEY_PTRS k.
Definition bkey_bytes (k : bkey) : Z := bkey_u64s k * 8.

(** *k *)
Definition bkey_at (d : list Z) (k : nat) : option bkey :=
  h ← d !! k; l ← d !! S k;
  let key := {| high := h; low := l; ptr := [] |} in
  let ps := take (Z.to_nat (KEY_PTRS key)) (drop (k + 2) d) in
  if (length ps =? Z.to_nat (KEY_PTRS key))%nat then Some {| high := h; low := l; ptr := ps |} else None.

Definition bkey_next (d : list Z) (k : nat) : option nat :=
  key ← bkey_at d k; Some (k + Z.to_nat (bkey_u64s key))%nat.
Definition bkey_idx (k : nat) (nr_keys : Z) : nat := (k + Z.to_nat nr_keys)%nat.

(** Two runs of [n] words have none in common. *)
Definition disjoint_words (a b n : nat) : bool := (a + n <=? b)%nat || (b + n <=? a)%nat.

(** memcpy (dest, src, bkey_bytes (src)), undefined for places that overlap *)
Definition bkey_copy (d : list Z) (dest src : nat) : option (list Z) :=
  key ← bkey_at d src;
  let n := Z.to_nat (bkey_bytes key / 8) in
  if disjoint_words dest src n && (dest + n <=? length d)%nat
  then Some (write_at dest (slice src n d) d) else None.

Definition bkey_copy_key (dest src : bkey) : bkey :=
  let dest := SET_KEY_INODE dest (KEY_INODE src) in
  SET_KEY_OFFSET dest (KEY_OFFSET src).

(** ** Superblock and uuid entries *)

(** The members that functions use. *)
Record cache_sb := { version : Z; set_magic : Z; flags : Z }.

Definition BCACHE_SB_VERSION_BDEV : Z := 1.
Definition BCACHE_SB_VERSION_BDEV_WITH_OFFSET : Z := 4.
Definition SB_IS_BDEV (sb : cache_sb) : bool :=
  (version sb =? BCACHE_SB_VERSION_BDEV) || (version sb =? BCACHE_SB_VERSION_BDEV_WITH_OFFSET).

Definition SB_FIELD (offset size : Z) (sb : cache_sb) : Z := BITMASK_get (flags sb) offset size.
Definition SET_SB_FIELD (offset size : Z) (sb : cache_sb) (v : Z) : cache_sb :=
  {| version := version sb; set_magic := set_magic sb;
     flags := BITMASK_set W64 (flags sb) offset size v |}.
Definition CACHE_SYNC : cache_sb -> Z := SB_FIELD 0 1.
Definition SET_CACHE_SYNC : cache_sb -> Z -> cache_sb := SET_SB_FIELD 0 1.
Definition CACHE_DISCARD : cache_sb -> Z := SB_FIELD 1 1.
Definition SET_CACHE_DISCARD : cache_sb -> Z -> cache_sb := SET_SB_FIELD 1 1.
Definition CACHE_REPLACEMENT : cache_sb -> Z := SB_FIELD 2 3.
Definition SET_CACHE_REPLACEMENT : cache_sb -> Z -> cache_sb := SET_SB_FIELD 2 3.
Definition BDEV_CACHE_MODE : cache_sb -> Z := SB_FIELD 0 4.
Definition SET_BDEV_CACHE_MODE : cache_sb -> Z -> cache_sb := SET_SB_FIELD 0 4.
Definition BDEV_STATE : cache_sb -> Z := SB_FIELD 61 2.
Definition SET_BDEV_STATE : cache_sb -> Z -> cache_sb := SET_SB_FIELD 61 2.

Definition JSET_MAGIC : Z := 0x245235c1a3625032.
Definition PSET_MAGIC : Z := 0x6750e15f87337f91.
Definition BSET_MAGIC : Z := 0x90135c78b99e07f5.
Definition jset_magic (sb : cache_sb) : Z := Z.lxor (set_magic sb) JSET_MAGIC.
Definition pset_magic (sb : cache_sb) : Z := Z.lxor (set_magic sb) PSET_MAGIC.
Definition bset_magic (sb : cache_sb) : Z := Z.lxor (set_magic sb) BSET_MAGIC.

(** The flags of struct uuid_entry are 32 bits. *)
Definition UUID_FLASH_ONLY (flags : Z) : Z := BITMASK_get flags 0 1.
Definition SET_UUID_FLASH_ONLY (flags v : Z) : Z := BITMASK_set W32 flags 0 1 v.

(** ** Laws of bit fields *)

Definition bits (w : width) : Z := 8 * Z.of_nat (size_of w).

Lemma cast_land w x : cast w x = Z.land x (Z.ones (bits w)).
Proof. rewrite Z.land_ones by (destruct w; done). by destruct w. Qed.
Lemma u64_land x : u64 x = Z.land x (Z.ones 64).
Proof. by rewrite Z.land_ones. Qed.
Lemma bits_le w : 0 < bits w <= 64.
Proof. by destruct w. Qed.

(** Bits of numbers of ones. *)
Lemma ones_bit n i : 0 <= n -> 0 <= i -> Z.testbit (Z.ones n) i = (i <? n).
Proof.
  intros Hn Hi. destruct (Z.ltb_spec i n); [by apply Z.ones_spec_low | by apply Z.ones_spec_high].
Qed.

Ltac bit_specs := repeat first
  [ rewrite Z.land_spec | rewrite Z.lor_spec | rewrite Z.lnot_spec by lia
  | rewrite Z.shiftl_spec by lia | rewrite Z.shiftr_spec by lia
  | match goal with |- context [Z.testbit (Z.ones ?n) ?i] => rewrite (ones_bit n i) by lia end ].

Lemma mask_ones size : 0 <= size <= 64 -> mask size = Z.ones size.
Proof.
  intros Hs. unfold mask. rewrite !u64_land. change (2 ^ 64 - 1) with (Z.ones 64).
  apply Z.bits_inj'. intros i Hi. bit_specs. destruct (decide (size <= i)).
  - rewrite ones_bit by lia.
    destruct (Z.ltb_spec (i - size) 64), (Z.ltb_spec i 64), (Z.ltb_spec i size); try lia; done.
  - rewrite Z.testbit_neg_r by lia. destruct (Z.ltb_spec i 64), (Z.ltb_spec i size); try lia; done.
Qed.

Section field.
Context (w : width) (offset size : Z) (Ho : 0 <= offset) (Hs : 0 <= size) (Hw : offset + size <= bits w).

Lemma BITMASK_get_bit f i : 0 <= i ->
  Z.testbit (BITMASK_get f offset size) i = (i <? size) && Z.testbit f (i + offset).
Proof.
  intros Hi. pose proof (bits_le w). unfold BITMASK_get. rewrite mask_ones by lia. bit_specs.
  by rewrite andb_comm.
Qed.

Lemma BITMASK_set_bit f v i : 0 <= i -> 0 <= f < 2 ^ bits w ->
  Z.testbit (BITMASK_set w f offset size v) i =
  if (offset <=? i) && (i <? offset + size) then Z.testbit v (i - offset) else Z.testbit f i.
Proof.
  intros Hi Hf. pose proof (bits_le w). unfold BITMASK_set. cbv zeta.
  rewrite mask_ones by lia. rewrite !cast_land, !u64_land. bit_specs.
  assert (Hhigh : bits w <= i -> Z.testbit f i = false).
  { intros Hb. rewrite <-(Z.mod_small f (2 ^ bits w)) by done. apply Z.mod_pow2_bits_high. lia. }
  destruct (Z.leb_spec offset i) as [Hl|Hl]; cbn [andb].
  - bit_specs. destruct (Z.ltb_spec i (offset + size)), (Z.ltb_spec (i - offset) size); try lia;
      destruct (Z.ltb_spec i 64), (Z.ltb_spec i (bits w)); try lia; cbn;
      rewrite ?andb_true_r, ?andb_false_r, ?orb_false_r; cbn; first [done | by rewrite Hhigh by lia].
  - rewrite !(Z.testbit_neg_r _ (i - offset)) by lia. cbn. rewrite ?andb_true_r, ?andb_false_r, ?orb_false_r, ?orb_false_l.
    destruct (Z.ltb_spec i 64), (Z.ltb_spec i (bits w)); cbn;
      rewrite ?andb_true_r, ?andb_false_r, ?orb_false_r; first [lia | done | by rewrite Hhigh by lia].
Qed.

Lemma BITMASK_set_range f v : 0 <= BITMASK_set w f offset size v < 2 ^ bits w.
Proof. apply cast_range. Qed.

Lemma BITMASK_get_set f v : 0 <= f < 2 ^ bits w ->
  BITMASK_get (BITMASK_set w f offset size v) offset size = v mod 2 ^ size.
Proof.
  intros Hf. apply Z.bits_inj'. intros i Hi. rewrite BITMASK_get_bit, BITMASK_set_bit by lia.
  destruct (Z.ltb_spec i size).
  - rewrite Z.mod_pow2_bits_low by lia. cbn.
    destruct (Z.leb_spec offset (i + offset)), (Z.ltb_spec (i + offset) (offset + size)); try lia.
    cbn. f_equal. lia.
  - by rewrite Z.mod_pow2_bits_high by lia.
Qed.
End field.

(** The other fields stay. *)
Lemma BITMASK_get_set_other w o1 s1 o2 s2 f v :
  0 <= o1 -> 0 <= s1 -> o1 + s1 <= bits w -> 0 <= o2 -> 0 <= s2 -> o2 + s2 <= bits w ->
  o1 + s1 <= o2 \/ o2 + s2 <= o1 -> 0 <= f < 2 ^ bits w ->
  BITMASK_get (BITMASK_set w f o1 s1 v) o2 s2 = BITMASK_get f o2 s2.
Proof.
  intros ? ? ? ? ? ? Hd Hf. apply Z.bits_inj'. intros i Hi.
  rewrite !(BITMASK_get_bit w), BITMASK_set_bit by lia.
  destruct (Z.ltb_spec i s2); [|done]. cbn.
  destruct (Z.leb_spec o1 (i + o2)), (Z.ltb_spec (i + o2) (o1 + s1)); try lia; done.
Qed.

(** Storing what is there, and storing twice. *)
Lemma BITMASK_set_get w o s f :
  0 <= o -> 0 <= s -> o + s <= bits w -> 0 <= f < 2 ^ bits w ->
  BITMASK_set w f o s (BITMASK_get f o s) = f.
Proof.
  intros ? ? ? Hf. apply Z.bits_inj'. intros i Hi. rewrite BITMASK_set_bit by lia.
  destruct (Z.leb_spec o i), (Z.ltb_spec i (o + s)); cbn; try done.
  rewrite (BITMASK_get_bit w) by lia. destruct (Z.ltb_spec (i - o) s); [|lia]. cbn. f_equal. lia.
Qed.

Lemma BITMASK_set_set w o s f v v' :
  0 <= o -> 0 <= s -> o + s <= bits w -> 0 <= f < 2 ^ bits w ->
  BITMASK_set w (BITMASK_set w f o s v) o s v' = BITMASK_set w f o s v'.
Proof.
  intros ? ? ? Hf. apply Z.bits_inj'. intros i Hi.
  rewrite !BITMASK_set_bit by (lia || apply BITMASK_set_range).
  by destruct ((o <=? i) && (i <? o + s)).
Qed.

Ltac word_lia := change (bits W64) with 64 in *; unfold KEY_SIZE_BITS in *; first [done | lia | cbn; lia].

(** Fields of expressions. *)
Section get_of.
Context (o s : Z) (Ho : 0 <= o) (Hs : 0 <= s) (Hb : o + s <= 64).

Lemma BITMASK_get_lor x y : BITMASK_get (Z.lor x y) o s = Z.lor (BITMASK_get x o s) (BITMASK_get y o s).
Proof. unfold BITMASK_get. by rewrite Z.shiftr_lor, Z.land_lor_distr_l. Qed.

Lemma BITMASK_get_at x : 0 <= x < 2 ^ s -> BITMASK_get (Z.shiftl x o) o s = x.
Proof.
  intros Hx. unfold BITMASK_get. rewrite mask_ones, Z.shiftr_shiftl_l, Z.sub_diag, Z.shiftl_0_r by lia.
  rewrite Z.land_ones by lia. by apply Z.mod_small.
Qed.

Lemma BITMASK_get_apart x d n :
  0 <= d -> 0 <= n -> 0 <= x < 2 ^ n -> d + n <= o \/ o + s <= d -> BITMASK_get (Z.shiftl x d) o s = 0.
Proof.
  intros Hd Hn Hx Ha. apply Z.bits_inj'. intros i Hi. rewrite (BITMASK_get_bit W64), Z.bits_0 by word_lia.
  destruct (Z.ltb_spec i s); [|done]. cbn. destruct Ha.
  - rewrite Z.shiftl_spec by lia. rewrite <-(Z.mod_small x (2 ^ n)) by done.
    apply Z.mod_pow2_bits_high. lia.
  - apply Z.shiftl_spec_low. lia.
Qed.
End get_of.

(** A shifted value fits a word. *)
Lemma shiftl_range x d n : 0 <= d -> 0 <= x < 2 ^ n -> 0 <= n -> 0 <= Z.shiftl x d < 2 ^ (d + n).
Proof.
  intros Hd Hx Hn. rewrite Z.shiftl_mul_pow2, Z.pow_add_r by lia.
  pose proof (Z.pow_pos_nonneg 2 d). nia.
Qed.

(** ** Fields of keys *)

Inductive key_field := F_PTRS | F_HEADER_SIZE | F_CSUM | F_PINNED | F_DIRTY | F_SIZE | F_INODE.
#[export] Instance key_field_eq_dec : EqDecision key_field.
Proof. solve_decision. Defined.

Definition key_get (f : key_field) : bkey -> Z :=
  match f with
  | F_PTRS => KEY_PTRS | F_HEADER_SIZE => HEADER_SIZE | F_CSUM => KEY_CSUM | F_PINNED => KEY_PINNED
  | F_DIRTY => KEY_DIRTY | F_SIZE => KEY_SIZE | F_INODE => KEY_INODE
  end.
Definition key_set (f : key_field) : bkey -> Z -> bkey :=
  match f with
  | F_PTRS => SET_KEY_PTRS | F_HEADER_SIZE => SET_HEADER_SIZE | F_CSUM => SET_KEY_CSUM
  | F_PINNED => SET_KEY_PINNED | F_DIRTY => SET_KEY_DIRTY | F_SIZE => SET_KEY_SIZE
  | F_INODE => SET_KEY_INODE
  end.
(** How many bits a field has. *)
Definition key_bits (f : key_field) : Z :=
  match f with
  | F_PTRS => 3 | F_HEADER_SIZE => 2 | F_CSUM => 2 | F_PINNED => 1 | F_DIRTY => 1 | F_SIZE => 16
  | F_INODE => 20
  end.

Lemma SET_KEY_FIELD_same o s k :
  0 <= o -> 0 <= s -> o + s <= 64 -> 0 <= high k < 2 ^ 64 -> SET_KEY_FIELD o s k (KEY_FIELD o s k) = k.
Proof.
  intros Ho Hs Hb Hk. destruct k as [h l p]. unfold SET_KEY_FIELD, KEY_FIELD, set_high.
  cbn [high low ptr] in *. f_equal. by apply (BITMASK_set_get W64).
Qed.

(** C34: the fields of a bcache key.  Setting a field keeps its low bits, as many as the field
    has; the other fields, the offset and the pointers stay, so no two fields overlap; writing
    back what was read changes nothing; and copying a key copies inode and offset and keeps
    the other fields. *)
Theorem bkey_fields (k : bkey) : 0 <= high k < 2 ^ 64 ->
  (forall f v, key_get f (key_set f k v) = v mod 2 ^ key_bits f /\
    KEY_OFFSET (key_set f k v) = KEY_OFFSET k /\ ptr (key_set f k v) = ptr k /\
    (0 <= high (key_set f k v) < 2 ^ 64) /\ key_set f k (key_get f k) = k) /\
  (forall f g v, f <> g -> key_get g (key_set f k v) = key_get g k) /\
  (forall src g, 0 <= high src < 2 ^ 64 ->
    KEY_OFFSET (bkey_copy_key k src) = KEY_OFFSET src /\
    key_get g (bkey_copy_key k src) = key_get g (if decide (g = F_INODE) then src else k)).
Proof.
  intros Hk.
  assert (Hsame : forall f v, key_get f (key_set f k v) = v mod 2 ^ key_bits f).
  { intros f v. destruct f; apply (BITMASK_get_set W64); word_lia. }
  assert (Hother : forall f g v, f <> g -> key_get g (key_set f k v) = key_get g k).
  { intros f g v Hne. destruct f, g; try done;
      (apply (BITMASK_get_set_other W64); word_lia). }
  split; [|split; [exact Hother|]].
  - intros f v. split; [apply Hsame|].
    split; [by destruct f|]. split; [by destruct f|].
    split; [destruct f; apply (BITMASK_set_range W64)|].
    destruct f; apply SET_KEY_FIELD_same; word_lia.
  - intros src g Hsrc. split; [done|].
    assert (E : key_get g (bkey_copy_key k src) = key_get g (key_set F_INODE k (KEY_INODE src))) by by destruct g.
    rewrite E. case_decide as Hg; [|by apply Hother]. subst g. rewrite Hsame.
    assert (Hr : 0 <= KEY_INODE src < 2 ^ 20).
    { unfold KEY_INODE, KEY_FIELD, BITMASK_get. rewrite mask_ones, Z.land_ones by lia.
      apply Z.mod_pos_bound. lia. }
    by apply Z.mod_small.
Qed.

Lemma bkey_fields_witness :
  let k := {| high := 0x9000001000100001; low := 7; ptr := [5] |} in
  KEY_SIZE k = 1 /\ KEY_SIZE (SET_KEY_SIZE k 0x12345) = 0x2345 /\
  KEY_INODE (SET_KEY_SIZE k 0x12345) = 1 /\ KEY_DIRTY (SET_KEY_SIZE k 0x12345) = 1.
Proof.
  cbv zeta. set (k := {| high := 0x9000001000100001; low := 7; ptr := [5] |}).
  destruct (bkey_fields k ltac:(cbn; lia)) as (H1 & H2 & _). split; [reflexivity|].
  split; [exact (proj1 (H1 F_SIZE 0x12345))|].
  split; [exact (H2 F_SIZE F_INODE 0x12345 ltac:(discriminate)) | exact (H2 F_SIZE F_DIRTY 0x12345 ltac:(discriminate))].
Defined.

(** ** Keys and pointers made from parts *)

Lemma KEY_high inode size : 0 <= inode < 2 ^ 20 -> 0 <= size < 2 ^ 16 ->
  high (KEY inode 0 size) = Z.lor (Z.lor (Z.shiftl 1 63) (Z.shiftl size 20)) (Z.shiftl inode 0).
Proof.
  intros Hi Hs. cbn [high KEY]. rewrite Z.shiftl_0_r. do 2 f_equal.
  assert (Hu : u64 size = size) by (apply Z.mod_small; lia). rewrite Hu.
  apply Z.mod_small. pose proof (shiftl_range size 20 16). lia.
Qed.

Lemma key_parts inode offset size :
  0 <= inode < 2 ^ 20 -> 0 <= offset < 2 ^ 64 -> 0 <= size < 2 ^ 16 ->
  KEY_INODE (KEY inode offset size) = inode /\ KEY_OFFSET (KEY inode offset size) = offset /\
  KEY_SIZE (KEY inode offset size) = size /\ KEY_PTRS (KEY inode offset size) = 0.
Proof.
  intros Hi Ho Hs. pose proof (KEY_high inode size Hi Hs) as Hh.
  unfold KEY_INODE, KEY_SIZE, KEY_PTRS, KEY_FIELD, KEY_OFFSET, KEY_SIZE_BITS.
  change (high (KEY inode offset size)) with (high (KEY inode 0 size)). rewrite Hh, !BITMASK_get_lor.
  rewrite !(BITMASK_get_at 0 20), !(BITMASK_get_at 20 16) by lia.
  rewrite !(fun o s Ho Hs Hb => BITMASK_get_apart o s Ho Hs Hb 1 63 1) by lia.
  rewrite !(fun o s Ho Hs Hb => BITMASK_get_apart o s Ho Hs Hb size 20 16) by lia.
  rewrite !(fun o s Ho Hs Hb => BITMASK_get_apart o s Ho Hs Hb inode 0 20) by lia.
  rewrite !Z.lor_0_r, !Z.lor_0_l. split; [done|]. split; [by apply Z.mod_small | done].
Qed.

Lemma ptr_parts gen offset dev h l :
  0 <= gen < 2 ^ 8 -> 0 <= offset < 2 ^ 43 -> 0 <= dev < 2 ^ 12 ->
  let k := {| high := h; low := l; ptr := [MAKE_PTR gen offset dev] |} in
  PTR_GEN k 0 = Some gen /\ PTR_OFFSET k 0 = Some offset /\ PTR_DEV k 0 = Some dev.
Proof.
  intros Hg Ho Hd. cbv zeta. unfold PTR_GEN, PTR_OFFSET, PTR_DEV, PTR_FIELD, PTR_DEV_BITS.
  cbn [ptr lookup list_lookup mbind option_bind]. unfold MAKE_PTR.
  assert (Hud : u64 dev = dev) by (apply Z.mod_small; lia).
  assert (Huo : u64 offset = offset) by (apply Z.mod_small; lia). rewrite Hud, Huo.
  assert (Hs1 : u64 (Z.shiftl dev 51) = Z.shiftl dev 51)
    by (apply Z.mod_small; pose proof (shiftl_range dev 51 12); lia).
  assert (Hs2 : u64 (Z.shiftl offset 8) = Z.shiftl offset 8)
    by (apply Z.mod_small; pose proof (shiftl_range offset 8 43); lia).
  rewrite Hs1, Hs2. rewrite <-(Z.shiftl_0_r gen), !BITMASK_get_lor.
  rewrite !(BITMASK_get_at 0 8), !(BITMASK_get_at 8 43), !(BITMASK_get_at 51 12) by lia.
  rewrite !(fun o s Ho Hs Hb => BITMASK_get_apart o s Ho Hs Hb dev 51 12) by lia.
  rewrite !(fun o s Ho Hs Hb => BITMASK_get_apart o s Ho Hs Hb offset 8 43) by lia.
  rewrite !(fun o s Ho Hs Hb => BITMASK_get_apart o s Ho Hs Hb gen 0 8) by lia.
  by rewrite !Z.lor_0_r, !Z.lor_0_l.
Qed.

(** C38: keys and pointers made from parts.  KEY gives a key with the inode, offset and size it
    was given, as far as they fit the fields, and no pointers; the start of a key is its offset
    less its size, and START_KEY a key of size 0 there; a pointer that MAKE_PTR made of a
    generation, an offset and a device has these. *)
Theorem KEY_roundtrip inode offset size :
  0 <= inode < 2 ^ 20 -> 0 <= offset < 2 ^ 64 -> 0 <= size < 2 ^ 16 ->
  (KEY_INODE (KEY inode offset size) = inode /\ KEY_OFFSET (KEY inode offset size) = offset /\
   KEY_SIZE (KEY inode offset size) = size /\ KEY_PTRS (KEY inode offset size) = 0) /\
  (size <= offset ->
   KEY_START (KEY inode offset size) = offset - size /\
   START_KEY (KEY inode offset size) = KEY inode (offset - size) 0) /\
  (forall gen off dev h l, 0 <= gen < 2 ^ 8 -> 0 <= off < 2 ^ 43 -> 0 <= dev <= PTR_CHECK_DEV ->
   let k := {| high := h; low := l; ptr := [MAKE_PTR gen off dev] |} in
   PTR_GEN k 0 = Some gen /\ PTR_OFFSET k 0 = Some off /\ PTR_DEV k 0 = Some dev).
Proof.
  intros Hi Ho Hs. pose proof (key_parts inode offset size Hi Ho Hs) as Hp. split; [exact Hp|].
  destruct Hp as (E1 & E2 & E3 & E4). split.
  - intros Hle. assert (HS : KEY_START (KEY inode offset size) = offset - size).
    { unfold KEY_START. rewrite E2, E3. apply Z.mod_small. lia. }
    split; [exact HS|]. unfold START_KEY. by rewrite HS, E1.
  - intros gen off dev h l Hg Hoff Hd. apply ptr_parts; [done | done |]. change PTR_CHECK_DEV with 4095 in Hd. lia.
Qed.

Lemma KEY_roundtrip_witness :
  (KEY_INODE (KEY 5 100 8) = 5 /\ KEY_OFFSET (KEY 5 100 8) = 100 /\
   KEY_SIZE (KEY 5 100 8) = 8 /\ KEY_PTRS (KEY 5 100 8) = 0) /\
  START_KEY (KEY 5 100 8) = KEY 5 92 0.
Proof.
  destruct (KEY_roundtrip 5 100 8) as (H1 & H2 & _); [lia | lia | lia |].
  split; [exact H1 | exact (proj2 (H2 ltac:(lia)))].
Defined.

(** ** The keys of a node *)

(** The words of a key, which says how many pointers it has. *)
Definition bkey_words (k : bkey) : list Z := high k :: low k :: ptr k.
Definition bkey_wf (k : bkey) : Prop := KEY_PTRS k = Z.of_nat (length (ptr k)).
Definition node_words (ks : list bkey) : list Z := concat (bkey_words <$> ks).

(** for (k = start; k < end; k = bkey_next (k)) *)
Fixpoint bset_keys (fuel : nat) (d : list Z) (k last : nat) : option (list bkey) :=
  if (k <? last)%nat then
    match fuel with
    | O => None
    | S fuel => key ← bkey_at d k; k ← bkey_next d k; ks ← bset_keys fuel d k last; Some (key :: ks)
    end
  else Some [].

Lemma bkey_at_words pre k post :
  bkey_wf k -> bkey_at (pre ++ bkey_words k ++ post) (length pre) = Some k.
Proof.
  intros Hk. unfold bkey_at, bkey_words. rewrite (lookup_app_r pre _ (length pre)), Nat.sub_diag by lia.
  rewrite (lookup_app_r pre _ (S (length pre))) by lia. replace (S (length pre) - length pre)%nat with 1%nat by lia.
  cbn [lookup list_lookup app mbind option_bind].
  replace (length pre + 2)%nat with (length (pre ++ [high k; low k])) by (rewrite length_app; cbn; lia).
  change (high k :: low k :: ptr k ++ post) with ([high k; low k] ++ ptr k ++ post).
  rewrite app_assoc, drop_app_length.
  change (KEY_PTRS {| high := high k; low := low k; ptr := [] |}) with (KEY_PTRS k).
  rewrite Hk, Nat2Z.id, take_app_length, Nat.eqb_refl. by destruct k.
Qed.

Lemma bkey_next_words pre k post :
  bkey_wf k -> bkey_next (pre ++ bkey_words k ++ post) (length pre) =
    Some (length (pre ++ bkey_words k)).
Proof.
  intros Hk. unfold bkey_next. rewrite bkey_at_words by done. cbn [mbind option_bind]. f_equal.
  rewrite length_app. unfold bkey_u64s. rewrite Hk. change (16 / 8) with 2. cbn [bkey_words length]. lia.
Qed.

Lemma bset_keys_words fuel pre ks post :
  Forall bkey_wf ks -> (length ks <= fuel)%nat ->
  bset_keys fuel (pre ++ node_words ks ++ post) (length pre) (length (pre ++ node_words ks)) = Some ks.
Proof.
  revert fuel pre. induction ks as [|k ks IH]; intros fuel pre Hwf Hf.
  { cbn. rewrite app_nil_r. destruct fuel; cbn [bset_keys]; by rewrite Nat.ltb_irrefl. }
  destruct fuel as [|fuel]; cbn in Hf; [lia|]. apply Forall_cons in Hwf as [Hk Hwf].
  change (node_words (k :: ks)) with (bkey_words k ++ node_words ks). rewrite <-app_assoc. cbn [bset_keys].
  rewrite (proj2 (Nat.ltb_lt _ _)) by (rewrite length_app; cbn; lia).
  rewrite bkey_at_words, bkey_next_words by done. cbn [mbind option_bind].
  rewrite (app_assoc pre (bkey_words k) (node_words ks ++ post)), (app_assoc pre (bkey_words k) (node_words ks)).
  by rewrite IH by (done || lia).
Qed.

Lemma length_node_words ks : (length ks <= length (node_words ks))%nat.
Proof. induction ks as [|k ks IH]; cbn; [done|]. rewrite length_app. unfold node_words in IH. lia. Qed.

Lemma lookup_write_at_other off (v d : list Z) i :
  (off + length v <= length d)%nat -> (i < off \/ off + length v <= i)%nat ->
  write_at off v d !! i = d !! i.
Proof.
  intros Hl Hi. unfold write_at. assert (length (take off d) = off) as Ht by (rewrite length_take; lia).
  destruct Hi as [Hi|Hi].
  - rewrite lookup_app_l by lia. by apply lookup_take_lt.
  - rewrite !lookup_app_r by (rewrite ?Ht; lia). rewrite Ht, lookup_drop. f_equal. lia.
Qed.

(** C17: the keys of a node.  Keys stored one behind the other, each saying how many pointers
    follow it, are visited by bkey_next one by one and to the last; a key copied by bkey_copy
    to a place apart from it is the same key there, and every other word stays.  (bkey_copy is
    memcpy: where the places overlap it is undefined.) *)
Theorem bkey_next_visits pre ks post :
  Forall bkey_wf ks ->
  let d := pre ++ node_words ks ++ post in
  let last := length (pre ++ node_words ks) in
  bset_keys (length (node_words ks)) d (length pre) last = Some ks /\
  (forall front k back dest, ks = front ++ k :: back ->
    let src := length (pre ++ node_words front) in
    let n := length (bkey_words k) in
    (dest + n <= length d)%nat ->
    if disjoint_words dest src n then
      exists d', bkey_copy d dest src = Some d' /\ bkey_at d' dest = Some k /\
        forall i, (i < dest \/ dest + n <= i)%nat -> d' !! i = d !! i
    else bkey_copy d dest src = None).
Proof.
  cbv zeta. intros Hwf. split.
  { apply bset_keys_words; [done | apply length_node_words]. }
  intros front k back dest -> Hdest. apply Forall_app in Hwf as [_ [Hk _]%Forall_cons].
  assert (Hd : pre ++ node_words (front ++ k :: back) ++ post =
    (pre ++ node_words front) ++ bkey_words k ++ node_words back ++ post).
  { unfold node_words. rewrite fmap_app, concat_app. cbn [fmap list_fmap concat]. by rewrite <-!app_assoc. }
  rewrite Hd in *. set (mid := pre ++ node_words front) in *. set (d := mid ++ _) in *.
  assert (Hsrc : bkey_at d (length mid) = Some k) by by apply bkey_at_words.
  unfold bkey_copy. rewrite Hsrc. cbn [mbind option_bind].
  assert (Hn : Z.to_nat (bkey_bytes k / 8) = length (bkey_words k)).
  { unfold bkey_bytes. rewrite Z.div_mul by lia. unfold bkey_u64s. rewrite Hk.
    change (16 / 8) with 2. cbn [bkey_words length]. lia. }
  cbv zeta. rewrite Hn. destruct (disjoint_words _ _ _); [|done].
  rewrite (proj2 (Nat.leb_le _ _)) by done. cbn [andb]. eexists. split; [done|].
  assert (Hs : slice (length mid) (length (bkey_words k)) d = bkey_words k).
  { unfold slice, d. by rewrite drop_app_length, take_app_length. }
  rewrite Hs. split; [|intros i Hi; by apply lookup_write_at_other]. unfold write_at.
  rewrite <-(length_take_le d dest) at 3 by lia. by apply bkey_at_words.
Qed.

Lemma bkey_next_visits_witness :
  let k1 := {| high := Z.lor (2 ^ 63) (Z.shiftl 2 60); low := 9; ptr := [100; 200] |} in
  let k2 := KEY 1 20 4 in
  let d := [77] ++ node_words [k1; k2] ++ [88] in
  bset_keys 6 d 1 7 = Some [k1; k2] /\
  (exists d', bkey_copy d 0 5 = Some d' /\ bkey_at d' 0 = Some k2 /\
     forall i, (i < 0 \/ 0 + 2 <= i)%nat -> d' !! i = d !! i) /\
  bkey_copy d 4 5 = None.
Proof.
  cbv zeta. set (k1 := {| high := Z.lor (2 ^ 63) (Z.shiftl 2 60); low := 9; ptr := [100; 200] |}).
  set (k2 := KEY 1 20 4).
  destruct (bkey_next_visits [77] [k1; k2] [88]) as [H1 H2].
  - repeat (apply Forall_cons_2; [vm_compute; reflexivity|]). apply Forall_nil_2.
  - split; [exact H1|]. split.
    + apply (H2 [k1] k2 [] 0%nat eq_refl). vm_compute. lia.
    + apply (H2 [k1] k2 [] 4%nat eq_refl). vm_compute. lia.
Defined.
