(* ===== verification/Nilfs.v ===== *)
(** * Flags of NILFS on disk

    The flags of checkpoints and of segment usages (src/include/linux/nilfs2_ondisk.h), which
    are little-endian on disk, and those that the kernel reports (nilfs2_api.h).  All is on top
    of the interface of byte order conversions, and holds for every header that fulfils it. *)

From S2P Require Import Prelude CLib Words Swab BigEndian LittleEndian Endian.
Open Scope Z_scope.

(** ** Flags in a little-endian word *)

Section flags.
Context `{Conversions}.

(** 1UL << flag *)
Definition bit (flag : Z) : Z := u64 (Z.shiftl 1 flag).
Definition set_flag (word flag : Z) : Z :=
  cpu_to_le W32 false (Z.lor (le_to_cpu W32 false word) (bit flag)).
Definition clear_flag (word flag : Z) : Z :=
  cpu_to_le W32 false (Z.land (le_to_cpu W32 false word) (u64 (Z.lnot (bit flag)))).
Definition has_flag (word flag : Z) : bool :=
  negb (Z.land (le_to_cpu W32 false word) (bit flag) =? 0).
End flags.

Definition NILFS_CHECKPOINT_SNAPSHOT : Z := 0.
Definition NILFS_CHECKPOINT_INVALID : Z := 1.
Definition NILFS_CHECKPOINT_SKETCH : Z := 2.
Definition NILFS_CHECKPOINT_MINOR : Z := 3.

(** The member of struct nilfs_checkpoint that the functions use. *)
Record nilfs_checkpoint := { cp_flags : Z }.

Record nilfs_segment_usage := { su_lastmod : Z; su_nblocks : Z; su_flags : Z }.
Definition NILFS_SEGMENT_USAGE_ACTIVE : Z := 0.
Definition NILFS_SEGMENT_USAGE_DIRTY : Z := 1.
Definition NILFS_SEGMENT_USAGE_ERROR : Z := 2.

Section ondisk.
Context `{Conversions}.

(** NILFS_CHECKPOINT_FNS (flag, name) *)
Definition nilfs_checkpoint_set (flag : Z) (cp : nilfs_checkpoint) : nilfs_checkpoint :=
  {| cp_flags := set_flag (cp_flags cp) flag |}.
Definition nilfs_checkpoint_clear (flag : Z) (cp : nilfs_checkpoint) : nilfs_checkpoint :=
  {| cp_flags := clear_flag (cp_flags cp) flag |}.
Definition nilfs_checkpoint_test (flag : Z) (cp : nilfs_checkpoint) : bool := has_flag (cp_flags cp) flag.

Definition nilfs_checkpoint_set_snapshot := nilfs_checkpoint_set NILFS_CHECKPOINT_SNAPSHOT.
Definition nilfs_checkpoint_clear_snapshot := nilfs_checkpoint_clear NILFS_CHECKPOINT_SNAPSHOT.
Definition nilfs_checkpoint_snapshot := nilfs_checkpoint_test NILFS_CHECKPOINT_SNAPSHOT.
Definition nilfs_checkpoint_set_invalid := nilfs_checkpoint_set NILFS_CHECKPOINT_INVALID.
Definition nilfs_checkpoint_clear_invalid := nilfs_checkpoint_clear NILFS_CHECKPOINT_INVALID.
Definition nilfs_checkpoint_invalid := nilfs_checkpoint_test NILFS_CHECKPOINT_INVALID.
Definition nilfs_checkpoint_set_minor := nilfs_checkpoint_set NILFS_CHECKPOINT_MINOR.
Definition nilfs_checkpoint_clear_minor := nilfs_checkpoint_clear NILFS_CHECKPOINT_MINOR.
Definition nilfs_checkpoint_minor := nilfs_checkpoint_test NILFS_CHECKPOINT_MINOR.

(** NILFS_SEGMENT_USAGE_FNS (flag, name) *)
Definition nilfs_segment_usage_set (flag : Z) (su : nilfs_segment_usage) : nilfs_segment_usage :=
  {| su_lastmod := su_lastmod su; su_nblocks := su_nblocks su; su_flags := set_flag (su_flags su) flag |}.
Definition nilfs_segment_usage_unset (flag : Z) (su : nilfs_segment_usage) : nilfs_segment_usage :=
  {| su_lastmod := su_lastmod su; su_nblocks := su_nblocks su; su_flags := clear_flag (su_flags su) flag |}.
Definition nilfs_segment_usage_test (flag : Z) (su : nilfs_segment_usage) : bool := has_flag (su_flags su) flag.

Definition nilfs_segment_usage_set_active := nilfs_segment_usage_set NILFS_SEGMENT_USAGE_ACTIVE.
Definition nilfs_segment_usage_clear_active := nilfs_segment_usage_unset NILFS_SEGMENT_USAGE_ACTIVE.
Definition nilfs_segment_usage_active := nilfs_segment_usage_test NILFS_SEGMENT_USAGE_ACTIVE.
Definition nilfs_segment_usage_set_dirty := nilfs_segment_usage_set NILFS_SEGMENT_USAGE_DIRTY.
Definition nilfs_segment_usage_clear_dirty := nilfs_segment_usage_unset NILFS_SEGMENT_USAGE_DIRTY.
Definition nilfs_segment_usage_dirty := nilfs_segment_usage_test NILFS_SEGMENT_USAGE_DIRTY.
Definition nilfs_segment_usage_set_error := nilfs_segment_usage_set NILFS_SEGMENT_USAGE_ERROR.
Definition nilfs_segment_usage_clear_error := nilfs_segment_usage_unset NILFS_SEGMENT_USAGE_ERROR.
Definition nilfs_segment_usage_error := nilfs_segment_usage_test NILFS_SEGMENT_USAGE_ERROR.

Definition nilfs_segment_usage_set_clean (su : nilfs_segment_usage) : nilfs_segment_usage :=
  {| su_lastmod := cpu_to_le W64 true 0; su_nblocks := cpu_to_le W32 true 0; su_flags := cpu_to_le W32 true 0 |}.
Definition nilfs_segment_usage_clean (su : nilfs_segment_usage) : bool := le_to_cpu W32 false (su_flags su) =? 0.
End ondisk.

(** ** What the kernel reports, in the machine's order *)

Definition NILFS_CPINFO_SNAPSHOT : Z := 0.
Definition NILFS_CPINFO_INVALID : Z := 1.
Definition NILFS_CPINFO_MINOR : Z := 3.
Definition nilfs_cpinfo_fn (flag ci_flags : Z) : bool := negb (Z.land ci_flags (bit flag) =? 0).
Definition nilfs_cpinfo_snapshot := nilfs_cpinfo_fn NILFS_CPINFO_SNAPSHOT.
Definition nilfs_cpinfo_invalid := nilfs_cpinfo_fn NILFS_CPINFO_INVALID.
Definition nilfs_cpinfo_minor := nilfs_cpinfo_fn NILFS_CPINFO_MINOR.

Definition NILFS_SUINFO_ACTIVE : Z := 0.
Definition NILFS_SUINFO_DIRTY : Z := 1.
Definition NILFS_SUINFO_ERROR : Z := 2.
(** The flag itself, not 1. *)
Definition nilfs_suinfo_fn (flag sui_flags : Z) : Z := Z.land sui_flags (bit flag).
Definition nilfs_suinfo_active := nilfs_suinfo_fn NILFS_SUINFO_ACTIVE.
Definition nilfs_suinfo_dirty := nilfs_suinfo_fn NILFS_SUINFO_DIRTY.
Definition nilfs_suinfo_error := nilfs_suinfo_fn NILFS_SUINFO_ERROR.
Definition nilfs_suinfo_clean (sui_flags : Z) : bool := sui_flags =? 0.

Definition NILFS_SUINFO_UPDATE_LASTMOD : Z := 0.
Definition NILFS_SUINFO_UPDATE_NBLOCKS : Z := 1.
Definition NILFS_SUINFO_UPDATE_FLAGS : Z := 2.
(** On sup_flags of struct nilfs_suinfo_update. *)
Definition nilfs_suinfo_update_set (flag sup_flags : Z) : Z := u32 (Z.lor sup_flags (bit flag)).
Definition nilfs_suinfo_update_clear (flag sup_flags : Z) : Z := u32 (Z.land sup_flags (u64 (Z.lnot (bit flag)))).
Definition nilfs_suinfo_update_test (flag sup_flags : Z) : bool := negb (Z.land sup_flags (bit flag) =? 0).

(** ** Bits *)

Lemma bit_testbit f i : 0 <= f < 64 -> 0 <= i -> Z.testbit (bit f) i = (i =? f).
Proof.
  intros Hf Hi. unfold bit. rewrite Z.shiftl_1_l. unfold u64.
  rewrite Z.mod_small by (split; [lia | apply Z.pow_lt_mono_r; lia]).
  rewrite Z.pow2_bits_eqb by lia. apply Z.eqb_sym.
Qed.

Lemma land_bit x f : 0 <= f < 64 -> negb (Z.land x (bit f) =? 0) = Z.testbit x f.
Proof.
  intros Hf. destruct (Z.eqb_spec (Z.land x (bit f)) 0) as [E|E]; cbn.
  - assert (Hb : Z.testbit (Z.land x (bit f)) f = false) by by rewrite E, Z.bits_0.
    rewrite Z.land_spec, bit_testbit, Z.eqb_refl, andb_true_r in Hb by lia. done.
  - destruct (Z.testbit x f) eqn:Ex; [done|]. destruct E. apply Z.bits_inj'. intros i Hi.
    rewrite Z.land_spec, bit_testbit, Z.bits_0 by lia. destruct (Z.eqb_spec i f) as [->|]; [by rewrite Ex|].
    apply andb_false_r.
Qed.

Lemma u32_bits x i : 0 <= i < 32 -> Z.testbit (u32 x) i = Z.testbit x i.
Proof. intros Hi. apply Z.mod_pow2_bits_low. lia. Qed.

Lemma lor_bit x f i : 0 <= f < 32 -> 0 <= i < 32 ->
  Z.testbit (u32 (Z.lor x (bit f))) i = (i =? f) || Z.testbit x i.
Proof. intros Hf Hi. rewrite u32_bits, Z.lor_spec, bit_testbit by lia. apply orb_comm. Qed.

Lemma clear_bit x f i : 0 <= f < 32 -> 0 <= i < 32 ->
  Z.testbit (u32 (Z.land x (u64 (Z.lnot (bit f))))) i = negb (i =? f) && Z.testbit x i.
Proof.
  intros Hf Hi. rewrite u32_bits, Z.land_spec by lia. unfold u64 at 1.
  rewrite Z.mod_pow2_bits_low, Z.lnot_spec, bit_testbit by lia. apply andb_comm.
Qed.

(** A word is clean if it has no bit. *)
Lemma no_bits x : 0 <= x < 2 ^ 32 -> (x =? 0) = true <-> forall i, 0 <= i < 32 -> Z.testbit x i = false.
Proof.
  intros Hx. rewrite Z.eqb_eq. split; [intros -> i _; apply Z.bits_0|]. intros Hb.
  apply Z.bits_inj'. intros i Hi. rewrite Z.bits_0. destruct (decide (i < 32)); [by apply Hb|].
  rewrite <-(Z.mod_small x (2 ^ 32)) by done. apply Z.mod_pow2_bits_high. lia.
Qed.

(** ** Flags on disk *)

Section on_disk.
Context (C : Conversions) {HC : ConversionLaws C}.

(** The flags a word on disk has: bit [i] of the bytes read from the lowest. *)
Definition disk_flag (word i : Z) : bool := Z.testbit (le_to_cpu W32 false word) i.

Lemma le_inverse w cp cp' x : le_to_cpu w cp (cpu_to_le w cp' x) = cast w x.
Proof. apply (converts_inverse _ _ _ _ _ _ _ _ le_law). Qed.

Lemma disk_set word f i : 0 <= f < 32 -> 0 <= i < 32 ->
  disk_flag (set_flag word f) i = (i =? f) || disk_flag word i.
Proof.
  intros Hf Hi. unfold disk_flag, set_flag. rewrite le_inverse. by apply lor_bit.
Qed.
Lemma disk_clear word f i : 0 <= f < 32 -> 0 <= i < 32 ->
  disk_flag (clear_flag word f) i = negb (i =? f) && disk_flag word i.
Proof.
  intros Hf Hi. unfold disk_flag, clear_flag. rewrite le_inverse. by apply clear_bit.
Qed.
Lemma disk_has word f : 0 <= f < 32 -> has_flag word f = disk_flag word f.
Proof. intros Hf. apply land_bit. lia. Qed.

(** A word that holds four bytes from disk. *)
Lemma disk_bytes b : length b = 4%nat -> Forall is_byte b ->
  le_to_cpu W32 false (le_val (in_order b)) = le_val b.
Proof. apply (converts_from _ _ _ _ _ _ _ _ le_law W32). Qed.
Lemma disk_stored word f :
  native W32 (set_flag word f) = le_bytes 4 (Z.lor (le_to_cpu W32 false word) (bit f)).
Proof. apply (converts_to _ _ _ _ _ _ _ _ le_law W32). Qed.
End on_disk.

(** C35: flags of segments.  With any header that fulfils the interface of byte orders: on the
    bytes of a segment usage as they are on disk, setting and clearing a flag changes that bit
    of the little-endian word and no other, also none that these functions do not know; a test
    tells whether the bit is set; a usage is clean exactly if it has no flag, and
    set_clean makes it clean; the flags the kernel reports in its own order are the same bits. *)
Theorem segment_usage_flags (C : Conversions) (HC : ConversionLaws C) b su :
  length b = 4%nat -> Forall is_byte b -> su_flags su = le_val (in_order b) ->
  (forall f i, 0 <= f < 32 -> 0 <= i < 32 ->
    disk_flag C (su_flags (nilfs_segment_usage_set f su)) i = (i =? f) || Z.testbit (le_val b) i /\
    disk_flag C (su_flags (nilfs_segment_usage_unset f su)) i = negb (i =? f) && Z.testbit (le_val b) i /\
    nilfs_segment_usage_test f su = Z.testbit (le_val b) f) /\
  (forall f, 0 <= f < 32 ->
    native W32 (su_flags (nilfs_segment_usage_set f su)) = le_bytes 4 (Z.lor (le_val b) (bit f))) /\
  (nilfs_segment_usage_clean su = true <-> forall i, 0 <= i < 32 -> Z.testbit (le_val b) i = false) /\
  nilfs_segment_usage_clean (nilfs_segment_usage_set_clean su) = true /\
  (forall f, 0 <= f < 32 -> negb (nilfs_suinfo_fn f (le_val b) =? 0) = nilfs_segment_usage_test f su) /\
  nilfs_suinfo_clean (le_val b) = nilfs_segment_usage_clean su.
Proof.
  intros Hl Hb Hsu. pose proof (disk_bytes C b Hl Hb) as Hd.
  assert (Hf : forall i, disk_flag C (su_flags su) i = Z.testbit (le_val b) i)
    by (intros i; unfold disk_flag; by rewrite Hsu, Hd).
  assert (Ht : forall f, 0 <= f < 32 -> nilfs_segment_usage_test f su = Z.testbit (le_val b) f)
    by (intros f Hfr; unfold nilfs_segment_usage_test; by rewrite (disk_has C), Hf).
  assert (Hc : nilfs_segment_usage_clean su = (le_val b =? 0))
    by (unfold nilfs_segment_usage_clean; by rewrite Hsu, Hd).
  assert (Hr : 0 <= le_val b < 2 ^ 32).
  { pose proof (le_val_range b Hb) as Hr. by rewrite Hl in Hr. }
  split; [|split; [|split; [|split; [|split]]]].
  - intros f i Hfr Hi. cbn [su_flags nilfs_segment_usage_set nilfs_segment_usage_unset].
    by rewrite disk_set, disk_clear, !Hf, Ht.
  - intros f Hfr. cbn [su_flags nilfs_segment_usage_set]. by rewrite disk_stored, Hsu, Hd.
  - rewrite Hc. by apply no_bits.
  - unfold nilfs_segment_usage_clean, nilfs_segment_usage_set_clean. cbn [su_flags].
    by rewrite (le_inverse C).
  - intros f Hfr. rewrite Ht by done. apply land_bit. lia.
  - by rewrite Hc.
Qed.

(** A dirty segment on a big-endian machine: the error flag set, and the usage made clean. *)
Lemma segment_usage_flags_witness :
  let A := x86 ___constant_swab32 ___constant_swab64 false in
  let C := @BigEndian.conversions A in
  let su := {| su_lastmod := 0; su_nblocks := 0; su_flags := 0x02000000 |} in
  @nilfs_segment_usage_dirty C su = true /\
  @native (@order C) W32 (su_flags (@nilfs_segment_usage_set_error C su)) = [6; 0; 0; 0] /\
  @nilfs_segment_usage_clean C (@nilfs_segment_usage_set_clean C su) = true.
Proof.
  cbv zeta. set (A := x86 ___constant_swab32 ___constant_swab64 false).
  assert (HA : ArchLaws A) by (by apply x86_laws).
  destruct (segment_usage_flags (@BigEndian.conversions A) (@big_endian_laws A HA) [2; 0; 0; 0]
    {| su_lastmod := 0; su_nblocks := 0; su_flags := 0x02000000 |}) as (H1 & H2 & _ & H3 & _).
  - done.
  - repeat (apply Forall_cons_2; [split; lia|]). apply Forall_nil_2.
  - vm_compute. reflexivity.
  - split; [exact (proj2 (proj2 (H1 1 0 ltac:(lia) ltac:(lia))))|].
    split; [|exact H3]. exact (H2 2 ltac:(lia)).
Defined.
