(* ===== verification/Queue.v ===== *)
(** * The list macros of sys/queue.h

    Six kinds of lists threaded through links inside of their elements.  A macro is a
    computation on a memory of link words; the macros' arguments [head] and [elm] are
    pointers to objects, [field] picks the links of an element and is the same throughout. *)

From S2P Require Import Prelude.

(** ** Memory

    Objects are heads and elements.  Each has up to two words: word 0 is the pointer to the
    first or next element, word 1 the other one.  A [struct type **] of the sources is
    always the address of some object's word 0. *)

Inductive val :=
  | VNull
  | VObj (x : positive)      (* the element or head x *)
  | VSlot (x : positive).    (* &x->next or &x->first *)

#[export] Instance val_eq_dec : EqDecision val.
Proof. solve_decision. Defined.

Abbreviation addr := (positive * nat)%type (only parsing).
Abbreviation mem := (gmap (positive * nat) val) (only parsing).

(** A computation: [None] is undefined behaviour (a word that is not there, NULL). *)
Definition Q (A : Type) : Type := gmap (positive * nat) val -> option (A * gmap (positive * nat) val).

#[export] Instance Q_ret : MRet Q := fun A a m => Some (a, m).
#[export] Instance Q_bind : MBind Q := fun A B k c m =>
  match c m with Some (a, m') => k a m' | None => None end.

Definition undefined {A} : Q A := fun _ => None.
Definition load (a : addr) : Q val := fun m =>
  match m !! a with Some v => Some (v, m) | None => None end.
Definition store (a : addr) (v : val) : Q unit := fun m =>
  match m !! a with Some _ => Some (tt, <[a := v]> m) | None => None end.

(** p->word, and an assignment to it. *)
Definition get (p : val) (i : nat) : Q val :=
  match p with VObj x => load (x, i) | _ => undefined end.
Definition put (p : val) (i : nat) (v : val) : Q unit :=
  match p with VObj x => store (x, i) v | _ => undefined end.
(** *pp, and an assignment to it; &p->next; the cast of a slot to the head it starts. *)
Definition get_at (pp : val) : Q val :=
  match pp with VSlot x => load (x, 0) | _ => undefined end.
Definition put_at (pp v : val) : Q unit :=
  match pp with VSlot x => store (x, 0) v | _ => undefined end.
Definition slot (p : val) : val := match p with VObj x => VSlot x | _ => VNull end.
Definition as_head (pp : val) : val := match pp with VSlot x => VObj x | _ => VNull end.

Definition is_null (p : val) : bool := bool_decide (p = VNull).
Definition if_ {A} (b : bool) (c1 c2 : Q A) : Q A := if b then c1 else c2.
Definition when_ (b : bool) (c : Q unit) : Q unit := if b then c else mret tt.

(** for (var = start; var != stop; var = next (var)) body *)
Fixpoint for_loop {B} (fuel : nat) (next : val -> Q val) (stop : val)
    (body : val -> B -> Q B) (var : val) (b : B) : Q B :=
  if bool_decide (var = stop) then mret b
  else match fuel with
  | O => undefined
  | S fuel =>
      b ← body var b;
      var ← next var;
      for_loop fuel next stop body var b
  end.

(** A list has no more elements than there are words. *)
Definition foreach {B} (next : val -> Q val) (stop : val) (body : val -> B -> Q B)
    (start : val) (b : B) : Q B := fun m =>
  for_loop (size m) next stop body start b m.

(** while (curelm->next != elm) curelm = curelm->next; *)
Fixpoint find_loop (fuel : nat) (elm curelm : val) : Q val :=
  n ← get curelm 0;
  if bool_decide (n = elm) then mret curelm
  else match fuel with
  | O => undefined
  | S fuel => n ← get curelm 0; find_loop fuel elm n
  end.
Definition find_before (elm curelm : val) : Q val := fun m => find_loop (size m) elm curelm m.

(** ** Lists *)

Definition LIST_INIT (head : val) : Q unit := put head 0 VNull.

Definition LIST_INSERT_AFTER (listelm elm : val) : Q unit :=
  n ← get listelm 0; put elm 0 n;;
  when_ (negb (is_null n)) (n ← get listelm 0; put n 1 (slot elm));;
  put listelm 0 elm;;
  put elm 1 (slot listelm).

Definition LIST_INSERT_BEFORE (listelm elm : val) : Q unit :=
  p ← get listelm 1; put elm 1 p;;
  put elm 0 listelm;;
  p ← get listelm 1; put_at p elm;;
  put listelm 1 (slot elm).

Definition LIST_INSERT_HEAD (head elm : val) : Q unit :=
  f ← get head 0; put elm 0 f;;
  when_ (negb (is_null f)) (f ← get head 0; put f 1 (slot elm));;
  put head 0 elm;;
  put elm 1 (slot head).

Definition LIST_REMOVE (elm : val) : Q unit :=
  n ← get elm 0;
  when_ (negb (is_null n)) (n ← get elm 0; p ← get elm 1; put n 1 p);;
  p ← get elm 1; n ← get elm 0; put_at p n.

Definition LIST_FOREACH {B} (head : val) (body : val -> B -> Q B) (b : B) : Q B :=
  f ← get head 0; foreach (fun var => get var 0) VNull body f b.

Definition LIST_EMPTY (head : val) : Q bool := f ← get head 0; mret (is_null f).
Definition LIST_FIRST (head : val) : Q val := get head 0.
Definition LIST_NEXT (elm : val) : Q val := get elm 0.

(** ** Singly-linked lists *)

Definition SLIST_INIT (head : val) : Q unit := put head 0 VNull.

Definition SLIST_INSERT_AFTER (slistelm elm : val) : Q unit :=
  n ← get slistelm 0; put elm 0 n;;
  put slistelm 0 elm.

Definition SLIST_INSERT_HEAD (head elm : val) : Q unit :=
  f ← get head 0; put elm 0 f;;
  put head 0 elm.

Definition SLIST_REMOVE_HEAD (head : val) : Q unit :=
  f ← get head 0; n ← get f 0; put head 0 n.

Definition SLIST_REMOVE (head elm : val) : Q unit :=
  f ← get head 0;
  if_ (bool_decide (f = elm)) (SLIST_REMOVE_HEAD head)
    (curelm ← get head 0;
     curelm ← find_before elm curelm;
     n ← get curelm 0; nn ← get n 0; put curelm 0 nn).

Definition SLIST_FOREACH {B} (head : val) (body : val -> B -> Q B) (b : B) : Q B :=
  f ← get head 0; foreach (fun var => get var 0) VNull body f b.

Definition SLIST_EMPTY (head : val) : Q bool := f ← get head 0; mret (is_null f).
Definition SLIST_FIRST (head : val) : Q val := get head 0.
Definition SLIST_NEXT (elm : val) : Q val := get elm 0.

(** ** Singly-linked tail queues *)

Definition STAILQ_INIT (head : val) : Q unit :=
  put head 0 VNull;;
  put head 1 (slot head).

Definition STAILQ_INSERT_HEAD (head elm : val) : Q unit :=
  f ← get head 0; put elm 0 f;;
  when_ (is_null f) (put head 1 (slot elm));;
  put head 0 elm.

Definition STAILQ_INSERT_TAIL (head elm : val) : Q unit :=
  put elm 0 VNull;;
  l ← get head 1; put_at l elm;;
  put head 1 (slot elm).

Definition STAILQ_INSERT_AFTER (head listelm elm : val) : Q unit :=
  n ← get listelm 0; put elm 0 n;;
  when_ (is_null n) (put head 1 (slot elm));;
  put listelm 0 elm.

Definition STAILQ_REMOVE_HEAD (head : val) : Q unit :=
  f ← get head 0; n ← get f 0; put head 0 n;;
  when_ (is_null n) (put head 1 (slot head)).

Definition STAILQ_REMOVE (head elm : val) : Q unit :=
  f ← get head 0;
  if_ (bool_decide (f = elm)) (STAILQ_REMOVE_HEAD head)
    (curelm ← get head 0;
     curelm ← find_before elm curelm;
     n ← get curelm 0; nn ← get n 0; put curelm 0 nn;;
     when_ (is_null nn) (put head 1 (slot curelm))).

Definition STAILQ_FOREACH {B} (head : val) (body : val -> B -> Q B) (b : B) : Q B :=
  f ← get head 0; foreach (fun var => get var 0) VNull body f b.

Definition STAILQ_EMPTY (head : val) : Q bool := f ← get head 0; mret (is_null f).
Definition STAILQ_FIRST (head : val) : Q val := get head 0.
Definition STAILQ_NEXT (elm : val) : Q val := get elm 0.

Definition STAILQ_CONCAT (head1 head2 : val) : Q unit :=
  e ← STAILQ_EMPTY head2;
  when_ (negb e)
    (l ← get head1 1; f ← get head2 0; put_at l f;;
     l ← get head2 1; put head1 1 l;;
     STAILQ_INIT head2).

(** ** Simple queues *)

Definition SIMPLEQ_INIT (head : val) : Q unit :=
  put head 0 VNull;;
  put head 1 (slot head).

Definition SIMPLEQ_INSERT_HEAD (head elm : val) : Q unit :=
  f ← get head 0; put elm 0 f;;
  when_ (is_null f) (put head 1 (slot elm));;
  put head 0 elm.

Definition SIMPLEQ_INSERT_TAIL (head elm : val) : Q unit :=
  put elm 0 VNull;;
  l ← get head 1; put_at l elm;;
  put head 1 (slot elm).

Definition SIMPLEQ_INSERT_AFTER (head listelm elm : val) : Q unit :=
  n ← get listelm 0; put elm 0 n;;
  when_ (is_null n) (put head 1 (slot elm));;
  put listelm 0 elm.

Definition SIMPLEQ_REMOVE_HEAD (head : val) : Q unit :=
  f ← get head 0; n ← get f 0; put head 0 n;;
  when_ (is_null n) (put head 1 (slot head)).

Definition SIMPLEQ_REMOVE (head elm : val) : Q unit :=
  f ← get head 0;
  if_ (bool_decide (f = elm)) (SIMPLEQ_REMOVE_HEAD head)
    (curelm ← get head 0;
     curelm ← find_before elm curelm;
     n ← get curelm 0; nn ← get n 0; put curelm 0 nn;;
     when_ (is_null nn) (put head 1 (slot curelm))).

Definition SIMPLEQ_FOREACH {B} (head : val) (body : val -> B -> Q B) (b : B) : Q B :=
  f ← get head 0; foreach (fun var => get var 0) VNull body f b.

Definition SIMPLEQ_EMPTY (head : val) : Q bool := f ← get head 0; mret (is_null f).
Definition SIMPLEQ_FIRST (head : val) : Q val := get head 0.
Definition SIMPLEQ_NEXT (elm : val) : Q val := get elm 0.

(** ** Tail queues *)

Definition TAILQ_INIT (head : val) : Q unit :=
  put head 0 VNull;;
  put head 1 (slot head).

Definition TAILQ_INSERT_HEAD (head elm : val) : Q unit :=
  f ← get head 0; put elm 0 f;;
  if_ (negb (is_null f)) (f ← get head 0; put f 1 (slot elm))
    (put head 1 (slot elm));;
  put head 0 elm;;
  put elm 1 (slot head).

Definition TAILQ_INSERT_TAIL (head elm : val) : Q unit :=
  put elm 0 VNull;;
  l ← get head 1; put elm 1 l;;
  l ← get head 1; put_at l elm;;
  put head 1 (slot elm).

Definition TAILQ_INSERT_AFTER (head listelm elm : val) : Q unit :=
  n ← get listelm 0; put elm 0 n;;
  if_ (negb (is_null n)) (n ← get elm 0; put n 1 (slot elm))
    (put head 1 (slot elm));;
  put listelm 0 elm;;
  put elm 1 (slot listelm).

Definition TAILQ_INSERT_BEFORE (listelm elm : val) : Q unit :=
  p ← get listelm 1; put elm 1 p;;
  put elm 0 listelm;;
  p ← get listelm 1; put_at p elm;;
  put listelm 1 (slot elm).

Definition TAILQ_REMOVE (head elm : val) : Q unit :=
  n ← get elm 0;
  if_ (negb (is_null n)) (n ← get elm 0; p ← get elm 1; put n 1 p)
    (p ← get elm 1; put head 1 p);;
  p ← get elm 1; n ← get elm 0; put_at p n.

Definition TAILQ_FOREACH {B} (head : val) (body : val -> B -> Q B) (b : B) : Q B :=
  f ← get head 0; foreach (fun var => get var 0) VNull body f b.

(** A slot is the first word of a head, or of the links of an element, which are laid out as
    those of a head. *)
Definition TAILQ_LAST (head : val) : Q val :=
  l ← get head 1; p ← get (as_head l) 1; get_at p.
Definition TAILQ_PREV (elm : val) : Q val :=
  l ← get elm 1; p ← get (as_head l) 1; get_at p.

Definition TAILQ_FOREACH_REVERSE {B} (head : val) (body : val -> B -> Q B) (b : B) : Q B :=
  l ← get head 1; p ← get (as_head l) 1; f ← get_at p;
  foreach (fun var => l ← get var 1; p ← get (as_head l) 1; get_at p) VNull body f b.

Definition TAILQ_EMPTY (head : val) : Q bool := f ← get head 0; mret (is_null f).
Definition TAILQ_FIRST (head : val) : Q val := get head 0.
Definition TAILQ_NEXT (elm : val) : Q val := get elm 0.

Definition TAILQ_CONCAT (head1 head2 : val) : Q unit :=
  e ← TAILQ_EMPTY head2;
  when_ (negb e)
    (l ← get head1 1; f ← get head2 0; put_at l f;;
     f ← get head2 0; l ← get head1 1; put f 1 l;;
     l ← get head2 1; put head1 1 l;;
     TAILQ_INIT head2).

(** ** Circular queues *)

Definition CIRCLEQ_INIT (head : val) : Q unit :=
  put head 0 head;;
  put head 1 head.

Definition CIRCLEQ_INSERT_AFTER (head listelm elm : val) : Q unit :=
  n ← get listelm 0; put elm 0 n;;
  put elm 1 listelm;;
  n ← get listelm 0;
  if_ (bool_decide (n = head)) (put head 1 elm)
    (n ← get listelm 0; put n 1 elm);;
  put listelm 0 elm.

Definition CIRCLEQ_INSERT_BEFORE (head listelm elm : val) : Q unit :=
  put elm 0 listelm;;
  p ← get listelm 1; put elm 1 p;;
  p ← get listelm 1;
  if_ (bool_decide (p = head)) (put head 0 elm)
    (p ← get listelm 1; put p 0 elm);;
  put listelm 1 elm.

Definition CIRCLEQ_INSERT_HEAD (head elm : val) : Q unit :=
  f ← get head 0; put elm 0 f;;
  put elm 1 head;;
  l ← get head 1;
  if_ (bool_decide (l = head)) (put head 1 elm)
    (f ← get head 0; put f 1 elm);;
  put head 0 elm.

Definition CIRCLEQ_INSERT_TAIL (head elm : val) : Q unit :=
  put elm 0 head;;
  l ← get head 1; put elm 1 l;;
  f ← get head 0;
  if_ (bool_decide (f = head)) (put head 0 elm)
    (l ← get head 1; put l 0 elm);;
  put head 1 elm.

Definition CIRCLEQ_REMOVE (head elm : val) : Q unit :=
  n ← get elm 0;
  if_ (bool_decide (n = head)) (p ← get elm 1; put head 1 p)
    (n ← get elm 0; p ← get elm 1; put n 1 p);;
  p ← get elm 1;
  if_ (bool_decide (p = head)) (n ← get elm 0; put head 0 n)
    (p ← get elm 1; n ← get elm 0; put p 0 n).

Definition CIRCLEQ_FOREACH {B} (head : val) (body : val -> B -> Q B) (b : B) : Q B :=
  f ← get head 0; foreach (fun var => get var 0) head body f b.
Definition CIRCLEQ_FOREACH_REVERSE {B} (head : val) (body : val -> B -> Q B) (b : B) : Q B :=
  l ← get head 1; foreach (fun var => get var 1) head body l b.

Definition CIRCLEQ_EMPTY (head : val) : Q bool := f ← get head 0; mret (bool_decide (f = head)).
Definition CIRCLEQ_FIRST (head : val) : Q val := get head 0.
Definition CIRCLEQ_LAST (head : val) : Q val := get head 1.
Definition CIRCLEQ_NEXT (elm : val) : Q val := get elm 0.
Definition CIRCLEQ_PREV (elm : val) : Q val := get elm 1.

Definition CIRCLEQ_LOOP_NEXT (head elm : val) : Q val :=
  n ← get elm 0; if_ (bool_decide (n = head)) (get head 0) (get elm 0).
Definition CIRCLEQ_LOOP_PREV (head elm : val) : Q val :=
  p ← get elm 1; if_ (bool_decide (p = head)) (get head 1) (get elm 1).
