(* ===== verification/QueueSpec.v ===== *)
(** * What the list macros promise

    The abstract state is a map from heads to lists of elements.  [spec_step] says what each
    operation does to it and what it returns; a kind of list implements the operations it
    has, and refines the abstract state when every sequence of operations with a meaning
    runs without undefined behaviour, returns the same and leaves memory that holds the new
    lists ([refines]). *)

From S2P Require Import Prelude Queue.

(** ** Operations *)

Inductive op :=
  | Init (h : positive)
  | InsertHead (h x : positive)
  | InsertTail (h x : positive)
  | InsertAfter (h y x : positive)
  | InsertBefore (h y x : positive)
  | Remove (h x : positive)
  | RemoveHead (h : positive)
  | Concat (h1 h2 : positive)
  | IsEmpty (h : positive)
  | First (h : positive)
  | Last (h : positive)
  | Next (h x : positive)
  | Prev (h x : positive)
  | LoopNext (h x : positive)
  | LoopPrev (h x : positive)
  | Foreach (h : positive)
  | ForeachReverse (h : positive).

(** What an operation returns; the loops visit elements. *)
Inductive obs := Done | OBool (b : bool) | OPtr (p : val) | OVisited (l : list val).

Definition done_ (c : Q unit) : Q obs := c;; mret Done.
Definition obool (c : Q bool) : Q obs := b ← c; mret (OBool b).
Definition optr (c : Q val) : Q obs := p ← c; mret (OPtr p).
(** The body of a loop that notes the elements. *)
Definition visit (var : val) (l : list val) : Q (list val) := mret (l ++ [var]).
Definition ovisited (c : Q (list val)) : Q obs := l ← c; mret (OVisited l).

(** ** The abstract lists *)

Abbreviation lists := (gmap positive (list positive)) (only parsing).

Fixpoint ins_after (y x : positive) (xs : list positive) : list positive :=
  match xs with
  | [] => []
  | z :: zs => if decide (z = y) then z :: x :: zs else z :: ins_after y x zs
  end.
Fixpoint ins_before (y x : positive) (xs : list positive) : list positive :=
  match xs with
  | [] => []
  | z :: zs => if decide (z = y) then x :: z :: zs else z :: ins_before y x zs
  end.
Fixpoint del (x : positive) (xs : list positive) : list positive :=
  match xs with
  | [] => []
  | z :: zs => if decide (z = x) then zs else z :: del x zs
  end.

(** The pointer to the first element of [xs], or [stop]. *)
Definition hdv (xs : list positive) (stop : val) : val :=
  match xs with [] => stop | x :: _ => VObj x end.
Definition lastv (xs : list positive) (stop : val) : val := hdv (reverse xs) stop.
(** The elements behind and in front of [x]. *)
Fixpoint after (x : positive) (xs : list positive) : list positive :=
  match xs with
  | [] => []
  | z :: zs => if decide (z = x) then zs else after x zs
  end.
Definition before (x : positive) (xs : list positive) : list positive := after x (reverse xs).

(** What the pointers behind the last and in front of the first element are. *)
Class Marks := stop : positive -> val.

(** The list an operation works on, and the element it brings along. *)
Definition op_head (o : op) : positive :=
  match o with
  | Init h | InsertHead h _ | InsertTail h _ | InsertAfter h _ _ | InsertBefore h _ _
  | Remove h _ | RemoveHead h | Concat h _ | IsEmpty h | First h | Last h | Next h _
  | Prev h _ | LoopNext h _ | LoopPrev h _ | Foreach h | ForeachReverse h => h
  end.
Definition op_new (o : op) : list positive :=
  match o with
  | InsertHead _ x | InsertTail _ x | InsertAfter _ _ x | InsertBefore _ _ x => [x]
  | _ => []
  end.

Section spec.
Context {MK : Marks} (H E : gset positive).

(** [x] is an element and in no list. *)
Definition free (S : lists) (x : positive) : bool :=
  bool_decide (x ∈ E) && bool_decide (map_Forall (fun _ xs => x ∉ xs) S).

Definition given {A} (x : positive) (xs : list positive) (a : A) : option A :=
  if decide (x ∈ xs) then Some a else None.

(** What an operation makes of its list, and what it returns.  [None]: it has no meaning
    (the element is not there, there is none to remove). *)
Definition spec1 (o : op) (xs : list positive) : option (obs * list positive) :=
  match o with
  | Init _ => None
  | InsertHead _ x => Some (Done, x :: xs)
  | InsertTail _ x => Some (Done, xs ++ [x])
  | InsertAfter _ y x => given y xs (Done, ins_after y x xs)
  | InsertBefore _ y x => given y xs (Done, ins_before y x xs)
  | Remove _ x => given x xs (Done, del x xs)
  | RemoveHead _ => match xs with [] => None | _ :: xs => Some (Done, xs) end
  | Concat _ _ => None
  | IsEmpty _ => Some (OBool (bool_decide (xs = [])), xs)
  | First h => Some (OPtr (hdv xs (stop h)), xs)
  | Last h => Some (OPtr (lastv xs (stop h)), xs)
  | Next h x => given x xs (OPtr (hdv (after x xs) (stop h)), xs)
  | Prev h x => given x xs (OPtr (hdv (before x xs) (stop h)), xs)
  | LoopNext h x => given x xs (OPtr (hdv (after x xs ++ xs) (stop h)), xs)
  | LoopPrev h x => given x xs (OPtr (hdv (before x xs ++ reverse xs) (stop h)), xs)
  | Foreach _ => Some (OVisited (VObj <$> xs), xs)
  | ForeachReverse _ => Some (OVisited (VObj <$> reverse xs), xs)
  end.

(** [Init] makes an empty list of a head, whatever it held. *)
Definition spec_step (o : op) (S : lists) : option (obs * lists) :=
  match o with
  | Init h => if decide (h ∈ H) then Some (Done, <[h := []]> S) else None
  | Concat h1 h2 =>
      if decide (h1 = h2) then None
      else xs1 ← S !! h1; xs2 ← S !! h2; Some (Done, <[h2 := []]> (<[h1 := xs1 ++ xs2]> S))
  | _ =>
      if forallb (free S) (op_new o) then
        xs ← S !! op_head o; '(r, xs') ← spec1 o xs; Some (r, <[op_head o := xs']> S)
      else None
  end.

Fixpoint spec_run (os : list op) (S : lists) : option (list obs * lists) :=
  match os with
  | [] => Some ([], S)
  | o :: os => '(r, S1) ← spec_step o S; '(rs, S2) ← spec_run os S1; Some (r :: rs, S2)
  end.
End spec.

(** ** Kinds of lists *)

Class Kind := {
  kind_marks :: Marks;
  head_words : nat;
  elem_words : nat;
  (* the macro for an operation, if there is one *)
  macro : op -> option (Q obs);
  (* the words of head and elements hold the list *)
  krep : gmap (positive * nat) val -> positive -> list positive -> Prop
}.

Fixpoint run {K : Kind} (os : list op) : Q (list obs) :=
  match os with
  | [] => mret []
  | o :: os =>
      match macro o with
      | None => undefined
      | Some c => r ← c; rs ← run os; mret (r :: rs)
      end
  end.

Definition has_macro {K : Kind} (o : op) : bool :=
  match macro o with Some _ => true | None => false end.

(** The objects have their words. *)
Definition words (n : nat) (X : gset positive) (m : mem) : Prop :=
  forall x i, x ∈ X -> (i < n)%nat -> is_Some (m !! (x, i)).

(** [m] holds the lists [S] of elements of [E] at heads of [H]: each list is there, no
    element is in two of them or twice in one. *)
Record holds {K : Kind} (H E : gset positive) (m : mem) (S : lists) : Prop := {
  holds_heads : words head_words H m;
  holds_elems : words elem_words E m;
  holds_apart : H ## E;
  holds_head h xs : S !! h = Some xs -> h ∈ H;
  holds_elem h xs x : S !! h = Some xs -> x ∈ xs -> x ∈ E;
  holds_nodup h xs : S !! h = Some xs -> NoDup xs;
  holds_disj h h' xs xs' x :
    S !! h = Some xs -> S !! h' = Some xs' -> x ∈ xs -> x ∈ xs' -> h = h';
  holds_rep h xs : S !! h = Some xs -> krep m h xs
}.

Definition refines (K : Kind) : Prop := forall H E os m S r S',
  holds H E m S -> forallb has_macro os = true -> spec_run H E os S = Some (r, S') ->
  exists m', run os m = Some (r, m') /\ holds H E m' S'.

(** Zeroed words for heads and elements. *)
Definition words_of (n : nat) (X : gset positive) : list (positive * nat) :=
  x ← elements X; i ← seq 0 n; [(x, i)].
Definition calloc {K : Kind} (H E : gset positive) : mem :=
  list_to_map ((fun a => (a, VNull)) <$> words_of head_words H ++ words_of elem_words E).

Lemma elem_of_words_of (n : nat) (X : gset positive) (x : positive) (i : nat) : x ∈ X -> (i < n)%nat -> (x, i) ∈ words_of n X.
Proof.
  intros Hx Hi. unfold words_of. apply list_elem_of_bind. exists x.
  rewrite elem_of_elements. split; [|done]. apply list_elem_of_bind. exists i.
  rewrite elem_of_seq. split; [by left | lia].
Qed.

Lemma holds_calloc {K : Kind} (H E : gset positive) : H ## E -> holds H E (calloc H E) ∅.
Proof.
  intros Ha. assert (Hc : forall a, a ∈ words_of head_words H ++ words_of elem_words E ->
    is_Some (calloc H E !! a)).
  { intros a Hin. apply elem_of_dom. unfold calloc. rewrite dom_list_to_map.
    apply elem_of_list_to_set. rewrite <-list_fmap_compose. apply list_elem_of_fmap. by exists a. }
  split; try done.
  - intros x i Hx Hi. apply Hc, elem_of_app. left. by apply elem_of_words_of.
  - intros x i Hx Hi. apply Hc, elem_of_app. right. by apply elem_of_words_of.
Qed.

(** ** From one list to all *)

(** The words changed are those of the objects [l]; none is made or lost. *)
Definition local (l : list positive) (m m' : mem) : Prop :=
  forall a, (is_Some (m !! a) -> is_Some (m' !! a)) /\ (a.1 ∉ l -> m' !! a = m !! a).

(** [c] runs from [m] to a result and a memory that satisfy [P]. *)
Definition qwp {A} (c : Q A) (m : mem) (P : A -> mem -> Prop) : Prop :=
  match c m with Some (a, m') => P a m' | None => False end.

Lemma qwp_mono {A} (c : Q A) (m : mem) (P P' : A -> mem -> Prop) :
  qwp c m P -> (forall r m', P r m' -> P' r m') -> qwp c m P'.
Proof. unfold qwp. destruct (c m) as [[r m']|]; auto. Qed.

(** What each kind has to show: its macros on one list, or on two. *)
Class KindLaws (K : Kind) : Prop := {
  (* the list depends on the words of its objects only *)
  krep_local m m' h xs :
    (forall a, a.1 ∈ h :: xs -> m' !! a = m !! a) -> krep m h xs -> krep m' h xs;
  macro_ok o c m h xs r xs' :
    macro o = Some c -> op_head o = h -> spec1 o xs = Some (r, xs') ->
    krep m h xs -> NoDup (h :: op_new o ++ xs) ->
    (forall i, (i < head_words)%nat -> is_Some (m !! (h, i))) ->
    (forall x i, x ∈ op_new o ++ xs -> (i < elem_words)%nat -> is_Some (m !! (x, i))) ->
    qwp c m (fun r' m' => r' = r /\ krep m' h xs' /\ local (h :: op_new o ++ xs) m m');
  init_ok c m h :
    macro (Init h) = Some c -> (forall i, (i < head_words)%nat -> is_Some (m !! (h, i))) ->
    qwp c m (fun r' m' => r' = Done /\ krep m' h [] /\ local [h] m m');
  concat_ok c m h1 h2 xs1 xs2 :
    macro (Concat h1 h2) = Some c -> krep m h1 xs1 -> krep m h2 xs2 ->
    NoDup (h1 :: h2 :: xs1 ++ xs2) ->
    qwp c m (fun r' m' => r' = Done /\ krep m' h1 (xs1 ++ xs2) /\ krep m' h2 [] /\
      local (h1 :: h2 :: xs1 ++ xs2) m m')
}.

Section lift.
Context {K : Kind} {HK : KindLaws K} (H E : gset positive).

Lemma words_local (n : nat) (X : gset positive) (l : list positive) (m m' : mem) : local l m m' -> words n X m -> words n X m'.
Proof. intros Hl Hw x i Hx Hi. apply Hl. by apply Hw. Qed.

Lemma free_spec S x : free E S x = true -> x ∈ E /\ forall h xs, S !! h = Some xs -> x ∉ xs.
Proof.
  unfold free. intros [H1%bool_decide_eq_true H2%bool_decide_eq_true]%andb_true_iff.
  split; [done|]. exact H2.
Qed.

Lemma head_not_elem m S h xs x :
  holds H E m S -> S !! h = Some xs -> x ∈ E -> h <> x.
Proof.
  intros Hm Hh Hx ->. pose proof (holds_apart _ _ _ _ Hm) as Ha. apply holds_head with (1 := Hm) in Hh.
  set_solver.
Qed.

Lemma holds_other m m' S h h' xs xs' l :
  holds H E m S -> local l m m' -> S !! h = Some xs -> S !! h' = Some xs' -> h <> h' ->
  (forall x, x ∈ l -> x = h \/ x ∈ xs \/ free E S x = true) -> krep m' h' xs'.
Proof.
  intros Hm Hl Hh Hh' Hne Hx. eapply krep_local; [|by eapply holds_rep].
  intros a Ha. apply Hl. intros Hin. apply elem_of_cons in Ha.
  destruct (Hx _ Hin) as [Hq|[Hq|Hq]], Ha as [Ha|Ha].
  - congruence.
  - rewrite Hq in Ha. apply (head_not_elem m S h xs h Hm Hh); [exact (holds_elem _ _ _ _ Hm h' xs' h Hh' Ha) | done].
  - rewrite Ha in Hq. apply (head_not_elem m S h' xs' h' Hm Hh'); [exact (holds_elem _ _ _ _ Hm h xs h' Hh Hq) | done].
  - apply Hne. by eapply holds_disj.
  - apply free_spec in Hq as [Hq _]. rewrite Ha in Hq. by apply (head_not_elem m S h' xs' h' Hm Hh').
  - apply free_spec in Hq as [_ Hq]. by apply (Hq h' xs').
Qed.

(** One list changes. *)
Lemma holds_update m m' S h xs xs' l :
  holds H E m S -> S !! h = Some xs -> local l m m' -> krep m' h xs' -> NoDup xs' ->
  (forall x, x ∈ l -> x = h \/ x ∈ xs \/ free E S x = true) ->
  (forall x, x ∈ xs' -> x ∈ xs \/ free E S x = true) ->
  holds H E m' (<[h := xs']> S).
Proof.
  intros Hm Hh Hl Hr Hnd Hobj Hnew.
  assert (Hel : forall x, x ∈ xs' -> x ∈ E).
  { intros x [Hx|Hx]%Hnew; [by eapply holds_elem | by apply free_spec in Hx as [Hx _]]. }
  assert (Hdis : forall h2 ys x, h <> h2 -> S !! h2 = Some ys -> x ∈ xs' -> x ∉ ys).
  { intros h2 ys x Hne Hy [Hx|Hx]%Hnew Hin.
    - apply Hne. by eapply holds_disj.
    - apply free_spec in Hx as [_ Hx]. by eapply Hx. }
  split; try by destruct Hm; auto.
  - by eapply words_local, holds_heads.
  - by eapply words_local, holds_elems.
  - intros h2 ys [[<- <-]|[Hne Hy]]%lookup_insert_Some; by eapply holds_head.
  - intros h2 ys x [[<- <-]|[Hne Hy]]%lookup_insert_Some Hx; [auto | by eapply holds_elem].
  - intros h2 ys [[<- <-]|[Hne Hy]]%lookup_insert_Some; [done | by eapply holds_nodup].
  - intros h2 h3 ys zs x [[<- <-]|[Hne Hy]]%lookup_insert_Some
      [[<- <-]|[Hne' Hz]]%lookup_insert_Some Hxy Hxz; try done.
    + by destruct (Hdis h3 zs x).
    + by destruct (Hdis h2 ys x).
    + exact (holds_disj _ _ _ _ Hm h2 h3 ys zs x Hy Hz Hxy Hxz).
  - intros h2 ys [[<- <-]|[Hne Hy]]%lookup_insert_Some; [done|].
    by eapply (holds_other m m' S h h2).
Qed.

(** A list begins anew. *)
Lemma holds_init m m' S h :
  holds H E m S -> h ∈ H -> local [h] m m' -> krep m' h [] -> holds H E m' (<[h := []]> S).
Proof.
  intros Hm Hh Hl Hr. split; try by destruct Hm; auto.
  - by eapply words_local, holds_heads.
  - by eapply words_local, holds_elems.
  - intros h2 ys [[<- <-]|[Hne Hy]]%lookup_insert_Some; [done | by eapply holds_head].
  - intros h2 ys x [[<- <-]|[Hne Hy]]%lookup_insert_Some Hx;
      [by apply not_elem_of_nil in Hx | by eapply holds_elem].
  - intros h2 ys [[<- <-]|[Hne Hy]]%lookup_insert_Some; [constructor | by eapply holds_nodup].
  - intros h2 h3 ys zs x [[<- <-]|[Hne Hy]]%lookup_insert_Some
      [[<- <-]|[Hne' Hz]]%lookup_insert_Some Hxy Hxz; try done;
      try (by apply not_elem_of_nil in Hxy); try (by apply not_elem_of_nil in Hxz).
    exact (holds_disj _ _ _ _ Hm h2 h3 ys zs x Hy Hz Hxy Hxz).
  - intros h2 ys [[<- <-]|[Hne Hy]]%lookup_insert_Some; [done|].
    eapply krep_local; [|by eapply holds_rep]. intros a Ha. apply Hl.
    intros Hin%list_elem_of_singleton. rewrite Hin in Ha. apply elem_of_cons in Ha as [->|Ha]; [done|].
    apply (holds_elem _ _ _ _ Hm h2 ys h Hy) in Ha. pose proof (holds_apart _ _ _ _ Hm). set_solver.
Qed.

(** Two lists become one. *)
Lemma holds_concat m m' S h1 h2 xs1 xs2 :
  holds H E m S -> S !! h1 = Some xs1 -> S !! h2 = Some xs2 -> h1 <> h2 ->
  local (h1 :: h2 :: xs1 ++ xs2) m m' -> krep m' h1 (xs1 ++ xs2) -> krep m' h2 [] ->
  holds H E m' (<[h2 := []]> (<[h1 := xs1 ++ xs2]> S)).
Proof.
  intros Hm H1 H2 Hne Hl Hr1 Hr2.
  assert (Hall : forall h ys, (<[h2 := []]> (<[h1 := xs1 ++ xs2]> S)) !! h = Some ys ->
    (h = h2 /\ ys = []) \/ (h = h1 /\ ys = xs1 ++ xs2) \/
    (h <> h1 /\ h <> h2 /\ S !! h = Some ys)).
  { intros h ys [[-> <-]|[Hn [[-> <-]|[Hn' Hy]]%lookup_insert_Some]]%lookup_insert_Some; auto 6. }
  assert (Hdis : forall h ys x, h <> h1 -> h <> h2 -> S !! h = Some ys -> x ∈ xs1 ++ xs2 -> x ∉ ys).
  { intros h ys x Hn1 Hn2 Hy [Hx|Hx]%elem_of_app Hin.
    - apply Hn1. exact (holds_disj _ _ _ _ Hm h h1 ys xs1 x Hy H1 Hin Hx).
    - apply Hn2. exact (holds_disj _ _ _ _ Hm h h2 ys xs2 x Hy H2 Hin Hx). }
  assert (Hhead : forall h ys, (<[h2 := []]> (<[h1 := xs1 ++ xs2]> S)) !! h = Some ys -> h ∈ H).
  { intros h ys [[-> ->]|[[-> ->]|(_ & _ & Hy)]]%Hall; by eapply holds_head. }
  split.
  - by eapply words_local, holds_heads.
  - by eapply words_local, holds_elems.
  - by eapply holds_apart.
  - exact Hhead.
  - intros h ys x [[-> ->]|[[-> ->]|(_ & _ & Hy)]]%Hall Hx; [by apply not_elem_of_nil in Hx | |].
    + apply elem_of_app in Hx as [Hx|Hx];
        [exact (holds_elem _ _ _ _ Hm h1 xs1 x H1 Hx) | exact (holds_elem _ _ _ _ Hm h2 xs2 x H2 Hx)].
    + exact (holds_elem _ _ _ _ Hm h ys x Hy Hx).
  - intros h ys [[-> ->]|[[-> ->]|(_ & _ & Hy)]]%Hall; [constructor | | by eapply holds_nodup].
    apply NoDup_app. split_and!; [by eapply holds_nodup | | by eapply holds_nodup].
    intros x Hx1 Hx2. apply Hne. exact (holds_disj _ _ _ _ Hm h1 h2 xs1 xs2 x H1 H2 Hx1 Hx2).
  - intros h h' ys zs x [[-> ->]|[[-> ->]|(Hn1 & Hn2 & Hy)]]%Hall
      [[-> ->]|[[-> ->]|(Hn1' & Hn2' & Hz)]]%Hall Hx Hx'; try done;
      try (by apply not_elem_of_nil in Hx); try (by apply not_elem_of_nil in Hx').
    + by destruct (Hdis h' zs x).
    + by destruct (Hdis h ys x).
    + exact (holds_disj _ _ _ _ Hm h h' ys zs x Hy Hz Hx Hx').
  - intros h ys [[-> ->]|[[-> ->]|(Hn1 & Hn2 & Hy)]]%Hall; [done | done |].
    eapply krep_local; [|by eapply holds_rep]. intros a Ha. apply Hl. intros Hin.
    assert (Hae : forall z, z ∈ xs1 ++ xs2 -> z ∈ E /\ z ∉ ys).
    { intros z Hz. split; [|by eapply Hdis]. apply elem_of_app in Hz as [Hz|Hz].
      - exact (holds_elem _ _ _ _ Hm h1 xs1 z H1 Hz).
      - exact (holds_elem _ _ _ _ Hm h2 xs2 z H2 Hz). }
    apply elem_of_cons in Ha as [Ha|Ha].
    + apply elem_of_cons in Hin as [Hq|Hin]; [congruence|].
      apply elem_of_cons in Hin as [Hq|Hin]; [congruence|]. apply Hae in Hin as [Hin _].
      rewrite Ha in Hin. by apply (head_not_elem m S h ys h Hm Hy).
    + assert (Ha' : a.1 ∈ E) by exact (holds_elem _ _ _ _ Hm h ys a.1 Hy Ha).
      apply elem_of_cons in Hin as [Hq|Hin];
        [rewrite Hq in Ha'; by apply (head_not_elem m S h1 xs1 h1 Hm H1)|].
      apply elem_of_cons in Hin as [Hq|Hin];
        [rewrite Hq in Ha'; by apply (head_not_elem m S h2 xs2 h2 Hm H2)|].
      by apply Hae in Hin as [_ Hin].
Qed.
End lift.

(** ** The abstract lists keep their elements apart *)

Lemma elem_of_split_nodup (x : positive) xs :
  x ∈ xs -> NoDup xs -> exists xs1 xs2, xs = xs1 ++ x :: xs2 /\ (x ∉ xs1) /\ (x ∉ xs2).
Proof.
  intros (xs1 & xs2 & ->)%list_elem_of_split Hnd. exists xs1, xs2. split; [done|].
  apply NoDup_app in Hnd as (_ & Hd & [Hx _]%NoDup_cons). split; [|done].
  intros Hin. apply (Hd x Hin). by left.
Qed.

Lemma ins_after_split y x xs1 xs2 :
  y ∉ xs1 -> ins_after y x (xs1 ++ y :: xs2) = xs1 ++ y :: x :: xs2.
Proof.
  induction xs1 as [|z xs1 IH]; cbn; [by rewrite decide_True|].
  intros [Hz Hy]%not_elem_of_cons. rewrite decide_False by done. by rewrite IH.
Qed.

Lemma ins_before_split y x xs1 xs2 :
  y ∉ xs1 -> ins_before y x (xs1 ++ y :: xs2) = xs1 ++ x :: y :: xs2.
Proof.
  induction xs1 as [|z xs1 IH]; cbn; [by rewrite decide_True|].
  intros [Hz Hy]%not_elem_of_cons. rewrite decide_False by done. by rewrite IH.
Qed.

Lemma del_split x xs1 xs2 : x ∉ xs1 -> del x (xs1 ++ x :: xs2) = xs1 ++ xs2.
Proof.
  induction xs1 as [|z xs1 IH]; cbn; [by rewrite decide_True|].
  intros [Hz Hy]%not_elem_of_cons. rewrite decide_False by done. by rewrite IH.
Qed.

Lemma after_split x xs1 xs2 : x ∉ xs1 -> after x (xs1 ++ x :: xs2) = xs2.
Proof.
  induction xs1 as [|z xs1 IH]; cbn; [by rewrite decide_True|].
  intros [Hz Hy]%not_elem_of_cons. rewrite decide_False by done. by rewrite IH.
Qed.

Lemma before_split x xs1 xs2 : x ∉ xs2 -> before x (xs1 ++ x :: xs2) = reverse xs1.
Proof.
  intros H. unfold before. rewrite reverse_app, reverse_cons, <-app_assoc.
  apply after_split. by rewrite elem_of_reverse.
Qed.

(** The new list has elements of the old one and the new one only, each once. *)
Lemma spec1_objs `{!Marks} o xs r xs' :
  spec1 o xs = Some (r, xs') -> NoDup (op_new o ++ xs) ->
  NoDup xs' /\ forall x, x ∈ xs' -> x ∈ op_new o ++ xs.
Proof.
  intros Hs Hnd. destruct o; cbn [spec1 op_new app] in *; unfold given in *;
    try case_decide; simplify_eq; try (split; [done | auto]; fail).
  - assert (Hp : xs ++ [x] ≡ₚ x :: xs) by (by rewrite Permutation_app_comm).
    split; [by rewrite Hp | intros z; by rewrite Hp].
  - apply NoDup_cons in Hnd as [Hx Hnd]. destruct (elem_of_split_nodup y xs) as (xs1 & xs2 & -> & Hy & _);
      [done | done |]. rewrite ins_after_split by done.
    assert (Hp : xs1 ++ y :: x :: xs2 ≡ₚ x :: xs1 ++ y :: xs2)
      by (rewrite <-!Permutation_middle; apply Permutation_swap).
    split; [rewrite Hp; by apply NoDup_cons | intros z; by rewrite Hp].
  - apply NoDup_cons in Hnd as [Hx Hnd]. destruct (elem_of_split_nodup y xs) as (xs1 & xs2 & -> & Hy & _);
      [done | done |]. rewrite ins_before_split by done.
    assert (Hp : xs1 ++ x :: y :: xs2 ≡ₚ x :: xs1 ++ y :: xs2)
      by (by rewrite <-!Permutation_middle).
    split; [rewrite Hp; by apply NoDup_cons | intros z; by rewrite Hp].
  - destruct (elem_of_split_nodup x xs) as (xs1 & xs2 & -> & Hy & _); [done | done |].
    rewrite del_split by done.
    assert (Hp : xs1 ++ x :: xs2 ≡ₚ x :: xs1 ++ xs2) by (by rewrite Permutation_middle).
    split; [rewrite Hp in Hnd; by apply NoDup_cons in Hnd as [_ Hnd] | intros z Hz; rewrite Hp; by right].
  - destruct xs as [|z xs]; simplify_eq. apply NoDup_cons in Hnd as [_ Hnd].
    split; [done | intros y Hy; by right].
Qed.

(** ** Refinement *)

Lemma step_refines {K : Kind} {HK : KindLaws K} H E o c m S r S' :
  holds H E m S -> macro o = Some c -> spec_step H E o S = Some (r, S') ->
  exists m', c m = Some (r, m') /\ holds H E m' S'.
Proof.
  intros Hm Hc Hs.
  assert (Hq : qwp c m (fun r' m' => r' = r /\ holds H E m' S')).
  2: { unfold qwp in Hq. destruct (c m) as [[r' m']|]; [|done]. destruct Hq as [-> Hq].
       by exists m'. }
  assert (Hone : (if forallb (free E S) (op_new o) then
        xs ← S !! op_head o; '(r, xs') ← spec1 o xs; Some (r, <[op_head o := xs']> S)
      else None) = Some (r, S') -> qwp c m (fun r' m' => r' = r /\ holds H E m' S')).
  { clear Hs. intros Hs. destruct (forallb (free E S) (op_new o)) eqn:Hf; [|done].
    apply bind_Some in Hs as (xs & Hxs & Hs). apply bind_Some in Hs as ([r' xs'] & Hsp & Hs).
    simplify_eq. rewrite forallb_forall in Hf.
    assert (Hnew : forall x, x ∈ op_new o -> free E S x = true)
      by (intros x Hx; by apply Hf, list_elem_of_In).
    assert (Hnd : NoDup (op_new o ++ xs)).
    { apply NoDup_app. split_and!; [destruct o; cbn; repeat constructor; apply not_elem_of_nil | |
        by eapply holds_nodup].
      intros x Hx%Hnew. apply free_spec in Hx as [_ Hx]. by eapply Hx. }
    assert (Hel : forall x, x ∈ op_new o ++ xs -> x ∈ E).
    { intros x [Hx%Hnew|Hx]%elem_of_app; [by apply free_spec in Hx as [Hx _]|].
      by eapply holds_elem. }
    assert (Hh : op_head o ∉ op_new o ++ xs).
    { intros Hin%Hel. by apply (head_not_elem H E m S _ _ _ Hm Hxs Hin). }
    pose proof (macro_ok o c m (op_head o) xs r xs' Hc eq_refl Hsp) as Hok.
    unfold qwp in *. destruct (c m) as [[r1 m1]|].
    2: { apply Hok; [by eapply holds_rep | by apply NoDup_cons | |].
         - intros i. eapply holds_heads; [done|]. by eapply holds_head.
         - intros x i Hx. eapply holds_elems; [done | auto]. }
    destruct Hok as (-> & Hr & Hl).
    - by eapply holds_rep.
    - by apply NoDup_cons.
    - intros i. eapply holds_heads; [done|]. by eapply holds_head.
    - intros x i Hx. eapply holds_elems; [done | auto].
    - split; [done|]. destruct (spec1_objs _ _ _ _ Hsp Hnd) as [Hnd' Hin].
      eapply holds_update; [done | done | exact Hl | done | done | |].
      + intros x [->|[Hx|Hx]%elem_of_app]%elem_of_cons; auto.
      + intros x [Hx|Hx]%Hin%elem_of_app; auto. }
  destruct o; try exact (Hone Hs); clear Hone; cbn [spec_step] in Hs.
  { case_decide as Hh; [|done]. simplify_eq.
    eapply qwp_mono; [apply (init_ok c m h Hc)|].
    - intros i. by eapply holds_heads.
    - intros r' m' (-> & Hr & Hl). split; [done|]. by eapply holds_init. }
  case_decide as Hne; [done|].
  apply bind_Some in Hs as (xs1 & H1 & Hs). apply bind_Some in Hs as (xs2 & H2 & Hs). simplify_eq.
  pose proof (concat_ok c m h1 h2 xs1 xs2 Hc (holds_rep _ _ _ _ Hm _ _ H1)
    (holds_rep _ _ _ _ Hm _ _ H2)) as Hok.
  assert (Hnd : NoDup (h1 :: h2 :: xs1 ++ xs2)).
  { assert (Hel : forall x, x ∈ xs1 ++ xs2 -> x ∈ E).
    { intros x [Hx|Hx]%elem_of_app; [exact (holds_elem _ _ _ _ Hm h1 xs1 x H1 Hx) |
        exact (holds_elem _ _ _ _ Hm h2 xs2 x H2 Hx)]. }
    apply NoDup_cons. split.
    - intros [?|Hin%Hel]%elem_of_cons; [done|]. by apply (head_not_elem H E m S _ _ _ Hm H1 Hin).
    - apply NoDup_cons. split.
      + intros Hin%Hel. by apply (head_not_elem H E m S _ _ _ Hm H2 Hin).
      + apply NoDup_app. split_and!; [by eapply holds_nodup | | by eapply holds_nodup].
        intros x Hx1 Hx2. apply Hne. exact (holds_disj _ _ _ _ Hm h1 h2 xs1 xs2 x H1 H2 Hx1 Hx2). }
  specialize (Hok Hnd). unfold qwp in *. destruct (c m) as [[r1 m1]|]; [|done].
  destruct Hok as (-> & Hr1 & Hr2 & Hl). split; [done|]. by eapply holds_concat.
Qed.

Lemma laws_refine (K : Kind) : KindLaws K -> refines K.
Proof.
  intros HK H E os. induction os as [|o os IH]; intros m S r S' Hm Hmac Hs.
  { cbn in Hs. simplify_eq. by exists m. }
  cbn [forallb] in Hmac. apply andb_true_iff in Hmac as [Ho Hmac]. cbn [spec_run] in Hs.
  apply bind_Some in Hs as ([r1 S1] & Hs1 & Hs). apply bind_Some in Hs as ([rs S2] & Hs2 & Hs).
  simplify_eq. unfold has_macro in Ho. cbn [run]. destruct (macro o) as [c|] eqn:Hc; [|done].
  destruct (step_refines H E o c m S r1 S1 Hm Hc Hs1) as (m1 & Hc1 & Hm1).
  destruct (IH m1 S1 rs S' Hm1 Hmac Hs2) as (m2 & Hc2 & Hm2).
  exists m2. split; [|done]. unfold mbind, Q_bind. by rewrite Hc1, Hc2.
Qed.
