(* ===== verification/QueueLemmas.v ===== *)
(** * Chains of links

    The words that hold a list, as predicates over one word of every object, and how they
    change when an element is put in or taken out; rules for computations on links. *)

From S2P Require Import Prelude Queue QueueSpec.

(** The last object of [a :: xs]. *)
Fixpoint lst (a : positive) (xs : list positive) : positive :=
  match xs with [] => a | x :: xs => lst x xs end.

(** From word [i] of [a] on, the words [i] lead through [xs] to [v]. *)
Fixpoint chain (i : nat) (m : mem) (a : positive) (xs : list positive) (v : val) : Prop :=
  match xs with
  | [] => m !! (a, i) = Some v
  | x :: xs => m !! (a, i) = Some (VObj x) /\ chain i m x xs v
  end.

(** Word 1 of every element points to the word that points to the element. *)
Fixpoint backs (m : mem) (a : positive) (xs : list positive) : Prop :=
  match xs with
  | [] => True
  | x :: xs => m !! (x, 1) = Some (VSlot a) /\ backs m x xs
  end.

Implicit Types (m : gmap (positive * nat) val) (a x y z : positive) (xs ys : list positive)
  (i : nat) (v w : val).

Lemma lst_app a xs ys : lst a (xs ++ ys) = lst (lst a xs) ys.
Proof. revert a. induction xs as [|x xs IH]; intros a; cbn; [done | apply IH]. Qed.

Lemma lst_in a xs : lst a xs ∈ a :: xs.
Proof.
  revert a. induction xs as [|x xs IH]; intros a; cbn; [by left|]. right. apply IH.
Qed.

(** Of objects without repetition the last one is not among those behind. *)
Lemma lst_not_in a xs ys : NoDup (a :: xs ++ ys) -> lst a xs ∉ ys.
Proof.
  intros Hnd Hin. rewrite app_comm_cons in Hnd. apply NoDup_app in Hnd as (_ & Hd & _).
  exact (Hd _ (lst_in a xs) Hin).
Qed.

Lemma lst_snoc_nodup a xs : xs <> [] -> NoDup (a :: xs) -> lst a xs <> a.
Proof.
  destruct xs as [|x xs]; [done|]. intros _ Hnd Heq. apply NoDup_cons in Hnd as [Ha _].
  apply Ha. rewrite <-Heq at 1. cbn. apply lst_in.
Qed.

Section chain.
Context (i : nat).

Lemma chain_app m a xs y ys v :
  chain i m a (xs ++ y :: ys) v <-> chain i m a xs (VObj y) /\ chain i m y ys v.
Proof.
  revert a. induction xs as [|x xs IH]; intros a; cbn; [done|]. rewrite IH. tauto.
Qed.

Lemma chain_last m a xs v : chain i m a xs v -> m !! (lst a xs, i) = Some v.
Proof. revert a. induction xs as [|x xs IH]; intros a; cbn; [done|]. intros [_ H]. by apply IH. Qed.

Lemma chain_first m a xs v : chain i m a xs v -> m !! (a, i) = Some (hdv xs v).
Proof. destruct xs as [|x xs]; cbn; [done | tauto]. Qed.

Lemma chain_at m a xs1 x xs2 v :
  chain i m a (xs1 ++ x :: xs2) v ->
  m !! (lst a xs1, i) = Some (VObj x) /\ m !! (x, i) = Some (hdv xs2 v).
Proof. rewrite chain_app. intros [H1%chain_last H2%chain_first]. done. Qed.

Lemma chain_ext m m' a xs v :
  (forall z, z ∈ a :: xs -> m' !! (z, i) = m !! (z, i)) -> chain i m a xs v -> chain i m' a xs v.
Proof.
  revert a. induction xs as [|x xs IH]; intros a Hm; cbn.
  - intros <-. apply Hm. by left.
  - intros [<- H]. split; [apply Hm; by left|]. apply IH; [|done]. intros z Hz. apply Hm. by right.
Qed.

(** All but the last word stays. *)
Lemma chain_upd m m' a xs v w :
  NoDup (a :: xs) -> (forall z, z ∈ a :: xs -> z <> lst a xs -> m' !! (z, i) = m !! (z, i)) ->
  m' !! (lst a xs, i) = Some w -> chain i m a xs v -> chain i m' a xs w.
Proof.
  revert a. induction xs as [|x xs IH]; intros a Hnd Hm Hw; cbn; [done|].
  intros [<- H]. pose proof Hnd as [Ha Hnd']%NoDup_cons. split.
  - apply Hm; [by left|]. cbn. intros ->. apply Ha, lst_in.
  - apply IH; auto. intros z Hz. apply Hm. by right.
Qed.

Lemma chain_insert m m' a xs1 x xs2 v :
  NoDup (a :: xs1 ++ xs2) ->
  (forall z, z ∈ a :: xs1 ++ xs2 -> z <> lst a xs1 -> m' !! (z, i) = m !! (z, i)) ->
  m' !! (lst a xs1, i) = Some (VObj x) -> m' !! (x, i) = Some (hdv xs2 v) ->
  chain i m a (xs1 ++ xs2) v -> chain i m' a (xs1 ++ x :: xs2) v.
Proof.
  intros Hnd Hm Hl Hx Hc. apply chain_app. rewrite app_comm_cons in Hnd.
  pose proof Hnd as (Hnd1 & Hdis & _)%NoDup_app. destruct xs2 as [|y ys].
  - rewrite app_nil_r in *. split; [|done]. by eapply chain_upd.
  - apply chain_app in Hc as [Hc1 Hc2]. split; [|split; [done|]].
    + eapply chain_upd; [done | | done | exact Hc1]. intros z Hz. apply Hm.
      rewrite app_comm_cons. apply elem_of_app. by left.
    + eapply chain_ext; [|exact Hc2]. intros z Hz. apply Hm.
      * rewrite app_comm_cons. apply elem_of_app. by right.
      * intros ->. exact (Hdis _ (lst_in a xs1) Hz).
Qed.

Lemma chain_delete m m' a xs1 x xs2 v :
  NoDup (a :: xs1 ++ x :: xs2) ->
  (forall z, z ∈ a :: xs1 ++ xs2 -> z <> lst a xs1 -> m' !! (z, i) = m !! (z, i)) ->
  m' !! (lst a xs1, i) = Some (hdv xs2 v) ->
  chain i m a (xs1 ++ x :: xs2) v -> chain i m' a (xs1 ++ xs2) v.
Proof.
  intros Hnd Hm Hl [Hc1 Hc2]%chain_app. rewrite app_comm_cons in Hnd.
  pose proof Hnd as (Hnd1 & Hdis & _)%NoDup_app. destruct xs2 as [|y ys].
  - rewrite app_nil_r in *. by eapply chain_upd.
  - destruct Hc2 as [_ Hc2]. apply chain_app. split.
    + eapply chain_upd; [done | | done | exact Hc1]. intros z Hz. apply Hm.
      rewrite app_comm_cons. apply elem_of_app. by left.
    + eapply chain_ext; [|exact Hc2]. intros z Hz. apply Hm.
      * rewrite app_comm_cons. apply elem_of_app. by right.
      * intros ->. apply (Hdis _ (lst_in a xs1)). by right.
Qed.

(** One chain behind another. *)
Lemma chain_splice m m' a b xs ys v w :
  NoDup (a :: xs) ->
  (forall z, z ∈ a :: xs -> z <> lst a xs -> m' !! (z, i) = m !! (z, i)) ->
  (forall z, z ∈ ys -> m' !! (z, i) = m !! (z, i)) ->
  m' !! (lst a xs, i) = Some (hdv ys w) -> chain i m a xs v -> chain i m b ys w ->
  chain i m' a (xs ++ ys) w.
Proof.
  intros Hnd Hm Hm' Hl Hc Hd. destruct ys as [|y ys].
  - rewrite app_nil_r. by eapply chain_upd.
  - apply chain_app. split; [by eapply chain_upd|]. destruct Hd as [_ Hd].
    by eapply chain_ext.
Qed.

Lemma chain_words m a xs v x : chain i m a xs v -> x ∈ a :: xs -> is_Some (m !! (x, i)).
Proof.
  revert a. induction xs as [|y xs IH]; intros a; cbn.
  - intros H [->|Hx%elem_of_nil]%elem_of_cons; [by eexists | done].
  - intros [H1 H2] [->|Hx]%elem_of_cons; [by eexists | by eapply IH].
Qed.
End chain.

Lemma backs_app m a xs ys : backs m a (xs ++ ys) <-> backs m a xs /\ backs m (lst a xs) ys.
Proof.
  revert a. induction xs as [|x xs IH]; intros a; cbn; [tauto|]. rewrite IH. tauto.
Qed.

Lemma backs_at m a xs1 x xs2 :
  backs m a (xs1 ++ x :: xs2) -> m !! (x, 1) = Some (VSlot (lst a xs1)).
Proof. rewrite backs_app. cbn. tauto. Qed.

Lemma backs_ext m m' a xs :
  (forall z, z ∈ xs -> m' !! (z, 1) = m !! (z, 1)) -> backs m a xs -> backs m' a xs.
Proof.
  revert a. induction xs as [|x xs IH]; intros a Hm; cbn; [done|].
  intros [<- H]. split; [apply Hm; by left|]. apply IH; [|done]. intros z Hz. apply Hm. by right.
Qed.

(** The word of the first element of [xs2]. *)
Definition back_to m xs a : Prop :=
  match xs with [] => True | y :: _ => m !! (y, 1) = Some (VSlot a) end.

Lemma backs_tail m m' a a' ys :
  (forall z, z ∈ tail ys -> m' !! (z, 1) = m !! (z, 1)) -> back_to m' ys a' ->
  backs m a ys -> backs m' a' ys.
Proof. destruct ys as [|y ys]; cbn; [done|]. intros Hm Hy [_ H]. split; [done|]. by eapply backs_ext. Qed.

Lemma backs_insert m m' a xs1 x xs2 :
  (forall z, z ∈ xs1 ++ tail xs2 -> m' !! (z, 1) = m !! (z, 1)) ->
  m' !! (x, 1) = Some (VSlot (lst a xs1)) -> back_to m' xs2 x ->
  backs m a (xs1 ++ xs2) -> backs m' a (xs1 ++ x :: xs2).
Proof.
  intros Hm Hx Hy. rewrite !backs_app. intros [H1 H2]. split; [|split; [done|]].
  - eapply backs_ext; [|done]. intros z Hz. apply Hm, elem_of_app. by left.
  - eapply backs_tail; [|done|done]. intros z Hz. apply Hm, elem_of_app. by right.
Qed.

Lemma backs_delete m m' a xs1 x xs2 :
  (forall z, z ∈ xs1 ++ tail xs2 -> m' !! (z, 1) = m !! (z, 1)) ->
  back_to m' xs2 (lst a xs1) ->
  backs m a (xs1 ++ x :: xs2) -> backs m' a (xs1 ++ xs2).
Proof.
  intros Hm Hy. rewrite !backs_app. cbn. intros (H1 & _ & H2). split.
  - eapply backs_ext; [|done]. intros z Hz. apply Hm, elem_of_app. by left.
  - eapply backs_tail; [|done|done]. intros z Hz. apply Hm, elem_of_app. by right.
Qed.

(** ** Rules *)

Lemma qwp_ret {A} (r : A) m (P : A -> mem -> Prop) : P r m -> qwp (mret r) m P.
Proof. done. Qed.

Lemma qwp_bind {A B} (c : Q A) (k : A -> Q B) m P :
  qwp c m (fun r m' => qwp (k r) m' P) -> qwp (c ≫= k) m P.
Proof. unfold qwp, mbind, Q_bind. destruct (c m) as [[r m']|]; done. Qed.

Lemma qwp_get m x i v (P : val -> mem -> Prop) :
  m !! (x, i) = Some v -> P v m -> qwp (get (VObj x) i) m P.
Proof. unfold qwp, get, load. by intros ->. Qed.

Lemma qwp_put m x i v (P : unit -> mem -> Prop) :
  is_Some (m !! (x, i)) -> P tt (<[(x, i) := v]> m) -> qwp (put (VObj x) i v) m P.
Proof. unfold qwp, put, store. by intros [w ->]. Qed.

Lemma qwp_get_at m x v (P : val -> mem -> Prop) :
  m !! (x, 0) = Some v -> P v m -> qwp (get_at (VSlot x)) m P.
Proof. unfold qwp, get_at, load. by intros ->. Qed.

Lemma qwp_put_at m x v (P : unit -> mem -> Prop) :
  is_Some (m !! (x, 0)) -> P tt (<[(x, 0) := v]> m) -> qwp (put_at (VSlot x) v) m P.
Proof. unfold qwp, put_at, store. by intros [w ->]. Qed.

(** ** Loops *)

(** The loop visits the chain in order and leaves memory alone when its body does; [xs] is no
    longer than the fuel. *)
Lemma for_loop_chain {B} (next : val -> Q val) (stop : val) (body : val -> B -> Q B)
    (f : B -> positive -> B) m xs fuel b :
  (length xs <= fuel)%nat ->
  (forall x, x ∈ xs -> VObj x <> stop) ->
  (forall x c, x ∈ xs -> body (VObj x) c m = Some (f c x, m)) ->
  (forall xs1 x xs2, xs = xs1 ++ x :: xs2 -> next (VObj x) m = Some (hdv xs2 stop, m)) ->
  for_loop fuel next stop body (hdv xs stop) b m = Some (foldl f b xs, m).
Proof.
  revert fuel b. induction xs as [|x xs IH]; intros fuel b Hlen Hstop Hbody Hnext.
  { destruct fuel; cbn [for_loop hdv]; by rewrite bool_decide_true. }
  destruct fuel as [|fuel]; cbn in Hlen; [lia|]. cbn [for_loop hdv foldl].
  rewrite bool_decide_false by (apply Hstop; by left).
  unfold mbind, Q_bind. rewrite Hbody by by left. rewrite (Hnext [] x xs eq_refl).
  apply IH; [lia | intros; apply Hstop; by right | intros; apply Hbody; by right |].
  intros xs1 y xs2 ->. apply (Hnext (x :: xs1) y xs2). done.
Qed.

Lemma nodup_size (X : list (positive * nat)) m :
  NoDup X -> (forall k, k ∈ X -> is_Some (m !! k)) -> (length X <= size m)%nat.
Proof.
  intros Hnd Hm. rewrite <-(size_dom (D := gset (positive * nat))).
  rewrite <-(size_list_to_set (C := gset (positive * nat)) X) by done.
  apply subseteq_size. intros k Hk. apply elem_of_list_to_set in Hk. apply elem_of_dom. by apply Hm.
Qed.

Lemma chain_size i m a xs v : chain i m a xs v -> NoDup (a :: xs) -> (length xs < size m)%nat.
Proof.
  intros Hc Hnd. assert (Hs : (length ((fun x => (x, i)) <$> a :: xs) <= size m)%nat).
  { apply nodup_size; [by apply NoDup_fmap; [intros x y [=]|]|].
    intros k (x & -> & Hx)%list_elem_of_fmap. by eapply chain_words. }
  rewrite length_fmap in Hs. cbn in Hs. lia.
Qed.

(** The search of an element ends at the one in front of it. *)
Lemma find_loop_chain m a xs x ys v fuel :
  chain 0 m a (xs ++ x :: ys) v -> x ∉ xs -> (length xs <= fuel)%nat ->
  find_loop fuel (VObj x) (VObj a) m = Some (VObj (lst a xs), m).
Proof.
  revert a fuel. induction xs as [|y xs IH]; intros a fuel Hc Hx Hlen.
  - destruct Hc as [Ha _]. destruct fuel; cbn [find_loop]; unfold mbind, Q_bind, get, load;
      rewrite Ha; by rewrite bool_decide_true.
  - destruct Hc as [Ha Hc]. apply not_elem_of_cons in Hx as [Hxy Hx].
    destruct fuel as [|fuel]; cbn in Hlen; [lia|].
    cbn [find_loop]. unfold mbind, Q_bind, get, load. rewrite Ha.
    rewrite bool_decide_false by congruence. rewrite Ha. apply IH; [done | done | lia].
Qed.

(** ** Tactics *)

(** A word of memory behind stores to other words. *)
Ltac look :=
  repeat first [ rewrite lookup_insert_eq | rewrite lookup_insert_ne by congruence ];
  first [ eassumption | reflexivity | by eexists | eexists; eassumption ].

Ltac q_step :=
  lazymatch goal with
  | |- qwp (_ ≫= _) _ _ => apply qwp_bind
  | |- qwp (mret _) _ _ => apply qwp_ret
  | |- qwp (get (VObj _) _) _ _ => eapply qwp_get; [solve [look]|]
  | |- qwp (put (VObj _) _ _) _ _ => apply qwp_put; [solve [look]|]
  | |- qwp (get_at (VSlot _)) _ _ => eapply qwp_get_at; [solve [look]|]
  | |- qwp (put_at (VSlot _) _) _ _ => apply qwp_put_at; [solve [look]|]
  | |- qwp (when_ true _) _ _ => cbn [when_]
  | |- qwp (when_ false _) _ _ => cbn [when_]
  | |- qwp (if_ true _ _) _ _ => cbn [if_]
  | |- qwp (if_ false _ _) _ _ => cbn [if_]
  | |- context [is_null VNull] => change (is_null VNull) with true; cbn [negb]
  | |- context [is_null (VObj ?x)] => change (is_null (VObj x)) with false; cbn [negb]
  | |- qwp (done_ _) _ _ => unfold done_
  | |- qwp (obool _) _ _ => unfold obool
  | |- qwp (optr _) _ _ => unfold optr
  | |- qwp (ovisited _) _ _ => unfold ovisited
  | |- qwp (get (as_head (VSlot _)) _) _ _ => cbn [as_head]
  | |- qwp (put_at (slot (VObj _)) _) _ _ => cbn [slot]
  end.
Ltac q_steps := repeat q_step.

(** Stores to words of the objects of a list. *)
Lemma local_refl l m : local l m m.
Proof. done. Qed.
Lemma local_insert (l : list positive) (m m' : gmap (positive * nat) val) x i v :
  x ∈ l -> local l m m' -> local l m (<[(x, i) := v]> m').
Proof.
  intros Hx Hl a. destruct (Hl a) as [H1 H2]. split.
  - intros Ha. rewrite lookup_insert. case_decide; [by eexists | auto].
  - intros Ha. rewrite lookup_insert_ne; [auto | by intros <-].
Qed.

(** Membership in the lists of objects that occur. *)
Ltac objs :=
  try match goal with |- lst ?a ?xs ∈ _ => pose proof (lst_in a xs) end; set_solver.
Ltac local_solve := repeat (apply local_insert; [solve [objs]|]); apply local_refl.

(** Words of other objects than those stored to. *)
Ltac keep :=
  intros; rewrite !lookup_insert_ne by first [congruence | intros [=]; subst; set_solver]; done.

(** ** Laws from facts about macros *)

#[export] Instance null_marks : Marks := fun _ => VNull.

(** Emptiness as the macros test it. *)
Lemma is_null_hdv xs : is_null (hdv xs VNull) = bool_decide (xs = []).
Proof. by destruct xs. Qed.

Lemma fold_visit (l : list val) xs :
  foldl (fun l x => l ++ [VObj x]) l xs = l ++ (VObj <$> xs).
Proof.
  revert l. induction xs as [|x xs IH]; intros l; cbn; [by rewrite app_nil_r|].
  by rewrite IH, <-app_assoc.
Qed.

(** The loops that follow word 0 to NULL. *)
Lemma foreach_chain m h xs :
  chain 0 m h xs VNull -> NoDup (h :: xs) ->
  foreach (fun var => get var 0) VNull visit (hdv xs VNull) [] m = Some (VObj <$> xs, m).
Proof.
  intros Hc Hnd. unfold foreach.
  rewrite (for_loop_chain _ _ _ (fun l x => l ++ [VObj x]) m xs); try done.
  - by rewrite fold_visit.
  - pose proof (chain_size 0 _ _ _ _ Hc Hnd). lia.
  - intros xs1 x xs2 ->. apply chain_at in Hc as [_ Hc]. unfold get, load. by rewrite Hc.
Qed.

(** The two ways to see a list with an element [x]. *)
Lemma given_split {A} x xs (a b : A) :
  NoDup xs -> given x xs a = Some b ->
  a = b /\ exists xs1 xs2, xs = xs1 ++ x :: xs2 /\ (x ∉ xs1) /\ (x ∉ xs2).
Proof.
  intros Hnd. unfold given. case_decide as Hx; [|done]. intros [= ->]. split; [done|].
  by apply elem_of_split_nodup.
Qed.

(** Laws from facts about single macros. *)
Section laws.
Context {K : Kind} (h : positive) (objs : list positive) (m : gmap (positive * nat) val).

Lemma done_ok (c : Q unit) xs' :
  qwp c m (fun _ m' => krep m' h xs' /\ local (h :: objs) m m') ->
  qwp (done_ c) m (fun r' m' => r' = Done /\ krep m' h xs' /\ local (h :: objs) m m').
Proof. intros H. apply qwp_bind. eapply qwp_mono; [exact H|]. intros [] m' ?. by apply qwp_ret. Qed.

Lemma init_done (c : Q unit) :
  qwp c m (fun _ m' => krep m' h [] /\ local [h] m m') ->
  qwp (done_ c) m (fun r' m' => r' = Done /\ krep m' h [] /\ local [h] m m').
Proof. intros H. apply qwp_bind. eapply qwp_mono; [exact H|]. intros [] m' ?. by apply qwp_ret. Qed.

Lemma query_ok (c : Q obs) r xs :
  krep m h xs -> c m = Some (r, m) ->
  qwp c m (fun r' m' => r' = r /\ krep m' h xs /\ local (h :: objs) m m').
Proof. unfold qwp. intros Hk ->. done. Qed.

Lemma optr_ok (c : Q val) v xs :
  krep m h xs -> c m = Some (v, m) ->
  qwp (optr c) m (fun r' m' => r' = OPtr v /\ krep m' h xs /\ local (h :: objs) m m').
Proof. intros Hk Hc. apply query_ok; [done|]. unfold optr, mbind, Q_bind. by rewrite Hc. Qed.

Lemma obool_ok (c : Q bool) b xs :
  krep m h xs -> c m = Some (b, m) ->
  qwp (obool c) m (fun r' m' => r' = OBool b /\ krep m' h xs /\ local (h :: objs) m m').
Proof. intros Hk Hc. apply query_ok; [done|]. unfold obool, mbind, Q_bind. by rewrite Hc. Qed.

Lemma ovisited_ok (c : Q (list val)) l xs :
  krep m h xs -> c m = Some (l, m) ->
  qwp (ovisited c) m (fun r' m' => r' = OVisited l /\ krep m' h xs /\ local (h :: objs) m m').
Proof. intros Hk Hc. apply query_ok; [done|]. unfold ovisited, mbind, Q_bind. by rewrite Hc. Qed.
End laws.

(** The queries of all kinds that follow word 0 to NULL. *)
Lemma first_null m h xs : chain 0 m h xs VNull -> get (VObj h) 0 m = Some (hdv xs VNull, m).
Proof. intros H%chain_first. unfold get, load. by rewrite H. Qed.

Lemma empty_null m h xs :
  chain 0 m h xs VNull -> (f ← get (VObj h) 0; mret (is_null f)) m = Some (bool_decide (xs = []), m).
Proof. intros H%first_null. unfold mbind, Q_bind. by rewrite H, is_null_hdv. Qed.

Lemma next_null m h xs1 x xs2 :
  chain 0 m h (xs1 ++ x :: xs2) VNull -> get (VObj x) 0 m = Some (hdv xs2 VNull, m).
Proof. intros [_ H]%chain_at. unfold get, load. by rewrite H. Qed.

Lemma foreach_null m h xs :
  chain 0 m h xs VNull -> NoDup (h :: xs) ->
  (f ← get (VObj h) 0; foreach (fun var => get var 0) VNull visit f []) m = Some (VObj <$> xs, m).
Proof.
  intros Hc Hnd. unfold mbind at 1, Q_bind. rewrite (first_null _ _ _ Hc).
  by eapply foreach_chain.
Qed.

(** Facts about the objects of a list without repetition. *)
Ltac nodup H :=
  repeat match type of H with
  | context [(?xs ++ ?ys) ++ ?zs] => rewrite <-(app_assoc xs ys zs) in H
  end;
  let H' := fresh "Hnd" in pose proof H as H';
  rewrite ?NoDup_cons, ?NoDup_app, ?NoDup_cons, ?not_elem_of_cons, ?not_elem_of_app,
    ?not_elem_of_cons in H';
  destruct_and? H'.

Lemma hdv_null xs : is_null (hdv xs VNull) = match xs with [] => true | _ => false end.
Proof. by destruct xs. Qed.

(** Two heads and their elements are all different. *)
Lemma nodup_heads h1 h2 xs1 xs2 :
  NoDup (h1 :: h2 :: xs1 ++ xs2) ->
  h1 <> h2 /\ NoDup (h1 :: xs1) /\ lst h1 xs1 <> h2 /\ (lst h1 xs1 ∉ xs2) /\
  (forall z, z ∈ xs2 -> z <> h1 /\ z <> h2 /\ z <> lst h1 xs1) /\
  (forall z, z ∈ h1 :: xs1 -> z <> h2).
Proof.
  intros [H1 [H2 H3]%NoDup_cons]%NoDup_cons.
  rewrite not_elem_of_cons, not_elem_of_app in H1. rewrite not_elem_of_app in H2.
  destruct H1 as (H1 & H4 & H5), H2 as [H6 H7].
  assert (Hl : lst h1 xs1 ∉ xs2).
  { apply lst_not_in, NoDup_cons. split; [by apply not_elem_of_app | done]. }
  assert (Hh : forall z, z ∈ h1 :: xs1 -> z <> h2) by (intros z [->|Hz]%elem_of_cons ->; done).
  apply NoDup_app in H3 as (H8 & _ & _). split_and!; try done.
  - by apply NoDup_cons.
  - apply Hh, lst_in.
  - intros z Hz. split_and!; intros ->; done.
Qed.

(** The cases of a law: the list is split at the element that is named. *)
Ltac law_cases o Hc Hh Hs Hnd :=
  let Hndx := fresh "Hndx" in
  pose proof Hnd as Hndx; apply NoDup_cons in Hndx as [_ Hndx];
  apply NoDup_app in Hndx as (_ & _ & Hndx);
  destruct o; cbn [op_head] in Hh; simplify_eq;
  first [discriminate Hc | injection Hc as <-]; cbn [spec1 op_new app] in *;
  try (apply given_split in Hs as (Hs & ?xs1 & ?xs2 & -> & ?Hn1 & ?Hn2); [|exact Hndx]);
  simplify_eq;
  rewrite ?ins_after_split, ?ins_before_split, ?del_split, ?after_split, ?before_split by done;
  try apply done_ok.

