(* ===== verification/QueueSingly.v ===== *)
(** * Singly-linked lists and queues refine lists

    SLIST, STAILQ and SIMPLEQ: elements with a link to the next one only. *)

From S2P Require Import Prelude Queue QueueSpec QueueLemmas.

(** ** SLIST *)

Definition slist_macro (o : op) : option (Q obs) :=
  match o with
  | Init h => Some (done_ (SLIST_INIT (VObj h)))
  | InsertHead h x => Some (done_ (SLIST_INSERT_HEAD (VObj h) (VObj x)))
  | InsertAfter _ y x => Some (done_ (SLIST_INSERT_AFTER (VObj y) (VObj x)))
  | Remove h x => Some (done_ (SLIST_REMOVE (VObj h) (VObj x)))
  | RemoveHead h => Some (done_ (SLIST_REMOVE_HEAD (VObj h)))
  | IsEmpty h => Some (obool (SLIST_EMPTY (VObj h)))
  | First h => Some (optr (SLIST_FIRST (VObj h)))
  | Next _ x => Some (optr (SLIST_NEXT (VObj x)))
  | Foreach h => Some (ovisited (SLIST_FOREACH (VObj h) visit []))
  | _ => None
  end.

Definition SLIST : Kind := {|
  kind_marks := null_marks; head_words := 1; elem_words := 1; macro := slist_macro;
  krep m h xs := chain 0 m h xs VNull
|}.

Section slist.
Context (m : gmap (positive * nat) val) (h x : positive) (Hx : is_Some (m !! (x, 0))).

Lemma slist_insert_head xs :
  chain 0 m h xs VNull -> NoDup (h :: x :: xs) ->
  qwp (SLIST_INSERT_HEAD (VObj h) (VObj x)) m (fun _ m' =>
    chain 0 m' h (x :: xs) VNull /\ local (h :: x :: xs) m m').
Proof.
  intros Hc Hnd. nodup Hnd. pose proof (chain_first _ _ _ _ _ Hc) as Hh.
  unfold SLIST_INSERT_HEAD. q_steps. split; [|local_solve].
  apply (chain_insert 0 m _ h [] x xs); [by apply NoDup_cons | keep | look | look | done].
Qed.

Lemma slist_insert_after xs1 y xs2 :
  chain 0 m h (xs1 ++ y :: xs2) VNull -> NoDup (h :: x :: xs1 ++ y :: xs2) ->
  qwp (SLIST_INSERT_AFTER (VObj y) (VObj x)) m (fun _ m' =>
    chain 0 m' h (xs1 ++ y :: x :: xs2) VNull /\ local (h :: x :: xs1 ++ y :: xs2) m m').
Proof.
  intros Hc Hnd. nodup Hnd. pose proof (chain_at _ _ _ _ _ _ _ Hc) as [Hl Hy].
  unfold SLIST_INSERT_AFTER. q_steps. split; [|local_solve].
  rewrite (cons_middle y xs1 (x :: xs2)) in *. rewrite (cons_middle y xs1 xs2), !app_assoc in *.
  assert (lst h (xs1 ++ [y]) = y) as El by apply lst_app.
  apply (chain_insert 0 m _ h (xs1 ++ [y]) x xs2); rewrite ?El;
    [by apply NoDup_cons in Hnd as [? [_ ?]%NoDup_cons]; apply NoDup_cons; set_solver
    | keep | look | look | done].
Qed.
End slist.

Section slist_remove.
Context (m : gmap (positive * nat) val) (h : positive).

Lemma slist_remove_head x xs :
  chain 0 m h (x :: xs) VNull -> NoDup (h :: x :: xs) ->
  qwp (SLIST_REMOVE_HEAD (VObj h)) m (fun _ m' =>
    chain 0 m' h xs VNull /\ local (h :: x :: xs) m m').
Proof.
  intros Hc Hnd. nodup Hnd. pose proof Hc as [Hh Hc']. pose proof (chain_first _ _ _ _ _ Hc').
  unfold SLIST_REMOVE_HEAD. q_steps. split; [|local_solve].
  apply (chain_delete 0 m _ h [] x xs); [done | keep | look | done].
Qed.

(** The element in front of [x], which is behind the first. *)
Lemma find_before_ok z xs1 x xs2 :
  chain 0 m h (z :: xs1 ++ x :: xs2) VNull -> NoDup (h :: z :: xs1 ++ x :: xs2) ->
  find_before (VObj x) (VObj z) m = Some (VObj (lst z xs1), m).
Proof.
  intros Hc Hnd. unfold find_before. pose proof (chain_size _ _ _ _ _ Hc Hnd) as Hlen.
  destruct Hc as [_ Hc]. nodup Hnd. eapply find_loop_chain; [exact Hc | | ].
  - set_solver.
  - cbn in Hlen. rewrite length_app in Hlen. lia.
Qed.

Lemma slist_remove xs1 x xs2 :
  chain 0 m h (xs1 ++ x :: xs2) VNull -> NoDup (h :: xs1 ++ x :: xs2) ->
  qwp (SLIST_REMOVE (VObj h) (VObj x)) m (fun _ m' =>
    chain 0 m' h (xs1 ++ xs2) VNull /\ local (h :: xs1 ++ x :: xs2) m m').
Proof.
  intros Hc Hnd. unfold SLIST_REMOVE. destruct xs1 as [|z xs1].
  { destruct Hc as [Hh Hc]. do 2 q_step. rewrite bool_decide_true by done.
    by apply slist_remove_head. }
  pose proof (chain_at _ _ _ _ _ _ _ Hc) as [Hl Hx]. cbn [lst] in Hl.
  pose proof (chain_first _ _ _ _ _ Hc) as Hh. cbn in Hh.
  assert (Hzx : z <> x) by (nodup Hnd; set_solver).
  q_steps. rewrite bool_decide_false by congruence. q_steps.
  eapply (qwp_mono _ _ (fun r m' => r = VObj (lst z xs1) /\ m' = m)).
  { unfold qwp. by rewrite (find_before_ok z xs1 x xs2). }
  intros ? ? [-> ->]. q_steps. split.
  - apply (chain_delete 0 m _ h (z :: xs1) x xs2); [done | | look | done].
    intros y Hy Hne. cbn in Hne. by rewrite lookup_insert_ne by congruence.
  - apply local_insert; [|apply local_refl]. pose proof (lst_in z xs1). cbn. set_solver.
Qed.
End slist_remove.

Lemma slist_laws : KindLaws SLIST.
Proof.
  split.
  - intros m m' h xs Hm. apply chain_ext. intros z Hz. by apply Hm.
  - intros o c m h xs r xs' Hc Hh Hs Hk Hnd Hhw Hew. cbn [macro SLIST slist_macro] in Hc.
    law_cases o Hc Hh Hs Hnd;
      match type of Hk with krep ?m ?h ?xs => change (chain 0 m h xs VNull) in Hk end.
    + apply slist_insert_head; [apply Hew; [by left | cbn; lia] | done | done].
    + apply slist_insert_after; [apply Hew; [by left | cbn; lia] | done | done].
    + by apply slist_remove.
    + destruct xs; simplify_eq. by apply done_ok, slist_remove_head.
    + by apply obool_ok, empty_null.
    + by apply optr_ok, first_null.
    + by eapply optr_ok, next_null.
    + by apply ovisited_ok, foreach_null.
  - intros c m h [= <-] Hhw. apply init_done. unfold SLIST_INIT.
    apply qwp_put; [apply Hhw; cbn; lia|]. split; [apply lookup_insert_eq | local_solve].
  - intros c m h1 h2 xs1 xs2 Hc. discriminate Hc.
Qed.

(** SLIST.  From memory that holds disjoint lists, any sequence of INIT, INSERT_HEAD,
    INSERT_AFTER, REMOVE, REMOVE_HEAD, EMPTY, FIRST, NEXT and FOREACH that has a meaning on
    lists runs without following NULL or a pointer to nothing, the search of REMOVE and the
    loop end, the results are those of the lists, and the memory then holds the new lists. *)
Corollary SLIST_refines : refines SLIST.
Proof. exact (laws_refine _ slist_laws). Qed.

Lemma SLIST_refines_witness :
  exists m', run (K := SLIST) [Init 1; InsertHead 1 3; InsertHead 1 4; InsertAfter 1 4 5; Foreach 1;
      Remove 1 3; Init 2; InsertHead 2 3; RemoveHead 1; First 1; Next 1 5; IsEmpty 2]
    (calloc (K := SLIST) {[1; 2]}%positive {[3; 4; 5]}%positive) =
      Some ([Done; Done; Done; Done; OVisited [VObj 4; VObj 5; VObj 3]; Done; Done; Done; Done;
        OPtr (VObj 5); OPtr VNull; OBool false], m') /\
    holds (K := SLIST) {[1; 2]}%positive {[3; 4; 5]}%positive m' {[1 := [5]; 2 := [3]]}%positive.
Proof.
  apply (SLIST_refines {[1; 2]}%positive {[3; 4; 5]}%positive _ _ ∅).
  - apply holds_calloc. set_solver.
  - reflexivity.
  - vm_compute. reflexivity.
Defined.

(** ** STAILQ and SIMPLEQ *)

Definition stailq_macro (o : op) : option (Q obs) :=
  match o with
  | Init h => Some (done_ (STAILQ_INIT (VObj h)))
  | InsertHead h x => Some (done_ (STAILQ_INSERT_HEAD (VObj h) (VObj x)))
  | InsertTail h x => Some (done_ (STAILQ_INSERT_TAIL (VObj h) (VObj x)))
  | InsertAfter h y x => Some (done_ (STAILQ_INSERT_AFTER (VObj h) (VObj y) (VObj x)))
  | Remove h x => Some (done_ (STAILQ_REMOVE (VObj h) (VObj x)))
  | RemoveHead h => Some (done_ (STAILQ_REMOVE_HEAD (VObj h)))
  | Concat h1 h2 => Some (done_ (STAILQ_CONCAT (VObj h1) (VObj h2)))
  | IsEmpty h => Some (obool (STAILQ_EMPTY (VObj h)))
  | First h => Some (optr (STAILQ_FIRST (VObj h)))
  | Next _ x => Some (optr (STAILQ_NEXT (VObj x)))
  | Foreach h => Some (ovisited (STAILQ_FOREACH (VObj h) visit []))
  | _ => None
  end.

Definition simpleq_macro (o : op) : option (Q obs) :=
  match o with
  | Init h => Some (done_ (SIMPLEQ_INIT (VObj h)))
  | InsertHead h x => Some (done_ (SIMPLEQ_INSERT_HEAD (VObj h) (VObj x)))
  | InsertTail h x => Some (done_ (SIMPLEQ_INSERT_TAIL (VObj h) (VObj x)))
  | InsertAfter h y x => Some (done_ (SIMPLEQ_INSERT_AFTER (VObj h) (VObj y) (VObj x)))
  | Remove h x => Some (done_ (SIMPLEQ_REMOVE (VObj h) (VObj x)))
  | RemoveHead h => Some (done_ (SIMPLEQ_REMOVE_HEAD (VObj h)))
  | IsEmpty h => Some (obool (SIMPLEQ_EMPTY (VObj h)))
  | First h => Some (optr (SIMPLEQ_FIRST (VObj h)))
  | Next _ x => Some (optr (SIMPLEQ_NEXT (VObj x)))
  | Foreach h => Some (ovisited (SIMPLEQ_FOREACH (VObj h) visit []))
  | _ => None
  end.

(** Word 1 of the head points to the word that ends the chain. *)
Definition tail_chain (m : mem) (h : positive) (xs : list positive) : Prop :=
  chain 0 m h xs VNull /\ m !! (h, 1) = Some (VSlot (lst h xs)).

Definition STAILQ : Kind := {|
  kind_marks := null_marks; head_words := 2; elem_words := 1; macro := stailq_macro;
  krep := tail_chain
|}.
Definition SIMPLEQ : Kind := {|
  kind_marks := null_marks; head_words := 2; elem_words := 1; macro := simpleq_macro;
  krep := tail_chain
|}.

Lemma tail_chain_ext m m' h xs :
  (forall a, a.1 ∈ h :: xs -> m' !! a = m !! a) -> tail_chain m h xs -> tail_chain m' h xs.
Proof.
  intros Hm [Hc Ht]. split; [eapply chain_ext; [|done]; intros z Hz; by apply Hm|].
  rewrite Hm by by left. done.
Qed.

Lemma stailq_init m h :
  is_Some (m !! (h, 0)) -> is_Some (m !! (h, 1)) ->
  qwp (STAILQ_INIT (VObj h)) m (fun _ m' => tail_chain m' h [] /\ local [h] m m').
Proof.
  intros Hh Hh'. unfold STAILQ_INIT. q_steps. split; [split; cbn [chain lst]; look | local_solve].
Qed.

Section stailq.
Context (m : gmap (positive * nat) val) (h x : positive) (Hx : is_Some (m !! (x, 0))).

Lemma stailq_insert_head xs :
  tail_chain m h xs -> NoDup (h :: x :: xs) ->
  qwp (STAILQ_INSERT_HEAD (VObj h) (VObj x)) m (fun _ m' =>
    tail_chain m' h (x :: xs) /\ local (h :: x :: xs) m m').
Proof.
  intros [Hc Ht] Hnd. nodup Hnd. pose proof (chain_first _ _ _ _ _ Hc) as Hh.
  assert (NoDup (h :: xs)) by by apply NoDup_cons.
  unfold STAILQ_INSERT_HEAD. q_steps. rewrite hdv_null.
  destruct xs as [|z xs]; q_steps; (split; [|local_solve]); split; cbn [hdv] in *.
  - apply (chain_insert 0 m _ h [] x []); [done | keep | look | look | done].
  - look.
  - apply (chain_insert 0 m _ h [] x (z :: xs)); [done | keep | look | look | done].
  - look.
Qed.

Lemma stailq_insert_tail xs :
  tail_chain m h xs -> NoDup (h :: x :: xs) ->
  qwp (STAILQ_INSERT_TAIL (VObj h) (VObj x)) m (fun _ m' =>
    tail_chain m' h (xs ++ [x]) /\ local (h :: x :: xs) m m').
Proof.
  intros [Hc Ht] Hnd. nodup Hnd. pose proof (chain_last _ _ _ _ _ Hc) as Hl.
  pose proof (lst_in h xs) as Hin. assert (lst h xs <> x) by (intros <-; set_solver).
  unfold STAILQ_INSERT_TAIL. q_steps. split; [|local_solve]. split.
  - apply (chain_insert 0 m _ h xs x []); rewrite ?app_nil_r;
      [by apply NoDup_cons | keep | look | look | done].
  - rewrite lst_app. look.
Qed.

Lemma stailq_insert_after xs1 y xs2 :
  tail_chain m h (xs1 ++ y :: xs2) -> NoDup (h :: x :: xs1 ++ y :: xs2) ->
  qwp (STAILQ_INSERT_AFTER (VObj h) (VObj y) (VObj x)) m (fun _ m' =>
    tail_chain m' h (xs1 ++ y :: x :: xs2) /\ local (h :: x :: xs1 ++ y :: xs2) m m').
Proof.
  intros [Hc Ht] Hnd. nodup Hnd. pose proof (chain_at _ _ _ _ _ _ _ Hc) as [Hl Hy].
  rewrite (cons_middle y xs1 (x :: xs2)) in *. rewrite (cons_middle y xs1 xs2), !app_assoc in *.
  assert (lst h (xs1 ++ [y]) = y) as El by apply lst_app.
  assert (Hnd3 : NoDup (h :: (xs1 ++ [y]) ++ xs2))
    by (apply NoDup_cons in Hnd as [? [_ ?]%NoDup_cons]; apply NoDup_cons; set_solver).
  unfold STAILQ_INSERT_AFTER. q_steps. rewrite hdv_null.
  destruct xs2 as [|z zs]; q_steps; (split; [|local_solve]); split; cbn [hdv] in *.
  - apply (chain_insert 0 m _ h (xs1 ++ [y]) x []); rewrite ?El; [done | keep | look | look | done].
  - rewrite lst_app. look.
  - apply (chain_insert 0 m _ h (xs1 ++ [y]) x (z :: zs)); rewrite ?El; [done | keep | look | look | done].
  - rewrite lst_app in *. look.
Qed.
End stailq.

Section stailq_remove.
Context (m : gmap (positive * nat) val) (h : positive).

Lemma stailq_remove_head x xs :
  tail_chain m h (x :: xs) -> NoDup (h :: x :: xs) ->
  qwp (STAILQ_REMOVE_HEAD (VObj h)) m (fun _ m' =>
    tail_chain m' h xs /\ local (h :: x :: xs) m m').
Proof.
  intros [Hc Ht] Hnd. nodup Hnd. pose proof Hc as [Hh Hc'].
  pose proof (chain_first _ _ _ _ _ Hc'). cbn [lst] in Ht.
  unfold STAILQ_REMOVE_HEAD. q_steps. rewrite hdv_null.
  destruct xs as [|z zs]; q_steps; (split; [|local_solve]); split; cbn [hdv lst] in *.
  - apply (chain_delete 0 m _ h [] x []); [done | keep | look | done].
  - look.
  - apply (chain_delete 0 m _ h [] x (z :: zs)); [done | keep | look | done].
  - look.
Qed.

Lemma stailq_remove xs1 x xs2 :
  tail_chain m h (xs1 ++ x :: xs2) -> NoDup (h :: xs1 ++ x :: xs2) ->
  qwp (STAILQ_REMOVE (VObj h) (VObj x)) m (fun _ m' =>
    tail_chain m' h (xs1 ++ xs2) /\ local (h :: xs1 ++ x :: xs2) m m').
Proof.
  intros [Hc Ht] Hnd. unfold STAILQ_REMOVE. destruct xs1 as [|z xs1].
  { pose proof Hc as [Hh _]. do 2 q_step. rewrite bool_decide_true by done.
    by apply stailq_remove_head. }
  pose proof (chain_at _ _ _ _ _ _ _ Hc) as [Hl Hx]. cbn [lst] in Hl.
  pose proof (chain_first _ _ _ _ _ Hc) as Hh. cbn in Hh.
  assert (Hzx : z <> x) by (nodup Hnd; set_solver).
  q_steps. rewrite bool_decide_false by congruence. q_steps.
  eapply (qwp_mono _ _ (fun r m' => r = VObj (lst z xs1) /\ m' = m)).
  { unfold qwp. by rewrite (find_before_ok m h z xs1 x xs2). }
  intros ? ? [-> ->]. pose proof (lst_in z xs1) as Hin.
  assert (lst z xs1 <> h) by (nodup Hnd; intros <-; set_solver).
  q_steps. rewrite hdv_null.
  assert (Hdel : forall m', m' !! (lst h (z :: xs1), 0) = Some (hdv xs2 VNull) ->
    (forall y, y <> lst h (z :: xs1) -> m' !! (y, 0) = m !! (y, 0)) ->
    chain 0 m' h ((z :: xs1) ++ xs2) VNull).
  { intros m' Hm' Hk. apply (chain_delete 0 m _ h (z :: xs1) x xs2); auto. }
  rewrite lst_app in Ht. cbn [lst] in Ht, Hdel.
  destruct xs2 as [|y ys]; q_steps; (split; [split|]); cbn [hdv lst] in *.
  - apply Hdel; [look | keep].
  - rewrite app_nil_r. look.
  - repeat (apply local_insert; [cbn; set_solver|]). apply local_refl.
  - apply Hdel; [look | keep].
  - rewrite lst_app. cbn [lst]. look.
  - repeat (apply local_insert; [cbn; set_solver|]). apply local_refl.
Qed.
End stailq_remove.

Lemma stailq_concat m h1 h2 xs1 xs2 :
  tail_chain m h1 xs1 -> tail_chain m h2 xs2 -> NoDup (h1 :: h2 :: xs1 ++ xs2) ->
  qwp (STAILQ_CONCAT (VObj h1) (VObj h2)) m (fun _ m' =>
    tail_chain m' h1 (xs1 ++ xs2) /\ tail_chain m' h2 [] /\
    local (h1 :: h2 :: xs1 ++ xs2) m m').
Proof.
  intros [Hc1 Ht1] [Hc2 Ht2] Hnd. unfold STAILQ_CONCAT, STAILQ_EMPTY.
  destruct (nodup_heads _ _ _ _ Hnd) as (Hne & Hnd1 & Hl2 & Hl & Hh1 & Hh2).
  pose proof (chain_first _ _ _ _ _ Hc2) as Hf2. pose proof (chain_last _ _ _ _ _ Hc1) as Hl1.
  q_steps. rewrite hdv_null. destruct xs2 as [|y ys]; cbn [negb hdv] in *.
  { q_steps. rewrite app_nil_r. by split_and!. }
  cbn [when_]. unfold STAILQ_INIT. q_steps.
  split; [split | split; [split|]]; cbn [lst] in *.
  - apply (chain_splice 0 m _ h1 h2 xs1 (y :: ys) VNull VNull); try done.
    + intros z Hz Hzl. apply Hh2 in Hz as ?. by rewrite !lookup_insert_ne by congruence.
    + intros z Hz. apply Hh1 in Hz as (? & ? & ?). by rewrite !lookup_insert_ne by congruence.
    + look.
  - rewrite lst_app. look.
  - cbn. look.
  - look.
  - pose proof (lst_in h1 xs1) as Hin. repeat (apply local_insert; [set_solver|]).
    apply local_refl.
Qed.

Lemma stailq_laws : KindLaws STAILQ.
Proof.
  split.
  - intros m m' h xs. apply tail_chain_ext.
  - intros o c m h xs r xs' Hc Hh Hs Hk Hnd Hhw Hew. cbn [macro STAILQ stailq_macro] in Hc.
    law_cases o Hc Hh Hs Hnd;
      match type of Hk with krep ?m ?h ?xs => change (tail_chain m h xs) in Hk end.
    + apply stailq_insert_head; [apply Hew; [by left | cbn; lia] | done | done].
    + apply stailq_insert_tail; [apply Hew; [by left | cbn; lia] | done | done].
    + apply stailq_insert_after; [apply Hew; [by left | cbn; lia] | done | done].
    + by apply stailq_remove.
    + destruct xs; simplify_eq. by apply done_ok, stailq_remove_head.
    + apply obool_ok; [done|]. by apply empty_null, Hk.
    + apply optr_ok; [done|]. by apply first_null, Hk.
    + apply optr_ok; [done|]. by eapply next_null, Hk.
    + apply ovisited_ok; [done|]. by apply foreach_null; [apply Hk|].
  - intros c m h [= <-] Hhw. apply init_done, stailq_init; apply Hhw; cbn; lia.
  - intros c m h1 h2 xs1 xs2 [= <-] H1 H2 Hnd. apply qwp_bind.
    eapply qwp_mono; [by apply stailq_concat|]. intros [] m' ?. by apply qwp_ret.
Qed.

(** The macros of both kinds are the same code. *)
Lemma simpleq_laws : KindLaws SIMPLEQ.
Proof.
  split.
  - intros m m' h xs. apply tail_chain_ext.
  - intros o c m h xs r xs' Hc. pose proof stailq_laws as HS.
    apply (macro_ok (K := STAILQ) o c m h xs r xs'). by destruct o.
  - intros c m h [= <-]. by apply (init_ok (K := STAILQ) (KindLaws := stailq_laws) _ m h eq_refl).
  - intros c m h1 h2 xs1 xs2 Hc. discriminate Hc.
Qed.

(** C6: the singly linked lists.  From memory that holds disjoint lists, any sequence of
    operations of SLIST, STAILQ or SIMPLEQ that has a meaning on lists runs without following
    NULL or a pointer to nothing, the search of REMOVE and the loop end, the results are those
    of the lists, and the memory then holds the new lists.  STAILQ and SIMPLEQ, whose heads keep
    the address of the last link, insert at both ends, and STAILQ puts two queues together. *)
Theorem singly_linked_refine : refines SLIST /\ refines STAILQ /\ refines SIMPLEQ.
Proof. repeat apply conj; apply laws_refine; [apply slist_laws | apply stailq_laws | apply simpleq_laws]. Qed.

Lemma singly_linked_refine_witness :
  (exists m', run (K := SLIST) [Init 1; InsertHead 1 3; InsertHead 1 4; InsertAfter 1 4 5; Remove 1 3; First 1]
    (calloc (K := SLIST) {[1]}%positive {[3; 4; 5]}%positive) =
      Some ([Done; Done; Done; Done; Done; OPtr (VObj 4)], m') /\
    holds (K := SLIST) {[1]}%positive {[3; 4; 5]}%positive m' {[1 := [4; 5]]}%positive) /\
  (exists m', run (K := STAILQ) [Init 1; InsertTail 1 3; InsertTail 1 4; Remove 1 4; InsertTail 1 5;
      Init 2; InsertHead 2 4; Concat 1 2; InsertTail 2 6; InsertTail 1 7; Foreach 1; IsEmpty 2]
    (calloc (K := STAILQ) {[1; 2]}%positive {[3; 4; 5; 6; 7]}%positive) =
      Some ([Done; Done; Done; Done; Done; Done; Done; Done; Done; Done;
        OVisited [VObj 3; VObj 5; VObj 4; VObj 7]; OBool false], m') /\
    holds (K := STAILQ) {[1; 2]}%positive {[3; 4; 5; 6; 7]}%positive m' {[1 := [3; 5; 4; 7]; 2 := [6]]}%positive) /\
  (exists m', run (K := SIMPLEQ) [Init 1; InsertTail 1 3; InsertAfter 1 3 4; RemoveHead 1; RemoveHead 1;
      InsertTail 1 5; Foreach 1] (calloc (K := SIMPLEQ) {[1]}%positive {[3; 4; 5]}%positive) =
      Some ([Done; Done; Done; Done; Done; Done; OVisited [VObj 5]], m') /\
    holds (K := SIMPLEQ) {[1]}%positive {[3; 4; 5]}%positive m' {[1 := [5]]}%positive).
Proof.
  split; [|split].
  - apply (proj1 singly_linked_refine {[1]}%positive {[3; 4; 5]}%positive _ _ ∅);
      [apply holds_calloc; set_solver | reflexivity | vm_compute; reflexivity].
  - apply (proj1 (proj2 singly_linked_refine) {[1; 2]}%positive {[3; 4; 5; 6; 7]}%positive _ _ ∅);
      [apply holds_calloc; set_solver | reflexivity | vm_compute; reflexivity].
  - apply (proj2 (proj2 singly_linked_refine) {[1]}%positive {[3; 4; 5]}%positive _ _ ∅);
      [apply holds_calloc; set_solver | reflexivity | vm_compute; reflexivity].
Defined.
