(* ===== verification/QueueDoubly.v ===== *)
(** * Doubly-linked lists and queues refine lists

    LIST and TAILQ, whose elements point back to the word that points to them, and CIRCLEQ,
    whose head is a member of the circle. *)

From S2P Require Import Prelude Queue QueueSpec QueueLemmas.

Implicit Types (m : gmap (positive * nat) val) (h x y z : positive) (xs ys : list positive).

(** Where an element goes in or comes out, and what it differs from. *)
Record place (h : positive) (xs1 : list positive) (x : positive) (xs2 : list positive) : Prop := {
  place_nodup : NoDup (h :: xs1 ++ xs2);
  place_head : h ∉ xs1 ++ xs2;
  place_new : x ∉ h :: xs1 ++ xs2;
  place_lst : lst h xs1 <> x;
  place_lst2 : lst h xs1 ∉ xs2;
  place_hd y ys : xs2 = y :: ys -> y ∉ xs1 ++ ys
}.

Lemma nodup_place h x xs1 xs2 : NoDup (h :: x :: xs1 ++ xs2) -> place h xs1 x xs2.
Proof.
  intros [H1 [H2 H3]%NoDup_cons]%NoDup_cons. rewrite not_elem_of_cons in H1.
  destruct H1 as [H0 H1]. assert (Hnd : NoDup (h :: xs1 ++ xs2)) by by apply NoDup_cons.
  assert (Hx : x ∉ h :: xs1 ++ xs2) by by apply not_elem_of_cons.
  split; [done | done | done | | by apply lst_not_in |].
  - intros <-. apply Hx. rewrite app_comm_cons. apply elem_of_app. left. apply lst_in.
  - intros y ys -> Hin. rewrite Permutation_app_comm in H3. cbn in H3.
    apply NoDup_cons in H3 as [H3 _]. apply H3. by rewrite Permutation_app_comm.
Qed.

Lemma nodup_place_remove h x xs1 xs2 : NoDup (h :: xs1 ++ x :: xs2) -> place h xs1 x xs2.
Proof.
  intros Hnd. apply nodup_place. by rewrite Permutation_middle.
Qed.

(** Words that stores to other objects leave. *)
Ltac others P :=
  intros; repeat (rewrite lookup_insert_ne by first
    [congruence | intros [=]; subst; pose proof (place_new _ _ _ _ P); pose proof (place_head _ _ _ _ P);
                  set_solver]); done.

(** ** LIST *)

Definition list_macro (o : op) : option (Q obs) :=
  match o with
  | Init h => Some (done_ (LIST_INIT (VObj h)))
  | InsertHead h x => Some (done_ (LIST_INSERT_HEAD (VObj h) (VObj x)))
  | InsertAfter _ y x => Some (done_ (LIST_INSERT_AFTER (VObj y) (VObj x)))
  | InsertBefore _ y x => Some (done_ (LIST_INSERT_BEFORE (VObj y) (VObj x)))
  | Remove _ x => Some (done_ (LIST_REMOVE (VObj x)))
  | IsEmpty h => Some (obool (LIST_EMPTY (VObj h)))
  | First h => Some (optr (LIST_FIRST (VObj h)))
  | Next _ x => Some (optr (LIST_NEXT (VObj x)))
  | Foreach h => Some (ovisited (LIST_FOREACH (VObj h) visit []))
  | _ => None
  end.

Definition linked (m : mem) (h : positive) (xs : list positive) : Prop :=
  chain 0 m h xs VNull /\ backs m h xs.

Definition LIST : Kind := {|
  kind_marks := null_marks; head_words := 1; elem_words := 2; macro := list_macro;
  krep := linked
|}.

(** After a store, [x] is between [xs1] and [xs2]. *)
Lemma linked_insert m m' h xs1 x xs2 :
  place h xs1 x xs2 -> linked m h (xs1 ++ xs2) ->
  (forall z, z ∈ h :: xs1 ++ xs2 -> z <> lst h xs1 -> m' !! (z, 0) = m !! (z, 0)) ->
  (forall z, z ∈ xs1 ++ tail xs2 -> m' !! (z, 1) = m !! (z, 1)) ->
  m' !! (lst h xs1, 0) = Some (VObj x) -> m' !! (x, 0) = Some (hdv xs2 VNull) ->
  m' !! (x, 1) = Some (VSlot (lst h xs1)) -> back_to m' xs2 x ->
  linked m' h (xs1 ++ x :: xs2).
Proof.
  intros P [Hc Hb] H0 H1 H2 H3 H4 H5. split.
  - eapply chain_insert; eauto. apply P.
  - by eapply backs_insert.
Qed.

Lemma linked_delete m m' h xs1 x xs2 :
  NoDup (h :: xs1 ++ x :: xs2) -> linked m h (xs1 ++ x :: xs2) ->
  (forall z, z ∈ h :: xs1 ++ xs2 -> z <> lst h xs1 -> m' !! (z, 0) = m !! (z, 0)) ->
  (forall z, z ∈ xs1 ++ tail xs2 -> m' !! (z, 1) = m !! (z, 1)) ->
  m' !! (lst h xs1, 0) = Some (hdv xs2 VNull) -> back_to m' xs2 (lst h xs1) ->
  linked m' h (xs1 ++ xs2).
Proof.
  intros P [Hc Hb] H0 H1 H2 H3. split.
  - by eapply chain_delete.
  - by eapply backs_delete.
Qed.

Section list.
Context (m : gmap (positive * nat) val) (h x : positive).
Context (Hx0 : is_Some (m !! (x, 0))) (Hx1 : is_Some (m !! (x, 1))).

(** The stores of an insertion behind [a], the last of [h :: xs1]. *)
Lemma list_insert_at xs1 xs2 a :
  lst h xs1 = a -> linked m h (xs1 ++ xs2) -> NoDup (h :: x :: xs1 ++ xs2) ->
  qwp (LIST_INSERT_AFTER (VObj a) (VObj x)) m (fun _ m' =>
    linked m' h (xs1 ++ x :: xs2) /\ local (h :: x :: xs1 ++ xs2) m m').
Proof.
  intros Ha Hk Hnd. pose proof (nodup_place _ _ _ _ Hnd) as P.
  pose proof (place_lst _ _ _ _ P) as Hax. pose proof (place_lst2 _ _ _ _ P) as Ha2.
  pose proof Hk as [Hc Hb].
  assert (Hl : m !! (lst h xs1, 0) = Some (hdv xs2 VNull)).
  { destruct xs2 as [|y ys]; [rewrite app_nil_r in Hc; by apply chain_last in Hc|].
    by apply chain_at in Hc as [Hc _]. }
  pose proof (lst_in h xs1) as Hin. rewrite Ha in *. unfold LIST_INSERT_AFTER.
  destruct xs2 as [|y ys]; cbn [hdv] in Hl.
  - q_steps. split; [|local_solve].
    apply (linked_insert m); rewrite ?Ha; [done | done | others P | others P | look | look | look | done].
  - pose proof (backs_at _ _ _ _ _ Hb) as Hy1. rewrite Ha in Hy1.
    pose proof (place_hd _ _ _ _ P y ys eq_refl) as Hy.
    assert (y <> x) by (pose proof (place_new _ _ _ _ P); set_solver).
    assert (y <> a) by set_solver.
    q_steps. split; [|local_solve].
    apply (linked_insert m); rewrite ?Ha; [done | done | others P | others P | look | look | look | cbn; look].
Qed.

Lemma list_insert_before xs1 y ys :
  linked m h (xs1 ++ y :: ys) -> NoDup (h :: x :: xs1 ++ y :: ys) ->
  qwp (LIST_INSERT_BEFORE (VObj y) (VObj x)) m (fun _ m' =>
    linked m' h (xs1 ++ x :: y :: ys) /\ local (h :: x :: xs1 ++ y :: ys) m m').
Proof.
  intros Hk Hnd. pose proof (nodup_place _ _ _ _ Hnd) as P.
  pose proof (place_lst _ _ _ _ P) as Hax. pose proof (place_lst2 _ _ _ _ P) as Ha2.
  pose proof (place_hd _ _ _ _ P y ys eq_refl) as Hy. pose proof Hk as [Hc Hb].
  apply chain_at in Hc as [Hl Hy0]. pose proof (backs_at _ _ _ _ _ Hb) as Hy1.
  pose proof (lst_in h xs1) as Hin.
  assert (y <> x) by (pose proof (place_new _ _ _ _ P); set_solver).
  assert (lst h xs1 <> y) by set_solver.
  unfold LIST_INSERT_BEFORE. q_steps. split; [|local_solve].
  apply (linked_insert m); [done | done | others P | others P | look | look | look | cbn; look].
Qed.
End list.

Lemma list_remove m h xs1 x xs2 :
  linked m h (xs1 ++ x :: xs2) -> NoDup (h :: xs1 ++ x :: xs2) ->
  qwp (LIST_REMOVE (VObj x)) m (fun _ m' =>
    linked m' h (xs1 ++ xs2) /\ local (h :: xs1 ++ x :: xs2) m m').
Proof.
  intros Hk Hnd. pose proof (nodup_place_remove _ _ _ _ Hnd) as P.
  pose proof (place_lst _ _ _ _ P) as Hax. pose proof (place_lst2 _ _ _ _ P) as Ha2.
  pose proof Hk as [Hc Hb]. apply chain_at in Hc as [Hl Hx0].
  pose proof (backs_at _ _ _ _ _ Hb) as Hx1. pose proof (lst_in h xs1) as Hin.
  assert (Hin' : lst h xs1 ∈ h :: xs1 ++ x :: xs2) by set_solver.
  unfold LIST_REMOVE. destruct xs2 as [|y ys]; cbn [hdv] in Hx0.
  - q_steps. split; [|repeat (apply local_insert; [done|]); apply local_refl].
    apply (linked_delete m _ h xs1 x []); [done | done | others P | others P | look | done].
  - assert (y <> x) by (pose proof (place_new _ _ _ _ P); set_solver).
    assert (lst h xs1 <> y) by set_solver.
    assert (Hy : is_Some (m !! (y, 1))).
    { rewrite cons_middle, app_assoc in Hb. apply backs_at in Hb. by eexists. }
    pose proof (place_hd _ _ _ _ P y ys eq_refl) as Hyn.
    q_steps. split.
    + apply (linked_delete m _ h xs1 x (y :: ys)); [done | done | others P | others P | look | cbn; look].
    + apply local_insert; [done|]. apply local_insert; [set_solver | apply local_refl].
Qed.

Lemma linked_ext m m' h xs :
  (forall a, a.1 ∈ h :: xs -> m' !! a = m !! a) -> linked m h xs -> linked m' h xs.
Proof.
  intros Hm [Hc Hb]. split.
  - eapply chain_ext; [|done]. intros z Hz. by apply Hm.
  - eapply backs_ext; [|done]. intros z Hz. apply Hm. by right.
Qed.

(** The words of an element that is inserted. *)
Ltac new_words Hew := apply Hew; [by left | cbn; lia].

Lemma list_laws : KindLaws LIST.
Proof.
  split.
  - intros m m' h xs. apply linked_ext.
  - intros o c m h xs r xs' Hc Hh Hs Hk Hnd Hhw Hew. cbn [macro LIST list_macro] in Hc.
    law_cases o Hc Hh Hs Hnd;
      match type of Hk with krep ?m ?h ?xs => change (linked m h xs) in Hk end.
    + apply (list_insert_at m h x ltac:(new_words Hew) ltac:(new_words Hew) [] xs h eq_refl Hk Hnd).
    + pose proof (list_insert_at m h x ltac:(new_words Hew) ltac:(new_words Hew) (xs1 ++ [y]) xs2 y) as Hi.
      rewrite <-!app_assoc in Hi. cbn [app] in Hi. apply Hi; [apply lst_app | done | done].
    + apply list_insert_before; [new_words Hew | new_words Hew | done | done].
    + by apply list_remove.
    + apply obool_ok; [done|]. by apply empty_null, Hk.
    + apply optr_ok; [done|]. by apply first_null, Hk.
    + apply optr_ok; [done|]. by eapply next_null, Hk.
    + apply ovisited_ok; [done|]. by apply foreach_null; [apply Hk|].
  - intros c m h [= <-] Hhw. apply init_done. unfold LIST_INIT.
    apply qwp_put; [apply Hhw; cbn; lia|].
    split; [split; [apply lookup_insert_eq | done] | local_solve].
  - intros c m h1 h2 xs1 xs2 Hc. discriminate Hc.
Qed.

(** LIST.  Any sequence of INIT, INSERT_HEAD, INSERT_AFTER, INSERT_BEFORE, REMOVE, EMPTY,
    FIRST, NEXT and FOREACH that has a meaning on lists runs on memory that holds disjoint
    lists, returns what the lists say and leaves memory that holds the new lists.  REMOVE and
    INSERT_BEFORE are not given the head. *)
Corollary LIST_refines : refines LIST.
Proof. exact (laws_refine _ list_laws). Qed.


(** ** TAILQ *)

Definition tailq_macro (o : op) : option (Q obs) :=
  match o with
  | Init h => Some (done_ (TAILQ_INIT (VObj h)))
  | InsertHead h x => Some (done_ (TAILQ_INSERT_HEAD (VObj h) (VObj x)))
  | InsertTail h x => Some (done_ (TAILQ_INSERT_TAIL (VObj h) (VObj x)))
  | InsertAfter h y x => Some (done_ (TAILQ_INSERT_AFTER (VObj h) (VObj y) (VObj x)))
  | InsertBefore _ y x => Some (done_ (TAILQ_INSERT_BEFORE (VObj y) (VObj x)))
  | Remove h x => Some (done_ (TAILQ_REMOVE (VObj h) (VObj x)))
  | Concat h1 h2 => Some (done_ (TAILQ_CONCAT (VObj h1) (VObj h2)))
  | IsEmpty h => Some (obool (TAILQ_EMPTY (VObj h)))
  | First h => Some (optr (TAILQ_FIRST (VObj h)))
  | Last h => Some (optr (TAILQ_LAST (VObj h)))
  | Next _ x => Some (optr (TAILQ_NEXT (VObj x)))
  | Prev _ x => Some (optr (TAILQ_PREV (VObj x)))
  | Foreach h => Some (ovisited (TAILQ_FOREACH (VObj h) visit []))
  | ForeachReverse h => Some (ovisited (TAILQ_FOREACH_REVERSE (VObj h) visit []))
  | _ => None
  end.

Definition tailq (m : mem) (h : positive) (xs : list positive) : Prop :=
  linked m h xs /\ m !! (h, 1) = Some (VSlot (lst h xs)).

Definition TAILQ : Kind := {|
  kind_marks := null_marks; head_words := 2; elem_words := 2; macro := tailq_macro;
  krep := tailq
|}.

Lemma linked_last m h xs1 xs2 :
  linked m h (xs1 ++ xs2) -> m !! (lst h xs1, 0) = Some (hdv xs2 VNull).
Proof.
  intros [Hc _]. destruct xs2 as [|y ys]; [rewrite app_nil_r in Hc; by apply chain_last in Hc|].
  by apply chain_at in Hc as [Hc _].
Qed.

Section tailq.
Context (m : gmap (positive * nat) val) (h x : positive).
Context (Hx0 : is_Some (m !! (x, 0))) (Hx1 : is_Some (m !! (x, 1))).

Lemma tailq_insert_head xs :
  tailq m h xs -> NoDup (h :: x :: xs) ->
  qwp (TAILQ_INSERT_HEAD (VObj h) (VObj x)) m (fun _ m' =>
    tailq m' h (x :: xs) /\ local (h :: x :: xs) m m').
Proof.
  intros [Hk Ht] Hnd. pose proof (nodup_place h x [] xs Hnd) as P.
  pose proof (place_lst _ _ _ _ P) as Hax. cbn [lst] in Hax.
  pose proof (linked_last m h [] xs Hk) as Hl. cbn [lst] in Hl.
  unfold TAILQ_INSERT_HEAD. destruct xs as [|y ys]; cbn [hdv] in Hl.
  - q_steps. split; [split|local_solve].
    + apply (linked_insert m _ h [] x []);
        [done | done | others P | others P | look | look | look | done].
    + look.
  - pose proof Hk as [_ [Hy1 _]]. pose proof (place_hd _ _ _ _ P y ys eq_refl) as Hyn.
    assert (y <> x) by (pose proof (place_new _ _ _ _ P); set_solver).
    assert (y <> h) by (pose proof (place_head _ _ _ _ P); set_solver).
    q_steps. split; [split|local_solve].
    + apply (linked_insert m _ h [] x (y :: ys));
        [done | done | others P | others P | look | look | look | cbn; look].
    + look.
Qed.

Lemma tailq_insert_tail xs :
  tailq m h xs -> NoDup (h :: x :: xs) ->
  qwp (TAILQ_INSERT_TAIL (VObj h) (VObj x)) m (fun _ m' =>
    tailq m' h (xs ++ [x]) /\ local (h :: x :: xs) m m').
Proof.
  intros [Hk Ht] Hnd. rewrite <-(app_nil_r xs) in Hnd, Hk.
  pose proof (nodup_place h x xs [] Hnd) as P.
  pose proof (place_lst _ _ _ _ P) as Hax. pose proof (linked_last m h xs [] Hk) as Hl.
  pose proof (lst_in h xs) as Hin.
  assert (h <> x) by (pose proof (place_new _ _ _ _ P); set_solver).
  unfold TAILQ_INSERT_TAIL. q_steps. split; [split|local_solve].
  - apply (linked_insert m _ h xs x []);
      [done | done | others P | others P | look | look | look | done].
  - rewrite lst_app. look.
Qed.

Lemma tailq_insert_after xs1 y xs2 :
  tailq m h (xs1 ++ y :: xs2) -> NoDup (h :: x :: xs1 ++ y :: xs2) ->
  qwp (TAILQ_INSERT_AFTER (VObj h) (VObj y) (VObj x)) m (fun _ m' =>
    tailq m' h (xs1 ++ y :: x :: xs2) /\ local (h :: x :: xs1 ++ y :: xs2) m m').
Proof.
  intros [Hk Ht] Hnd. rewrite (cons_middle y xs1 (x :: xs2)).
  rewrite (cons_middle y xs1 xs2), !app_assoc in *. assert (lst h (xs1 ++ [y]) = y) as El by apply lst_app.
  pose proof (nodup_place h x _ xs2 Hnd) as P.
  pose proof (place_lst _ _ _ _ P) as Hax. pose proof (place_lst2 _ _ _ _ P) as Ha2.
  pose proof (linked_last m h _ xs2 Hk) as Hl. rewrite El in *.
  assert (h <> x /\ h <> y) as [Hhx Hhy]
    by (pose proof (place_new _ _ _ _ P); pose proof (place_head _ _ _ _ P); set_solver).
  unfold TAILQ_INSERT_AFTER. destruct xs2 as [|z zs]; cbn [hdv] in Hl.
  - q_steps. split; [split|local_solve].
    + apply (linked_insert m _ h _ x []); rewrite ?El;
        [done | done | others P | others P | look | look | look | done].
    + rewrite lst_app. look.
  - pose proof Hk as [_ Hb]. apply backs_at in Hb as Hz1.
    pose proof (place_hd _ _ _ _ P z zs eq_refl) as Hzn.
    assert (z <> x /\ z <> h /\ z <> y) as (? & ? & ?)
      by (pose proof (place_new _ _ _ _ P); pose proof (place_head _ _ _ _ P); set_solver).
    q_steps. split; [split|local_solve].
    + apply (linked_insert m _ h _ x (z :: zs)); rewrite ?El;
        [done | done | others P | others P | look | look | look | cbn; look].
    + rewrite lst_app in *. look.
Qed.

Lemma tailq_insert_before xs1 y ys :
  tailq m h (xs1 ++ y :: ys) -> NoDup (h :: x :: xs1 ++ y :: ys) ->
  qwp (TAILQ_INSERT_BEFORE (VObj y) (VObj x)) m (fun _ m' =>
    tailq m' h (xs1 ++ x :: y :: ys) /\ local (h :: x :: xs1 ++ y :: ys) m m').
Proof.
  intros [Hk Ht] Hnd. pose proof (nodup_place _ _ _ _ Hnd) as P.
  assert (h <> x /\ h <> y) as [Hhx Hhy] by
    (pose proof (place_new _ _ _ _ P); pose proof (place_head _ _ _ _ P); set_solver).
  pose proof Hk as [Hc Hb]. apply chain_at in Hc as [Hl Hy0]. apply backs_at in Hb as Hy1.
  pose proof (place_lst _ _ _ _ P) as Hax. pose proof (place_lst2 _ _ _ _ P) as Ha2.
  pose proof (place_hd _ _ _ _ P y ys eq_refl) as Hy. pose proof (lst_in h xs1) as Hin.
  assert (y <> x) by (pose proof (place_new _ _ _ _ P); set_solver).
  assert (lst h xs1 <> y) by set_solver.
  unfold TAILQ_INSERT_BEFORE. q_steps. split; [split|local_solve].
  - apply (linked_insert m); [done | done | others P | others P | look | look | look | cbn; look].
  - rewrite lst_app in *. look.
Qed.
End tailq.

Lemma tailq_remove m h xs1 x xs2 :
  tailq m h (xs1 ++ x :: xs2) -> NoDup (h :: xs1 ++ x :: xs2) ->
  qwp (TAILQ_REMOVE (VObj h) (VObj x)) m (fun _ m' =>
    tailq m' h (xs1 ++ xs2) /\ local (h :: xs1 ++ x :: xs2) m m').
Proof.
  intros [Hk Ht] Hnd. pose proof (nodup_place_remove _ _ _ _ Hnd) as P.
  pose proof (place_lst _ _ _ _ P) as Hax. pose proof (place_lst2 _ _ _ _ P) as Ha2.
  pose proof Hk as [Hc Hb]. apply chain_at in Hc as [Hl Hx0].
  pose proof (backs_at _ _ _ _ _ Hb) as Hx1. pose proof (lst_in h xs1) as Hin.
  assert (Hin' : lst h xs1 ∈ h :: xs1 ++ x :: xs2) by set_solver.
  assert (h <> x) by (pose proof (place_new _ _ _ _ P); set_solver).
  unfold TAILQ_REMOVE. destruct xs2 as [|y ys]; cbn [hdv] in Hx0.
  - q_steps. split; [split|].
    + apply (linked_delete m _ h xs1 x []); [done | done | others P | others P | look | done].
    + rewrite app_nil_r. look.
    + repeat (apply local_insert; [first [done | by left]|]). apply local_refl.
  - assert (y <> x /\ y <> h) as [? ?] by
      (pose proof (place_new _ _ _ _ P); pose proof (place_head _ _ _ _ P); set_solver).
    assert (lst h xs1 <> y) by set_solver.
    assert (Hy : is_Some (m !! (y, 1))).
    { rewrite cons_middle, app_assoc in Hb. apply backs_at in Hb. by eexists. }
    pose proof (place_hd _ _ _ _ P y ys eq_refl) as Hyn.
    q_steps. split; [split|].
    + apply (linked_delete m _ h xs1 x (y :: ys)); [done | done | others P | others P | look | cbn; look].
    + rewrite lst_app in *. cbn [lst] in Ht |- *. look.
    + apply local_insert; [done|]. apply local_insert; [set_solver | apply local_refl].
Qed.

Lemma tailq_ext m m' h xs :
  (forall a, a.1 ∈ h :: xs -> m' !! a = m !! a) -> tailq m h xs -> tailq m' h xs.
Proof.
  intros Hm [Hk Ht]. split; [by eapply linked_ext|]. rewrite Hm by by left. done.
Qed.

Lemma tailq_init m h :
  is_Some (m !! (h, 0)) -> is_Some (m !! (h, 1)) ->
  qwp (TAILQ_INIT (VObj h)) m (fun _ m' => tailq m' h [] /\ local [h] m m').
Proof.
  intros Hh Hh'. unfold TAILQ_INIT. q_steps.
  split; [split; [split; [cbn [chain lst]; look | done] | cbn [lst]; look] | local_solve].
Qed.

(** The object in front of the one a slot belongs to. *)
Lemma tailq_slot m h xs1 xs2 :
  tailq m h (xs1 ++ xs2) ->
  (p ← get (VObj (lst h xs1)) 1; get_at p) m = Some (hdv (reverse xs1) VNull, m).
Proof.
  intros [[Hc Hb] Ht]. unfold mbind, Q_bind, get, get_at, load.
  destruct xs1 as [|x xs1 _] using rev_ind; cbn [lst].
  - rewrite Ht. by rewrite (chain_last _ _ _ _ _ Hc).
  - rewrite lst_app, reverse_app. cbn. rewrite <-app_assoc in Hb, Hc. cbn in Hb, Hc.
    rewrite (backs_at _ _ _ _ _ Hb). by apply chain_at in Hc as [-> _].
Qed.

Lemma tailq_last m h xs :
  tailq m h xs -> TAILQ_LAST (VObj h) m = Some (lastv xs VNull, m).
Proof.
  intros Hk. pose proof Hk as [_ Ht]. rewrite <-(app_nil_r xs) in Hk. apply tailq_slot in Hk.
  unfold TAILQ_LAST, mbind at 1, Q_bind, get at 1, load. rewrite Ht. exact Hk.
Qed.

Lemma tailq_prev m h xs1 x xs2 :
  tailq m h (xs1 ++ x :: xs2) -> TAILQ_PREV (VObj x) m = Some (hdv (reverse xs1) VNull, m).
Proof.
  intros Hk. pose proof Hk as [[_ Hb] _]. apply backs_at in Hb. apply tailq_slot in Hk.
  unfold TAILQ_PREV, mbind at 1, Q_bind, get at 1, load. rewrite Hb. exact Hk.
Qed.

(** The parts of a reversed list. *)
Lemma reverse_split xs ys1 y ys2 :
  reverse xs = ys1 ++ y :: ys2 -> xs = reverse ys2 ++ y :: reverse ys1.
Proof.
  intros H. rewrite <-(reverse_involutive xs), H, reverse_app, reverse_cons, <-app_assoc. done.
Qed.

Lemma tailq_foreach_reverse m h xs :
  tailq m h xs -> NoDup (h :: xs) ->
  TAILQ_FOREACH_REVERSE (VObj h) visit [] m = Some (VObj <$> reverse xs, m).
Proof.
  intros Hk Hnd.
  assert (Hf : foreach (fun var => l ← get var 1; p ← get (as_head l) 1; get_at p) VNull visit
    (hdv (reverse xs) VNull) [] m = Some (VObj <$> reverse xs, m)).
  { unfold foreach. rewrite (for_loop_chain _ _ _ (fun l x => l ++ [VObj x]) m); try done.
    - by rewrite fold_visit.
    - destruct Hk as [[Hc _] _]. pose proof (chain_size 0 _ _ _ _ Hc Hnd).
      rewrite length_reverse. lia.
    - intros ys1 y ys2 E%reverse_split. subst xs. apply tailq_prev in Hk as E.
      by rewrite reverse_involutive in E. }
  pose proof (tailq_last m h xs Hk) as Hl. unfold TAILQ_FOREACH_REVERSE, TAILQ_LAST in *.
  unfold mbind, Q_bind in *. destruct (get (VObj h) 1 m) as [[l m1]|]; [|done].
  destruct (get (as_head l) 1 m1) as [[p m2]|]; [|done]. rewrite Hl. exact Hf.
Qed.

Lemma tailq_concat m h1 h2 xs1 xs2 :
  tailq m h1 xs1 -> tailq m h2 xs2 -> NoDup (h1 :: h2 :: xs1 ++ xs2) ->
  qwp (TAILQ_CONCAT (VObj h1) (VObj h2)) m (fun _ m' =>
    tailq m' h1 (xs1 ++ xs2) /\ tailq m' h2 [] /\ local (h1 :: h2 :: xs1 ++ xs2) m m').
Proof.
  intros [[Hc1 Hb1] Ht1] [[Hc2 Hb2] Ht2] Hnd. unfold TAILQ_CONCAT, TAILQ_EMPTY.
  destruct (nodup_heads _ _ _ _ Hnd) as (Hne & Hnd1 & Hl2 & Hl & Hh1 & Hh2).
  pose proof (chain_first _ _ _ _ _ Hc2) as Hf2. pose proof (chain_last _ _ _ _ _ Hc1) as Hl1.
  q_steps. rewrite hdv_null. destruct xs2 as [|y ys]; cbn [negb hdv] in *.
  { q_steps. rewrite app_nil_r. by split_and!. }
  cbn [when_]. unfold TAILQ_INIT. destruct Hb2 as [Hy1 Hb2].
  destruct (Hh1 y) as (Hyh1 & Hyh2 & Hyl); [by left|].
  assert (Hy : y ∉ xs1 ++ ys).
  { do 2 apply NoDup_cons in Hnd as [_ Hnd]. rewrite Permutation_app_comm in Hnd. cbn in Hnd.
    apply NoDup_cons in Hnd as [Hnd _]. by rewrite Permutation_app_comm. }
  assert (Hxs : forall z, z ∈ xs1 -> z <> h1 /\ z <> h2).
  { intros z Hz. apply NoDup_cons in Hnd1 as [Hn _]. split; [intros ->; done|].
    apply Hh2. by right. }
  q_steps. split; [split; [split|] | split; [split; [split|]|]]; cbn [lst] in *.
  - apply (chain_splice 0 m _ h1 h2 xs1 (y :: ys) VNull VNull); try done.
    + intros z Hz Hzl. apply Hh2 in Hz as ?. by rewrite !lookup_insert_ne by congruence.
    + intros z Hz. apply Hh1 in Hz as (? & ? & ?). by rewrite !lookup_insert_ne by congruence.
    + look.
  - apply backs_app. split; [|split; [look|]].
    + eapply backs_ext; [|done]. intros z Hz. pose proof (Hxs z Hz) as [? ?].
      assert (z <> y) by (intros ->; apply Hy, elem_of_app; by left).
      by rewrite !lookup_insert_ne by congruence.
    + eapply backs_ext; [|done]. intros z Hz. destruct (Hh1 z) as (? & ? & ?); [by right|].
      assert (z <> y) by (intros ->; apply Hy, elem_of_app; by right).
      by rewrite !lookup_insert_ne by congruence.
  - rewrite lst_app. look.
  - cbn. look.
  - done.
  - look.
  - pose proof (lst_in h1 xs1) as Hin. repeat (apply local_insert; [set_solver|]).
    apply local_refl.
Qed.

Lemma tailq_laws : KindLaws TAILQ.
Proof.
  split.
  - intros m m' h xs. apply tailq_ext.
  - intros o c m h xs r xs' Hc Hh Hs Hk Hnd Hhw Hew. cbn [macro TAILQ tailq_macro] in Hc.
    law_cases o Hc Hh Hs Hnd;
      match type of Hk with krep ?m ?h ?xs => change (tailq m h xs) in Hk end.
    + apply tailq_insert_head; [new_words Hew | new_words Hew | done | done].
    + apply tailq_insert_tail; [new_words Hew | new_words Hew | done | done].
    + apply tailq_insert_after; [new_words Hew | new_words Hew | done | done].
    + apply tailq_insert_before; [new_words Hew | new_words Hew | done | done].
    + by apply tailq_remove.
    + apply obool_ok; [done|]. by apply empty_null, Hk.
    + apply optr_ok; [done|]. by apply first_null, Hk.
    + apply optr_ok; [done|]. by apply tailq_last.
    + apply optr_ok; [done|]. by eapply next_null, Hk.
    + apply optr_ok; [done|]. by eapply tailq_prev.
    + apply ovisited_ok; [done|]. by apply foreach_null; [apply Hk|].
    + apply ovisited_ok; [done|]. by apply tailq_foreach_reverse.
  - intros c m h [= <-] Hhw. apply init_done, tailq_init; apply Hhw; cbn; lia.
  - intros c m h1 h2 xs1 xs2 [= <-] H1 H2 Hnd. apply qwp_bind.
    eapply qwp_mono; [by apply tailq_concat|]. intros [] m' ?. by apply qwp_ret.
Qed.

(** C4: the doubly linked lists.  Any sequence of operations of LIST or TAILQ that has a meaning
    on lists runs on memory that holds disjoint lists, returns what the lists say and leaves
    memory that holds the new lists.  REMOVE and INSERT_BEFORE of LIST are not given the head;
    TAILQ inserts at both ends, before and behind an element, puts two queues together and goes
    through them in both directions, LAST and PREV reading the links of an element as a head. *)
Theorem doubly_linked_refine : refines LIST /\ refines TAILQ.
Proof. split; [exact (laws_refine _ list_laws) | exact (laws_refine _ tailq_laws)]. Qed.

Lemma doubly_linked_refine_witness :
  (exists m', run (K := LIST) [Init 1; InsertHead 1 3; InsertBefore 1 3 4; InsertAfter 1 3 5; Foreach 1;
      Remove 1 4; Remove 1 5; InsertBefore 1 3 5; First 1; Next 1 3]
    (calloc (K := LIST) {[1; 2]}%positive {[3; 4; 5]}%positive) =
      Some ([Done; Done; Done; Done; OVisited [VObj 4; VObj 3; VObj 5]; Done; Done; Done;
        OPtr (VObj 5); OPtr VNull], m') /\
    holds (K := LIST) {[1; 2]}%positive {[3; 4; 5]}%positive m' {[1 := [5; 3]]}%positive) /\
  (exists m', run (K := TAILQ) [Init 1; Last 1; InsertTail 1 3; InsertBefore 1 3 4; InsertAfter 1 3 5;
      ForeachReverse 1; Remove 1 5; Last 1; Prev 1 3; Init 2; InsertTail 2 5; Concat 1 2; Remove 1 3;
      Foreach 1; Prev 1 5; InsertTail 1 3]
    (calloc (K := TAILQ) {[1; 2]}%positive {[3; 4; 5]}%positive) =
      Some ([Done; OPtr VNull; Done; Done; Done; OVisited [VObj 5; VObj 3; VObj 4]; Done;
        OPtr (VObj 3); OPtr (VObj 4); Done; Done; Done; Done; OVisited [VObj 4; VObj 5];
        OPtr (VObj 4); Done], m') /\
    holds (K := TAILQ) {[1; 2]}%positive {[3; 4; 5]}%positive m' {[1 := [4; 5; 3]; 2 := []]}%positive).
Proof.
  split.
  - apply (proj1 doubly_linked_refine {[1; 2]}%positive {[3; 4; 5]}%positive _ _ ∅);
      [apply holds_calloc; set_solver | reflexivity | vm_compute; reflexivity].
  - apply (proj2 doubly_linked_refine {[1; 2]}%positive {[3; 4; 5]}%positive _ _ ∅);
      [apply holds_calloc; set_solver | reflexivity | vm_compute; reflexivity].
Defined.
