(* ===== verification/QueueCircle.v ===== *)
(** * Circular queues refine lists

    CIRCLEQ: the head is a member of the circle, so the pointers behind the last and in
    front of the first element are the head. *)

From S2P Require Import Prelude Queue QueueSpec QueueLemmas QueueDoubly.

Implicit Types (m : gmap (positive * nat) val) (h x y z : positive) (xs ys : list positive).

#[local] Instance circleq_marks : Marks := fun h => VObj h.

Definition circleq_macro (o : op) : option (Q obs) :=
  match o with
  | Init h => Some (done_ (CIRCLEQ_INIT (VObj h)))
  | InsertHead h x => Some (done_ (CIRCLEQ_INSERT_HEAD (VObj h) (VObj x)))
  | InsertTail h x => Some (done_ (CIRCLEQ_INSERT_TAIL (VObj h) (VObj x)))
  | InsertAfter h y x => Some (done_ (CIRCLEQ_INSERT_AFTER (VObj h) (VObj y) (VObj x)))
  | InsertBefore h y x => Some (done_ (CIRCLEQ_INSERT_BEFORE (VObj h) (VObj y) (VObj x)))
  | Remove h x => Some (done_ (CIRCLEQ_REMOVE (VObj h) (VObj x)))
  | IsEmpty h => Some (obool (CIRCLEQ_EMPTY (VObj h)))
  | First h => Some (optr (CIRCLEQ_FIRST (VObj h)))
  | Last h => Some (optr (CIRCLEQ_LAST (VObj h)))
  | Next _ x => Some (optr (CIRCLEQ_NEXT (VObj x)))
  | Prev _ x => Some (optr (CIRCLEQ_PREV (VObj x)))
  | LoopNext h x => Some (optr (CIRCLEQ_LOOP_NEXT (VObj h) (VObj x)))
  | LoopPrev h x => Some (optr (CIRCLEQ_LOOP_PREV (VObj h) (VObj x)))
  | Foreach h => Some (ovisited (CIRCLEQ_FOREACH (VObj h) visit []))
  | ForeachReverse h => Some (ovisited (CIRCLEQ_FOREACH_REVERSE (VObj h) visit []))
  | _ => None
  end.

(** Words 0 lead around, words 1 lead back. *)
Definition circle (m : mem) (h : positive) (xs : list positive) : Prop :=
  chain 0 m h xs (VObj h) /\ chain 1 m h (reverse xs) (VObj h).

Definition CIRCLEQ : Kind := {|
  kind_marks := circleq_marks; head_words := 2; elem_words := 2; macro := circleq_macro;
  krep := circle
|}.

(** The object behind and in front of a place between elements. *)
Lemma hdv_circle h xs : hdv xs (VObj h) = VObj (lst h (reverse xs)).
Proof. destruct xs as [|x xs]; [done|]. cbn [hdv]. by rewrite reverse_cons, lst_app. Qed.

Lemma hdv_circle_rev h xs : hdv (reverse xs) (VObj h) = VObj (lst h xs).
Proof. by rewrite hdv_circle, reverse_involutive. Qed.

Lemma lst_reverse_in h xs : lst h (reverse xs) ∈ h :: xs.
Proof. pose proof (lst_in h (reverse xs)) as H. by rewrite elem_of_cons, elem_of_reverse in *. Qed.

Lemma circle_gap m h xs1 xs2 :
  circle m h (xs1 ++ xs2) ->
  m !! (lst h xs1, 0) = Some (VObj (lst h (reverse xs2))) /\
  m !! (lst h (reverse xs2), 1) = Some (VObj (lst h xs1)).
Proof.
  assert (Hg : forall i ys zs, chain i m h (ys ++ zs) (VObj h) ->
    m !! (lst h ys, i) = Some (hdv zs (VObj h))).
  { intros i ys [|z zs] Hc; [rewrite app_nil_r in Hc; by apply chain_last in Hc|].
    by apply chain_at in Hc as [Hc _]. }
  intros [H0 H1]. rewrite reverse_app in H1. apply Hg in H0, H1.
  by rewrite hdv_circle in H0; rewrite hdv_circle_rev in H1.
Qed.

Lemma circle_at m h xs1 x xs2 :
  circle m h (xs1 ++ x :: xs2) ->
  m !! (lst h xs1, 0) = Some (VObj x) /\ m !! (x, 0) = Some (VObj (lst h (reverse xs2))) /\
  m !! (lst h (reverse xs2), 1) = Some (VObj x) /\ m !! (x, 1) = Some (VObj (lst h xs1)).
Proof.
  intros [[H1 H2]%chain_at H]. rewrite reverse_app, reverse_cons, <-app_assoc in H.
  apply chain_at in H as [H3 H4]. by rewrite hdv_circle in H2; rewrite hdv_circle_rev in H4.
Qed.

Lemma nodup_reverse h xs ys : NoDup (h :: xs ++ ys) -> NoDup (h :: reverse ys ++ reverse xs).
Proof.
  rewrite !NoDup_cons, <-reverse_app. intros [H1 H2]. by rewrite elem_of_reverse, reverse_Permutation.
Qed.

(** After stores to its neighbours, [x] is in the circle, or not. *)
Lemma circle_insert m m' h xs1 x xs2 :
  place h xs1 x xs2 -> circle m h (xs1 ++ xs2) ->
  (forall z, z ∈ h :: xs1 ++ xs2 -> z <> lst h xs1 -> m' !! (z, 0) = m !! (z, 0)) ->
  (forall z, z ∈ h :: xs1 ++ xs2 -> z <> lst h (reverse xs2) -> m' !! (z, 1) = m !! (z, 1)) ->
  m' !! (lst h xs1, 0) = Some (VObj x) -> m' !! (x, 0) = Some (VObj (lst h (reverse xs2))) ->
  m' !! (lst h (reverse xs2), 1) = Some (VObj x) -> m' !! (x, 1) = Some (VObj (lst h xs1)) ->
  circle m' h (xs1 ++ x :: xs2).
Proof.
  intros P [Hc Hb] H0 H1 H2 H3 H4 H5. pose proof (place_nodup _ _ _ _ P) as Hnd. split.
  - eapply chain_insert; eauto. by rewrite hdv_circle.
  - rewrite reverse_app in *. rewrite reverse_cons, <-app_assoc.
    eapply (chain_insert 1 m); [by apply nodup_reverse | | done | by rewrite hdv_circle_rev | done].
    intros z Hz. apply H1. set_solver.
Qed.

Lemma circle_delete m m' h xs1 x xs2 :
  NoDup (h :: xs1 ++ x :: xs2) -> circle m h (xs1 ++ x :: xs2) ->
  (forall z, z ∈ h :: xs1 ++ xs2 -> z <> lst h xs1 -> m' !! (z, 0) = m !! (z, 0)) ->
  (forall z, z ∈ h :: xs1 ++ xs2 -> z <> lst h (reverse xs2) -> m' !! (z, 1) = m !! (z, 1)) ->
  m' !! (lst h xs1, 0) = Some (VObj (lst h (reverse xs2))) ->
  m' !! (lst h (reverse xs2), 1) = Some (VObj (lst h xs1)) -> circle m' h (xs1 ++ xs2).
Proof.
  intros Hnd [Hc Hb] H0 H1 H2 H3. split.
  - eapply chain_delete; eauto. by rewrite hdv_circle.
  - apply nodup_reverse in Hnd. rewrite reverse_app in *. rewrite reverse_cons, <-app_assoc in *.
    eapply (chain_delete 1 m); [exact Hnd | | by rewrite hdv_circle_rev | exact Hb].
    intros z Hz. apply H1. set_solver.
Qed.

(** Stores to the neighbour that is the head when there is no element there. *)
Lemma qwp_neighbour (c : bool) (h y b : positive) (j i : nat) (v : val) m (P : unit -> mem -> Prop) :
  (c = true -> b = h) -> m !! (y, j) = Some (VObj b) -> is_Some (m !! (b, i)) ->
  P tt (<[(b, i) := v]> m) ->
  qwp (if_ c (put (VObj h) i v) (p ← get (VObj y) j; put p i v)) m P.
Proof. destruct c; cbn [if_]; intros Hb **; [rewrite <-Hb by done | apply qwp_bind]; q_steps; done. Qed.

Lemma qwp_neighbour_word (c : bool) (h x b : positive) (i j k : nat) (v : val) m (P : unit -> mem -> Prop) :
  (c = true -> b = h) -> m !! (x, j) = Some (VObj b) -> m !! (x, k) = Some v ->
  is_Some (m !! (b, i)) -> P tt (<[(b, i) := v]> m) ->
  qwp (if_ c (p ← get (VObj x) k; put (VObj h) i p)
         (n ← get (VObj x) j; p ← get (VObj x) k; put n i p)) m P.
Proof. destruct c; cbn [if_]; intros Hb **; [rewrite <-Hb by done|]; q_steps; done. Qed.

(** The neighbours of a place are not the element that goes there. *)
Lemma place_ends h xs1 x xs2 :
  place h xs1 x xs2 -> lst h xs1 <> x /\ lst h (reverse xs2) <> x /\
  (lst h xs1 ∈ h :: xs1 ++ xs2) /\ (lst h (reverse xs2) ∈ h :: xs1 ++ xs2).
Proof.
  intros P. pose proof (place_new _ _ _ _ P) as Hx. pose proof (lst_in h xs1) as H1.
  pose proof (lst_reverse_in h xs2) as H2.
  assert (lst h xs1 ∈ h :: xs1 ++ xs2) by set_solver.
  assert (lst h (reverse xs2) ∈ h :: xs1 ++ xs2) by set_solver.
  split_and!; try done; intros <-; done.
Qed.

(** A neighbour is the head only if there is no element on that side. *)
Lemma lst_head h xs : h ∉ xs -> lst h xs = h -> xs = [].
Proof. destruct xs as [|x xs]; cbn; [done|]. intros Hn E. destruct Hn. rewrite <-E. apply lst_in. Qed.

Section circleq.
Context (m : gmap (positive * nat) val) (h x : positive).
Context (Hx0 : is_Some (m !! (x, 0))) (Hx1 : is_Some (m !! (x, 1))).

Ltac insert_done P :=
  split; [apply (circle_insert m); subst; [done | done | others P | others P | look | look | look | look]
         | local_solve].

Lemma circleq_insert_after xs1 xs2 a :
  lst h xs1 = a -> circle m h (xs1 ++ xs2) -> NoDup (h :: x :: xs1 ++ xs2) ->
  qwp (CIRCLEQ_INSERT_AFTER (VObj h) (VObj a) (VObj x)) m (fun _ m' =>
    circle m' h (xs1 ++ x :: xs2) /\ local (h :: x :: xs1 ++ xs2) m m').
Proof.
  intros Ea Hk Hnd. pose proof (nodup_place _ _ _ _ Hnd) as P.
  destruct (circle_gap _ _ _ _ Hk) as [Ha Hb]. destruct (place_ends _ _ _ _ P) as (Hax & Hbx & Hia & Hib).
  rewrite Ea in *. unfold CIRCLEQ_INSERT_AFTER. q_steps.
  apply (qwp_neighbour _ h a (lst h (reverse xs2)));
    [by intros [= ->]%bool_decide_eq_true | look | look |].
  q_steps. insert_done P.
Qed.

Lemma circleq_insert_before xs1 xs2 b :
  lst h (reverse xs2) = b -> circle m h (xs1 ++ xs2) -> NoDup (h :: x :: xs1 ++ xs2) ->
  qwp (CIRCLEQ_INSERT_BEFORE (VObj h) (VObj b) (VObj x)) m (fun _ m' =>
    circle m' h (xs1 ++ x :: xs2) /\ local (h :: x :: xs1 ++ xs2) m m').
Proof.
  intros Eb Hk Hnd. pose proof (nodup_place _ _ _ _ Hnd) as P.
  destruct (circle_gap _ _ _ _ Hk) as [Ha Hb]. destruct (place_ends _ _ _ _ P) as (Hax & Hbx & Hia & Hib).
  rewrite Eb in *. unfold CIRCLEQ_INSERT_BEFORE. q_steps.
  apply (qwp_neighbour _ h b (lst h xs1)); [by intros [= ->]%bool_decide_eq_true | look | look |].
  q_steps. insert_done P.
Qed.

Lemma circleq_insert_head xs :
  circle m h xs -> NoDup (h :: x :: xs) ->
  qwp (CIRCLEQ_INSERT_HEAD (VObj h) (VObj x)) m (fun _ m' =>
    circle m' h (x :: xs) /\ local (h :: x :: xs) m m').
Proof.
  intros Hk Hnd. pose proof (nodup_place h x [] xs Hnd) as P.
  destruct (circle_gap m h [] xs Hk) as [Ha Hb]. destruct (place_ends _ _ _ _ P) as (Hax & Hbx & Hia & Hib).
  pose proof Hk as [_ Hl%chain_first]. rewrite hdv_circle_rev in Hl. cbn [lst app] in *.
  unfold CIRCLEQ_INSERT_HEAD. q_steps.
  apply (qwp_neighbour _ h h (lst h (reverse xs))); [| look | look |].
  - intros [= E]%bool_decide_eq_true. apply lst_head in E; [by subst | apply (place_head _ _ _ _ P)].
  - q_steps. split; [|local_solve].
    apply (circle_insert m _ h [] x xs);
      [done | done | others P | others P | look | look | look | look].
Qed.

Lemma circleq_insert_tail xs :
  circle m h xs -> NoDup (h :: x :: xs) ->
  qwp (CIRCLEQ_INSERT_TAIL (VObj h) (VObj x)) m (fun _ m' =>
    circle m' h (xs ++ [x]) /\ local (h :: x :: xs) m m').
Proof.
  intros Hk Hnd. rewrite <-(app_nil_r xs) in Hnd, Hk. pose proof (nodup_place h x xs [] Hnd) as P.
  destruct (circle_gap m h xs [] Hk) as [Ha Hb]. destruct (place_ends _ _ _ _ P) as (Hax & Hbx & Hia & Hib).
  pose proof Hk as [Hf%chain_first _]. rewrite hdv_circle in Hf.
  rewrite reverse_nil, app_nil_r in *. cbn [lst] in *. unfold CIRCLEQ_INSERT_TAIL. q_steps.
  apply (qwp_neighbour _ h h (lst h xs)); [| look | look |].
  - intros [= E]%bool_decide_eq_true. apply lst_head in E.
    + apply (f_equal reverse) in E. rewrite reverse_involutive in E. by subst.
    + rewrite elem_of_reverse. pose proof (place_head _ _ _ _ P). set_solver.
  - q_steps. split; [|local_solve].
    apply (circle_insert m _ h xs x []); rewrite ?app_nil_r;
      [done | done | others P | others P | look | look | look | look].
Qed.
End circleq.

Lemma circleq_remove m h xs1 x xs2 :
  circle m h (xs1 ++ x :: xs2) -> NoDup (h :: xs1 ++ x :: xs2) ->
  qwp (CIRCLEQ_REMOVE (VObj h) (VObj x)) m (fun _ m' =>
    circle m' h (xs1 ++ xs2) /\ local (h :: xs1 ++ x :: xs2) m m').
Proof.
  intros Hk Hnd. pose proof (nodup_place_remove _ _ _ _ Hnd) as P.
  destruct (circle_at _ _ _ _ _ Hk) as (Ha & Hx0 & Hb & Hx1).
  destruct (place_ends _ _ _ _ P) as (Hax & Hbx & Hia & Hib).
  unfold CIRCLEQ_REMOVE. q_steps.
  apply (qwp_neighbour_word _ h x (lst h (reverse xs2)) _ _ _ (VObj (lst h xs1)));
    [by intros [= ->]%bool_decide_eq_true | look | look | look |]. q_steps.
  apply (qwp_neighbour_word _ h x (lst h xs1) _ _ _ (VObj (lst h (reverse xs2))));
    [by intros [= ->]%bool_decide_eq_true | look | look | look |].
  split.
  - apply (circle_delete m _ h xs1 x xs2); [done | done | others P | others P | look | look].
  - repeat (apply local_insert; [set_solver|]). apply local_refl.
Qed.

Lemma circle_ext m m' h xs :
  (forall a, a.1 ∈ h :: xs -> m' !! a = m !! a) -> circle m h xs -> circle m' h xs.
Proof.
  intros Hm [H0 H1]. split; (eapply chain_ext; [|done]); intros z Hz; apply Hm; [done|].
  by rewrite elem_of_cons, elem_of_reverse in Hz; rewrite elem_of_cons.
Qed.

Lemma circleq_init m h :
  is_Some (m !! (h, 0)) -> is_Some (m !! (h, 1)) ->
  qwp (CIRCLEQ_INIT (VObj h)) m (fun _ m' => circle m' h [] /\ local [h] m m').
Proof.
  intros Hh Hh'. unfold CIRCLEQ_INIT. q_steps. split; [split; cbn; look | local_solve].
Qed.

(** ** Queries *)

(** The loop that follows words [i] around. *)
Lemma foreach_circle (i : nat) m h xs :
  chain i m h xs (VObj h) -> NoDup (h :: xs) ->
  (f ← get (VObj h) i; foreach (fun var => get var i) (VObj h) visit f []) m =
    Some (VObj <$> xs, m).
Proof.
  intros Hc Hnd. unfold mbind at 1, Q_bind, get at 1, load.
  rewrite (chain_first _ _ _ _ _ Hc). unfold foreach.
  rewrite (for_loop_chain _ _ _ (fun l x => l ++ [VObj x]) m xs); [by rewrite fold_visit | | | done |].
  - pose proof (chain_size i _ _ _ _ Hc Hnd). lia.
  - intros x Hx [= ->]. by apply NoDup_cons in Hnd as [? _].
  - intros xs1 x xs2 ->. apply chain_at in Hc as [_ Hc]. unfold get, load. by rewrite Hc.
Qed.

Lemma get_first (i : nat) m h xs v : chain i m h xs v -> get (VObj h) i m = Some (hdv xs v, m).
Proof. intros H%chain_first. unfold get, load. by rewrite H. Qed.

Lemma get_next (i : nat) m h xs1 x xs2 v :
  chain i m h (xs1 ++ x :: xs2) v -> get (VObj x) i m = Some (hdv xs2 v, m).
Proof. intros [_ H]%chain_at. unfold get, load. by rewrite H. Qed.

(** The neighbour, or the one from the other end. *)
Lemma get_around (i : nat) m h xs1 x xs2 :
  chain i m h (xs1 ++ x :: xs2) (VObj h) -> h ∉ xs2 ->
  (n ← get (VObj x) i; if_ (bool_decide (n = VObj h)) (get (VObj h) i) (get (VObj x) i)) m =
    Some (hdv (xs2 ++ xs1 ++ x :: xs2) (VObj h), m).
Proof.
  intros Hc Hh. unfold mbind, Q_bind. rewrite (get_next _ _ _ _ _ _ _ Hc).
  destruct xs2 as [|y ys]; cbn [hdv app].
  - rewrite bool_decide_true by done. exact (get_first _ _ _ _ _ Hc).
  - rewrite bool_decide_false by set_solver. exact (get_next _ _ _ _ _ _ _ Hc).
Qed.

Lemma circleq_empty m h xs :
  circle m h xs -> h ∉ xs -> CIRCLEQ_EMPTY (VObj h) m = Some (bool_decide (xs = []), m).
Proof.
  intros [Hc _] Hh. unfold CIRCLEQ_EMPTY, mbind, Q_bind. rewrite (get_first _ _ _ _ _ Hc).
  unfold mret, Q_ret. do 2 f_equal. apply bool_decide_ext. destruct xs; cbn [hdv]; set_solver.
Qed.

Lemma circleq_laws : KindLaws CIRCLEQ.
Proof.
  split.
  - intros m m' h xs. apply circle_ext.
  - intros o c m h xs r xs' Hc Hh Hs Hk Hnd Hhw Hew. cbn [macro CIRCLEQ circleq_macro] in Hc.
    law_cases o Hc Hh Hs Hnd;
      match type of Hk with krep ?m ?h ?xs => change (circle m h xs) in Hk end;
      pose proof Hk as [H0 H1].
    + apply circleq_insert_head; [new_words Hew | new_words Hew | done | done].
    + apply circleq_insert_tail; [new_words Hew | new_words Hew | done | done].
    + pose proof (circleq_insert_after m h x ltac:(new_words Hew) ltac:(new_words Hew) (xs1 ++ [y]) xs2 y) as Hi.
      rewrite <-!app_assoc in Hi. cbn [app] in Hi. apply Hi; [apply lst_app | done | done].
    + apply circleq_insert_before; [new_words Hew | new_words Hew | | done | done].
      by rewrite reverse_cons, lst_app.
    + by apply circleq_remove.
    + apply obool_ok; [done|]. apply circleq_empty; [done|]. by apply NoDup_cons in Hnd as [? _].
    + apply optr_ok; [done|]. by eapply get_first.
    + apply optr_ok; [done|]. by eapply get_first.
    + apply optr_ok; [done|]. by eapply get_next.
    + apply optr_ok; [done|]. rewrite reverse_app, reverse_cons, <-app_assoc in H1. by eapply get_next.
    + apply optr_ok; [done|]. apply get_around; [done|]. apply NoDup_cons in Hnd as [? _]. set_solver.
    + apply optr_ok; [done|]. rewrite reverse_app, reverse_cons, <-app_assoc in *. cbn [app] in *.
      apply get_around; [done|]. apply NoDup_cons in Hnd as [? _]. set_solver.
    + apply ovisited_ok; [done|]. by apply foreach_circle.
    + apply ovisited_ok; [done|]. apply foreach_circle; [done|].
      by rewrite NoDup_cons, elem_of_reverse, reverse_Permutation, <-NoDup_cons.
  - intros c m h [= <-] Hhw. apply init_done, circleq_init; apply Hhw; cbn; lia.
  - intros c m h1 h2 xs1 xs2 Hc. discriminate Hc.
Qed.

(** C16: CIRCLEQ.  Any sequence of INIT, the four insertions, REMOVE, EMPTY, FIRST, LAST, NEXT,
    PREV, LOOP_NEXT, LOOP_PREV and both loops that has a meaning on lists runs on memory that
    holds disjoint queues, returns what the lists say, with the head as the pointer past both
    ends, and leaves memory that holds the new queues. *)
Theorem CIRCLEQ_refines : refines CIRCLEQ.
Proof. exact (laws_refine _ circleq_laws). Qed.

Lemma CIRCLEQ_refines_witness :
  exists m', run (K := CIRCLEQ) [Init 1; First 1; InsertTail 1 3; InsertBefore 1 3 4; InsertAfter 1 3 5;
      ForeachReverse 1; Next 1 5; LoopNext 1 5; LoopPrev 1 4; Remove 1 4; Prev 1 3; Last 1;
      InsertHead 1 4; Foreach 1]
    (calloc (K := CIRCLEQ) {[1; 2]}%positive {[3; 4; 5]}%positive) =
      Some ([Done; OPtr (VObj 1); Done; Done; Done; OVisited [VObj 5; VObj 3; VObj 4];
        OPtr (VObj 1); OPtr (VObj 4); OPtr (VObj 5); Done; OPtr (VObj 1); OPtr (VObj 5); Done;
        OVisited [VObj 4; VObj 3; VObj 5]], m') /\
    holds (K := CIRCLEQ) {[1; 2]}%positive {[3; 4; 5]}%positive m' {[1 := [4; 3; 5]]}%positive.
Proof.
  apply (CIRCLEQ_refines {[1; 2]}%positive {[3; 4; 5]}%positive _ _ ∅).
  - apply holds_calloc. set_solver.
  - reflexivity.
  - vm_compute. reflexivity.
Defined.
