(* ===== verification/Fortify.v ===== *)
(** The fortified functions of the C library (_FORTIFY_SOURCE): bits/string_fortified.h,
    strings_fortified.h, unistd.h, stdio2.h, wchar2.h, stdlib.h, socket2.h, poll2.h, syslog.h,
    fcntl2.h and mqueue2.h.  Each is compiled into its caller and chooses, by what the compiler knows about
    the destination and the length, the function of the library that is called.  FortifySpec.v
    shows what the choice is worth. *)

From S2P Require Import Prelude CLib.
#[local] Open Scope string_scope.
#[local] Open Scope list_scope.
#[local] Open Scope Z_scope.

(** ** What the compiler knows *)

(** __builtin_object_size (ptr, mode) with mode 1 or 0, _FORTIFY_SOURCE, and the configuration
    of the headers. *)
Class Compiler := {
  object_size : bool -> Z -> Z;
  fortify_level : Z;
  use_extern_inlines : bool;
  gcc5 : bool;
  file_offset64 : bool;
  path_max_defined : bool;
  stdout : Z
}.

(** An argument: its value, and whether __builtin_constant_p holds of it. *)
Record expr := Expr { value : Z; constant : bool }.
Coercion value : expr >-> Z.

(** Argument lists, of the values. *)
Notation "⟨ x ; .. ; y ⟩" := (@cons Z (x : Z) .. (@cons Z (y : Z) nil) ..) : Z_scope.

(** What a fortified function comes down to: what the compiler reports, and a call, its value
    converted to void or not, a value, or the loop of fread_unlocked. *)
Inductive diag := Warn (f : string) | Error (f : string).
Inductive action :=
  | Call (f : string) (args : list Z)
  | CallVoid (f : string) (args : list Z)
  | Return (v : Z)
  | ReadLoop (stream ptr : Z) (cnt : nat) (size : Z).
Record plan := Plan { diags : list diag; act : action }.

(** return f (args) for a plain function, and for one declared with __warnattr. *)
Definition call (f : string) (args : list Z) : plan := Plan [] (Call f args).
Definition call_void (f : string) (args : list Z) : plan := Plan [] (CallVoid f args).
Definition warn (f : string) (args : list Z) : plan := Plan [Warn f] (Call f args).

(** Statements: a return, or control comes to the end. *)
Definition stmt : Type := option plan.
Definition next : stmt := None.
Definition return_ (p : plan) : stmt := Some p.
Definition retif (c : bool) (p : plan) (k : stmt) : stmt := if c then Some p else k.

(** (size_t) -1 *)
Definition unknown : Z := 2 ^ 64 - 1.
(** if (size != (size_t) -1) { b } k *)
Definition known (size : Z) (b : stmt) (k : plan) : plan :=
  if negb (size =? unknown) then default k b else k.

Definition sizeof_wchar_t : Z := 4.
Definition sizeof_gid_t : Z := 4.
Definition sizeof_pollfd : Z := 8.
Definition half_size_t : Z := u64 (Z.shiftl 1 (8 * 8 / 2)).
Definition __WCHAR_MB_LEN_MAX : Z := 16.
Definition __STDLIB_MB_LEN_MAX : Z := 16.
Definition PATH_MAX : Z := 4096.
Definition O_CREAT : Z := 64.
Definition __O_DIRECTORY : Z := 65536.
Definition __O_TMPFILE : Z := Z.lor 4194304 __O_DIRECTORY.

Section functions.
Context `{Compiler}.

Definition bos (ptr : Z) : Z := object_size (1 <? fortify_level) ptr.
Definition bos0 (ptr : Z) : Z := object_size false ptr.

(** ** bits/string_fortified.h and bits/strings_fortified.h *)

Definition memcpy (dest src len : expr) : plan :=
  call "__builtin___memcpy_chk" ⟨dest; src; len; bos0 dest⟩.

Definition memmove (dest src len : expr) : plan :=
  call "__builtin___memmove_chk" ⟨dest; src; len; bos0 dest⟩.

Definition mempcpy (dest src len : expr) : plan :=
  call "__builtin___mempcpy_chk" ⟨dest; src; len; bos0 dest⟩.

Definition memset (dest ch len : expr) : plan :=
  if negb gcc5 && constant len && (len =? 0) && (negb (constant ch) || negb (ch =? 0)) then
    Plan [Warn "__warn_memset_zero_len"] (Return dest)
  else call "__builtin___memset_chk" ⟨dest; ch; len; bos0 dest⟩.

Definition bcopy (src dest len : expr) : plan :=
  call_void "__builtin___memmove_chk" ⟨dest; src; len; bos0 dest⟩.

Definition bzero (dest len : expr) : plan :=
  call_void "__builtin___memset_chk" ⟨dest; 0; len; bos0 dest⟩.

Definition explicit_bzero (dest len : expr) : plan :=
  call "__explicit_bzero_chk" ⟨dest; len; bos0 dest⟩.

Definition strcpy (dest src : expr) : plan :=
  call "__builtin___strcpy_chk" ⟨dest; src; bos dest⟩.

Definition stpcpy (dest src : expr) : plan :=
  call "__builtin___stpcpy_chk" ⟨dest; src; bos dest⟩.

Definition strncpy (dest src len : expr) : plan :=
  call "__builtin___strncpy_chk" ⟨dest; src; len; bos dest⟩.

Definition stpncpy (dest src n : expr) : plan :=
  if negb (bos dest =? unknown) && (negb (constant n) || (bos dest <? n)) then
    call "__stpncpy_chk" ⟨dest; src; n; bos dest⟩
  else call "stpncpy" ⟨dest; src; n⟩.

Definition strcat (dest src : expr) : plan :=
  call "__builtin___strcat_chk" ⟨dest; src; bos dest⟩.

Definition strncat (dest src len : expr) : plan :=
  call "__builtin___strncat_chk" ⟨dest; src; len; bos dest⟩.

(** ** bits/unistd.h *)

Definition read (fd buf nbytes : expr) : plan :=
  known (bos0 buf)
    (retif (negb (constant nbytes)) (call "__read_chk" ⟨fd; buf; nbytes; bos0 buf⟩)
    (retif (bos0 buf <? nbytes) (warn "__read_chk" ⟨fd; buf; nbytes; bos0 buf⟩)
     next))
  (call "read" ⟨fd; buf; nbytes⟩).

(** Without and with __USE_FILE_OFFSET64, where pread is the name of pread64. *)

Definition pread_off (fd buf nbytes offset : expr) : plan :=
  known (bos0 buf)
    (retif (negb (constant nbytes)) (call "__pread_chk" ⟨fd; buf; nbytes; offset; bos0 buf⟩)
    (retif (bos0 buf <? nbytes) (warn "__pread_chk" ⟨fd; buf; nbytes; offset; bos0 buf⟩)
     next))
  (call "pread" ⟨fd; buf; nbytes; offset⟩).

Definition pread_off64 (fd buf nbytes offset : expr) : plan :=
  known (bos0 buf)
    (retif (negb (constant nbytes)) (call "__pread64_chk" ⟨fd; buf; nbytes; offset; bos0 buf⟩)
    (retif (bos0 buf <? nbytes) (warn "__pread64_chk" ⟨fd; buf; nbytes; offset; bos0 buf⟩)
     next))
  (call "pread64" ⟨fd; buf; nbytes; offset⟩).

Definition pread64 (fd buf nbytes offset : expr) : plan :=
  known (bos0 buf)
    (retif (negb (constant nbytes)) (call "__pread64_chk" ⟨fd; buf; nbytes; offset; bos0 buf⟩)
    (retif (bos0 buf <? nbytes) (warn "__pread64_chk" ⟨fd; buf; nbytes; offset; bos0 buf⟩)
     next))
  (call "pread64" ⟨fd; buf; nbytes; offset⟩).

Definition readlink (path buf len : expr) : plan :=
  known (bos buf)
    (retif (negb (constant len)) (call "__readlink_chk" ⟨path; buf; len; bos buf⟩)
    (retif (bos buf <? len) (warn "__readlink_chk" ⟨path; buf; len; bos buf⟩)
     next))
  (call "readlink" ⟨path; buf; len⟩).

Definition readlinkat (fd path buf len : expr) : plan :=
  known (bos buf)
    (retif (negb (constant len)) (call "__readlinkat_chk" ⟨fd; path; buf; len; bos buf⟩)
    (retif (bos buf <? len) (warn "__readlinkat_chk" ⟨fd; path; buf; len; bos buf⟩)
     next))
  (call "readlinkat" ⟨fd; path; buf; len⟩).

Definition getcwd (buf size : expr) : plan :=
  known (bos buf)
    (retif (negb (constant size)) (call "__getcwd_chk" ⟨buf; size; bos buf⟩)
    (retif (bos buf <? size) (warn "__getcwd_chk" ⟨buf; size; bos buf⟩)
     next))
  (call "getcwd" ⟨buf; size⟩).

Definition getwd (buf : expr) : plan :=
  known (bos buf) (return_ (call "__getwd_chk" ⟨buf; bos buf⟩))
  (warn "getwd" ⟨buf⟩).

Definition confstr (name buf len : expr) : plan :=
  known (bos buf)
    (retif (negb (constant len)) (call "__confstr_chk" ⟨name; buf; len; bos buf⟩)
    (retif (bos buf <? len) (warn "__confstr_chk" ⟨name; buf; len; bos buf⟩)
     next))
  (call "confstr" ⟨name; buf; len⟩).

Definition getgroups (size list : expr) : plan :=
  known (bos list)
    (retif (negb (constant size) || (size <? 0)) (call "__getgroups_chk" ⟨size; list; bos list⟩)
    (retif (bos list <? u64 (u64 size * sizeof_gid_t)) (warn "__getgroups_chk" ⟨size; list; bos list⟩)
     next))
  (call "getgroups" ⟨size; list⟩).

Definition ttyname_r (fd buf buflen : expr) : plan :=
  known (bos buf)
    (retif (negb (constant buflen)) (call "__ttyname_r_chk" ⟨fd; buf; buflen; bos buf⟩)
    (retif (bos buf <? buflen) (warn "__ttyname_r_chk" ⟨fd; buf; buflen; bos buf⟩)
     next))
  (call "ttyname_r" ⟨fd; buf; buflen⟩).

Definition getlogin_r (buf buflen : expr) : plan :=
  known (bos buf)
    (retif (negb (constant buflen)) (call "__getlogin_r_chk" ⟨buf; buflen; bos buf⟩)
    (retif (bos buf <? buflen) (warn "__getlogin_r_chk" ⟨buf; buflen; bos buf⟩)
     next))
  (call "getlogin_r" ⟨buf; buflen⟩).

Definition gethostname (buf buflen : expr) : plan :=
  known (bos buf)
    (retif (negb (constant buflen)) (call "__gethostname_chk" ⟨buf; buflen; bos buf⟩)
    (retif (bos buf <? buflen) (warn "__gethostname_chk" ⟨buf; buflen; bos buf⟩)
     next))
  (call "gethostname" ⟨buf; buflen⟩).

Definition getdomainname (buf buflen : expr) : plan :=
  known (bos buf)
    (retif (negb (constant buflen)) (call "__getdomainname_chk" ⟨buf; buflen; bos buf⟩)
    (retif (bos buf <? buflen) (warn "__getdomainname_chk" ⟨buf; buflen; bos buf⟩)
     next))
  (call "getdomainname" ⟨buf; buflen⟩).

(** ** bits/stdio2.h *)

Definition sprintf (s fmt : expr) (va : list Z) : plan :=
  call "__builtin___sprintf_chk" (⟨s; fortify_level - 1; bos s; fmt⟩ ++ va).

Definition vsprintf (s fmt ap : expr) : plan :=
  call "__builtin___vsprintf_chk" ⟨s; fortify_level - 1; bos s; fmt; ap⟩.

Definition snprintf (s n fmt : expr) (va : list Z) : plan :=
  call "__builtin___snprintf_chk" (⟨s; n; fortify_level - 1; bos s; fmt⟩ ++ va).

Definition vsnprintf (s n fmt ap : expr) : plan :=
  call "__builtin___vsnprintf_chk" ⟨s; n; fortify_level - 1; bos s; fmt; ap⟩.

(** The functions without a buffer, with _FORTIFY_SOURCE above 1 only. *)

Definition fprintf (stream fmt : expr) (va : list Z) : plan :=
  call "__fprintf_chk" (⟨stream; fortify_level - 1; fmt⟩ ++ va).

Definition printf (fmt : expr) (va : list Z) : plan :=
  call "__printf_chk" (⟨fortify_level - 1; fmt⟩ ++ va).

Definition vprintf (fmt ap : expr) : plan :=
  if use_extern_inlines then call "__vfprintf_chk" ⟨stdout; fortify_level - 1; fmt; ap⟩
  else call "__vprintf_chk" ⟨fortify_level - 1; fmt; ap⟩.

Definition vfprintf (stream fmt ap : expr) : plan :=
  call "__vfprintf_chk" ⟨stream; fortify_level - 1; fmt; ap⟩.

Definition dprintf (fd fmt : expr) (va : list Z) : plan :=
  call "__dprintf_chk" (⟨fd; fortify_level - 1; fmt⟩ ++ va).

Definition vdprintf (fd fmt ap : expr) : plan :=
  call "__vdprintf_chk" ⟨fd; fortify_level - 1; fmt; ap⟩.

Definition asprintf (ptr fmt : expr) (va : list Z) : plan :=
  call "__asprintf_chk" (⟨ptr; fortify_level - 1; fmt⟩ ++ va).

Definition __asprintf (ptr fmt : expr) (va : list Z) : plan :=
  call "__asprintf_chk" (⟨ptr; fortify_level - 1; fmt⟩ ++ va).

Definition obstack_printf (obstack fmt : expr) (va : list Z) : plan :=
  call "__obstack_printf_chk" (⟨obstack; fortify_level - 1; fmt⟩ ++ va).

Definition vasprintf (ptr fmt ap : expr) : plan :=
  call "__vasprintf_chk" ⟨ptr; fortify_level - 1; fmt; ap⟩.

Definition obstack_vprintf (obstack fmt ap : expr) : plan :=
  call "__obstack_vprintf_chk" ⟨obstack; fortify_level - 1; fmt; ap⟩.

(** Reading *)

Definition gets (str : expr) : plan :=
  known (bos str) (return_ (call "__gets_chk" ⟨str; bos str⟩))
  (warn "gets" ⟨str⟩).

Definition fgets (s n stream : expr) : plan :=
  known (bos s)
    (retif (negb (constant n) || (n <=? 0)) (call "__fgets_chk" ⟨s; bos s; n; stream⟩)
    (retif (bos s <? u64 n) (warn "__fgets_chk" ⟨s; bos s; n; stream⟩)
     next))
  (call "fgets" ⟨s; n; stream⟩).

Definition fread (ptr size n stream : expr) : plan :=
  known (bos0 ptr)
    (retif (negb (constant size) || negb (constant n) || (half_size_t <=? Z.lor size n))
       (call "__fread_chk" ⟨ptr; bos0 ptr; size; n; stream⟩)
    (retif (bos0 ptr <? u64 (size * n)) (warn "__fread_chk" ⟨ptr; bos0 ptr; size; n; stream⟩)
     next))
  (call "fread" ⟨ptr; size; n; stream⟩).

Definition fgets_unlocked (s n stream : expr) : plan :=
  known (bos s)
    (retif (negb (constant n) || (n <=? 0)) (call "__fgets_unlocked_chk" ⟨s; bos s; n; stream⟩)
    (retif (bos s <? u64 n) (warn "__fgets_unlocked_chk" ⟨s; bos s; n; stream⟩)
     next))
  (call "fgets_unlocked" ⟨s; n; stream⟩).

Definition fread_unlocked (ptr size n stream : expr) : plan :=
  known (bos0 ptr)
    (retif (negb (constant size) || negb (constant n) || (half_size_t <=? Z.lor size n))
       (call "__fread_unlocked_chk" ⟨ptr; bos0 ptr; size; n; stream⟩)
    (retif (bos0 ptr <? u64 (size * n)) (warn "__fread_unlocked_chk" ⟨ptr; bos0 ptr; size; n; stream⟩)
     next))
  (if use_extern_inlines && (constant size && constant n && (Z.lor size n <? half_size_t) &&
       (u64 (size * n) <=? 8)) then
     if u64 (size * n) =? 0 then Plan [] (Return 0)
     else Plan [] (ReadLoop (value stream) (value ptr) (Z.to_nat (u64 (size * n))) (value size))
   else call "fread_unlocked" ⟨ptr; size; n; stream⟩).

(** ** bits/wchar2.h *)

Definition wmemcpy (s1 s2 n : expr) : plan :=
  known (bos0 s1)
    (retif (negb (constant n)) (call "__wmemcpy_chk" ⟨s1; s2; n; bos0 s1 / sizeof_wchar_t⟩)
    (retif (bos0 s1 / sizeof_wchar_t <? n) (warn "__wmemcpy_chk" ⟨s1; s2; n; bos0 s1 / sizeof_wchar_t⟩)
     next))
  (call "wmemcpy" ⟨s1; s2; n⟩).

Definition wmemmove (s1 s2 n : expr) : plan :=
  known (bos0 s1)
    (retif (negb (constant n)) (call "__wmemmove_chk" ⟨s1; s2; n; bos0 s1 / sizeof_wchar_t⟩)
    (retif (bos0 s1 / sizeof_wchar_t <? n) (warn "__wmemmove_chk" ⟨s1; s2; n; bos0 s1 / sizeof_wchar_t⟩)
     next))
  (call "wmemmove" ⟨s1; s2; n⟩).

Definition wmempcpy (s1 s2 n : expr) : plan :=
  known (bos0 s1)
    (retif (negb (constant n)) (call "__wmempcpy_chk" ⟨s1; s2; n; bos0 s1 / sizeof_wchar_t⟩)
    (retif (bos0 s1 / sizeof_wchar_t <? n) (warn "__wmempcpy_chk" ⟨s1; s2; n; bos0 s1 / sizeof_wchar_t⟩)
     next))
  (call "wmempcpy" ⟨s1; s2; n⟩).

Definition wmemset (s c n : expr) : plan :=
  known (bos0 s)
    (retif (negb (constant n)) (call "__wmemset_chk" ⟨s; c; n; bos0 s / sizeof_wchar_t⟩)
    (retif (bos0 s / sizeof_wchar_t <? n) (warn "__wmemset_chk" ⟨s; c; n; bos0 s / sizeof_wchar_t⟩)
     next))
  (call "wmemset" ⟨s; c; n⟩).

Definition wcscpy (dest src : expr) : plan :=
  known (bos dest) (return_ (call "__wcscpy_chk" ⟨dest; src; bos dest / sizeof_wchar_t⟩))
  (call "wcscpy" ⟨dest; src⟩).

Definition wcpcpy (dest src : expr) : plan :=
  known (bos dest) (return_ (call "__wcpcpy_chk" ⟨dest; src; bos dest / sizeof_wchar_t⟩))
  (call "wcpcpy" ⟨dest; src⟩).

Definition wcsncpy (dest src n : expr) : plan :=
  known (bos dest)
    (retif (negb (constant n)) (call "__wcsncpy_chk" ⟨dest; src; n; bos dest / sizeof_wchar_t⟩)
    (retif (bos dest / sizeof_wchar_t <? n) (warn "__wcsncpy_chk" ⟨dest; src; n; bos dest / sizeof_wchar_t⟩)
     next))
  (call "wcsncpy" ⟨dest; src; n⟩).

Definition wcpncpy (dest src n : expr) : plan :=
  known (bos dest)
    (retif (negb (constant n)) (call "__wcpncpy_chk" ⟨dest; src; n; bos dest / sizeof_wchar_t⟩)
    (retif (bos dest / sizeof_wchar_t <? n) (warn "__wcpncpy_chk" ⟨dest; src; n; bos dest / sizeof_wchar_t⟩)
     next))
  (call "wcpncpy" ⟨dest; src; n⟩).

Definition wcscat (dest src : expr) : plan :=
  known (bos dest) (return_ (call "__wcscat_chk" ⟨dest; src; bos dest / sizeof_wchar_t⟩))
  (call "wcscat" ⟨dest; src⟩).

Definition wcsncat (dest src n : expr) : plan :=
  known (bos dest) (return_ (call "__wcsncat_chk" ⟨dest; src; n; bos dest / sizeof_wchar_t⟩))
  (call "wcsncat" ⟨dest; src; n⟩).

Definition swprintf (s n fmt : expr) (va : list Z) : plan :=
  if negb (bos s =? unknown) || (1 <? fortify_level) then
    call "__swprintf_chk" (⟨s; n; fortify_level - 1; bos s / sizeof_wchar_t; fmt⟩ ++ va)
  else call "swprintf" (⟨s; n; fmt⟩ ++ va).

Definition vswprintf (s n fmt ap : expr) : plan :=
  if negb (bos s =? unknown) || (1 <? fortify_level) then
    call "__vswprintf_chk" ⟨s; n; fortify_level - 1; bos s / sizeof_wchar_t; fmt; ap⟩
  else call "vswprintf" ⟨s; n; fmt; ap⟩.

Definition wprintf (fmt : expr) (va : list Z) : plan :=
  call "__wprintf_chk" (⟨fortify_level - 1; fmt⟩ ++ va).

Definition fwprintf (stream fmt : expr) (va : list Z) : plan :=
  call "__fwprintf_chk" (⟨stream; fortify_level - 1; fmt⟩ ++ va).

Definition vwprintf (fmt ap : expr) : plan :=
  call "__vwprintf_chk" ⟨fortify_level - 1; fmt; ap⟩.

Definition vfwprintf (stream fmt ap : expr) : plan :=
  call "__vfwprintf_chk" ⟨stream; fortify_level - 1; fmt; ap⟩.

Definition fgetws (s n stream : expr) : plan :=
  known (bos s)
    (retif (negb (constant n) || (n <=? 0)) (call "__fgetws_chk" ⟨s; bos s / sizeof_wchar_t; n; stream⟩)
    (retif (bos s / sizeof_wchar_t <? u64 n) (warn "__fgetws_chk" ⟨s; bos s / sizeof_wchar_t; n; stream⟩)
     next))
  (call "fgetws" ⟨s; n; stream⟩).

Definition fgetws_unlocked (s n stream : expr) : plan :=
  known (bos s)
    (retif (negb (constant n) || (n <=? 0)) (call "__fgetws_unlocked_chk" ⟨s; bos s / sizeof_wchar_t; n; stream⟩)
    (retif (bos s / sizeof_wchar_t <? u64 n) (warn "__fgetws_unlocked_chk" ⟨s; bos s / sizeof_wchar_t; n; stream⟩)
     next))
  (call "fgetws_unlocked" ⟨s; n; stream⟩).

Definition wcrtomb (s wchar ps : expr) : plan :=
  if negb (bos s =? unknown) && (bos s <? __WCHAR_MB_LEN_MAX) then
    call "__wcrtomb_chk" ⟨s; wchar; ps; bos s⟩
  else call "wcrtomb" ⟨s; wchar; ps⟩.

Definition mbsrtowcs (dst src len ps : expr) : plan :=
  known (bos dst)
    (retif (negb (constant len)) (call "__mbsrtowcs_chk" ⟨dst; src; len; ps; bos dst / sizeof_wchar_t⟩)
    (retif (bos dst / sizeof_wchar_t <? len) (warn "__mbsrtowcs_chk" ⟨dst; src; len; ps; bos dst / sizeof_wchar_t⟩)
     next))
  (call "mbsrtowcs" ⟨dst; src; len; ps⟩).

Definition wcsrtombs (dst src len ps : expr) : plan :=
  known (bos dst)
    (retif (negb (constant len)) (call "__wcsrtombs_chk" ⟨dst; src; len; ps; bos dst⟩)
    (retif (bos dst <? len) (warn "__wcsrtombs_chk" ⟨dst; src; len; ps; bos dst⟩)
     next))
  (call "wcsrtombs" ⟨dst; src; len; ps⟩).

Definition mbsnrtowcs (dst src nmc len ps : expr) : plan :=
  known (bos dst)
    (retif (negb (constant len)) (call "__mbsnrtowcs_chk" ⟨dst; src; nmc; len; ps; bos dst / sizeof_wchar_t⟩)
    (retif (bos dst / sizeof_wchar_t <? len) (warn "__mbsnrtowcs_chk" ⟨dst; src; nmc; len; ps; bos dst / sizeof_wchar_t⟩)
     next))
  (call "mbsnrtowcs" ⟨dst; src; nmc; len; ps⟩).

Definition wcsnrtombs (dst src nwc len ps : expr) : plan :=
  known (bos dst)
    (retif (negb (constant len)) (call "__wcsnrtombs_chk" ⟨dst; src; nwc; len; ps; bos dst⟩)
    (retif (bos dst <? len) (warn "__wcsnrtombs_chk" ⟨dst; src; nwc; len; ps; bos dst⟩)
     next))
  (call "wcsnrtombs" ⟨dst; src; nwc; len; ps⟩).

(** ** bits/stdlib.h *)

Definition realpath (name resolved : expr) : plan :=
  known (bos resolved)
    (retif (path_max_defined && (bos resolved <? PATH_MAX)) (warn "__realpath_chk" ⟨name; resolved; bos resolved⟩)
    (return_ (call "__realpath_chk" ⟨name; resolved; bos resolved⟩)))
  (call "realpath" ⟨name; resolved⟩).

Definition ptsname_r (fd buf buflen : expr) : plan :=
  known (bos buf)
    (retif (negb (constant buflen)) (call "__ptsname_r_chk" ⟨fd; buf; buflen; bos buf⟩)
    (retif (bos buf <? buflen) (warn "__ptsname_r_chk" ⟨fd; buf; buflen; bos buf⟩)
     next))
  (call "ptsname_r" ⟨fd; buf; buflen⟩).

Definition wctomb (s wchar : expr) : plan :=
  if negb (bos s =? unknown) && (bos s <? __STDLIB_MB_LEN_MAX) then
    call "__wctomb_chk" ⟨s; wchar; bos s⟩
  else call "wctomb" ⟨s; wchar⟩.

Definition mbstowcs (dst src len : expr) : plan :=
  known (bos dst)
    (retif (negb (constant len)) (call "__mbstowcs_chk" ⟨dst; src; len; bos dst / sizeof_wchar_t⟩)
    (retif (bos dst / sizeof_wchar_t <? len) (warn "__mbstowcs_chk" ⟨dst; src; len; bos dst / sizeof_wchar_t⟩)
     next))
  (call "mbstowcs" ⟨dst; src; len⟩).

Definition wcstombs (dst src len : expr) : plan :=
  known (bos dst)
    (retif (negb (constant len)) (call "__wcstombs_chk" ⟨dst; src; len; bos dst⟩)
    (retif (bos dst <? len) (warn "__wcstombs_chk" ⟨dst; src; len; bos dst⟩)
     next))
  (call "wcstombs" ⟨dst; src; len⟩).

(** ** bits/socket2.h and bits/poll2.h *)

Definition recv (fd buf n flags : expr) : plan :=
  known (bos0 buf)
    (retif (negb (constant n)) (call "__recv_chk" ⟨fd; buf; n; bos0 buf; flags⟩)
    (retif (bos0 buf <? n) (warn "__recv_chk" ⟨fd; buf; n; bos0 buf; flags⟩)
     next))
  (call "recv" ⟨fd; buf; n; flags⟩).

Definition recvfrom (fd buf n flags addr addr_len : expr) : plan :=
  known (bos0 buf)
    (retif (negb (constant n)) (call "__recvfrom_chk" ⟨fd; buf; n; bos0 buf; flags; addr; addr_len⟩)
    (retif (bos0 buf <? n) (warn "__recvfrom_chk" ⟨fd; buf; n; bos0 buf; flags; addr; addr_len⟩)
     next))
  (call "recvfrom" ⟨fd; buf; n; flags; addr; addr_len⟩).

Definition poll (fds nfds timeout : expr) : plan :=
  known (bos fds)
    (retif (negb (constant nfds)) (call "__poll_chk" ⟨fds; nfds; timeout; bos fds⟩)
    (retif (bos fds / sizeof_pollfd <? nfds) (warn "__poll_chk" ⟨fds; nfds; timeout; bos fds⟩)
     next))
  (call "poll" ⟨fds; nfds; timeout⟩).

Definition ppoll (fds nfds timeout ss : expr) : plan :=
  known (bos fds)
    (retif (negb (constant nfds)) (call "__ppoll_chk" ⟨fds; nfds; timeout; ss; bos fds⟩)
    (retif (bos fds / sizeof_pollfd <? nfds) (warn "__ppoll_chk" ⟨fds; nfds; timeout; ss; bos fds⟩)
     next))
  (call "ppoll" ⟨fds; nfds; timeout; ss⟩).

(** ** bits/syslog.h *)

Definition syslog (pri fmt : expr) (va : list Z) : plan :=
  call "__syslog_chk" (⟨pri; fortify_level - 1; fmt⟩ ++ va).

Definition vsyslog (pri fmt ap : expr) : plan :=
  call "__vsyslog_chk" ⟨pri; fortify_level - 1; fmt; ap⟩.

(** ** bits/fcntl2.h and bits/mqueue2.h

    [va]: the arguments behind the flags, __va_arg_pack (). *)

(** [oflag] is that of the code; O_TMPFILE is two bits and both have to be set. *)
Definition __OPEN_NEEDS_MODE (oflag : Z) : bool :=
  negb (Z.land oflag O_CREAT =? 0) || (Z.land oflag __O_TMPFILE =? __O_TMPFILE).

Definition errors_if (c : bool) (e : string) (p : plan) : plan :=
  if c then Plan (Error e :: diags p) (act p) else p.

(** Without and with __USE_FILE_OFFSET64 the names differ in the linker's symbols only. *)
Definition open (path oflag : expr) (va : list Z) : plan :=
  let open_2 := if file_offset64 then "__open64_2" else "__open_2" in
  let open_alias := if file_offset64 then "open64" else "open" in
  errors_if (1 <? length va)%nat "__open_too_many_args"
  (if constant oflag then
     if __OPEN_NEEDS_MODE oflag && (length va <? 1)%nat then
       errors_if true "__open_missing_mode" (call open_2 ⟨path; oflag⟩)
     else call open_alias (⟨path; oflag⟩ ++ va)
   else if (length va <? 1)%nat then call open_2 ⟨path; oflag⟩
   else call open_alias (⟨path; oflag⟩ ++ va)).

Definition open64 (path oflag : expr) (va : list Z) : plan :=
  errors_if (1 <? length va)%nat "__open64_too_many_args"
  (if constant oflag then
     if __OPEN_NEEDS_MODE oflag && (length va <? 1)%nat then
       errors_if true "__open64_missing_mode" (call "__open64_2" ⟨path; oflag⟩)
     else call "open64" (⟨path; oflag⟩ ++ va)
   else if (length va <? 1)%nat then call "__open64_2" ⟨path; oflag⟩
   else call "open64" (⟨path; oflag⟩ ++ va)).

Definition openat (fd path oflag : expr) (va : list Z) : plan :=
  let openat_2 := if file_offset64 then "__openat64_2" else "__openat_2" in
  let openat_alias := if file_offset64 then "openat64" else "openat" in
  errors_if (1 <? length va)%nat "__openat_too_many_args"
  (if constant oflag then
     if __OPEN_NEEDS_MODE oflag && (length va <? 1)%nat then
       errors_if true "__openat_missing_mode" (call openat_2 ⟨fd; path; oflag⟩)
     else call openat_alias (⟨fd; path; oflag⟩ ++ va)
   else if (length va <? 1)%nat then call openat_2 ⟨fd; path; oflag⟩
   else call openat_alias (⟨fd; path; oflag⟩ ++ va)).

Definition openat64 (fd path oflag : expr) (va : list Z) : plan :=
  errors_if (1 <? length va)%nat "__openat64_too_many_args"
  (if constant oflag then
     if __OPEN_NEEDS_MODE oflag && (length va <? 1)%nat then
       errors_if true "__openat64_missing_mode" (call "__openat64_2" ⟨fd; path; oflag⟩)
     else call "openat64" (⟨fd; path; oflag⟩ ++ va)
   else if (length va <? 1)%nat then call "__openat64_2" ⟨fd; path; oflag⟩
   else call "openat64" (⟨fd; path; oflag⟩ ++ va)).

Definition mq_open (name oflag : expr) (va : list Z) : plan :=
  errors_if (negb (length va =? 0)%nat && negb (length va =? 2)%nat) "__mq_open_wrong_number_of_args"
  (if constant oflag then
     if negb (Z.land oflag O_CREAT =? 0) && (length va =? 0)%nat then
       errors_if true "__mq_open_missing_mode_and_attr" (call "__mq_open_2" ⟨name; oflag⟩)
     else call "mq_open" (⟨name; oflag⟩ ++ va)
   else if (length va =? 0)%nat then call "__mq_open_2" ⟨name; oflag⟩
   else call "mq_open" (⟨name; oflag⟩ ++ va)).
End functions.
