(* ===== verification/FortifySpec.v ===== *)
(** What the fortified functions promise: they are the functions of the same names, but end the
    program where one of these would write behind the end of an object whose size the compiler
    knows.  The functions of the library are parameters with what the manuals say of them. *)

From S2P Require Import Prelude CLib Fortify.
#[local] Open Scope string_scope.
#[local] Open Scope list_scope.
#[local] Open Scope Z_scope.

(** ** The library *)

(** The outcome of a call in a state of the program: it is ended ("*** buffer overflow detected
    ***"), or there is a value and the next state. *)
Inductive outcome (St : Type) := Abort | Ret (v : Z) (s : St).
Arguments Abort {St}.
Arguments Ret {St}.

Class Libc := {
  St : Type;
  run : string -> list Z -> St -> outcome St;
  (** how many elements a call is going to write, counted with the NUL *)
  needs : string -> list Z -> St -> Z;
  (** a format with %n in memory that can be written *)
  rejects : string -> list Z -> St -> bool;
  (** a byte is stored *)
  poke : Z -> Z -> St -> St
}.

(** The checked functions: the function that is checked, where the size of the destination and
    the flag of _FORTIFY_SOURCE are among the arguments, and how many units of the size an
    element has. *)
Record row := Row { ck : string; plain : string; len_at : option nat; flag_at : option nat; per : Z }.

Definition checked : list row :=
  [ Row "__builtin___memcpy_chk" "memcpy" (Some 3%nat) None 1;
    Row "__builtin___memmove_chk" "memmove" (Some 3%nat) None 1;
    Row "__builtin___mempcpy_chk" "mempcpy" (Some 3%nat) None 1;
    Row "__builtin___memset_chk" "memset" (Some 3%nat) None 1;
    Row "__explicit_bzero_chk" "explicit_bzero" (Some 2%nat) None 1;
    Row "__builtin___strcpy_chk" "strcpy" (Some 2%nat) None 1;
    Row "__builtin___stpcpy_chk" "stpcpy" (Some 2%nat) None 1;
    Row "__builtin___strncpy_chk" "strncpy" (Some 3%nat) None 1;
    Row "__stpncpy_chk" "stpncpy" (Some 3%nat) None 1;
    Row "__builtin___strcat_chk" "strcat" (Some 2%nat) None 1;
    Row "__builtin___strncat_chk" "strncat" (Some 3%nat) None 1;
    Row "__read_chk" "read" (Some 3%nat) None 1;
    Row "__pread_chk" "pread" (Some 4%nat) None 1;
    Row "__pread64_chk" "pread64" (Some 4%nat) None 1;
    Row "__readlink_chk" "readlink" (Some 3%nat) None 1;
    Row "__readlinkat_chk" "readlinkat" (Some 4%nat) None 1;
    Row "__getcwd_chk" "getcwd" (Some 2%nat) None 1;
    Row "__getwd_chk" "getwd" (Some 1%nat) None 1;
    Row "__confstr_chk" "confstr" (Some 3%nat) None 1;
    Row "__getgroups_chk" "getgroups" (Some 2%nat) None 4;
    Row "__ttyname_r_chk" "ttyname_r" (Some 3%nat) None 1;
    Row "__getlogin_r_chk" "getlogin_r" (Some 2%nat) None 1;
    Row "__gethostname_chk" "gethostname" (Some 2%nat) None 1;
    Row "__getdomainname_chk" "getdomainname" (Some 2%nat) None 1;
    Row "__builtin___sprintf_chk" "sprintf" (Some 2%nat) (Some 1%nat) 1;
    Row "__builtin___vsprintf_chk" "vsprintf" (Some 2%nat) (Some 1%nat) 1;
    Row "__builtin___snprintf_chk" "snprintf" (Some 3%nat) (Some 2%nat) 1;
    Row "__builtin___vsnprintf_chk" "vsnprintf" (Some 3%nat) (Some 2%nat) 1;
    Row "__fprintf_chk" "fprintf" None (Some 1%nat) 1;
    Row "__printf_chk" "printf" None (Some 0%nat) 1;
    Row "__vprintf_chk" "vprintf" None (Some 0%nat) 1;
    Row "__vfprintf_chk" "vfprintf" None (Some 1%nat) 1;
    Row "__dprintf_chk" "dprintf" None (Some 1%nat) 1;
    Row "__vdprintf_chk" "vdprintf" None (Some 1%nat) 1;
    Row "__asprintf_chk" "asprintf" None (Some 1%nat) 1;
    Row "__obstack_printf_chk" "obstack_printf" None (Some 1%nat) 1;
    Row "__vasprintf_chk" "vasprintf" None (Some 1%nat) 1;
    Row "__obstack_vprintf_chk" "obstack_vprintf" None (Some 1%nat) 1;
    Row "__gets_chk" "gets" (Some 1%nat) None 1;
    Row "__fgets_chk" "fgets" (Some 1%nat) None 1;
    Row "__fread_chk" "fread" (Some 1%nat) None 1;
    Row "__fgets_unlocked_chk" "fgets_unlocked" (Some 1%nat) None 1;
    Row "__fread_unlocked_chk" "fread_unlocked" (Some 1%nat) None 1;
    Row "__wmemcpy_chk" "wmemcpy" (Some 3%nat) None 1;
    Row "__wmemmove_chk" "wmemmove" (Some 3%nat) None 1;
    Row "__wmempcpy_chk" "wmempcpy" (Some 3%nat) None 1;
    Row "__wmemset_chk" "wmemset" (Some 3%nat) None 1;
    Row "__wcscpy_chk" "wcscpy" (Some 2%nat) None 1;
    Row "__wcpcpy_chk" "wcpcpy" (Some 2%nat) None 1;
    Row "__wcsncpy_chk" "wcsncpy" (Some 3%nat) None 1;
    Row "__wcpncpy_chk" "wcpncpy" (Some 3%nat) None 1;
    Row "__wcscat_chk" "wcscat" (Some 2%nat) None 1;
    Row "__wcsncat_chk" "wcsncat" (Some 3%nat) None 1;
    Row "__swprintf_chk" "swprintf" (Some 3%nat) (Some 2%nat) 1;
    Row "__vswprintf_chk" "vswprintf" (Some 3%nat) (Some 2%nat) 1;
    Row "__wprintf_chk" "wprintf" None (Some 0%nat) 1;
    Row "__fwprintf_chk" "fwprintf" None (Some 1%nat) 1;
    Row "__vwprintf_chk" "vwprintf" None (Some 0%nat) 1;
    Row "__vfwprintf_chk" "vfwprintf" None (Some 1%nat) 1;
    Row "__fgetws_chk" "fgetws" (Some 1%nat) None 1;
    Row "__fgetws_unlocked_chk" "fgetws_unlocked" (Some 1%nat) None 1;
    Row "__wcrtomb_chk" "wcrtomb" (Some 3%nat) None 1;
    Row "__mbsrtowcs_chk" "mbsrtowcs" (Some 4%nat) None 1;
    Row "__wcsrtombs_chk" "wcsrtombs" (Some 4%nat) None 1;
    Row "__mbsnrtowcs_chk" "mbsnrtowcs" (Some 5%nat) None 1;
    Row "__wcsnrtombs_chk" "wcsnrtombs" (Some 5%nat) None 1;
    Row "__realpath_chk" "realpath" (Some 2%nat) None 1;
    Row "__ptsname_r_chk" "ptsname_r" (Some 3%nat) None 1;
    Row "__wctomb_chk" "wctomb" (Some 2%nat) None 1;
    Row "__mbstowcs_chk" "mbstowcs" (Some 3%nat) None 1;
    Row "__wcstombs_chk" "wcstombs" (Some 3%nat) None 1;
    Row "__recv_chk" "recv" (Some 3%nat) None 1;
    Row "__recvfrom_chk" "recvfrom" (Some 3%nat) None 1;
    Row "__poll_chk" "poll" (Some 3%nat) None 8;
    Row "__ppoll_chk" "ppoll" (Some 4%nat) None 8;
    Row "__syslog_chk" "syslog" None (Some 1%nat) 1;
    Row "__vsyslog_chk" "vsyslog" None (Some 1%nat) 1 ].

Definition omit (i : option nat) (args : list Z) : list Z :=
  match i with Some i => take i args ++ drop (S i) args | None => args end.
(** The flag comes before the size. *)
Definition plain_args (r : row) (args : list Z) : list Z := omit (flag_at r) (omit (len_at r) args).
Definition arg (i : nat) (args : list Z) : Z := nth i args 0.

(** What is written at most, by the arguments. *)
Inductive limit := Content | Arg (i : nat) | Count (i : nat) | Product (i j : nat) | AtMost (n : Z).
Definition limit_of (k : limit) (args : list Z) : option Z :=
  match k with
  | Content => None
  | Arg i => Some (arg i args)
  | Count i => Some (Z.max 0 (arg i args))
  | Product i j => Some (arg i args * arg j args)
  | AtMost n => Some n
  end.

(** The functions that write to a destination: the size of an element, and the limit. *)
Record effect := Effect { elem : Z; most : limit }.

Definition effects : list (string * effect) :=
  [ ("memcpy", Effect 1 (Arg 2));
    ("memmove", Effect 1 (Arg 2));
    ("mempcpy", Effect 1 (Arg 2));
    ("memset", Effect 1 (Arg 2));
    ("bcopy", Effect 1 (Arg 2));
    ("bzero", Effect 1 (Arg 1));
    ("explicit_bzero", Effect 1 (Arg 1));
    ("strcpy", Effect 1 Content);
    ("stpcpy", Effect 1 Content);
    ("strncpy", Effect 1 (Arg 2));
    ("stpncpy", Effect 1 (Arg 2));
    ("strcat", Effect 1 Content);
    ("strncat", Effect 1 Content);
    ("read", Effect 1 (Arg 2));
    ("pread", Effect 1 (Arg 2));
    ("pread64", Effect 1 (Arg 2));
    ("readlink", Effect 1 (Arg 2));
    ("readlinkat", Effect 1 (Arg 3));
    ("getcwd", Effect 1 (Arg 1));
    ("getwd", Effect 1 Content);
    ("confstr", Effect 1 (Arg 2));
    ("getgroups", Effect 4 (Count 0));
    ("ttyname_r", Effect 1 (Arg 2));
    ("getlogin_r", Effect 1 (Arg 1));
    ("gethostname", Effect 1 (Arg 1));
    ("getdomainname", Effect 1 (Arg 1));
    ("sprintf", Effect 1 Content);
    ("vsprintf", Effect 1 Content);
    ("snprintf", Effect 1 (Arg 1));
    ("vsnprintf", Effect 1 (Arg 1));
    ("gets", Effect 1 Content);
    ("fgets", Effect 1 (Count 1));
    ("fread", Effect 1 (Product 1 2));
    ("fgets_unlocked", Effect 1 (Count 1));
    ("fread_unlocked", Effect 1 (Product 1 2));
    ("wmemcpy", Effect 4 (Arg 2));
    ("wmemmove", Effect 4 (Arg 2));
    ("wmempcpy", Effect 4 (Arg 2));
    ("wmemset", Effect 4 (Arg 2));
    ("wcscpy", Effect 4 Content);
    ("wcpcpy", Effect 4 Content);
    ("wcsncpy", Effect 4 (Arg 2));
    ("wcpncpy", Effect 4 (Arg 2));
    ("wcscat", Effect 4 Content);
    ("wcsncat", Effect 4 Content);
    ("swprintf", Effect 4 (Arg 1));
    ("vswprintf", Effect 4 (Arg 1));
    ("fgetws", Effect 4 (Count 1));
    ("fgetws_unlocked", Effect 4 (Count 1));
    ("wcrtomb", Effect 1 (AtMost __WCHAR_MB_LEN_MAX));
    ("mbsrtowcs", Effect 4 (Arg 2));
    ("wcsrtombs", Effect 1 (Arg 2));
    ("mbsnrtowcs", Effect 4 (Arg 3));
    ("wcsnrtombs", Effect 1 (Arg 3));
    ("realpath", Effect 1 (AtMost PATH_MAX));
    ("ptsname_r", Effect 1 (Arg 2));
    ("wctomb", Effect 1 (AtMost __STDLIB_MB_LEN_MAX));
    ("mbstowcs", Effect 4 (Arg 2));
    ("wcstombs", Effect 1 (Arg 2));
    ("recv", Effect 1 (Arg 2));
    ("recvfrom", Effect 1 (Arg 2));
    ("poll", Effect 8 (Arg 1));
    ("ppoll", Effect 8 (Arg 1)) ].

Fixpoint assoc {A} (k : string) (l : list (string * A)) : option A :=
  match l with
  | [] => None
  | (k', x) :: l => if String.eqb k k' then Some x else assoc k l
  end.
Definition effect_of (f : string) : effect := default (Effect 1 Content) (assoc f effects).

Definition void {S} (o : outcome S) : outcome S :=
  match o with Abort => Abort | Ret _ s => Ret 0 s end.

Section posix.
Context {T : Type} (getc : T -> outcome T) (poke : Z -> Z -> T -> T).

(** fread: for each object, [size] calls of getc, the results stored in order; the number of
    objects that are complete. *)
Fixpoint read_object (k : nat) (ptr : Z) (s : T) : outcome T :=
  match k with
  | O => Ret 1 s
  | S k =>
      match getc s with
      | Abort => Abort
      | Ret c s => if c =? -1 then Ret 0 s else read_object k (ptr + 1) (poke ptr c s)
      end
  end.

Fixpoint read_objects (n : nat) (size ptr : Z) (s : T) : outcome T :=
  match n with
  | O => Ret 0 s
  | S n =>
      match read_object (Z.to_nat size) ptr s with
      | Abort => Abort
      | Ret complete s =>
          if complete =? 0 then Ret 0 s
          else match read_objects n size (ptr + size) s with
               | Abort => Abort
               | Ret k s => Ret (1 + k) s
               end
      end
  end.
End posix.

(** What the manuals say. *)
Class LibcLaws `{Compiler} (L : Libc) : Prop := {
  (** a checked function ends the program if the destination is too small, or the flag is set
      and the format is bad; otherwise it is the function it checks *)
  checked_law r args s : r ∈ checked ->
    run (ck r) args s =
      if match len_at r with Some i => arg i args <? per r * needs (plain r) (plain_args r args) s | None => false end
         || match flag_at r with Some i => (0 <? arg i args) && rejects (plain r) (plain_args r args) s | None => false end
      then Abort else run (plain r) (plain_args r args) s;
  limit_law f e args s : (f, e) ∈ effects ->
    match limit_of (most e) args with Some b => needs f args s <= b | None => True end;
  memset_law dest ch s : run "memset" [dest; ch; 0] s = Ret dest s;
  bcopy_law src dest len s :
    run "bcopy" [src; dest; len] s = void (run "memmove" [dest; src; len] s) /\
    needs "bcopy" [src; dest; len] s = needs "memmove" [dest; src; len] s;
  bzero_law dest len s :
    run "bzero" [dest; len] s = void (run "memset" [dest; 0; len] s) /\
    needs "bzero" [dest; len] s = needs "memset" [dest; 0; len] s;
  vprintf_law fmt ap s :
    run "vprintf" [fmt; ap] s = run "vfprintf" [stdout; fmt; ap] s /\
    rejects "vprintf" [fmt; ap] s = rejects "vfprintf" [stdout; fmt; ap] s;
  fread_law ptr size n stream s :
    run "fread_unlocked" [ptr; size; n; stream] s =
      if (size =? 0) || (n =? 0) then Ret 0 s else read_objects (run "getc_unlocked" [stream]) poke (Z.to_nat n) size ptr s;
  open_law f f2 : (f, f2) ∈ [("open", "__open_2"); ("open64", "__open64_2")] -> forall path oflag s,
    run f2 [path; oflag] s = if __OPEN_NEEDS_MODE oflag then Abort else run f [path; oflag] s;
  openat_law f f2 : (f, f2) ∈ [("openat", "__openat_2"); ("openat64", "__openat64_2")] -> forall fd path oflag s,
    run f2 [fd; path; oflag] s = if __OPEN_NEEDS_MODE oflag then Abort else run f [fd; path; oflag] s;
  mq_open_law name oflag s :
    run "__mq_open_2" [name; oflag] s =
      if negb (Z.land oflag O_CREAT =? 0) then Abort else run "mq_open" [name; oflag] s
}.

(** ** Running a plan *)

Section exec.
Context `{Libc}.

(** The loop in fread_unlocked: the pointer behind the last byte stored. *)
Fixpoint read_loop (cnt : nat) (cptr stream : Z) (s : St) : outcome St :=
  match cnt with
  | O => Ret cptr s
  | S cnt =>
      match run "getc_unlocked" [stream] s with
      | Abort => Abort
      | Ret c s => if c =? -1 then Ret cptr s else read_loop cnt (cptr + 1) stream (poke cptr c s)
      end
  end.

Definition exec (a : action) (s : St) : outcome St :=
  match a with
  | Call f args => run f args s
  | CallVoid f args => void (run f args s)
  | Return v => Ret v s
  | ReadLoop stream ptr cnt size =>
      match read_loop cnt ptr stream s with
      | Abort => Abort
      | Ret cptr s => Ret ((cptr - ptr) / size) s
      end
  end.
End exec.

(** ** The fortified functions *)

Inductive ctype := Ptr | Size | Int | Off.
Definition in_type (t : ctype) (x : Z) : Prop :=
  match t with
  | Ptr | Size => 0 <= x < 2 ^ 64
  | Int => - 2 ^ 31 <= x < 2 ^ 31
  | Off => - 2 ^ 63 <= x < 2 ^ 63
  end.

(** A function with a format, or one with the arguments of the format behind it. *)
Inductive kind := Plain | Format | FormatArgs.

Record entry := Entry {
  name : string; params : list ctype; shape : kind; dest : option (bool * nat);
  code : list expr -> plan
}.

Definition nothing : plan := Plan [] (Return 0).
Definition no_buffer : option (bool * nat) := None.
Definition at_bos (i : nat) : option (bool * nat) := Some (false, i).
Definition at_bos0 (i : nat) : option (bool * nat) := Some (true, i).

Section table.
Context `{Compiler}.

Definition fortified : list entry :=
  [ Entry "memcpy" [Ptr; Ptr; Size] Plain (at_bos0 0)
    (fun l => match l with [dest; src; len] => memcpy dest src len | _ => nothing end);
    Entry "memmove" [Ptr; Ptr; Size] Plain (at_bos0 0)
    (fun l => match l with [dest; src; len] => memmove dest src len | _ => nothing end);
    Entry "mempcpy" [Ptr; Ptr; Size] Plain (at_bos0 0)
    (fun l => match l with [dest; src; len] => mempcpy dest src len | _ => nothing end);
    Entry "memset" [Ptr; Int; Size] Plain (at_bos0 0)
    (fun l => match l with [dest; ch; len] => memset dest ch len | _ => nothing end);
    Entry "bcopy" [Ptr; Ptr; Size] Plain (at_bos0 1)
    (fun l => match l with [src; dest; len] => bcopy src dest len | _ => nothing end);
    Entry "bzero" [Ptr; Size] Plain (at_bos0 0)
    (fun l => match l with [dest; len] => bzero dest len | _ => nothing end);
    Entry "explicit_bzero" [Ptr; Size] Plain (at_bos0 0)
    (fun l => match l with [dest; len] => explicit_bzero dest len | _ => nothing end);
    Entry "strcpy" [Ptr; Ptr] Plain (at_bos 0)
    (fun l => match l with [dest; src] => strcpy dest src | _ => nothing end);
    Entry "stpcpy" [Ptr; Ptr] Plain (at_bos 0)
    (fun l => match l with [dest; src] => stpcpy dest src | _ => nothing end);
    Entry "strncpy" [Ptr; Ptr; Size] Plain (at_bos 0)
    (fun l => match l with [dest; src; len] => strncpy dest src len | _ => nothing end);
    Entry "stpncpy" [Ptr; Ptr; Size] Plain (at_bos 0)
    (fun l => match l with [dest; src; n] => stpncpy dest src n | _ => nothing end);
    Entry "strcat" [Ptr; Ptr] Plain (at_bos 0)
    (fun l => match l with [dest; src] => strcat dest src | _ => nothing end);
    Entry "strncat" [Ptr; Ptr; Size] Plain (at_bos 0)
    (fun l => match l with [dest; src; len] => strncat dest src len | _ => nothing end);
    Entry "read" [Int; Ptr; Size] Plain (at_bos0 1)
    (fun l => match l with [fd; buf; nbytes] => read fd buf nbytes | _ => nothing end);
    Entry "pread" [Int; Ptr; Size; Off] Plain (at_bos0 1)
    (fun l => match l with [fd; buf; nbytes; offset] => pread_off fd buf nbytes offset | _ => nothing end);
    Entry "pread64" [Int; Ptr; Size; Off] Plain (at_bos0 1)
    (fun l => match l with [fd; buf; nbytes; offset] => pread_off64 fd buf nbytes offset | _ => nothing end);
    Entry "pread64" [Int; Ptr; Size; Off] Plain (at_bos0 1)
    (fun l => match l with [fd; buf; nbytes; offset] => pread64 fd buf nbytes offset | _ => nothing end);
    Entry "readlink" [Ptr; Ptr; Size] Plain (at_bos 1)
    (fun l => match l with [path; buf; len] => readlink path buf len | _ => nothing end);
    Entry "readlinkat" [Int; Ptr; Ptr; Size] Plain (at_bos 2)
    (fun l => match l with [fd; path; buf; len] => readlinkat fd path buf len | _ => nothing end);
    Entry "getcwd" [Ptr; Size] Plain (at_bos 0)
    (fun l => match l with [buf; size] => getcwd buf size | _ => nothing end);
    Entry "getwd" [Ptr] Plain (at_bos 0)
    (fun l => match l with [buf] => getwd buf | _ => nothing end);
    Entry "confstr" [Int; Ptr; Size] Plain (at_bos 1)
    (fun l => match l with [name; buf; len] => confstr name buf len | _ => nothing end);
    Entry "getgroups" [Int; Ptr] Plain (at_bos 1)
    (fun l => match l with [size; list] => getgroups size list | _ => nothing end);
    Entry "ttyname_r" [Int; Ptr; Size] Plain (at_bos 1)
    (fun l => match l with [fd; buf; buflen] => ttyname_r fd buf buflen | _ => nothing end);
    Entry "getlogin_r" [Ptr; Size] Plain (at_bos 0)
    (fun l => match l with [buf; buflen] => getlogin_r buf buflen | _ => nothing end);
    Entry "gethostname" [Ptr; Size] Plain (at_bos 0)
    (fun l => match l with [buf; buflen] => gethostname buf buflen | _ => nothing end);
    Entry "getdomainname" [Ptr; Size] Plain (at_bos 0)
    (fun l => match l with [buf; buflen] => getdomainname buf buflen | _ => nothing end);
    Entry "sprintf" [Ptr; Ptr] FormatArgs (at_bos 0)
    (fun l => match l with s :: fmt :: va => sprintf s fmt (value <$> va) | _ => nothing end);
    Entry "vsprintf" [Ptr; Ptr; Ptr] Format (at_bos 0)
    (fun l => match l with [s; fmt; ap] => vsprintf s fmt ap | _ => nothing end);
    Entry "snprintf" [Ptr; Size; Ptr] FormatArgs (at_bos 0)
    (fun l => match l with s :: n :: fmt :: va => snprintf s n fmt (value <$> va) | _ => nothing end);
    Entry "vsnprintf" [Ptr; Size; Ptr; Ptr] Format (at_bos 0)
    (fun l => match l with [s; n; fmt; ap] => vsnprintf s n fmt ap | _ => nothing end);
    Entry "fprintf" [Ptr; Ptr] FormatArgs no_buffer
    (fun l => match l with stream :: fmt :: va => fprintf stream fmt (value <$> va) | _ => nothing end);
    Entry "printf" [Ptr] FormatArgs no_buffer
    (fun l => match l with fmt :: va => printf fmt (value <$> va) | _ => nothing end);
    Entry "vprintf" [Ptr; Ptr] Format no_buffer
    (fun l => match l with [fmt; ap] => vprintf fmt ap | _ => nothing end);
    Entry "vfprintf" [Ptr; Ptr; Ptr] Format no_buffer
    (fun l => match l with [stream; fmt; ap] => vfprintf stream fmt ap | _ => nothing end);
    Entry "dprintf" [Int; Ptr] FormatArgs no_buffer
    (fun l => match l with fd :: fmt :: va => dprintf fd fmt (value <$> va) | _ => nothing end);
    Entry "vdprintf" [Int; Ptr; Ptr] Format no_buffer
    (fun l => match l with [fd; fmt; ap] => vdprintf fd fmt ap | _ => nothing end);
    Entry "asprintf" [Ptr; Ptr] FormatArgs no_buffer
    (fun l => match l with ptr :: fmt :: va => asprintf ptr fmt (value <$> va) | _ => nothing end);
    Entry "asprintf" [Ptr; Ptr] FormatArgs no_buffer
    (fun l => match l with ptr :: fmt :: va => __asprintf ptr fmt (value <$> va) | _ => nothing end);
    Entry "obstack_printf" [Ptr; Ptr] FormatArgs no_buffer
    (fun l => match l with obstack :: fmt :: va => obstack_printf obstack fmt (value <$> va) | _ => nothing end);
    Entry "vasprintf" [Ptr; Ptr; Ptr] Format no_buffer
    (fun l => match l with [ptr; fmt; ap] => vasprintf ptr fmt ap | _ => nothing end);
    Entry "obstack_vprintf" [Ptr; Ptr; Ptr] Format no_buffer
    (fun l => match l with [obstack; fmt; ap] => obstack_vprintf obstack fmt ap | _ => nothing end);
    Entry "gets" [Ptr] Plain (at_bos 0)
    (fun l => match l with [str] => gets str | _ => nothing end);
    Entry "fgets" [Ptr; Int; Ptr] Plain (at_bos 0)
    (fun l => match l with [s; n; stream] => fgets s n stream | _ => nothing end);
    Entry "fread" [Ptr; Size; Size; Ptr] Plain (at_bos0 0)
    (fun l => match l with [ptr; size; n; stream] => fread ptr size n stream | _ => nothing end);
    Entry "fgets_unlocked" [Ptr; Int; Ptr] Plain (at_bos 0)
    (fun l => match l with [s; n; stream] => fgets_unlocked s n stream | _ => nothing end);
    Entry "fread_unlocked" [Ptr; Size; Size; Ptr] Plain (at_bos0 0)
    (fun l => match l with [ptr; size; n; stream] => fread_unlocked ptr size n stream | _ => nothing end);
    Entry "wmemcpy" [Ptr; Ptr; Size] Plain (at_bos0 0)
    (fun l => match l with [s1; s2; n] => wmemcpy s1 s2 n | _ => nothing end);
    Entry "wmemmove" [Ptr; Ptr; Size] Plain (at_bos0 0)
    (fun l => match l with [s1; s2; n] => wmemmove s1 s2 n | _ => nothing end);
    Entry "wmempcpy" [Ptr; Ptr; Size] Plain (at_bos0 0)
    (fun l => match l with [s1; s2; n] => wmempcpy s1 s2 n | _ => nothing end);
    Entry "wmemset" [Ptr; Int; Size] Plain (at_bos0 0)
    (fun l => match l with [s; c; n] => wmemset s c n | _ => nothing end);
    Entry "wcscpy" [Ptr; Ptr] Plain (at_bos 0)
    (fun l => match l with [dest; src] => wcscpy dest src | _ => nothing end);
    Entry "wcpcpy" [Ptr; Ptr] Plain (at_bos 0)
    (fun l => match l with [dest; src] => wcpcpy dest src | _ => nothing end);
    Entry "wcsncpy" [Ptr; Ptr; Size] Plain (at_bos 0)
    (fun l => match l with [dest; src; n] => wcsncpy dest src n | _ => nothing end);
    Entry "wcpncpy" [Ptr; Ptr; Size] Plain (at_bos 0)
    (fun l => match l with [dest; src; n] => wcpncpy dest src n | _ => nothing end);
    Entry "wcscat" [Ptr; Ptr] Plain (at_bos 0)
    (fun l => match l with [dest; src] => wcscat dest src | _ => nothing end);
    Entry "wcsncat" [Ptr; Ptr; Size] Plain (at_bos 0)
    (fun l => match l with [dest; src; n] => wcsncat dest src n | _ => nothing end);
    Entry "swprintf" [Ptr; Size; Ptr] FormatArgs (at_bos 0)
    (fun l => match l with s :: n :: fmt :: va => swprintf s n fmt (value <$> va) | _ => nothing end);
    Entry "vswprintf" [Ptr; Size; Ptr; Ptr] Format (at_bos 0)
    (fun l => match l with [s; n; fmt; ap] => vswprintf s n fmt ap | _ => nothing end);
    Entry "wprintf" [Ptr] FormatArgs no_buffer
    (fun l => match l with fmt :: va => wprintf fmt (value <$> va) | _ => nothing end);
    Entry "fwprintf" [Ptr; Ptr] FormatArgs no_buffer
    (fun l => match l with stream :: fmt :: va => fwprintf stream fmt (value <$> va) | _ => nothing end);
    Entry "vwprintf" [Ptr; Ptr] Format no_buffer
    (fun l => match l with [fmt; ap] => vwprintf fmt ap | _ => nothing end);
    Entry "vfwprintf" [Ptr; Ptr; Ptr] Format no_buffer
    (fun l => match l with [stream; fmt; ap] => vfwprintf stream fmt ap | _ => nothing end);
    Entry "fgetws" [Ptr; Int; Ptr] Plain (at_bos 0)
    (fun l => match l with [s; n; stream] => fgetws s n stream | _ => nothing end);
    Entry "fgetws_unlocked" [Ptr; Int; Ptr] Plain (at_bos 0)
    (fun l => match l with [s; n; stream] => fgetws_unlocked s n stream | _ => nothing end);
    Entry "wcrtomb" [Ptr; Int; Ptr] Plain (at_bos 0)
    (fun l => match l with [s; wchar; ps] => wcrtomb s wchar ps | _ => nothing end);
    Entry "mbsrtowcs" [Ptr; Ptr; Size; Ptr] Plain (at_bos 0)
    (fun l => match l with [dst; src; len; ps] => mbsrtowcs dst src len ps | _ => nothing end);
    Entry "wcsrtombs" [Ptr; Ptr; Size; Ptr] Plain (at_bos 0)
    (fun l => match l with [dst; src; len; ps] => wcsrtombs dst src len ps | _ => nothing end);
    Entry "mbsnrtowcs" [Ptr; Ptr; Size; Size; Ptr] Plain (at_bos 0)
    (fun l => match l with [dst; src; nmc; len; ps] => mbsnrtowcs dst src nmc len ps | _ => nothing end);
    Entry "wcsnrtombs" [Ptr; Ptr; Size; Size; Ptr] Plain (at_bos 0)
    (fun l => match l with [dst; src; nwc; len; ps] => wcsnrtombs dst src nwc len ps | _ => nothing end);
    Entry "realpath" [Ptr; Ptr] Plain (at_bos 1)
    (fun l => match l with [name; resolved] => realpath name resolved | _ => nothing end);
    Entry "ptsname_r" [Int; Ptr; Size] Plain (at_bos 1)
    (fun l => match l with [fd; buf; buflen] => ptsname_r fd buf buflen | _ => nothing end);
    Entry "wctomb" [Ptr; Int] Plain (at_bos 0)
    (fun l => match l with [s; wchar] => wctomb s wchar | _ => nothing end);
    Entry "mbstowcs" [Ptr; Ptr; Size] Plain (at_bos 0)
    (fun l => match l with [dst; src; len] => mbstowcs dst src len | _ => nothing end);
    Entry "wcstombs" [Ptr; Ptr; Size] Plain (at_bos 0)
    (fun l => match l with [dst; src; len] => wcstombs dst src len | _ => nothing end);
    Entry "recv" [Int; Ptr; Size; Int] Plain (at_bos0 1)
    (fun l => match l with [fd; buf; n; flags] => recv fd buf n flags | _ => nothing end);
    Entry "recvfrom" [Int; Ptr; Size; Int; Ptr; Ptr] Plain (at_bos0 1)
    (fun l => match l with [fd; buf; n; flags; addr; addr_len] => recvfrom fd buf n flags addr addr_len | _ => nothing end);
    Entry "poll" [Ptr; Size; Int] Plain (at_bos 0)
    (fun l => match l with [fds; nfds; timeout] => poll fds nfds timeout | _ => nothing end);
    Entry "ppoll" [Ptr; Size; Ptr; Ptr] Plain (at_bos 0)
    (fun l => match l with [fds; nfds; timeout; ss] => ppoll fds nfds timeout ss | _ => nothing end);
    Entry "syslog" [Int; Ptr] FormatArgs no_buffer
    (fun l => match l with pri :: fmt :: va => syslog pri fmt (value <$> va) | _ => nothing end);
    Entry "vsyslog" [Int; Ptr; Ptr] Format no_buffer
    (fun l => match l with [pri; fmt; ap] => vsyslog pri fmt ap | _ => nothing end) ].

Definition arguments (e : entry) (args : list expr) : Prop :=
  Forall2 (fun t (x : expr) => in_type t x) (params e) (take (length (params e)) args) /\
  (length args = length (params e) \/ shape e = FormatArgs).

(** What the compiler knows of the destination. *)
Definition dest_size (e : entry) (args : list Z) : Z :=
  match dest e with
  | Some (false, i) => bos (arg i args)
  | Some (true, i) => bos0 (arg i args)
  | None => unknown
  end.

Definition formatted (e : entry) : bool := match shape e with Plain => false | _ => true end.
End table.

(** ** The laws, by name *)

Definition row_of (c : string) : option row := find (fun r => String.eqb c (ck r)) checked.

Lemma assoc_in {A} k (l : list (string * A)) x : assoc k l = Some x -> (k, x) ∈ l.
Proof.
  induction l as [|[k' y] l IH]; cbn; [done|]. destruct (String.eqb_spec k k') as [->|]; intros H; simplify_eq; set_solver.
Qed.

Section laws.
Context `{Compiler} (L : Libc) {HL : LibcLaws L}.

Lemma checked_call c r args s : row_of c = Some r ->
  run c args s =
    if match len_at r with Some i => arg i args <? per r * needs (plain r) (plain_args r args) s | None => false end
       || match flag_at r with Some i => (0 <? arg i args) && rejects (plain r) (plain_args r args) s | None => false end
    then Abort else run (plain r) (plain_args r args) s.
Proof.
  intros Hr. apply find_some in Hr as [Hin Hc]. apply String.eqb_eq in Hc as ->.
  apply checked_law, list_elem_of_In, Hin.
Qed.

Lemma limited f e args s : assoc f effects = Some e ->
  match limit_of (most e) args with Some b => needs f args s <= b | None => True end.
Proof. intros He. by apply limit_law, assoc_in. Qed.

(** The loop is the calls that fread stands for. *)
Lemma read_loop_object k ptr stream s :
  match read_object (run "getc_unlocked" [stream]) poke k ptr s with
  | Abort => read_loop k ptr stream s = Abort
  | Ret v s' => exists j, read_loop k ptr stream s = Ret (ptr + Z.of_nat j) s' /\
      ((v = 1 /\ j = k) \/ (v = 0 /\ (j < k)%nat))
  end.
Proof.
  revert ptr s. induction k as [|k IH]; intros ptr s; cbn; [exists 0%nat; rewrite Z.add_0_r; auto|].
  destruct (run _ _ s) as [|c s1]; [done|]. destruct (c =? -1).
  { exists 0%nat. rewrite Z.add_0_r. split; [done|]. right. split; [done | lia]. }
  specialize (IH (ptr + 1) (poke ptr c s1)). destruct (read_object _ _ _ _ _) as [|v s']; [done|].
  destruct IH as (j & Hj & Hc). exists (S j). split; [rewrite Hj; f_equal; lia|].
  destruct Hc as [[-> ->]|[-> ?]]; [by left | right; split; [done | lia]].
Qed.

Lemma read_loop_app k l ptr stream s :
  read_loop (k + l) ptr stream s =
  match read_object (run "getc_unlocked" [stream]) poke k ptr s with
  | Abort => Abort
  | Ret v s' => if v =? 1 then read_loop l (ptr + Z.of_nat k) stream s' else read_loop k ptr stream s
  end.
Proof.
  revert ptr s. induction k as [|k IH]; intros ptr s; cbn; [by rewrite Z.add_0_r|].
  destruct (run _ _ s) as [|c s1]; [done|]. destruct (c =? -1); [done|].
  rewrite IH. destruct (read_object _ _ _ _ _) as [|v s']; [done|]. destruct (v =? 1); [f_equal; lia | done].
Qed.

Lemma read_loop_objects n size ptr stream s : 0 < size ->
  exec (ReadLoop stream ptr (n * Z.to_nat size) size) s =
  read_objects (run "getc_unlocked" [stream]) poke n size ptr s.
Proof.
  intros Hs. revert ptr s. induction n as [|n IH]; intros ptr s; cbn.
  { rewrite Z.sub_diag. f_equal. }
  rewrite read_loop_app. pose proof (read_loop_object (Z.to_nat size) ptr stream s) as Ho.
  destruct (read_object _ _ _ _ _) as [|v s']; [done|]. destruct Ho as (j & Hj & [[-> ->]|[-> Hlt]]); cbn.
  - specialize (IH (ptr + Z.of_nat (Z.to_nat size)) s'). cbn in IH.
    rewrite Z2Nat.id in * by lia. rewrite <-IH.
    destruct (read_loop _ _ _ _) as [|c s2]; [done|]. f_equal.
    replace (c - ptr) with (1 * size + (c - (ptr + size))) by lia. by rewrite Z.div_add_l by lia.
  - rewrite Hj. f_equal. rewrite Z.div_small; lia.
Qed.
End laws.

(** ** The theorem *)

Class CompilerLaws (C : Compiler) : Prop := {
  object_size_range m p : 0 <= object_size m p < 2 ^ 64;
  level_positive : 1 <= fortify_level
}.

Section fortified.
Context (C : Compiler) {HC : CompilerLaws C} (L : Libc) {HL : LibcLaws L}.

(** The call writes more than the destination has. *)
Definition overflows (e : entry) (args : list Z) (s : St) : bool :=
  match dest e with
  | Some _ => dest_size e args <? elem (effect_of (name e)) * needs (name e) args s
  | None => false
  end.

Definition fortified_ok (e : entry) : Prop := forall args s,
  arguments e args ->
  (dest_size e (value <$> args) = unknown -> overflows e (value <$> args) s = false) ->
  exec (act (code e args)) s =
    if overflows e (value <$> args) s
       || (formatted e && (1 <? fortify_level) && rejects (name e) (value <$> args) s)
    then Abort else run (name e) (value <$> args) s.

Lemma lor_small a b k : 0 <= a -> 0 <= b -> 0 < k -> Z.lor a b < 2 ^ k -> a < 2 ^ k /\ b < 2 ^ k.
Proof.
  intros Ha Hb Hk Hlt. assert (0 <= Z.lor a b) by by apply Z.lor_nonneg.
  assert (Hl : Z.log2 (Z.lor a b) < k).
  { destruct (Z.eqb_spec (Z.lor a b) 0) as [->|]; [cbn; lia|]. apply Z.log2_lt_pow2; lia. }
  rewrite Z.log2_lor in Hl by done.
  split.
  - destruct (Z.eqb_spec a 0) as [->|]; [lia|]. apply Z.log2_lt_pow2; lia.
  - destruct (Z.eqb_spec b 0) as [->|]; [lia|]. apply Z.log2_lt_pow2; lia.
Qed.

Create HintDb fortified.
#[local] Hint Unfold
  memcpy memmove mempcpy memset bcopy bzero explicit_bzero strcpy stpcpy strncpy stpncpy strcat
  strncat read pread_off pread_off64 pread64 readlink readlinkat getcwd getwd confstr getgroups
  ttyname_r getlogin_r gethostname getdomainname sprintf vsprintf snprintf vsnprintf fprintf
  printf vprintf vfprintf dprintf vdprintf asprintf __asprintf obstack_printf vasprintf
  obstack_vprintf gets fgets fread fgets_unlocked fread_unlocked wmemcpy wmemmove wmempcpy
  wmemset wcscpy wcpcpy wcsncpy wcpncpy wcscat wcsncat swprintf vswprintf wprintf fwprintf
  vwprintf vfwprintf fgetws fgetws_unlocked wcrtomb mbsrtowcs wcsrtombs mbsnrtowcs wcsnrtombs
  realpath ptsname_r wctomb mbstowcs wcstombs recv recvfrom poll ppoll syslog vsyslog
  : fortified.
#[local] Hint Unfold known call call_void warn retif next return_ unknown
  sizeof_wchar_t sizeof_gid_t sizeof_pollfd __WCHAR_MB_LEN_MAX __STDLIB_MB_LEN_MAX PATH_MAX half_size_t u64 : fortified.

(** The arguments one by one. *)
Ltac take_arguments H :=
  let Hl := fresh "Hl" in
  destruct H as [H Hl]; cbn [params length shape] in H, Hl;
  repeat match type of H with
    | Forall2 _ (_ :: _) (take _ ?l) =>
        destruct l as [|? l]; cbn [take firstn] in H; [by inversion H|];
        apply Forall2_cons in H as [? H]; cbn [in_type] in *
    end;
  match type of H with Forall2 _ [] (take _ ?l) =>
    match type of Hl with
    | _ \/ FormatArgs = _ => idtac
    | _ => destruct l; [|exfalso; destruct Hl as [Hl|Hl]; [cbn in Hl; lia | discriminate Hl]]
    end
  end; clear H Hl.

(** Calls of checked functions are replaced by what they do. *)
Ltac checked_calls :=
  repeat match goal with
    | |- context [run ?c ?args ?s] =>
        let r := eval vm_compute in (row_of c) in
        lazymatch r with
        | Some ?r => rewrite (checked_call L c r args s eq_refl);
            cbn [ck plain len_at flag_at per plain_args omit arg take drop nth app]
        end
    end.

Ltac known_effect :=
  repeat match goal with
    | |- context [effect_of ?n] => let v := eval vm_compute in (effect_of n) in change (effect_of n) with v
    | H : context [effect_of ?n] |- _ => let v := eval vm_compute in (effect_of n) in change (effect_of n) with v in H
    end; cbn [elem most] in *.

Lemma choose {A} (b b' : bool) (x y : A) : b = b' -> (if b then x else y) = (if b' then x else y).
Proof. by intros ->. Qed.
Lemma choose_not {A} (b : bool) (x y : A) : b = false -> y = (if b then x else y).
Proof. by intros ->. Qed.
Lemma void_if {S} (b : bool) (o : outcome S) : void (if b then Abort else o) = if b then Abort else void o.
Proof. by destruct b. Qed.

#[local] Ltac Zify.zify_post_hook ::= Z.div_mod_to_equations.
Ltac prepare :=
  let Hargs := fresh "Hargs" in let Hbig := fresh "Hbig" in
  intros args s Hargs Hbig; take_arguments Hargs;
  unfold overflows, formatted in *; cbn [name params shape dest code dest_size at_bos at_bos0 no_buffer fmap list_fmap arg nth] in *.
Ltac sizes :=
  repeat match goal with
  | |- context [bos ?p] => let sz := fresh "sz" in set (sz := bos p) in *; assert (0 <= sz < 2 ^ 64) by apply object_size_range; clearbody sz
  | |- context [bos0 ?p] => let sz := fresh "sz" in set (sz := bos0 p) in *; assert (0 <= sz < 2 ^ 64) by apply object_size_range; clearbody sz
  end.
Ltac limits :=
  match goal with
  | |- context [needs ?f ?a ?s] =>
      let e := eval vm_compute in (assoc f effects) in
      lazymatch e with
      | Some ?e => let H := fresh "Hlim" in pose proof (limited L f e a s eq_refl) as H; cbn [most limit_of arg nth] in H;
                   let n := fresh "needed" in set (n := needs f a s) in *; clearbody n
      end
  | _ => idtac
  end.
Ltac branch :=
  repeat match goal with
  | |- context [act (default _ (if ?b then _ else _))] => let H := fresh "Hb" in destruct b eqn:H
  | |- context [act (if ?b then _ else _)] => let H := fresh "Hb" in destruct b eqn:H
  | _ => progress cbn [default from_option act exec id]
  end.
Ltac decided :=
  (apply choose || apply choose_not); try reflexivity;
  repeat match goal with |- context [rejects ?f ?a ?s] => generalize (rejects f a s); intros [] end; try lia.
(** The calls a function comes down to, and what they do. *)
Ltac plans := prepare; known_effect; autounfold with fortified in *; sizes; branch; checked_calls.
Ltac fortify := plans; limits; decided.

Lemma memset_ok : fortified_ok (Entry "memset" [Ptr; Int; Size] Plain (at_bos0 0)
  (fun l => match l with [dest; ch; len] => memset dest ch len | _ => nothing end)).
Proof.
  plans; limits; [|decided].
  match goal with H : _ && _ && (value ?len =? 0) && _ = true |- _ =>
    assert (Hz : value len = 0) by (by repeat (apply andb_prop in H as [H ?]); lia); rewrite Hz in * end.
  rewrite memset_law. decided.
Qed.

Lemma bcopy_ok : fortified_ok (Entry "bcopy" [Ptr; Ptr; Size] Plain (at_bos0 1)
  (fun l => match l with [src; dest; len] => bcopy src dest len | _ => nothing end)).
Proof.
  plans. match goal with |- context [run "bcopy" [?a; ?b; ?c] ?s] => destruct (bcopy_law a b c s) as [-> ->] end.
  rewrite void_if. decided.
Qed.

Lemma bzero_ok : fortified_ok (Entry "bzero" [Ptr; Size] Plain (at_bos0 0)
  (fun l => match l with [dest; len] => bzero dest len | _ => nothing end)).
Proof.
  plans. match goal with |- context [run "bzero" [?a; ?b] ?s] => destruct (bzero_law a b s) as [-> ->] end.
  rewrite void_if. decided.
Qed.

Lemma vprintf_ok : fortified_ok (Entry "vprintf" [Ptr; Ptr] Format no_buffer
  (fun l => match l with [fmt; ap] => vprintf fmt ap | _ => nothing end)).
Proof.
  plans; [|decided].
  match goal with |- context [run "vprintf" [?a; ?b] ?s] => destruct (vprintf_law a b s) as [-> ->] end. decided.
Qed.

(** What the checks of fread know about the product. *)
Lemma product_fits size n : 0 <= size -> 0 <= n -> Z.lor size n < 2 ^ 32 -> (size * n) mod 2 ^ 64 = size * n.
Proof.
  intros Hs Hn Hl. apply lor_small in Hl as [? ?]; [|done|done|done]. apply Z.mod_small. nia.
Qed.

Ltac products :=
  change (Z.shiftl 1 (8 * 8 / 2) mod 2 ^ 64) with (2 ^ 32) in *;
  repeat match goal with
    | H : negb _ || negb _ || (_ <=? _) = false |- _ =>
        apply orb_false_elim in H as [H ?%Z.leb_gt]; rewrite product_fits in * by lia
    | H : _ && (_ && (_ <? _) && _) = true |- _ =>
        apply andb_prop in H as [? [[? ?%Z.ltb_lt]%andb_prop H]%andb_prop]; rewrite product_fits in * by lia
    end.

Lemma fread_ok : fortified_ok (Entry "fread" [Ptr; Size; Size; Ptr] Plain (at_bos0 0)
  (fun l => match l with [ptr; size; n; stream] => fread ptr size n stream | _ => nothing end)).
Proof. plans; limits; products; decided. Qed.

(** The loop, for the bytes of all objects at once. *)
Lemma inline_loop ptr size n stream s : 0 <= size -> 0 <= n ->
  run "fread_unlocked" [ptr; size; n; stream] s =
    if size * n =? 0 then Ret 0 s else exec (ReadLoop stream ptr (Z.to_nat (size * n)) size) s.
Proof.
  intros Hs Hn. rewrite fread_law.
  destruct (Z.eqb_spec size 0) as [->|]; [done|]. destruct (Z.eqb_spec n 0) as [->|]; [by rewrite Z.mul_0_r|].
  destruct (Z.eqb_spec (size * n) 0); [nia|]. cbn [orb]. rewrite <-read_loop_objects by lia.
  do 2 f_equal. rewrite Z2Nat.inj_mul by lia. apply Nat.mul_comm.
Qed.

Lemma fread_unlocked_ok : fortified_ok (Entry "fread_unlocked" [Ptr; Size; Size; Ptr] Plain (at_bos0 0)
  (fun l => match l with [ptr; size; n; stream] => fread_unlocked ptr size n stream | _ => nothing end)).
Proof.
  plans; limits; products; try decided; rewrite inline_loop by lia;
    match goal with H : (_ * _ =? 0) = _ |- _ => rewrite H end; cbn [exec]; decided.
Qed.

Lemma fortified_all : Forall fortified_ok fortified.
Proof.
  unfold fortified. repeat apply Forall_cons_2;
    first [exact memset_ok | exact bcopy_ok | exact bzero_ok | exact vprintf_ok | exact fread_ok
      | exact fread_unlocked_ok | exact (Forall_nil_2 _) | fortify].
Qed.

(** *** Warnings *)

(** A warning is due: the call may write more than there is room for, or the room is not known
    to a function that has no limit, or memset has nothing to do. *)
Definition suspicious (e : entry) (args : list Z) : Prop :=
  (exists b, limit_of (most (effect_of (name e))) args = Some b /\
    dest_size e args <> unknown /\ dest_size e args < elem (effect_of (name e)) * b) \/
  (most (effect_of (name e)) = Content /\ dest_size e args = unknown) \/
  (name e = "memset" /\ arg 2 args = 0).

Definition justified (e : entry) : Prop := forall args,
  arguments e args -> diags (code e args) <> [] -> suspicious e (value <$> args).

Ltac warnings :=
  let Hargs := fresh "Hargs" in let Hd := fresh "Hd" in
  intros args Hargs Hd; take_arguments Hargs; revert Hd; unfold suspicious;
  cbn [name params shape dest code dest_size at_bos at_bos0 no_buffer fmap list_fmap arg nth] in *;
  known_effect; autounfold with fortified in *; sizes;
  cbn [limit_of arg nth];
  repeat match goal with
  | |- context [diags (default _ (if ?b then _ else _))] => let H := fresh "Hb" in destruct b eqn:H
  | |- context [diags (if ?b then _ else _)] => let H := fresh "Hb" in destruct b eqn:H
  | _ => progress cbn [default from_option diags id]
  end; intros Hd; first [by destruct Hd | idtac].

Lemma justified_all : Forall justified fortified.
Proof.
  unfold fortified. repeat apply Forall_cons_2; [..|apply Forall_nil_2];
    warnings;
    first [left; eexists; split; [reflexivity|]; products; lia | right; left; split; [done | lia]
      | right; right; split; [done | lia]].
Qed.
End fortified.

(** ** open *)

(** A function with optional arguments: those it always has, how many more there may be, and when
    they are needed. *)
Record opener := Opener {
  o_name : string; o_fixed : nat; o_packs : list nat; o_needs : Z -> bool;
  o_code : list expr -> list Z -> plan
}.

Section openers.
Context `{Compiler}.

Definition openers : list opener :=
  [ Opener (if file_offset64 then "open64" else "open") 2 [0; 1]%nat __OPEN_NEEDS_MODE
      (fun l va => match l with [path; oflag] => open path oflag va | _ => nothing end);
    Opener "open64" 2 [0; 1]%nat __OPEN_NEEDS_MODE
      (fun l va => match l with [path; oflag] => open64 path oflag va | _ => nothing end);
    Opener (if file_offset64 then "openat64" else "openat") 3 [0; 1]%nat __OPEN_NEEDS_MODE
      (fun l va => match l with [fd; path; oflag] => openat fd path oflag va | _ => nothing end);
    Opener "openat64" 3 [0; 1]%nat __OPEN_NEEDS_MODE
      (fun l va => match l with [fd; path; oflag] => openat64 fd path oflag va | _ => nothing end);
    Opener "mq_open" 2 [0; 2]%nat (fun oflag => negb (Z.land oflag O_CREAT =? 0))
      (fun l va => match l with [name; oflag] => mq_open name oflag va | _ => nothing end) ].

Definition rejected (p : plan) : bool :=
  existsb (fun d => match d with Error _ => true | Warn _ => false end) (diags p).
End openers.

(** The common shape, for a function [f] and its checked form [f2]. *)
Definition opener_plan (bad cst needs : bool) (e1 e2 f2 f : string) (fixed va : list Z) : plan :=
  errors_if bad e1
  (if cst then
     if needs && (length va =? 0)%nat then errors_if true e2 (call f2 fixed) else call f (fixed ++ va)
   else if (length va =? 0)%nat then call f2 fixed else call f (fixed ++ va)).

Lemma opener_plan_ok (L : Libc) (bad cst missing : bool) (e1 e2 f2 f : string) (fixed va : list Z) (s : St) :
  run f2 fixed s = (if missing then Abort else run f fixed s) ->
  let p := opener_plan bad cst missing e1 e2 f2 f fixed va in
  rejected p = bad || (cst && (missing && (length va =? 0)%nat)) /\
  exec (act p) s = if missing && (length va =? 0)%nat then Abort else run f (fixed ++ va) s.
Proof.
  intros H2. cbv zeta. unfold opener_plan, errors_if, call, rejected.
  destruct va as [|v va]; cbn [length Nat.eqb];
    destruct bad, cst, missing; cbn; rewrite ?app_nil_r, ?H2; split; done.
Qed.

Lemma none_given n : (n <? 1)%nat = (n =? 0)%nat.
Proof. by destruct n. Qed.
Lemma too_many n : (1 <? n)%nat = bool_decide (n ∉ [0; 1]%nat).
Proof. destruct n as [|[|n]]; [done | done |]. symmetry. apply bool_decide_eq_true. set_solver. Qed.
Lemma not_none_or_two n : negb (n =? 0)%nat && negb (n =? 2)%nat = bool_decide (n ∉ [0; 2]%nat).
Proof. destruct n as [|[|[|n]]]; [done | done | done |]. symmetry. apply bool_decide_eq_true. set_solver. Qed.

(** C5: fortified functions.  For all 81 functions and all arguments of their types, whatever
    the compiler knows of the destination and of the lengths, and with a library that does what
    its manual says: the fortified function ends the program exactly where the function of the
    same name would write more than the destination is known to have, or, above level 1, is given
    a format that is rejected; everywhere else it is that function.  The compiler warns only of
    calls that can overflow, of functions without any limit, or of memset over nothing. *)
Theorem fortified_functions (C : Compiler) (HC : CompilerLaws C) (L : Libc) (HL : LibcLaws L) e args s :
  e ∈ fortified -> arguments e args ->
  let vs := value <$> args in
  ((dest_size e vs = unknown -> overflows C L e vs s = false) ->
    exec (act (code e args)) s =
      if overflows C L e vs s || (formatted e && (1 <? fortify_level) && rejects (name e) vs s)
      then Abort else run (name e) vs s) /\
  (diags (code e args) <> [] -> suspicious C e vs).
Proof.
  intros He Ha. cbv zeta. split.
  - intros Hbig. pose proof (proj1 (Forall_forall _ _) (fortified_all C L) e He) as H. by apply H.
  - pose proof (proj1 (Forall_forall _ _) (justified_all C) e He) as H. by apply H.
Qed.

(** C32: open.  For open, openat, their 64-bit forms and mq_open: a call is an error for the
    compiler exactly if it has a number of arguments that the function never has, or constant
    flags that need a mode and no mode; a call with arguments in order is the function, or, if the
    flags need a mode and there is none, ends the program; a mode that was not passed is never
    used. *)
Theorem open_checked (C : Compiler) (L : Libc) (HL : LibcLaws L) o fixed oflag va s :
  o ∈ openers -> S (length fixed) = o_fixed o ->
  let p := o_code o (fixed ++ [oflag]) va in
  let missing := o_needs o oflag && (length va =? 0)%nat in
  rejected p = bool_decide (length va ∉ o_packs o) || (constant oflag && missing) /\
  (length va ∈ o_packs o ->
    exec (act p) s =
      if missing then Abort else run (o_name o) ((value <$> fixed ++ [oflag]) ++ va) s).
Proof.
  intros Ho Hl. cbv zeta. unfold openers in Ho.
  repeat (apply elem_of_cons in Ho as [->|Ho]); [..|by apply elem_of_nil in Ho];
    cbn [o_name o_fixed o_packs o_needs o_code] in *;
    destruct fixed as [|x [|y [|z fixed]]]; try discriminate Hl; cbn [app fmap list_fmap];
    rewrite <-?too_many, <-?not_none_or_two.
  all: unfold open, open64, openat, openat64, mq_open; cbv zeta; rewrite ?none_given;
    match goal with |- context [errors_if ?bad ?e1
        (if ?c then (if ?n && _ then errors_if _ ?e2 (call ?f2 ?fx) else call ?f _) else _)] =>
      destruct (opener_plan_ok L bad c n e1 e2 f2 f fx va s) as [H1 H2];
        [|split; [exact H1 | intros _; exact H2]] end.
  - apply open_law. destruct file_offset64; set_solver.
  - apply open_law. set_solver.
  - apply openat_law. destruct file_offset64; set_solver.
  - apply openat_law. set_solver.
  - apply mq_open_law.
Qed.

(** ** A library that does what the manuals say *)

Definition demo_compiler : Compiler := {|
  object_size := fun _ p => if p =? 100 then 8 else unknown;
  fortify_level := 2; use_extern_inlines := true; gcc5 := true; file_offset64 := false;
  path_max_defined := true; stdout := 1
|}.

#[export] Instance demo_compiler_laws : CompilerLaws demo_compiler.
Proof.
  split; [|cbn; lia]. intros m p. cbn. destruct (p =? 100); [lia|]. unfold unknown. lia.
Qed.

Section demo.
(** The state is what can be read from the stream. *)
Definition demo_getc (s : list Z) : outcome (list Z) :=
  match s with [] => Ret (-1) [] | c :: s => Ret c s end.

Definition demo_plain (f : string) (args : list Z) (s : list Z) : outcome (list Z) :=
  if String.eqb f "getc_unlocked" then demo_getc s
  else if String.eqb f "fread_unlocked" then
    if (arg 1 args =? 0) || (arg 2 args =? 0) then Ret 0 s
    else read_objects demo_getc (fun _ _ s => s) (Z.to_nat (arg 2 args)) (arg 1 args) (arg 0 args) s
  else if existsb (String.eqb f) ["bcopy"; "bzero"; "vprintf"; "vfprintf"] then Ret 0 s
  else if existsb (String.eqb f) ["__open_2"; "__open64_2"] then
    if __OPEN_NEEDS_MODE (arg 1 args) then Abort else Ret (arg 0 args) s
  else if existsb (String.eqb f) ["__openat_2"; "__openat64_2"] then
    if __OPEN_NEEDS_MODE (arg 2 args) then Abort else Ret (arg 0 args) s
  else if String.eqb f "__mq_open_2" then
    if negb (Z.land (arg 1 args) O_CREAT =? 0) then Abort else Ret (arg 0 args) s
  else Ret (arg 0 args) s.

Definition demo_needs (f : string) (args : list Z) (s : list Z) : Z :=
  default 6 (limit_of (most (effect_of f)) args).
Definition demo_rejects (f : string) (args : list Z) (s : list Z) : bool := bool_decide (s = []).

Definition demo_run (f : string) (args : list Z) (s : list Z) : outcome (list Z) :=
  match row_of f with
  | Some r =>
      if match len_at r with Some i => arg i args <? per r * demo_needs (plain r) (plain_args r args) s | None => false end
         || match flag_at r with Some i => (0 <? arg i args) && demo_rejects (plain r) (plain_args r args) s | None => false end
      then Abort else demo_plain (plain r) (plain_args r args) s
  | None => demo_plain f args s
  end.

Definition demo_libc : Libc := {|
  St := list Z; run := demo_run; needs := demo_needs; rejects := demo_rejects; poke := fun _ _ s => s
|}.

Lemma rows_unique : Forall (fun r => row_of (ck r) = Some r /\ row_of (plain r) = None) checked.
Proof. repeat constructor. Qed.
Lemma effects_unique : Forall (fun fe => assoc fe.1 effects = Some fe.2) effects.
Proof. repeat constructor. Qed.

#[export] Instance demo_libc_laws : @LibcLaws demo_compiler demo_libc.
Proof.
  split; try done.
  - intros r args s Hr. pose proof (proj1 (Forall_forall _ _) rows_unique r Hr) as [H1 H2].
    cbn [run demo_libc needs rejects]. unfold demo_run. by rewrite H1, H2.
  - intros f e args s He. pose proof (proj1 (Forall_forall _ _) effects_unique _ He) as H.
    assert (Heff : effect_of f = e) by (unfold effect_of; change (assoc f effects = Some e) in H; by rewrite H).
    cbn [needs demo_libc]. unfold demo_needs. rewrite Heff. by destruct (limit_of _ _).
  - intros f f2 Hf path oflag s. set_unfold. by destruct Hf as [[= -> ->]|[[= -> ->]|[]]].
  - intros f f2 Hf fd path oflag s. set_unfold. by destruct Hf as [[= -> ->]|[[= -> ->]|[]]].
Qed.
End demo.

(** Nine bytes, and eight, for an object of eight. *)
Lemma fortified_functions_witness :
  let read := @read demo_compiler in let exec := @exec demo_libc in
  exec (act (read (Expr 0 true) (Expr 100 false) (Expr 9 false))) [3] = Abort /\
  exec (act (read (Expr 0 true) (Expr 100 false) (Expr 8 true))) [3] = @run demo_libc "read" [0; 100; 8] [3].
Proof.
  cbv zeta.
  assert (He : exists e, e ∈ @fortified demo_compiler /\ name e = "read" /\ params e = [Int; Ptr; Size] /\
      shape e = Plain /\ dest e = Some (true, 1%nat) /\
      forall fd buf n, code e [fd; buf; n] = @read demo_compiler fd buf n).
  { eexists. split; [apply (list_elem_of_lookup_2 _ 13%nat); reflexivity|]. done. }
  destruct He as (e & He & Hn & Hp & Hk & Hd & Hc). rewrite <-!Hc.
  assert (Ha : forall n, 0 <= n < 2 ^ 64 -> forall b, arguments e [Expr 0 true; Expr 100 false; Expr n b]).
  { intros n Hr b. unfold arguments. rewrite Hp. split; [|by left].
    cbn. repeat (constructor; [cbn; lia|]). constructor. }
  pose proof (fun n Hr b => fortified_functions demo_compiler _ demo_libc _ e
    [Expr 0 true; Expr 100 false; Expr n b] [3] He (Ha n Hr b)) as H.
  unfold overflows, dest_size, formatted in H. rewrite Hd, Hn, Hk in H.
  split; [destruct (H 9 ltac:(lia) false) as [-> _] | destruct (H 8 ltac:(lia) true) as [-> _]];
    first [by vm_compute | intros E; vm_compute in E; discriminate E].
Defined.

(** Flags with O_CREAT and no mode. *)
Lemma open_checked_witness :
  let open := @open demo_compiler in
  rejected (open (Expr 5 false) (Expr 64 true) []) = true /\
  @exec demo_libc (act (open (Expr 5 false) (Expr 64 false) [])) [] = Abort /\
  @exec demo_libc (act (open (Expr 5 false) (Expr 64 false) [420])) [] = @run demo_libc "open" [5; 64; 420] [].
Proof.
  cbv zeta.
  pose proof (fun oflag va => open_checked demo_compiler demo_libc _
    (Opener "open" 2 [0; 1]%nat __OPEN_NEEDS_MODE
      (fun l va => match l with [path; oflag] => @open demo_compiler path oflag va | _ => nothing end))
    [Expr 5 false] oflag va [] (list_elem_of_here _ _) eq_refl) as H.
  destruct (H (Expr 64 true) []) as [H1 _], (H (Expr 64 false) []) as [_ H2], (H (Expr 64 false) [420]) as [_ H3].
  split; [exact H1|]. split; [apply H2; set_solver | apply H3; set_solver].
Defined.
