(* ===== verification/Sets.v ===== *)
(** Sets of small numbers as arrays of words: cpu_set_t (bits/cpu-set.h, sched.h) and fd_set
    (sys/select.h, bits/select.h), with the checks of bits/select2.h. *)

From S2P Require Import Prelude CLib.
From stdpp Require Import sets fin_sets.
#[local] Open Scope Z_scope.

(** Memory from the address of a set on, as words of 64 bits; an access behind its end is
    undefined. *)
Abbreviation words := (list Z) (only parsing).
Definition read_word (m : words) (i : Z) : option Z := if i <? 0 then None else m !! Z.to_nat i.
Definition write_word (m : words) (i v : Z) : option words :=
  w ← read_word m i; Some (<[Z.to_nat i := v]> m).

(** ** CPU sets *)

Definition __CPU_SETSIZE : Z := 1024.
Definition sizeof_cpu_mask : Z := 8.
Definition __NCPUBITS : Z := 8 * sizeof_cpu_mask.
Definition __CPUELT (cpu : Z) : Z := cpu / __NCPUBITS.
Definition __CPUMASK (cpu : Z) : Z := u64 (Z.shiftl 1 (cpu mod __NCPUBITS)).
Definition sizeof_cpu_set_t : Z := __CPU_SETSIZE / 8.

(** memset (set, 0, size) on a little-endian machine: the words, and the low bytes of the last. *)
Fixpoint clear_bytes (size : Z) (m : words) : words :=
  match m with
  | [] => []
  | w :: m =>
      (if 8 <=? size then 0 else if 0 <? size then Z.shiftl (Z.shiftr w (8 * size)) (8 * size) else w)
      :: clear_bytes (size - 8) m
  end.
Definition __CPU_ZERO_S (setsize : Z) (set : words) : option words :=
  if setsize <=? 8 * Z.of_nat (length set) then Some (clear_bytes setsize set) else None.

(** The value of the expression is the word, or 0. *)
Definition __CPU_SET_S (cpu setsize : Z) (set : words) : option (Z * words) :=
  let cpu := u64 cpu in
  if cpu / 8 <? setsize then
    w ← read_word set (__CPUELT cpu);
    let w := Z.lor w (__CPUMASK cpu) in
    set ← write_word set (__CPUELT cpu) w; Some (w, set)
  else Some (0, set).

Definition __CPU_CLR_S (cpu setsize : Z) (set : words) : option (Z * words) :=
  let cpu := u64 cpu in
  if cpu / 8 <? setsize then
    w ← read_word set (__CPUELT cpu);
    let w := Z.land w (u64 (Z.lnot (__CPUMASK cpu))) in
    set ← write_word set (__CPUELT cpu) w; Some (w, set)
  else Some (0, set).

Definition __CPU_ISSET_S (cpu setsize : Z) (set : words) : option bool :=
  let cpu := u64 cpu in
  if cpu / 8 <? setsize then
    w ← read_word set (__CPUELT cpu); Some (negb (Z.land w (__CPUMASK cpu) =? 0))
  else Some false.

(** memcmp (set1, set2, size) == 0 *)
Fixpoint same_bytes (size : Z) (m1 m2 : words) : option bool :=
  if size <=? 0 then Some true
  else match m1, m2 with
       | w1 :: m1, w2 :: m2 =>
           let mask := if 8 <=? size then 2 ^ 64 - 1 else Z.ones (8 * size) in
           if Z.land w1 mask =? Z.land w2 mask then same_bytes (size - 8) m1 m2 else Some false
       | _, _ => None
       end.
Definition __CPU_EQUAL_S (setsize : Z) (set1 set2 : words) : option bool := same_bytes setsize set1 set2.

(** Sets at their addresses, of which some may be the same. *)
Abbreviation sets := (gmap positive (list Z)) (only parsing).

(** for (i = 0; i < imax; ++i) dest[i] = arr1[i] op arr2[i], from [i] on. *)
Fixpoint cpu_op_loop (op : Z -> Z -> Z) (n : nat) (i : Z) (dest arr1 arr2 : positive) (st : sets) : option sets :=
  match n with
  | O => Some st
  | S n =>
      a1 ← st !! arr1; w1 ← read_word a1 i;
      a2 ← st !! arr2; w2 ← read_word a2 i;
      d ← st !! dest; d ← write_word d i (op w1 w2);
      cpu_op_loop op n (i + 1) dest arr1 arr2 (<[dest := d]> st)
  end.
Definition __CPU_OP_S (setsize : Z) (destset srcset1 srcset2 : positive) (op : Z -> Z -> Z) (st : sets) : option sets :=
  cpu_op_loop op (Z.to_nat (setsize / sizeof_cpu_mask)) 0 destset srcset1 srcset2 st.

Definition __CPU_ALLOC_SIZE (count : Z) : Z :=
  u64 (u64 (count + __NCPUBITS - 1) / __NCPUBITS * sizeof_cpu_mask).

Definition CPU_SET_S := __CPU_SET_S.
Definition CPU_CLR_S := __CPU_CLR_S.
Definition CPU_ISSET_S := __CPU_ISSET_S.
Definition CPU_ZERO_S := __CPU_ZERO_S.
Definition CPU_EQUAL_S := __CPU_EQUAL_S.
Definition CPU_AND_S (setsize : Z) (dest src1 src2 : positive) := __CPU_OP_S setsize dest src1 src2 Z.land.
Definition CPU_OR_S (setsize : Z) (dest src1 src2 : positive) := __CPU_OP_S setsize dest src1 src2 Z.lor.
Definition CPU_XOR_S (setsize : Z) (dest src1 src2 : positive) := __CPU_OP_S setsize dest src1 src2 Z.lxor.
Definition CPU_ALLOC_SIZE := __CPU_ALLOC_SIZE.
Definition CPU_SET (cpu : Z) := __CPU_SET_S cpu sizeof_cpu_set_t.
Definition CPU_CLR (cpu : Z) := __CPU_CLR_S cpu sizeof_cpu_set_t.
Definition CPU_ISSET (cpu : Z) := __CPU_ISSET_S cpu sizeof_cpu_set_t.
Definition CPU_ZERO := __CPU_ZERO_S sizeof_cpu_set_t.
Definition CPU_EQUAL := __CPU_EQUAL_S sizeof_cpu_set_t.
Definition CPU_AND (dest src1 src2 : positive) := __CPU_OP_S sizeof_cpu_set_t dest src1 src2 Z.land.
Definition CPU_OR (dest src1 src2 : positive) := __CPU_OP_S sizeof_cpu_set_t dest src1 src2 Z.lor.
Definition CPU_XOR (dest src1 src2 : positive) := __CPU_OP_S sizeof_cpu_set_t dest src1 src2 Z.lxor.

(** ** File descriptor sets *)

Definition __FD_SETSIZE : Z := 1024.
Definition __NFDBITS : Z := 8 * 8.
Definition fd_set_words : nat := Z.to_nat (__FD_SETSIZE / __NFDBITS).

(** Without and with checks: an access outside of the array or a shift by a negative number, or
    the end of the program by the library. *)
Inductive access (A : Type) := Undefined | Aborted | Done (x : A).
Arguments Undefined {A}.
Arguments Aborted {A}.
Arguments Done {A}.

Definition __FD_MASK (d : Z) : option Z :=
  if Z.rem d __NFDBITS <? 0 then None else Some (u64 (Z.shiftl 1 (Z.rem d __NFDBITS))).

Section fd_sets.
(** __fdelt_chk and __fdelt_warn of the library: [None] is the end of the program. *)
Context (fdelt_chk fdelt_warn : Z -> option Z).

(** The index of sys/select.h, and that of bits/select2.h, where [constant] is what the compiler
    knows of [d]. *)
Inductive checking := Unchecked | Fortified (constant : bool).
Definition __FD_ELT (k : checking) (d : Z) : access Z :=
  match k with
  | Unchecked => Done (Z.quot d __NFDBITS)
  | Fortified constant =>
      match (if constant then
               if (0 <=? d) && (d <? __FD_SETSIZE) then Some (Z.quot d __NFDBITS) else fdelt_warn d
             else fdelt_chk d) with
      | Some i => Done i
      | None => Aborted
      end
  end.

(** The word of [d] and its mask.  The index and the mask are evaluated in either order, so a
    shift by a negative number is undefined even where the check of the index would end the
    program. *)
Definition fd_word (k : checking) (d : Z) (set : words) : access (Z * Z * Z) :=
  match __FD_MASK d with
  | None => Undefined
  | Some mask =>
      match __FD_ELT k d with
      | Done i => match read_word set i with Some w => Done (i, w, mask) | None => Undefined end
      | Aborted => Aborted
      | Undefined => Undefined
      end
  end.

Definition fd_update (k : checking) (d : Z) (set : words) (f : Z -> Z -> Z) : access words :=
  match fd_word k d set with
  | Done (i, w, mask) => match write_word set i (f w mask) with Some set => Done set | None => Undefined end
  | Aborted => Aborted
  | Undefined => Undefined
  end.

Definition FD_SET (k : checking) (d : Z) (set : words) : access words := fd_update k d set Z.lor.
Definition FD_CLR (k : checking) (d : Z) (set : words) : access words :=
  fd_update k d set (fun w mask => Z.land w (u64 (Z.lnot mask))).
Definition FD_ISSET (k : checking) (d : Z) (set : words) : access bool :=
  match fd_word k d set with
  | Done (_, w, mask) => Done (negb (Z.land w mask =? 0))
  | Aborted => Aborted
  | Undefined => Undefined
  end.
(** rep stos: all words. *)
Definition FD_ZERO (set : words) : words := replicate fd_set_words 0 ++ drop fd_set_words set.
End fd_sets.

(** ** What an array stands for *)

Definition has (m : words) (i : Z) : bool :=
  match m !! Z.to_nat (i / 64) with Some w => Z.testbit w (i mod 64) | None => false end.
Definition elems (m : words) : gset Z :=
  list_to_set (filter (fun i => has m i = true) (seqZ 0 (64 * Z.of_nat (length m)))).
Definition wf (m : words) : Prop := Forall (fun w => 0 <= w < 2 ^ 64) m.

Lemma has_bound m i : 0 <= i -> has m i = true -> i < 64 * Z.of_nat (length m).
Proof.
  unfold has. intros Hi. destruct (m !! _) eqn:E; [|done]. apply lookup_lt_Some in E. intros _.
  pose proof (Z.div_mod i 64 ltac:(lia)). pose proof (Z.mod_pos_bound i 64 ltac:(lia)).
  pose proof (Z.div_pos i 64). lia.
Qed.

Lemma elem_of_elems m i : i ∈ elems m <-> 0 <= i /\ has m i = true.
Proof.
  unfold elems. rewrite elem_of_list_to_set, list_elem_of_filter, elem_of_seqZ. split; [intuition lia|].
  intros [Hi Hh]. pose proof (has_bound m i Hi Hh). intuition lia.
Qed.

Lemma elems_ext m m' : (forall i, 0 <= i -> has m i = has m' i) <-> elems m = elems m'.
Proof.
  split.
  - intros H. apply set_eq. intros i. rewrite !elem_of_elems. split; intros [Hi Hh]; (split; [done|]); specialize (H i Hi); congruence.
  - intros H i Hi. pose proof (proj1 (set_eq _ _) H i) as E. rewrite !elem_of_elems in E.
    destruct (has m i), (has m' i); naive_solver.
Qed.

(** A word of the array is written. *)
Lemma has_insert m c w i : 0 <= c -> 0 <= i -> (Z.to_nat (c / 64) < length m)%nat ->
  has (<[Z.to_nat (c / 64) := w]> m) i =
    if i / 64 =? c / 64 then Z.testbit w (i mod 64) else has m i.
Proof.
  intros Hc Hi Hlt. unfold has. destruct (Z.eqb_spec (i / 64) (c / 64)) as [->|Hne].
  - by rewrite list_lookup_insert_eq.
  - rewrite list_lookup_insert_ne; [done|]. pose proof (Z.div_pos i 64). pose proof (Z.div_pos c 64). lia.
Qed.

Lemma same_place i c : 0 <= i -> 0 <= c -> (i =? c) = (i / 64 =? c / 64) && (i mod 64 =? c mod 64).
Proof.
  intros Hi Hc. pose proof (Z.div_mod i 64 ltac:(lia)). pose proof (Z.div_mod c 64 ltac:(lia)).
  pose proof (Z.mod_pos_bound i 64 ltac:(lia)). pose proof (Z.mod_pos_bound c 64 ltac:(lia)).
  destruct (Z.eqb_spec i c), (Z.eqb_spec (i / 64) (c / 64)), (Z.eqb_spec (i mod 64) (c mod 64)); cbn; try done; nia.
Qed.

Lemma mask_bit c j : 0 <= j < 64 -> Z.testbit (u64 (Z.shiftl 1 (c mod 64))) j = (j =? c mod 64).
Proof.
  intros Hj. pose proof (Z.mod_pos_bound c 64 ltac:(lia)) as Hc. unfold u64.
  rewrite Z.mod_pow2_bits_low by lia. rewrite Z.shiftl_1_l, Z.pow2_bits_eqb by lia. apply Z.eqb_sym.
Qed.

Lemma not_mask_bit x j : 0 <= j < 64 -> Z.testbit (u64 (Z.lnot x)) j = negb (Z.testbit x j).
Proof. intros Hj. unfold u64. rewrite Z.mod_pow2_bits_low by lia. by rewrite Z.lnot_spec by lia. Qed.

(** A word with the mask of [c]. *)
Lemma masked_word w c : negb (Z.land w (u64 (Z.shiftl 1 (c mod 64))) =? 0) = Z.testbit w (c mod 64).
Proof.
  pose proof (Z.mod_pos_bound c 64 ltac:(lia)) as Hc. destruct (Z.testbit w (c mod 64)) eqn:E.
  - apply negb_true_iff, Z.eqb_neq. intros H. assert (Hb : Z.testbit 0 (c mod 64) = true); [|by rewrite Z.bits_0 in Hb].
    by rewrite <-H, Z.land_spec, E, mask_bit, Z.eqb_refl by lia.
  - apply negb_false_iff, Z.eqb_eq, Z.bits_inj'. intros n Hn. rewrite Z.bits_0, Z.land_spec.
    destruct (decide (n < 64)).
    + rewrite mask_bit by lia. destruct (Z.eqb_spec n (c mod 64)) as [->|]; [by rewrite E | apply andb_false_r].
    + unfold u64. rewrite Z.mod_pow2_bits_high by lia. apply andb_false_r.
Qed.

(** ** The operations on one word *)

Lemma land_range w x : 0 <= w < 2 ^ 64 -> 0 <= x -> 0 <= Z.land w x < 2 ^ 64.
Proof.
  intros Hw Hx. assert (E : Z.land w x = Z.land w x mod 2 ^ 64).
  { rewrite <-Z.land_ones, <-Z.land_assoc, (Z.land_comm x), Z.land_assoc, Z.land_ones by lia.
    by rewrite Z.mod_small by lia. }
  rewrite E. apply Z.mod_pos_bound. lia.
Qed.

Lemma lor_range w x : 0 <= w < 2 ^ 64 -> 0 <= x < 2 ^ 64 -> 0 <= Z.lor w x < 2 ^ 64.
Proof.
  intros Hw Hx. assert (E : Z.lor w x = Z.lor w x mod 2 ^ 64).
  { rewrite <-Z.land_ones, Z.land_lor_distr_l, !Z.land_ones by lia. by rewrite !Z.mod_small by lia. }
  rewrite E. apply Z.mod_pos_bound. lia.
Qed.

Lemma lxor_range w x : 0 <= w < 2 ^ 64 -> 0 <= x < 2 ^ 64 -> 0 <= Z.lxor w x < 2 ^ 64.
Proof.
  intros Hw Hx. assert (E : Z.lxor w x = Z.lxor w x mod 2 ^ 64).
  { rewrite <-Z.land_ones by lia. apply Z.bits_inj'. intros n Hn.
    rewrite Z.land_spec, Z.lxor_spec. destruct (Z.ltb_spec n 64).
    - by rewrite Z.ones_spec_low, andb_true_r by lia.
    - rewrite Z.ones_spec_high, andb_false_r by lia.
      assert (forall y, 0 <= y < 2 ^ 64 -> Z.testbit y n = false) as Hy; [|by rewrite !Hy].
      intros y Hy. rewrite <-(Z.mod_small y (2 ^ 64)) by lia. apply Z.mod_pow2_bits_high. lia. }
  rewrite E. apply Z.mod_pos_bound. lia.
Qed.

Section updates.
Context (m : words) (Hwf : wf m).

Lemma read_at c : 0 <= c < 64 * Z.of_nat (length m) ->
  exists w, read_word m (c / 64) = Some w /\ (Z.to_nat (c / 64) < length m)%nat /\
    m !! Z.to_nat (c / 64) = Some w /\ 0 <= w < 2 ^ 64.
Proof.
  intros Hc. pose proof (Z.div_mod c 64 ltac:(lia)). pose proof (Z.mod_pos_bound c 64 ltac:(lia)).
  pose proof (Z.div_pos c 64 ltac:(lia)) as Hd.
  destruct (lookup_lt_is_Some_2 m (Z.to_nat (c / 64))) as [w Hw]; [lia|]. exists w.
  unfold read_word. rewrite (proj2 (Z.ltb_ge _ _)) by lia.
  split; [done|]. split; [lia|]. split; [done|]. exact (proj1 (Forall_lookup _ _) Hwf _ _ Hw).
Qed.

Lemma write_at_word c w : 0 <= c < 64 * Z.of_nat (length m) ->
  write_word m (c / 64) w = Some (<[Z.to_nat (c / 64) := w]> m).
Proof. intros Hc. destruct (read_at c Hc) as (v & Hv & _). unfold write_word. by rewrite Hv. Qed.

Lemma has_read c w : 0 <= c -> m !! Z.to_nat (c / 64) = Some w -> has m c = Z.testbit w (c mod 64).
Proof. unfold has. by intros _ ->. Qed.

Lemma wf_insert k w : 0 <= w < 2 ^ 64 -> wf (<[k := w]> m).
Proof. intros Hw. by apply Forall_insert. Qed.

(** The bit of [c] set, and cleared, in its word. *)
Lemma set_elem c w : 0 <= c < 64 * Z.of_nat (length m) -> m !! Z.to_nat (c / 64) = Some w -> 0 <= w < 2 ^ 64 ->
  let m' := <[Z.to_nat (c / 64) := Z.lor w (u64 (Z.shiftl 1 (c mod 64)))]> m in
  wf m' /\ elems m' = {[c]} ∪ elems m.
Proof.
  intros Hc Hw Hr. cbv zeta. split.
  { apply wf_insert, lor_range; [lia | apply Z.mod_pos_bound; lia]. }
  apply set_eq. intros i. rewrite elem_of_union, elem_of_singleton, !elem_of_elems.
  destruct (Z.ltb_spec i 0) as [Hneg|Hi]; [split; [lia|]; intros [->|]; lia|].
  destruct (read_at c Hc) as (v & _ & Hlt & _). rewrite has_insert by lia.
  pose proof (same_place i c Hi ltac:(lia)) as Hs. pose proof (Z.mod_pos_bound i 64 ltac:(lia)).
  destruct (Z.eqb_spec (i / 64) (c / 64)) as [Hq|Hq]; cbn [andb] in Hs.
  - rewrite Z.lor_spec, mask_bit by lia. unfold has. rewrite Hq, Hw.
    destruct (Z.eqb_spec i c) as [->|Hne]; rewrite <-Hs; [rewrite orb_true_r | rewrite orb_false_r]; intuition.
  - destruct (Z.eqb_spec i c) as [->|Hne]; [done|]. intuition.
Qed.

Lemma clear_elem c w : 0 <= c < 64 * Z.of_nat (length m) -> m !! Z.to_nat (c / 64) = Some w -> 0 <= w < 2 ^ 64 ->
  let m' := <[Z.to_nat (c / 64) := Z.land w (u64 (Z.lnot (u64 (Z.shiftl 1 (c mod 64)))))]> m in
  wf m' /\ elems m' = elems m ∖ {[c]}.
Proof.
  intros Hc Hw Hr. cbv zeta. split.
  { apply wf_insert, land_range; [lia | apply Z.mod_pos_bound; lia]. }
  apply set_eq. intros i. rewrite elem_of_difference, elem_of_singleton, !elem_of_elems.
  destruct (Z.ltb_spec i 0) as [Hneg|Hi]; [split; [lia|]; intros [? ?]; lia|].
  destruct (read_at c Hc) as (v & _ & Hlt & _). rewrite has_insert by lia.
  pose proof (same_place i c Hi ltac:(lia)) as Hs. pose proof (Z.mod_pos_bound i 64 ltac:(lia)).
  destruct (Z.eqb_spec (i / 64) (c / 64)) as [Hq|Hq]; cbn [andb] in Hs.
  - rewrite Z.land_spec, not_mask_bit, mask_bit by lia. unfold has. rewrite Hq, Hw.
    destruct (Z.eqb_spec i c) as [->|Hne]; rewrite <-Hs; cbn [negb];
      [rewrite andb_false_r | rewrite andb_true_r]; naive_solver.
  - destruct (Z.eqb_spec i c) as [->|Hne]; [done|]. naive_solver.
Qed.
End updates.

(** ** The operations on whole arrays *)

Lemma clear_all m : clear_bytes (8 * Z.of_nat (length m)) m = replicate (length m) 0.
Proof.
  induction m as [|w m IH]; [done|]. cbn [clear_bytes length replicate].
  rewrite (proj2 (Z.leb_le _ _)) by lia. f_equal. rewrite <-IH. f_equal. lia.
Qed.

Lemma elems_replicate n : elems (replicate n 0) = ∅.
Proof.
  apply set_eq. intros i. rewrite elem_of_elems. unfold has.
  destruct (replicate n 0 !! Z.to_nat (i / 64)) as [w|] eqn:E; [|set_solver].
  apply lookup_replicate in E as [-> _]. rewrite Z.bits_0. set_solver.
Qed.

(** Arrays of the same length and with the same elements are the same. *)
Lemma word_bits w w' : 0 <= w < 2 ^ 64 -> 0 <= w' < 2 ^ 64 ->
  (forall j, 0 <= j < 64 -> Z.testbit w j = Z.testbit w' j) -> w = w'.
Proof.
  intros Hw Hw' H. rewrite <-(Z.mod_small w (2 ^ 64)), <-(Z.mod_small w' (2 ^ 64)) by lia.
  apply Z.bits_inj'. intros n Hn. destruct (Z.ltb_spec n 64).
  - rewrite !Z.mod_pow2_bits_low by lia. apply H. lia.
  - by rewrite !Z.mod_pow2_bits_high by lia.
Qed.

Lemma elems_inj m m' : wf m -> wf m' -> length m = length m' -> elems m = elems m' <-> m = m'.
Proof.
  intros Hm Hm' Hl. split; [|by intros ->]. intros He. pose proof (proj2 (elems_ext m m') He) as H.
  apply list_eq_same_length with (length m); [done | done |]. intros k w w' Hk Hw Hw'.
  apply word_bits; [exact (proj1 (Forall_lookup _ _) Hm _ _ Hw) | exact (proj1 (Forall_lookup _ _) Hm' _ _ Hw') |].
  intros j Hj. specialize (H (64 * Z.of_nat k + j) ltac:(lia)). unfold has in H.
  replace ((64 * Z.of_nat k + j) / 64) with (Z.of_nat k) in H by (apply Z.div_unique with j; lia).
  replace ((64 * Z.of_nat k + j) mod 64) with j in H by (apply Z.mod_unique with (Z.of_nat k); lia).
  by rewrite Nat2Z.id, Hw, Hw' in H.
Qed.

Lemma same_bytes_eq m m' : wf m -> wf m' -> length m = length m' ->
  same_bytes (8 * Z.of_nat (length m)) m m' = Some (bool_decide (m = m')).
Proof.
  revert m'. induction m as [|w m IH]; intros [|w' m'] Hm Hm' Hl; try discriminate Hl; [done|].
  apply Forall_cons in Hm as [Hw Hm], Hm' as [Hw' Hm'].
  cbn [same_bytes length]. rewrite (proj2 (Z.leb_gt _ _)), (proj2 (Z.leb_le 8 _)) by lia.
  change (2 ^ 64 - 1) with (Z.ones 64). rewrite !Z.land_ones, !Z.mod_small by lia.
  destruct (Z.eqb_spec w w') as [->|Hne].
  - replace (8 * Z.of_nat (S (length m)) - 8) with (8 * Z.of_nat (length m)) by lia.
    rewrite IH by (done || by injection Hl). f_equal. apply bool_decide_ext. by split; [intros ->|intros [=]].
  - f_equal. symmetry. apply bool_decide_eq_false. by intros [= ?].
Qed.

(** The loop, also if the destination is one of the sources. *)
Lemma cpu_op_loop_ok op n i (st : sets) d a1 a2 D A1 A2 :
  st !! d = Some D -> st !! a1 = Some A1 -> st !! a2 = Some A2 ->
  (i + n <= length D)%nat -> (i + n <= length A1)%nat -> (i + n <= length A2)%nat ->
  exists D', cpu_op_loop op n (Z.of_nat i) d a1 a2 st = Some (<[d := D']> st) /\ length D' = length D /\
    forall k, D' !! k = if bool_decide (i <= k < i + n)%nat
                        then w1 ← A1 !! k; w2 ← A2 !! k; Some (op w1 w2) else D !! k.
Proof.
  revert i st D A1 A2. induction n as [|n IH]; intros i st D A1 A2 HD H1 H2 Hd Ha1 Ha2; cbn [cpu_op_loop].
  { exists D. rewrite insert_id by done. split; [done|]. split; [done|]. intros k.
    by rewrite bool_decide_eq_false_2 by lia. }
  destruct (lookup_lt_is_Some_2 A1 i) as [w1 Hw1]; [lia|].
  destruct (lookup_lt_is_Some_2 A2 i) as [w2 Hw2]; [lia|].
  destruct (lookup_lt_is_Some_2 D i) as [w Hw]; [lia|].
  assert (Hr : forall A v, A !! i = Some v -> read_word A (Z.of_nat i) = Some v).
  { intros A v HA. unfold read_word. rewrite (proj2 (Z.ltb_ge _ _)) by lia. by rewrite Nat2Z.id. }
  rewrite H1, H2, HD. cbn [mbind option_bind]. rewrite (Hr _ _ Hw1), (Hr _ _ Hw2). cbn [mbind option_bind].
  unfold write_word. rewrite (Hr _ _ Hw). cbn [mbind option_bind]. rewrite Nat2Z.id.
  set (D1 := <[i := op w1 w2]> D).
  assert (Hafter : forall a A, st !! a = Some A -> (i + S n <= length A)%nat ->
    exists A', <[d := D1]> st !! a = Some A' /\ (S i + n <= length A')%nat /\ forall k, (i < k)%nat -> A' !! k = A !! k).
  { intros a A Ha Hl. destruct (decide (a = d)) as [->|Hne].
    - rewrite Ha in HD. injection HD as ->. exists D1. rewrite lookup_insert_eq. split; [done|].
      unfold D1. rewrite length_insert. split; [lia|]. intros k Hk. apply list_lookup_insert_ne. lia.
    - exists A. rewrite lookup_insert_ne by done. split; [done|]. split; [lia | done]. }
  destruct (Hafter a1 A1 H1 Ha1) as (A1' & H1' & Hl1 & E1), (Hafter a2 A2 H2 Ha2) as (A2' & H2' & Hl2 & E2).
  replace (Z.of_nat i + 1) with (Z.of_nat (S i)) by lia.
  destruct (IH (S i) _ D1 A1' A2' (lookup_insert_eq _ _ _) H1' H2') as (D' & Hloop & Hlen & Hk);
    [unfold D1; rewrite length_insert; lia | done | done |].
  exists D'. rewrite Hloop, insert_insert_eq. split; [done|]. split; [by unfold D1 in Hlen; rewrite length_insert in Hlen|].
  intros k. rewrite Hk. destruct (decide (S i <= k < S i + n)%nat).
  - rewrite !bool_decide_eq_true_2 by lia. by rewrite E1, E2 by lia.
  - rewrite (bool_decide_eq_false_2 (S i <= k < _)%nat) by lia. unfold D1. destruct (decide (k = i)) as [->|].
    + rewrite list_lookup_insert_eq by lia. rewrite bool_decide_eq_true_2 by lia. by rewrite Hw1, Hw2.
    + rewrite list_lookup_insert_ne by lia. by rewrite bool_decide_eq_false_2 by lia.
Qed.

(** An operation bit by bit. *)
Definition bitwise (op : Z -> Z -> Z) (b : bool -> bool -> bool) : Prop :=
  b false false = false /\
  (forall x y n, 0 <= n -> Z.testbit (op x y) n = b (Z.testbit x n) (Z.testbit y n)) /\
  (forall x y, 0 <= x < 2 ^ 64 -> 0 <= y < 2 ^ 64 -> 0 <= op x y < 2 ^ 64).

Lemma land_bitwise : bitwise Z.land andb.
Proof. split; [done|]. split; [intros; apply Z.land_spec | intros; apply land_range; lia]. Qed.
Lemma lor_bitwise : bitwise Z.lor orb.
Proof. split; [done|]. split; [intros; apply Z.lor_spec | intros; by apply lor_range]. Qed.
Lemma lxor_bitwise : bitwise Z.lxor xorb.
Proof. split; [done|]. split; [intros; apply Z.lxor_spec | intros; by apply lxor_range]. Qed.

(** __CPU_OP_S on whole sets of one size. *)
Lemma cpu_op_ok op b (st : sets) d a1 a2 D A1 A2 : bitwise op b ->
  st !! d = Some D -> st !! a1 = Some A1 -> st !! a2 = Some A2 -> wf A1 -> wf A2 ->
  length A1 = length D -> length A2 = length D ->
  exists D', __CPU_OP_S (8 * Z.of_nat (length D)) d a1 a2 op st = Some (<[d := D']> st) /\
    length D' = length D /\ wf D' /\ forall i, 0 <= i -> has D' i = b (has A1 i) (has A2 i).
Proof.
  intros (Hb & Hop & Hr) HD H1 H2 Hw1 Hw2 Hl1 Hl2. unfold __CPU_OP_S, sizeof_cpu_mask.
  rewrite Z.mul_comm, Z.div_mul, Nat2Z.id by lia.
  destruct (cpu_op_loop_ok op (length D) 0 st d a1 a2 D A1 A2) as (D' & Hloop & Hlen & Hk); [done..|lia|lia|lia|].
  exists D'. split; [done|]. split; [done|]. split.
  - apply Forall_lookup. intros k w. rewrite Hk. case_bool_decide as Hin.
    + destruct (A1 !! k) as [w1|] eqn:E1, (A2 !! k) as [w2|] eqn:E2; try done. intros [= <-].
      apply Hr; [exact (proj1 (Forall_lookup _ _) Hw1 _ _ E1) | exact (proj1 (Forall_lookup _ _) Hw2 _ _ E2)].
    + intros E. apply lookup_lt_Some in E. lia.
  - intros i Hi. unfold has. pose proof (Z.mod_pos_bound i 64 ltac:(lia)). rewrite Hk.
    case_bool_decide as Hin.
    + destruct (lookup_lt_is_Some_2 A1 (Z.to_nat (i / 64))) as [w1 ->]; [lia|].
      destruct (lookup_lt_is_Some_2 A2 (Z.to_nat (i / 64))) as [w2 ->]; [lia|]. cbn. apply Hop. lia.
    + rewrite !lookup_ge_None_2 by lia. done.
Qed.

Lemma cpu_op_elems (st : sets) d a1 a2 D A1 A2 op b (f : gset Z -> gset Z -> gset Z) : bitwise op b ->
  (forall i X Y, i ∈ f X Y <-> b (bool_decide (i ∈ X)) (bool_decide (i ∈ Y)) = true) ->
  st !! d = Some D -> st !! a1 = Some A1 -> st !! a2 = Some A2 -> wf A1 -> wf A2 ->
  length A1 = length D -> length A2 = length D ->
  exists D', __CPU_OP_S (8 * Z.of_nat (length D)) d a1 a2 op st = Some (<[d := D']> st) /\
    length D' = length D /\ wf D' /\ elems D' = f (elems A1) (elems A2).
Proof.
  intros Hop Hf HD H1 H2 Hw1 Hw2 Hl1 Hl2.
  destruct (cpu_op_ok op b st d a1 a2 D A1 A2) as (D' & Hs & Hl & Hw & Hh); [done..|].
  exists D'. split; [done|]. split; [done|]. split; [done|]. apply set_eq. intros i. rewrite Hf, elem_of_elems.
  assert (He : forall A, 0 <= i -> bool_decide (i ∈ elems A) = has A i).
  { intros A Hi. apply eq_true_iff_eq. rewrite bool_decide_eq_true, elem_of_elems. intuition. }
  destruct (Z.ltb_spec i 0) as [Hneg|Hi].
  - rewrite !bool_decide_eq_false_2 by (rewrite elem_of_elems; lia). rewrite (proj1 Hop). split; [lia | done].
  - rewrite !He, Hh by lia. intuition.
Qed.

(** ** CPU sets are sets *)

(** C30: CPU sets.  An array stands for the set of its bits.  For sets of any number of words,
    whatever CPU is named: SET, CLR and ISSET are insertion, removal and membership, and a CPU behind the end
    of the set is left alone, without an access outside; ZERO is the empty set, EQUAL equality;
    AND, OR and XOR are intersection, union and symmetric difference of the sets as they were
    before, also when the destination is one of the sources, and change no other set. *)
Theorem cpu_sets (m : words) (Hm : wf m) :
  let size := 8 * Z.of_nat (length m) in
  (forall cpu, 0 <= cpu < 2 ^ 64 ->
    (exists v m', CPU_SET_S cpu size m = Some (v, m') /\ length m' = length m /\ wf m' /\
      elems m' = if cpu / 8 <? size then {[cpu]} ∪ elems m else elems m) /\
    (exists v m', CPU_CLR_S cpu size m = Some (v, m') /\ length m' = length m /\ wf m' /\
      elems m' = elems m ∖ {[cpu]}) /\
    CPU_ISSET_S cpu size m = Some (bool_decide (cpu ∈ elems m))) /\
  (exists m', CPU_ZERO_S size m = Some m' /\ length m' = length m /\ wf m' /\ elems m' = ∅) /\
  (forall m', wf m' -> length m' = length m ->
    CPU_EQUAL_S size m m' = Some (bool_decide (elems m = elems m'))) /\
  (forall (st : sets) d a1 a2 A1 A2, st !! d = Some m -> st !! a1 = Some A1 -> st !! a2 = Some A2 ->
    wf A1 -> wf A2 -> length A1 = length m -> length A2 = length m ->
    let result st' X := exists D', st' = Some (<[d := D']> st) /\ length D' = length m /\ wf D' /\ elems D' = X in
    result (CPU_AND_S size d a1 a2 st) (elems A1 ∩ elems A2) /\
    result (CPU_OR_S size d a1 a2 st) (elems A1 ∪ elems A2) /\
    result (CPU_XOR_S size d a1 a2 st) ((elems A1 ∖ elems A2) ∪ (elems A2 ∖ elems A1))).
Proof.
  cbv zeta. split; [|split; [|split]].
  - intros cpu Hcpu. unfold CPU_SET_S, CPU_CLR_S, CPU_ISSET_S, __CPU_SET_S, __CPU_CLR_S, __CPU_ISSET_S, __CPUELT, __CPUMASK.
    change __NCPUBITS with 64. assert (u64 cpu = cpu) as -> by (apply Z.mod_small; lia).
    pose proof (Z.div_mod cpu 8 ltac:(lia)). pose proof (Z.mod_pos_bound cpu 8 ltac:(lia)).
    destruct (Z.ltb_spec (cpu / 8) (8 * Z.of_nat (length m))) as [Hin|Hout].
    + destruct (read_at m Hm cpu) as (w & Hr & Hlt & Hw & Hb); [lia|]. rewrite Hr. cbn [mbind option_bind].
      rewrite !(write_at_word m Hm) by lia. cbn [mbind option_bind].
      split; [|split].
      * destruct (set_elem m Hm cpu w) as [Hwf He]; [lia | done | done |]. eexists _, _. split; [done|].
        by rewrite length_insert.
      * destruct (clear_elem m Hm cpu w) as [Hwf He]; [lia | done | done |]. eexists _, _. split; [done|].
        by rewrite length_insert.
      * f_equal. rewrite masked_word, <-(has_read m cpu w) by (lia || done).
        apply eq_true_iff_eq. rewrite bool_decide_eq_true, elem_of_elems. intuition lia.
    + assert (Hno : cpu ∉ elems m).
      { rewrite elem_of_elems. intros [_ Hh]. apply has_bound in Hh; lia. }
      split; [by eexists _, _|]. split; [eexists _, _; do 3 (split; [done|]); set_solver|].
      by rewrite bool_decide_eq_false_2.
  - unfold CPU_ZERO_S, __CPU_ZERO_S. rewrite (proj2 (Z.leb_le _ _)), clear_all by lia. eexists. split; [done|].
    rewrite length_replicate. split; [done|]. split; [apply Forall_replicate; lia | apply elems_replicate].
  - intros m' Hm' Hl. unfold CPU_EQUAL_S, __CPU_EQUAL_S. rewrite same_bytes_eq by done. f_equal.
    apply bool_decide_ext. symmetry. by apply elems_inj.
  - intros st d a1 a2 A1 A2 Hd H1 H2 Hw1 Hw2 Hl1 Hl2. split; [|split].
    + apply (cpu_op_elems st d a1 a2 m A1 A2 Z.land andb); try done; [apply land_bitwise|].
      intros i X Y. rewrite andb_true_iff, !bool_decide_eq_true. set_solver.
    + apply (cpu_op_elems st d a1 a2 m A1 A2 Z.lor orb); try done; [apply lor_bitwise|].
      intros i X Y. rewrite orb_true_iff, !bool_decide_eq_true. set_solver.
    + apply (cpu_op_elems st d a1 a2 m A1 A2 Z.lxor xorb (fun X Y => (X ∖ Y) ∪ (Y ∖ X))); try done; [apply lxor_bitwise|].
      intros i X Y. do 2 case_bool_decide; cbn; set_solver.
Qed.

Lemma cpu_sets_witness :
  let m := [5; 0] in
  (exists v m', CPU_SET_S 65 16 m = Some (v, m') /\ length m' = 2%nat /\ wf m' /\ elems m' = {[65]} ∪ elems m) /\
  (exists v m', CPU_SET_S 128 16 m = Some (v, m') /\ length m' = 2%nat /\ wf m' /\ elems m' = elems m) /\
  (exists D', CPU_AND_S 16 1 1 2 {[1%positive := m; 2%positive := [4; 1]]} =
     Some (<[1%positive := D']> {[1%positive := m; 2%positive := [4; 1]]}) /\
     length D' = 2%nat /\ wf D' /\ elems D' = elems m ∩ elems [4; 1]).
Proof.
  cbv zeta. assert (Hw : forall x y, 0 <= x < 2 ^ 64 -> 0 <= y < 2 ^ 64 -> wf [x; y]) by (intros; repeat constructor; lia).
  destruct (cpu_sets [5; 0] (Hw 5 0 ltac:(lia) ltac:(lia))) as (H & _ & _ & Hop).
  split; [exact (proj1 (H 65 ltac:(lia)))|]. split; [exact (proj1 (H 128 ltac:(lia)))|].
  exact (proj1 (Hop {[1%positive := [5; 0]; 2%positive := [4; 1]]} 1%positive 1%positive 2%positive [5; 0] [4; 1]
    eq_refl eq_refl eq_refl (Hw 5 0 ltac:(lia) ltac:(lia)) (Hw 4 1 ltac:(lia) ltac:(lia)) eq_refl eq_refl)).
Defined.

(** CPU_ALLOC_SIZE: whole words, and no word too many. *)
Lemma CPU_ALLOC_SIZE_spec count : 0 <= count < 2 ^ 63 ->
  CPU_ALLOC_SIZE count mod 8 = 0 /\ count <= 8 * CPU_ALLOC_SIZE count < count + 64.
Proof.
  intros Hc. unfold CPU_ALLOC_SIZE, __CPU_ALLOC_SIZE, __NCPUBITS, sizeof_cpu_mask. change (8 * 8) with 64.
  pose proof (Z.div_mod (count + 64 - 1) 64 ltac:(lia)). pose proof (Z.mod_pos_bound (count + 64 - 1) 64 ltac:(lia)).
  assert (u64 (count + 64 - 1) = count + 64 - 1) as -> by (apply Z.mod_small; lia).
  assert (u64 ((count + 64 - 1) / 64 * 8) = (count + 64 - 1) / 64 * 8) as -> by (apply Z.mod_small; lia).
  split; [apply Z.mod_mul; lia | lia].
Qed.

(** ** fd_set is a set *)

Lemma quot_rem_nonneg d : 0 <= d -> Z.quot d 64 = d / 64 /\ Z.rem d 64 = d mod 64.
Proof. intros Hd. by rewrite Z.quot_div_nonneg, Z.rem_mod_nonneg by lia. Qed.

Section fd.
Context (chk wrn : Z -> option Z).
Context (Hchk : forall d, chk d = if (0 <=? d) && (d <? 1024) then Some (d / 64) else None).
Context (Hwrn : forall d, wrn d = chk d).

Lemma fd_word_in k d m : 0 <= d < 1024 -> wf m -> length m = 16%nat ->
  exists w, fd_word chk wrn k d m = Done (d / 64, w, u64 (Z.shiftl 1 (d mod 64))) /\
    m !! Z.to_nat (d / 64) = Some w /\ 0 <= w < 2 ^ 64.
Proof.
  intros Hd Hm Hl. destruct (read_at m Hm d) as (w & Hr & _ & Hw & Hb); [lia|]. exists w. split; [|done].
  destruct (quot_rem_nonneg d ltac:(lia)) as [Hq Hmod]. pose proof (Z.mod_pos_bound d 64 ltac:(lia)).
  assert (Hin : (0 <=? d) && (d <? 1024) = true) by lia.
  assert (He : __FD_ELT chk wrn k d = Done (d / 64)).
  { unfold __FD_ELT. change __FD_SETSIZE with 1024. change __NFDBITS with 64. rewrite Hq.
    destruct k as [|[]]; [done | by rewrite Hin | by rewrite Hchk, Hin]. }
  unfold fd_word, __FD_MASK. rewrite He. change __NFDBITS with 64. by rewrite Hmod, (proj2 (Z.ltb_ge _ _)), Hr by lia.
Qed.

(** A remainder is negative for the negative numbers that are no multiples. *)
Lemma rem_negative d : Z.rem d 64 < 0 <-> d < 0 /\ d mod 64 <> 0.
Proof. Z.to_euclidean_division_equations. lia. Qed.

Lemma fd_word_shift k d m : d < 0 -> d mod 64 <> 0 -> fd_word chk wrn k d m = Undefined.
Proof.
  intros Hd Hm. unfold fd_word, __FD_MASK. change __NFDBITS with 64.
  by rewrite (proj2 (Z.ltb_lt _ _)) by by apply rem_negative.
Qed.

Lemma fd_word_out d m : 1024 <= d \/ (d < 0 /\ d mod 64 = 0) -> length m = 16%nat ->
  (Z.quot d 64 < 0 \/ 16 <= Z.quot d 64) /\
  (forall c, fd_word chk wrn (Fortified c) d m = Aborted) /\ fd_word chk wrn Unchecked d m = Undefined.
Proof.
  intros Hd Hl. assert (Hout : (0 <=? d) && (d <? 1024) = false) by lia.
  assert (Hr : (Z.rem d 64 <? 0) = false) by (apply Z.ltb_ge; pose proof (rem_negative d); lia).
  assert (Hq : Z.quot d 64 < 0 \/ 16 <= Z.quot d 64) by (Z.to_euclidean_division_equations; lia).
  unfold fd_word, __FD_MASK, __FD_ELT. change __NFDBITS with 64. rewrite Hr.
  split; [done|]. split.
  - intros c. change __FD_SETSIZE with 1024. rewrite Hwrn, Hchk, Hout. by destruct c.
  - unfold read_word. destruct (Z.ltb_spec (Z.quot d 64) 0); [done|].
    by rewrite lookup_ge_None_2 by lia.
Qed.
End fd.

(** C31: descriptor sets.  With a library that ends the program when asked for an element outside
    of the array: for descriptors from 0 to 1023 FD_SET, FD_CLR and FD_ISSET are insertion,
    removal and membership, with and without checks.  From 1024 on, and for negative multiples
    of 64, the checked macros end the program, whether or not the compiler knows the number,
    where the unchecked ones access a word outside of the set.  For the other negative numbers
    the mask is a shift by a negative number, which is undefined in all of them, since nothing
    orders the check of the index before it.  FD_ZERO is the empty set. *)
Theorem fd_sets (chk wrn : Z -> option Z) (m : words) :
  (forall d, chk d = if (0 <=? d) && (d <? 1024) then Some (d / 64) else None) ->
  (forall d, wrn d = chk d) -> wf m -> length m = 16%nat ->
  (forall k d, 0 <= d < 1024 ->
    (exists m', FD_SET chk wrn k d m = Done m' /\ wf m' /\ length m' = 16%nat /\ elems m' = {[d]} ∪ elems m) /\
    (exists m', FD_CLR chk wrn k d m = Done m' /\ wf m' /\ length m' = 16%nat /\ elems m' = elems m ∖ {[d]}) /\
    FD_ISSET chk wrn k d m = Done (bool_decide (d ∈ elems m))) /\
  (forall d, 1024 <= d \/ (d < 0 /\ d mod 64 = 0) ->
    (Z.quot d 64 < 0 \/ 16 <= Z.quot d 64) /\
    (forall c, FD_SET chk wrn (Fortified c) d m = Aborted /\ FD_CLR chk wrn (Fortified c) d m = Aborted /\
      FD_ISSET chk wrn (Fortified c) d m = Aborted) /\
    FD_SET chk wrn Unchecked d m = Undefined /\ FD_CLR chk wrn Unchecked d m = Undefined /\
    FD_ISSET chk wrn Unchecked d m = Undefined) /\
  (forall k d, d < 0 -> d mod 64 <> 0 ->
    FD_SET chk wrn k d m = Undefined /\ FD_CLR chk wrn k d m = Undefined /\
    FD_ISSET chk wrn k d m = Undefined) /\
  elems (FD_ZERO m) = ∅ /\ length (FD_ZERO m) = 16%nat.
Proof.
  intros Hchk Hwrn Hm Hl. split; [|split; [|split]].
  - intros k d Hd. destruct (fd_word_in chk wrn Hchk k d m) as (w & Hf & Hw & Hb); [done..|].
    unfold FD_SET, FD_CLR, FD_ISSET, fd_update. rewrite Hf, !(write_at_word m Hm) by lia. split; [|split].
    + destruct (set_elem m Hm d w) as [Hwf He]; [lia | done | done |]. eexists. by rewrite length_insert.
    + destruct (clear_elem m Hm d w) as [Hwf He]; [lia | done | done |]. eexists. by rewrite length_insert.
    + f_equal. rewrite masked_word, <-(has_read m d w) by (lia || done).
      apply eq_true_iff_eq. rewrite bool_decide_eq_true, elem_of_elems. intuition lia.
  - intros d Hd. destruct (fd_word_out chk wrn Hchk Hwrn d m Hd Hl) as (Hq & Ha & Hu).
    unfold FD_SET, FD_CLR, FD_ISSET, fd_update. rewrite Hu. split; [done|]. split; [|done].
    intros c. by rewrite Ha.
  - intros k d Hd Hr. unfold FD_SET, FD_CLR, FD_ISSET, fd_update. by rewrite fd_word_shift.
  - unfold FD_ZERO, fd_set_words. rewrite drop_ge, app_nil_r by (rewrite Hl; done).
    split; [apply elems_replicate | done].
Qed.

Lemma fd_sets_witness :
  let chk d := if (0 <=? d) && (d <? 1024) then Some (d / 64) else None in
  (exists m', FD_SET chk chk (Fortified false) 70 (replicate 16 0) = Done m' /\ wf m' /\ length m' = 16%nat /\
    elems m' = {[70]} ∪ elems (replicate 16 0)) /\
  FD_SET chk chk (Fortified true) 1024 (replicate 16 0) = Aborted /\
  FD_SET chk chk Unchecked 1024 (replicate 16 0) = Undefined /\
  FD_SET chk chk (Fortified false) (-1) (replicate 16 0) = Undefined.
Proof.
  cbv zeta. set (chk := fun d => if (0 <=? d) && (d <? 1024) then Some (d / 64) else None).
  destruct (fd_sets chk chk (replicate 16 0)) as (Hin & Hout & Hneg & _); [done | done | | done |].
  - apply Forall_replicate. lia.
  - split; [exact (proj1 (Hin (Fortified false) 70 ltac:(lia)))|].
    destruct (Hout 1024 ltac:(lia)) as (_ & H1 & H2 & _). split; [exact (proj1 (H1 true))|].
    split; [exact H2 | exact (proj1 (Hneg (Fortified false) (-1) ltac:(lia) ltac:(done)))].
Defined.
