(* ===== verification/Attrs.v ===== *)
(** Messages and attributes with a length in front: netlink (linux/netlink.h), its attributes
    (linux/rtnetlink.h), and the walk through them that the macros are made for.  [Framing] is
    what the walk needs of a format; both formats are instances. *)

From S2P Require Import Prelude CLib Words Endian.
#[local] Open Scope Z_scope.

(** The conversion to int. *)
Definition i32 (z : Z) : Z := (z + 2 ^ 31) mod 2 ^ 32 - 2 ^ 31.

(** ** linux/netlink.h *)

Section netlink.
Context `{Endian}.

Definition sizeof_nlmsghdr : Z := 16.
Definition nlmsg_len (m : bytes) (nlh : nat) : option Z := load W32 m nlh.

Definition NLMSG_ALIGNTO : Z := 4.
(** of an unsigned int *)
Definition NLMSG_ALIGN (len : Z) : Z := Z.land (u32 (len + NLMSG_ALIGNTO - 1)) (u32 (Z.lnot (NLMSG_ALIGNTO - 1))).
Definition NLMSG_HDRLEN : Z := NLMSG_ALIGN sizeof_nlmsghdr.
Definition NLMSG_LENGTH (len : Z) : Z := len + NLMSG_HDRLEN.
Definition NLMSG_SPACE (len : Z) : Z := NLMSG_ALIGN (NLMSG_LENGTH len).
Definition NLMSG_DATA (nlh : nat) : nat := (nlh + Z.to_nat (NLMSG_LENGTH 0))%nat.
(** [len], an int that is assigned, and the address of the next message *)
Definition NLMSG_NEXT (m : bytes) (nlh : nat) (len : Z) : option (nat * Z) :=
  n ← nlmsg_len m nlh;
  Some ((nlh + Z.to_nat (NLMSG_ALIGN n))%nat, i32 (len - NLMSG_ALIGN n)).
(** The last comparison is one of unsigned values. *)
Definition NLMSG_OK (m : bytes) (nlh : nat) (len : Z) : option bool :=
  if sizeof_nlmsghdr <=? len then
    n ← nlmsg_len m nlh; Some ((sizeof_nlmsghdr <=? n) && (n <=? u32 len))
  else Some false.
Definition NLMSG_PAYLOAD (m : bytes) (nlh : nat) (len : Z) : option Z :=
  n ← nlmsg_len m nlh; Some (u32 (n - NLMSG_SPACE len)).

(** ** linux/rtnetlink.h *)

Definition sizeof_rtattr : Z := 4.
Definition rta_len (m : bytes) (rta : nat) : option Z := load W16 m rta.

Definition RTA_ALIGNTO : Z := 4.
Definition RTA_ALIGN (len : Z) : Z := Z.land (u32 (len + RTA_ALIGNTO - 1)) (u32 (Z.lnot (RTA_ALIGNTO - 1))).
Definition RTA_OK (m : bytes) (rta : nat) (len : Z) : option bool :=
  if sizeof_rtattr <=? len then
    n ← rta_len m rta; Some ((sizeof_rtattr <=? n) && (n <=? len))
  else Some false.
Definition RTA_NEXT (m : bytes) (rta : nat) (attrlen : Z) : option (nat * Z) :=
  n ← rta_len m rta;
  Some ((rta + Z.to_nat (RTA_ALIGN n))%nat, i32 (attrlen - RTA_ALIGN n)).
(** of a size_t, as sizeof is one *)
Definition RTA_LENGTH (len : Z) : Z := u64 (RTA_ALIGN sizeof_rtattr + len).
Definition RTA_SPACE (len : Z) : Z := RTA_ALIGN (RTA_LENGTH len).
Definition RTA_DATA (rta : nat) : nat := (rta + Z.to_nat (RTA_LENGTH 0))%nat.
Definition RTA_PAYLOAD (m : bytes) (rta : nat) : option Z :=
  n ← rta_len m rta; Some (u64 (n - RTA_LENGTH 0)).
End netlink.

(** ** What a walk needs *)

(** A format: the size of the header, the type of the length at its start, the macros. *)
Class Framing := {
  frame_order : Endian;
  header : Z;
  lenw : width;
  f_ok : bytes -> nat -> Z -> option bool;
  f_next : bytes -> nat -> Z -> option (nat * Z);
  f_length : Z -> Z;
  f_data : nat -> nat;
  f_payload : bytes -> nat -> option Z
}.

(** Rounded up to a multiple of 4. *)
Definition up4 (n : Z) : Z := (n + 3) / 4 * 4.

Class FramingLaws (F : Framing) : Prop := {
  header_law : Z.of_nat (size_of lenw) <= header /\ header mod 4 = 0 /\ header <= 16;
  ok_short_law m p len : len < header -> f_ok m p len = Some false;
  ok_law m p len n : header <= len < 2 ^ 31 -> load (H := frame_order) lenw m p = Some n ->
    0 <= n -> f_ok m p len = Some ((header <=? n) && (n <=? len));
  next_law m p len n : load (H := frame_order) lenw m p = Some n -> 0 <= n <= len -> len < 2 ^ 31 - 4 ->
    f_next m p len = Some ((p + Z.to_nat (up4 n))%nat, len - up4 n);
  length_law n : 0 <= n < 2 ^ 31 - 32 -> f_length n = header + n;
  data_law p : f_data p = (p + Z.to_nat header)%nat;
  payload_law m p n : load (H := frame_order) lenw m p = Some n -> header <= n < 2 ^ 32 ->
    f_payload m p = Some (n - header)
}.

Lemma up4_bounds n : n <= up4 n < n + 4 /\ up4 n mod 4 = 0.
Proof.
  unfold up4. pose proof (Z.div_mod (n + 3) 4). pose proof (Z.mod_pos_bound (n + 3) 4).
  split; [lia|]. apply Z.mod_mul. lia.
Qed.

Lemma up4_mask n : 0 <= n < 2 ^ 32 - 3 -> Z.land (u32 (n + 4 - 1)) (u32 (Z.lnot (4 - 1))) = up4 n.
Proof.
  intros Hn. assert (u32 (n + 4 - 1) = n + 3) as -> by (unfold u32; rewrite Z.mod_small; lia).
  change (u32 (Z.lnot (4 - 1))) with (Z.ldiff (Z.ones 32) (Z.ones 2)).
  rewrite Z.ldiff_land, Z.land_assoc, Z.land_ones, Z.mod_small, <-Z.ldiff_land by lia.
  rewrite Z.ldiff_ones_r, Z.shiftl_mul_pow2, Z.shiftr_div_pow2 by lia. done.
Qed.

Lemma i32_small z : - 2 ^ 31 <= z < 2 ^ 31 -> i32 z = z.
Proof. intros Hz. unfold i32. rewrite Z.mod_small; lia. Qed.

Section instances.
Context (E : Endian).

#[export] Instance netlink : Framing := {|
  frame_order := E; header := sizeof_nlmsghdr; lenw := W32; f_ok := NLMSG_OK; f_next := NLMSG_NEXT;
  f_length := NLMSG_LENGTH; f_data := NLMSG_DATA; f_payload := fun m p => NLMSG_PAYLOAD m p 0
|}.

#[export] Instance rtattr : Framing := {|
  frame_order := E; header := sizeof_rtattr; lenw := W16; f_ok := RTA_OK; f_next := RTA_NEXT;
  f_length := RTA_LENGTH; f_data := RTA_DATA; f_payload := RTA_PAYLOAD
|}.

#[export] Instance netlink_laws : FramingLaws netlink.
Proof.
  split; cbn [header lenw frame_order f_ok f_next f_length f_data f_payload netlink].
  - done.
  - intros m p len Hl. unfold NLMSG_OK. by rewrite (proj2 (Z.leb_gt _ _)) by lia.
  - intros m p len n Hl Hn Hp. unfold NLMSG_OK, nlmsg_len. change sizeof_nlmsghdr with 16 in *.
    rewrite (proj2 (Z.leb_le _ _)), Hn by lia. cbn [mbind option_bind]. unfold u32. by rewrite (Z.mod_small len) by lia.
  - intros m p len n Hn Hr Hl. unfold NLMSG_NEXT, nlmsg_len. rewrite Hn. cbn [mbind option_bind].
    unfold NLMSG_ALIGN, NLMSG_ALIGNTO. rewrite up4_mask by lia. pose proof (up4_bounds n).
    by rewrite i32_small by lia.
  - intros n _. unfold NLMSG_LENGTH. change NLMSG_HDRLEN with 16. apply Z.add_comm.
  - done.
  - intros m p n Hn Hr. unfold NLMSG_PAYLOAD, nlmsg_len. rewrite Hn. cbn [mbind option_bind].
    change (NLMSG_SPACE 0) with 16. change sizeof_nlmsghdr with 16 in *. unfold u32. by rewrite Z.mod_small by lia.
Qed.

#[export] Instance rtattr_laws : FramingLaws rtattr.
Proof.
  split; cbn [header lenw frame_order f_ok f_next f_length f_data f_payload rtattr].
  - done.
  - intros m p len Hl. unfold RTA_OK. by rewrite (proj2 (Z.leb_gt _ _)) by lia.
  - intros m p len n Hl Hn Hp. unfold RTA_OK, rta_len. by rewrite (proj2 (Z.leb_le _ _)), Hn by lia.
  - intros m p len n Hn Hr Hl. unfold RTA_NEXT, rta_len. rewrite Hn. cbn [mbind option_bind].
    unfold RTA_ALIGN, RTA_ALIGNTO. rewrite up4_mask by lia. pose proof (up4_bounds n).
    by rewrite i32_small by lia.
  - intros n Hn. unfold RTA_LENGTH, u64. change (RTA_ALIGN sizeof_rtattr) with 4. change sizeof_rtattr with 4.
    by rewrite Z.mod_small by lia.
  - done.
  - intros m p n Hn Hr. unfold RTA_PAYLOAD, rta_len. rewrite Hn. cbn [mbind option_bind].
    change (RTA_LENGTH 0) with 4. change sizeof_rtattr with 4 in *. unfold u64. by rewrite Z.mod_small by lia.
Qed.
End instances.

(** ** The walk

    for (p = start; OK (p, len); p = NEXT (p, len)), the addresses and lengths it goes by. *)
Section walk.
Context {F : Framing}.

Fixpoint walk (fuel : nat) (m : bytes) (p : nat) (len : Z) : option (list (nat * Z)) :=
  ok ← f_ok m p len;
  if (ok : bool) then
    match fuel with
    | O => None
    | S fuel =>
        n ← load (H := frame_order) lenw m p;
        '(p', len') ← f_next m p len;
        rest ← walk fuel m p' len'; Some ((p, n) :: rest)
    end
  else Some [].

(** What the walk gives away is inside: each message in the rest of the buffer, the next one
    behind it at a multiple of 4. *)
Fixpoint inside (p : nat) (len : Z) (l : list (nat * Z)) : Prop :=
  match l with
  | [] => True
  | (q, n) :: l =>
      q = p /\ header <= n <= len /\ inside (p + Z.to_nat (up4 n)) (len - up4 n) l
  end.

(** The bytes of a message: the length, the rest of the header, the payload and the padding. *)
Definition frame (rest payload : bytes) : bytes :=
  native (H := frame_order) lenw (f_length (Z.of_nat (length payload))) ++ rest ++ payload ++
  replicate (Z.to_nat (up4 (Z.of_nat (length payload)) - Z.of_nat (length payload))) 0.
Definition frames (l : list (bytes * bytes)) : bytes := concat ((fun '(r, v) => frame r v) <$> l).

(** A message as a client reads it: the header behind the length, and the payload. *)
Definition read_frame (m : bytes) (q : nat) : option (bytes * bytes) :=
  k ← f_payload m q;
  Some (slice (q + size_of lenw) (Z.to_nat header - size_of lenw) m, slice (f_data q) (Z.to_nat k) m).
End walk.

Section walk_ok.
Context {F : Framing} {HF : FramingLaws F}.

Lemma walk_inside fuel m p len :
  Forall is_byte m -> (len <= 0 \/ Z.of_nat p + len <= Z.of_nat (length m)) -> len < 2 ^ 31 - 4 ->
  (Z.to_nat (len / header) <= fuel)%nat ->
  exists l, walk fuel m p len = Some l /\ inside p len l /\ header * Z.of_nat (length l) <= Z.max 0 len.
Proof.
  intros Hm. pose proof header_law as (Hw & Hh4 & Hh). assert (Hs : 0 < Z.of_nat (size_of lenw)) by (destruct lenw; cbn; lia).
  revert p len. induction fuel as [|fuel IH]; intros p len Hp Hl Hf; cbn [walk].
  all: destruct (Z.ltb_spec len header) as [Hlt|Hge];
    [rewrite ok_short_law by lia; exists []; cbn; split; [done|]; split; [done | lia] |].
  all: destruct (load (H := frame_order) lenw m p) as [n|] eqn:Hn;
    [|unfold load in Hn; rewrite (proj2 (Nat.leb_le _ _)) in Hn by lia; discriminate Hn].
  all: assert (H0 : 0 <= n) by (rewrite <-(load_range _ lenw m p n Hm Hn); apply cast_range).
  all: rewrite (ok_law m p len n) by (done || lia); cbn [mbind option_bind].
  all: destruct (Z.leb_spec header n) as [H1|], (Z.leb_spec n len) as [H2|]; cbn [andb];
    try (exists []; cbn; split; [done|]; split; [done | lia]).
  - assert (1 <= len / header) by (apply Z.div_le_lower_bound; lia). lia.
  - rewrite (next_law m p len n) by (done || lia). cbn [mbind option_bind].
    pose proof (up4_bounds n) as [Hb _].
    destruct (IH (p + Z.to_nat (up4 n))%nat (len - up4 n)) as (l & Hwalk & Hin & Hlen); [lia | lia | |].
    { assert ((len - up4 n) / header <= len / header - 1); [|lia].
      replace (len / header - 1) with ((len + (-1) * header) / header) by (rewrite Z.div_add by lia; lia).
      apply Z.div_le_mono; lia. }
    rewrite Hwalk. cbn [mbind option_bind]. eexists. split; [done|]. cbn [inside length].
    split; [done|]. rewrite Nat2Z.inj_succ, Z.mul_succ_r. lia.
Qed.
End walk_ok.

(** ** What a sender laid out *)
Section frames.
Context {F : Framing} {HF : FramingLaws F}.

(** The size of a message's parts. *)
Definition fits (x : bytes * bytes) : Prop :=
  Z.of_nat (length x.1) = header - Z.of_nat (size_of lenw) /\
  header + Z.of_nat (length x.2) < Z.min (2 ^ (8 * Z.of_nat (size_of lenw))) (2 ^ 31 - 32).

Lemma up4_header n : up4 (header + n) = header + up4 n.
Proof.
  pose proof header_law as (_ & Hh & _). unfold up4.
  apply Z.mod_divide in Hh as [k ->]; [|lia]. rewrite <-Z.add_assoc, Z.div_add_l by lia. lia.
Qed.

Lemma length_frame r v : fits (r, v) -> Z.of_nat (length (frame r v)) = up4 (header + Z.of_nat (length v)).
Proof.
  intros [Hr Hv]. unfold frame. rewrite !length_app, length_replicate, length_native, up4_header. cbn [fst snd] in *.
  pose proof (up4_bounds (Z.of_nat (length v))). lia.
Qed.

Lemma frame_load m p r v : fits (r, v) -> has m p (frame r v) ->
  load (H := frame_order) lenw m p = Some (header + Z.of_nat (length v)).
Proof.
  intros [Hr Hv] Hm. cbn [fst snd] in *. pose proof header_law. apply has_app in Hm as [Hm _].
  rewrite (load_has _ _ _ _ Hm), length_law, cast_small by lia. done.
Qed.

Lemma frame_read m p r v : fits (r, v) -> has m p (frame r v) -> read_frame m p = Some (r, v).
Proof.
  intros Hfit Hm. pose proof (frame_load m p r v Hfit Hm) as Hn. destruct Hfit as [Hr Hv]. cbn [fst snd] in *.
  pose proof header_law. unfold read_frame. rewrite (payload_law m p _ Hn), data_law by lia. cbn [mbind option_bind].
  apply has_app in Hm as [_ Hm]. apply has_app in Hm as [Hmr Hm]. apply has_app in Hm as [Hmv _].
  rewrite length_native in *. unfold has in Hmr, Hmv.
  replace (p + Z.to_nat header)%nat with (p + size_of lenw + length r)%nat by lia.
  replace (Z.to_nat header - size_of lenw)%nat with (length r) by lia.
  replace (Z.to_nat (header + Z.of_nat (length v) - header)) with (length v) by lia. by rewrite Hmr, Hmv.
Qed.

Lemma walk_frames fuel m p l :
  Forall fits l -> has m p (frames l) -> Z.of_nat (length (frames l)) < 2 ^ 31 - 4 -> (length l <= fuel)%nat ->
  exists w, walk fuel m p (Z.of_nat (length (frames l))) = Some w /\ mapM (fun '(q, _) => read_frame m q) w = Some l.
Proof.
  pose proof header_law as (Hw & _ & _). assert (Hs : 0 < Z.of_nat (size_of lenw)) by (destruct lenw; cbn; lia).
  intros Hl. revert fuel p. induction Hl as [|[r v] l Hx Hl IH]; intros fuel p Hm Hlt Hf.
  { exists []. split; [|done]. destruct fuel; cbn [walk frames concat fmap list_fmap length]; by rewrite ok_short_law by lia. }
  change (frames ((r, v) :: l)) with (frame r v ++ frames l) in *. apply has_app in Hm as [Hmf Hml].
  rewrite length_app, Nat2Z.inj_add in *. pose proof (length_frame r v Hx) as Hlen.
  pose proof (frame_load m p r v Hx Hmf) as Hn. pose proof (up4_bounds (header + Z.of_nat (length v))).
  destruct fuel as [|fuel]; [cbn in Hf; lia|]. cbn [walk length] in *.
  rewrite (ok_law m p _ _) with (2 := Hn) by lia. rewrite !(proj2 (Z.leb_le _ _)) by lia. cbn [mbind option_bind andb].
  rewrite Hn. cbn [mbind option_bind]. rewrite (next_law m p _ _ Hn) by lia. cbn [mbind option_bind].
  destruct (IH fuel (p + length (frame r v))%nat) as (w & Hwk & Hrd); [done | lia | lia |].
  replace (Z.to_nat (up4 (header + Z.of_nat (length v)))) with (length (frame r v)) by lia.
  replace (_ + _ - up4 _) with (Z.of_nat (length (frames l))) by lia. rewrite Hwk. cbn [mbind option_bind].
  eexists. split; [done|]. cbn [mapM]. by rewrite (frame_read m p r v Hx Hmf), Hrd.
Qed.
End frames.

(** C26: the walks for (p = buf; NLMSG_OK (p, len); p = NLMSG_NEXT (p, len)) over netlink
    messages and for (p = buf; RTA_OK (p, len); p = RTA_NEXT (p, len)) over attributes, over any
    bytes a peer may have sent: they come to an end after at most len / sizeof of the header
    messages, no access to a length is outside the len bytes, and each message given away is
    whole and begins at the aligned end of the one before it.  Over messages laid out with
    NLMSG_LENGTH or RTA_LENGTH and padded, whatever is behind them, the walk gives away exactly
    these, and the rest of the header and the NLMSG_PAYLOAD (RTA_PAYLOAD) bytes at NLMSG_DATA
    (RTA_DATA) of each are what was put there. *)
Theorem frames_walk (E : Endian) (F : Framing) :
  F = netlink E \/ F = rtattr E ->
  (forall m p len fuel,
     Forall is_byte m -> Z.of_nat p + len <= Z.of_nat (length m) -> len < 2 ^ 31 - 4 ->
     (Z.to_nat (len / header) <= fuel)%nat ->
     exists l, walk fuel m p len = Some l /\ inside p len l /\ header * Z.of_nat (length l) <= Z.max 0 len) /\
  (forall m p l fuel,
     Forall fits l -> has m p (frames l) -> Z.of_nat (length (frames l)) < 2 ^ 31 - 4 -> (length l <= fuel)%nat ->
     exists w, walk fuel m p (Z.of_nat (length (frames l))) = Some w /\
       mapM (fun '(q, _) => read_frame m q) w = Some l).
Proof.
  intros HF. assert (FramingLaws F) by (destruct HF as [-> | ->]; apply _).
  split; [intros; apply walk_inside; auto | intros; by apply walk_frames].
Qed.

(** Two attributes, of 3 and 0 bytes, behind two others; and the same bytes cut short. *)
Lemma frames_walk_witness :
  let L : Endian := false in
  let F := rtattr L in
  let m := [9; 9; 7; 0; 1; 0; 10; 11; 12; 0; 4; 0; 2; 0] in
  let l := [([1; 0], [10; 11; 12]); ([2; 0], [])] in
  (exists w, walk 2 m 2 (Z.of_nat (length (frames l))) = Some w /\
     mapM (fun '(q, _) => read_frame m q) w = Some l) /\
  (exists l, walk 1 m 2 6 = Some l /\ inside 2 6 l /\ header * Z.of_nat (length l) <= Z.max 0 6).
Proof.
  intros L F m l. destruct (frames_walk L F (or_intror eq_refl)) as [H1 H2]. split.
  - apply H2; [|reflexivity | vm_compute; reflexivity | apply le_n].
    repeat constructor; vm_compute; reflexivity.
  - apply H1; [repeat apply List.Forall_cons; try apply List.Forall_nil; vm_compute; split; congruence | vm_compute; congruence | vm_compute; reflexivity | apply le_n].
Defined.
