(* ===== verification/Cmsg.v ===== *)
(** Ancillary data of a message (bits/socket.h): the CMSG_ macros and [__cmsg_nxthdr], with
    pointers as 64-bit numbers, so that the arithmetic wraps where the code's does. *)

From S2P Require Import Prelude CLib Words Endian.
#[local] Open Scope Z_scope.

(** ** The macros *)

(** The memory a walk reads: bytes and the address of the first. *)
Record memory := { base : Z; cells : bytes }.
Record msghdr := { msg_control : Z; msg_controllen : Z }.

Definition NULL : Z := 0.
Definition sizeof_size_t : Z := 8.
(** cmsg_len at 0, cmsg_level at 8, cmsg_type at 12 *)
Definition sizeof_cmsghdr : Z := 16.

Definition CMSG_ALIGN (len : Z) : Z :=
  Z.land (u64 (u64 (len + sizeof_size_t) - 1)) (u64 (Z.lnot (sizeof_size_t - 1))).
Definition CMSG_SPACE (len : Z) : Z := u64 (CMSG_ALIGN len + CMSG_ALIGN sizeof_cmsghdr).
Definition CMSG_LEN (len : Z) : Z := u64 (CMSG_ALIGN sizeof_cmsghdr + len).
Definition CMSG_DATA (cmsg : Z) : Z := u64 (cmsg + sizeof_cmsghdr).
Definition CMSG_FIRSTHDR (mhdr : msghdr) : Z :=
  if sizeof_cmsghdr <=? msg_controllen mhdr then msg_control mhdr else NULL.

Section cmsg.
Context `{Endian}.

Definition cmsg_len (M : memory) (cmsg : Z) : option Z :=
  if base M <=? cmsg then load W64 (cells M) (Z.to_nat (cmsg - base M)) else None.

Definition __cmsg_nxthdr (M : memory) (mhdr : msghdr) (cmsg : Z) : option Z :=
  n ← cmsg_len M cmsg;
  if n <? sizeof_cmsghdr then Some NULL else
  let cmsg := u64 (cmsg + CMSG_ALIGN n) in
  let past := u64 (msg_control mhdr + msg_controllen mhdr) in
  if past <? u64 (cmsg + sizeof_cmsghdr) then Some NULL else
  n ← cmsg_len M cmsg;
  if past <? u64 (cmsg + CMSG_ALIGN n) then Some NULL else Some cmsg.
Definition CMSG_NXTHDR := __cmsg_nxthdr.

(** for (c = CMSG_FIRSTHDR (mhdr); c != NULL; c = CMSG_NXTHDR (mhdr, c)), from [c] on *)
Fixpoint cmsgs (fuel : nat) (M : memory) (mhdr : msghdr) (c : Z) : option (list Z) :=
  if c =? NULL then Some [] else
  match fuel with
  | O => None
  | S fuel => c' ← CMSG_NXTHDR M mhdr c; rest ← cmsgs fuel M mhdr c'; Some (c :: rest)
  end.

(** An entry as a client lays it out: cmsg_len, level and type, the data, padding. *)
Definition entry (head data : bytes) : bytes :=
  native W64 (CMSG_LEN (Z.of_nat (length data))) ++ head ++ data ++
  replicate (Z.to_nat (CMSG_SPACE (Z.of_nat (length data)) - CMSG_LEN (Z.of_nat (length data)))) 0.
Definition entries (l : list (bytes * bytes)) : bytes := concat ((fun '(h, v) => entry h v) <$> l).

(** An entry as a client reads it. *)
Definition read_entry (M : memory) (c : Z) : option (bytes * bytes) :=
  n ← cmsg_len M c;
  Some (slice (Z.to_nat (c + 8 - base M)) 8 (cells M),
        slice (Z.to_nat (CMSG_DATA c - base M)) (Z.to_nat (n - CMSG_LEN 0)) (cells M)).
End cmsg.

(** ** Alignment *)

Definition up8 (n : Z) : Z := (n + 7) / 8 * 8.

Lemma up8_bounds n : n <= up8 n < n + 8.
Proof. unfold up8. pose proof (Z.div_mod (n + 7) 8). pose proof (Z.mod_pos_bound (n + 7) 8). lia. Qed.

Lemma up8_16 n : up8 (16 + n) = 16 + up8 n.
Proof. unfold up8. replace (16 + n + 7) with (2 * 8 + (n + 7)) by lia. rewrite Z.div_add_l by lia. lia. Qed.

Lemma u64_small z : 0 <= z < 2 ^ 64 -> u64 z = z.
Proof. apply Z.mod_small. Qed.

Lemma CMSG_ALIGN_up8 n : 0 <= n < 2 ^ 64 - 8 -> CMSG_ALIGN n = up8 n.
Proof.
  intros Hn. unfold CMSG_ALIGN, sizeof_size_t. rewrite (u64_small (n + 8)) by lia. rewrite (u64_small (n + 8 - 1)) by lia.
  change (u64 (Z.lnot (8 - 1))) with (Z.ldiff (Z.ones 64) (Z.ones 3)).
  rewrite Z.ldiff_land, Z.land_assoc, Z.land_ones, Z.mod_small, <-Z.ldiff_land by lia.
  rewrite Z.ldiff_ones_r, Z.shiftl_mul_pow2, Z.shiftr_div_pow2 by lia.
  unfold up8. by replace (n + 8 - 1) with (n + 7) by lia.
Qed.

Lemma CMSG_ALIGN_wraps n : 2 ^ 64 - 7 <= n < 2 ^ 64 -> CMSG_ALIGN n = 0.
Proof.
  intros Hn. assert (exists k, n = 2 ^ 64 - 7 + k /\ 0 <= k < 7) as (k & -> & Hk) by (exists (n - (2 ^ 64 - 7)); lia).
  assert (k = 0 \/ k = 1 \/ k = 2 \/ k = 3 \/ k = 4 \/ k = 5 \/ k = 6) as Hc by lia. repeat destruct Hc as [-> | Hc]; try subst; reflexivity.
Qed.

Lemma CMSG_LEN_eq n : 0 <= n < 2 ^ 63 -> CMSG_LEN n = 16 + n.
Proof. intros Hn. unfold CMSG_LEN. change (CMSG_ALIGN sizeof_cmsghdr) with 16. apply u64_small. lia. Qed.

Lemma CMSG_SPACE_eq n : 0 <= n < 2 ^ 63 -> CMSG_SPACE n = 16 + up8 n.
Proof.
  intros Hn. unfold CMSG_SPACE. change (CMSG_ALIGN sizeof_cmsghdr) with 16. rewrite CMSG_ALIGN_up8 by lia.
  pose proof (up8_bounds n). rewrite u64_small by lia. lia.
Qed.

Definition small (x : bytes * bytes) : Prop := length x.1 = 8%nat /\ Z.of_nat (length x.2) < 2 ^ 62.

Lemma length_entry `{Endian} h v : small (h, v) -> Z.of_nat (length (entry h v)) = 16 + up8 (Z.of_nat (length v)).
Proof.
  intros [Hh Hv]. cbn [fst snd] in *. unfold entry. rewrite !length_app, length_replicate, length_native, Hh.
  rewrite CMSG_SPACE_eq, CMSG_LEN_eq by lia. pose proof (up8_bounds (Z.of_nat (length v))). cbn [size_of]. lia.
Qed.

(** ** The walk *)
Section walk.
Context `{Endian} (b : Z) (m : bytes) (L : Z).
(** The buffer is the first [L] bytes, and in the lower half of the address space. *)
Hypothesis b_ok : 0 < b /\ b + Z.of_nat (length m) < 2 ^ 62.
Hypothesis L_ok : 0 <= L <= Z.of_nat (length m).

Definition control : memory * msghdr := ({| base := b; cells := m |}, {| msg_control := b; msg_controllen := L |}).

Lemma cmsg_len_at p : 0 <= p -> cmsg_len control.1 (b + p) = load W64 m (Z.to_nat p).
Proof.
  intros Hp. unfold cmsg_len. cbn [base cells control fst]. rewrite (proj2 (Z.leb_le _ _)) by lia.
  by replace (b + p - b) with p by lia.
Qed.

Lemma load_inside p : 0 <= p -> p + 8 <= L -> exists n, load W64 m (Z.to_nat p) = Some n.
Proof. intros Hp Hl. unfold load. rewrite (proj2 (Nat.leb_le _ _)) by (cbn [size_of]; lia). by eexists. Qed.

Lemma nxthdr_short p n : 0 <= p -> load W64 m (Z.to_nat p) = Some n -> n < 16 ->
  CMSG_NXTHDR control.1 control.2 (b + p) = Some NULL.
Proof.
  intros Hp Hn Hs. unfold CMSG_NXTHDR, __cmsg_nxthdr. rewrite cmsg_len_at, Hn by lia. cbn [mbind option_bind].
  by rewrite (proj2 (Z.ltb_lt _ _)) by (unfold sizeof_cmsghdr; lia).
Qed.

Lemma nxthdr_next p n q : 0 <= p <= L -> load W64 m (Z.to_nat p) = Some n -> 16 <= n < 2 ^ 63 -> q = p + up8 n ->
  CMSG_NXTHDR control.1 control.2 (b + p) =
  if L <? q + 16 then Some NULL else
  n' ← load W64 m (Z.to_nat q);
  if b + L <? u64 (b + q + CMSG_ALIGN n') then Some NULL else Some (b + q).
Proof.
  intros Hp Hn Hr ->. unfold CMSG_NXTHDR, __cmsg_nxthdr. rewrite cmsg_len_at, Hn by lia. cbn [mbind option_bind].
  rewrite (proj2 (Z.ltb_ge _ _)), CMSG_ALIGN_up8 by (unfold sizeof_cmsghdr; lia). pose proof (up8_bounds n).
  change (msg_control control.2) with b. change (msg_controllen control.2) with L. rewrite !(u64_small (b + L)) by lia.
  rewrite (u64_small (b + p + up8 n)) by lia. rewrite <-(Z.add_assoc b p), cmsg_len_at by lia.
  rewrite (u64_small (_ + sizeof_cmsghdr)) by (unfold sizeof_cmsghdr; lia). unfold sizeof_cmsghdr.
  assert ((b + L <? b + (p + up8 n) + 16) = (L <? p + up8 n + 16)) as ->; [|done].
  destruct (Z.ltb_spec L (p + up8 n + 16)); [apply Z.ltb_lt | apply Z.ltb_ge]; lia.
Qed.

(** The offsets where the walk looks for a length. *)
Inductive reached : Z -> Prop :=
  | reached_first : reached 0
  | reached_next p n : reached p -> p + 16 <= L -> load W64 m (Z.to_nat p) = Some n -> 16 <= n -> reached (p + up8 n).

(** Headers inside of the buffer, from [p] on, each at least 16 bytes behind the one before. *)
Fixpoint spaced (p : Z) (l : list Z) : Prop :=
  match l with
  | [] => True
  | c :: l => b + p <= c /\ c + 16 <= b + L /\ spaced (c - b + 16) l
  end.

Lemma cmsgs_spaced fuel p :
  (forall q n, reached q -> load W64 m (Z.to_nat q) = Some n -> n < 2 ^ 63) ->
  reached p -> 0 <= p -> p + 16 <= L -> L - p < 16 * Z.of_nat fuel + 16 ->
  exists l, cmsgs fuel control.1 control.2 (b + p) = Some l /\ spaced p l.
Proof.
  intros Hsmall. revert p. induction fuel as [|fuel IH]; intros p Hreach Hp Hl Hf; [lia|]. cbn [cmsgs].
  rewrite (proj2 (Z.eqb_neq _ _)) by (unfold NULL; lia). destruct (load_inside p) as [n Hn]; [lia | lia|].
  assert (Hend : exists l, (rest ← cmsgs fuel control.1 control.2 NULL; Some (b + p :: rest)) = Some l /\ spaced p l).
  { exists [b + p]. destruct fuel; cbn; repeat split; lia. }
  destruct (Z.lt_ge_cases n 16) as [Hs|Hs]; [rewrite (nxthdr_short p n) by done; exact Hend|].
  pose proof (Hsmall _ _ Hreach Hn). rewrite (nxthdr_next p n _) with (4 := eq_refl) by (lia || done).
  pose proof (up8_bounds n). destruct (Z.ltb_spec L (p + up8 n + 16)) as [|Hq]; [done|].
  destruct (load_inside (p + up8 n)) as [n' Hn']; [lia | lia|]. rewrite Hn'. cbn [mbind option_bind].
  destruct (b + L <? _); [done|].
  destruct (IH (p + up8 n)) as (l & Hwalk & Hspaced); [by apply reached_next | lia | lia | lia |]. cbn [mbind option_bind]. rewrite Hwalk. cbn [mbind option_bind].
  eexists. split; [done|]. cbn [spaced]. split; [lia|]. split; [lia|].
  destruct l as [|c l]; [done|]. cbn [spaced] in *. destruct Hspaced as (? & ? & ?). repeat split; [lia | lia | done].
Qed.

(** ** What a sender laid out *)

Lemma entry_load p h v : small (h, v) -> has m p (entry h v) -> load W64 m p = Some (16 + Z.of_nat (length v)).
Proof.
  intros [_ Hv] Hm. cbn [fst snd] in *. apply has_app in Hm as [Hm _].
  rewrite (load_has _ _ _ _ Hm), CMSG_LEN_eq, cast_small by (cbn [size_of]; lia). done.
Qed.

Lemma entry_read p h v : small (h, v) -> has m (Z.to_nat p) (entry h v) -> 0 <= p <= L ->
  read_entry control.1 (b + p) = Some (h, v).
Proof.
  intros Hs Hm Hp. unfold read_entry. rewrite cmsg_len_at, (entry_load _ _ _ Hs Hm) by lia. cbn [mbind option_bind].
  destruct Hs as [Hh Hv]. cbn [fst snd] in *. change (CMSG_LEN 0) with 16. change (base control.1) with b.
  change (cells control.1) with m. unfold CMSG_DATA, sizeof_cmsghdr. rewrite u64_small by lia.
  apply has_app in Hm as [_ Hm]. apply has_app in Hm as [Hmh Hm]. apply has_app in Hm as [Hmv _].
  rewrite length_native in *. unfold has in Hmh, Hmv. cbn [size_of] in *. rewrite Hh in *.
  replace (Z.to_nat (b + p + 8 - b)) with (Z.to_nat p + 8)%nat by lia.
  replace (Z.to_nat (b + p + 16 - b)) with (Z.to_nat p + 8 + 8)%nat by lia.
  replace (Z.to_nat (16 + Z.of_nat (length v) - 16)) with (length v) by lia. by rewrite Hmh, Hmv.
Qed.

Lemma cmsgs_entries fuel p x l :
  Forall small (x :: l) -> has m (Z.to_nat p) (entries (x :: l)) -> 0 <= p ->
  p + Z.of_nat (length (entries (x :: l))) = L -> (length l < fuel)%nat ->
  exists w, cmsgs fuel control.1 control.2 (b + p) = Some w /\ mapM (read_entry control.1) w = Some (x :: l).
Proof.
  revert fuel p x. induction l as [|y l IH]; intros fuel p [h v] Hs Hm Hp Hlen Hf;
    (destruct fuel as [|fuel]; [cbn in Hf; lia|]); apply Forall_cons in Hs as [Hx Hs];
    change (entries ((h, v) :: ?r)) with (entry h v ++ entries r) in *; apply has_app in Hm as [Hmx Hm];
    rewrite length_app, Nat2Z.inj_add, (length_entry h v Hx) in Hlen;
    pose proof (entry_load _ _ _ Hx Hmx) as Hn; pose proof (up8_bounds (Z.of_nat (length v)));
    pose proof (proj2 Hx) as Hv; cbn [snd] in Hv;
    cbn [cmsgs]; rewrite (proj2 (Z.eqb_neq _ _)) by (unfold NULL; lia);
    rewrite (nxthdr_next p _ (p + (16 + up8 (Z.of_nat (length v))))) with (2 := Hn) by (rewrite ?up8_16; lia).
  - cbn [entries concat fmap list_fmap length] in Hlen. rewrite (proj2 (Z.ltb_lt _ _)) by lia. cbn [mbind option_bind].
    assert (cmsgs fuel control.1 control.2 NULL = Some []) as -> by (by destruct fuel). eexists. split; [done|].
    cbn [mapM]. by rewrite (entry_read p h v Hx Hmx) by lia.
  - destruct y as [h' v']. pose proof Hs as Hs'. apply Forall_cons in Hs' as [Hy _].
    change (entries ((h', v') :: l)) with (entry h' v' ++ entries l) in Hlen. pose proof (proj2 Hy) as Hv'. cbn [snd] in Hv'.
    pose proof (length_entry h v Hx) as Hl. pose proof (up8_bounds (Z.of_nat (length v'))).
    assert (Hq : (Z.to_nat p + length (entry h v))%nat = Z.to_nat (p + (16 + up8 (Z.of_nat (length v))))) by lia.
    rewrite Hq in Hm. rewrite length_app, Nat2Z.inj_add, (length_entry h' v' Hy) in Hlen.
    rewrite (proj2 (Z.ltb_ge _ _)) by lia.
    pose proof (proj1 (proj1 (has_app _ _ _ _) Hm)) as Hmy. rewrite (entry_load _ _ _ Hy Hmy). cbn [mbind option_bind].
    rewrite CMSG_ALIGN_up8, up8_16, u64_small, (proj2 (Z.ltb_ge _ _)) by lia. cbn [mbind option_bind].
    destruct (IH fuel (p + (16 + up8 (Z.of_nat (length v)))) (h', v')) as (w & Hw & Hr); [done | done | lia | | cbn in Hf; lia |].
    { change (entries ((h', v') :: l)) with (entry h' v' ++ entries l).
      rewrite length_app, Nat2Z.inj_add, (length_entry h' v' Hy). lia. }
    rewrite Hw. cbn [mbind option_bind]. eexists. split; [done|].
    cbn [mapM]. by rewrite (entry_read p h v Hx Hmx), Hr by lia.
Qed.

(** ** A length near the top *)

Lemma nxthdr_stuck p n : 0 <= p -> p + 16 <= L -> load W64 m (Z.to_nat p) = Some n -> 2 ^ 64 - 7 <= n < 2 ^ 64 ->
  CMSG_NXTHDR control.1 control.2 (b + p) = Some (b + p).
Proof.
  intros Hp Hl Hn Hr. unfold CMSG_NXTHDR, __cmsg_nxthdr. rewrite cmsg_len_at, Hn by lia. cbn [mbind option_bind].
  rewrite (proj2 (Z.ltb_ge _ _)), CMSG_ALIGN_wraps by (unfold sizeof_cmsghdr; lia). rewrite Z.add_0_r.
  change (msg_control control.2) with b. change (msg_controllen control.2) with L. rewrite !(u64_small (b + L)) by lia.
  rewrite (u64_small (b + p)), cmsg_len_at, Hn by lia. cbn [mbind option_bind]. rewrite CMSG_ALIGN_wraps, Z.add_0_r by lia.
  unfold sizeof_cmsghdr. rewrite !u64_small by lia. by rewrite !(proj2 (Z.ltb_ge _ _)) by lia.
Qed.

Lemma cmsgs_stuck fuel p n : 0 <= p -> p + 16 <= L -> load W64 m (Z.to_nat p) = Some n -> 2 ^ 64 - 7 <= n < 2 ^ 64 ->
  cmsgs fuel control.1 control.2 (b + p) = None.
Proof.
  intros Hp Hl Hn Hr. induction fuel as [|fuel IH]; cbn [cmsgs]; rewrite (proj2 (Z.eqb_neq _ _)) by (unfold NULL; lia); [done|].
  rewrite (nxthdr_stuck p n) by done. cbn [mbind option_bind]. by rewrite IH.
Qed.
End walk.

(** C25: for (c = CMSG_FIRSTHDR (mhdr); c != NULL; c = CMSG_NXTHDR (mhdr, c)) over a control
    buffer of [L] bytes at the address [b].  Where no length that the walk comes to is half of the
    address space, it ends after at most L / 16 entries, whose headers are inside of the buffer,
    each at least 16 bytes behind the one before.  Over entries made with CMSG_LEN and padded to
    CMSG_SPACE it gives away exactly these, and the level, the type and the cmsg_len - CMSG_LEN (0)
    bytes at CMSG_DATA are what was put there.  But where cmsg_len is one of the largest 7
    numbers, CMSG_ALIGN of it is 0, the tests for the end pass, and the walk never ends. *)
Theorem cmsg_walk (E : Endian) b m L :
  0 < b -> b + Z.of_nat (length m) < 2 ^ 62 -> 0 <= L <= Z.of_nat (length m) ->
  let '(M, mhdr) := control b m L in
  (forall fuel,
     (forall q n, reached m L q -> load W64 m (Z.to_nat q) = Some n -> n < 2 ^ 63) -> L < 16 * Z.of_nat fuel + 16 ->
     exists l, cmsgs fuel M mhdr (CMSG_FIRSTHDR mhdr) = Some l /\ spaced b L 0 l) /\
  (forall fuel l,
     Forall small l -> has m 0 (entries l) -> L = Z.of_nat (length (entries l)) -> (length l <= fuel)%nat ->
     exists w, cmsgs fuel M mhdr (CMSG_FIRSTHDR mhdr) = Some w /\ mapM (read_entry M) w = Some l) /\
  (forall fuel n,
     16 <= L -> load W64 m 0 = Some n -> 2 ^ 64 - 7 <= n < 2 ^ 64 -> cmsgs fuel M mhdr (CMSG_FIRSTHDR mhdr) = None).
Proof.
  intros Hb Hbm HL. assert (Hok : 0 < b /\ b + Z.of_nat (length m) < 2 ^ 62) by done. cbn [control].
  change {| base := b; cells := m |} with (control b m L).1.
  change {| msg_control := b; msg_controllen := L |} with (control b m L).2.
  assert (Hfirst : CMSG_FIRSTHDR (control b m L).2 = if 16 <=? L then b + 0 else NULL)
    by (rewrite Z.add_0_r; reflexivity). rewrite Hfirst.
  assert (Hnil : forall fuel, cmsgs fuel (control b m L).1 (control b m L).2 NULL = Some []) by (by intros []).
  split; [|split].
  - intros fuel Hsmall Hf. destruct (Z.leb_spec 16 L); [|by exists []].
    apply cmsgs_spaced; [done | done | done | constructor | lia | lia | lia].
  - intros fuel [|x l] Hs Hm Hlen Hf; [cbn in Hlen; subst; by exists []|].
    rewrite (proj2 (Z.leb_le _ _)). { apply cmsgs_entries; try done; cbn in *; lia. }
    destruct x as [h v]. apply Forall_cons in Hs as [Hx _]. pose proof (length_entry h v Hx). pose proof (up8_bounds (Z.of_nat (length v))).
    rewrite Hlen. change (entries ((h, v) :: l)) with (entry h v ++ entries l). rewrite length_app. lia.
  - intros fuel n Hl Hn Hr. rewrite (proj2 (Z.leb_le _ _)) by lia. by apply (cmsgs_stuck b m L Hok HL fuel 0 n).
Qed.

(** A descriptor and two bytes; the same buffer where the peer is not to be trusted; a length of
    2 ^ 64 - 1. *)
Lemma cmsg_walk_witness :
  let L : Endian := false in
  let h := [1; 0; 0; 0; 2; 0; 0; 0] in
  let l := [(h, [3; 0; 0; 0]); (h, [5; 6])] in
  let m := entries l in
  let bad := replicate 16 255 in
  let run b m := let '(M, mhdr) := control b m (Z.of_nat (length m)) in cmsgs 5 M mhdr (CMSG_FIRSTHDR mhdr) in
  (exists w, run 4096 m = Some w /\ mapM (read_entry {| base := 4096; cells := m |}) w = Some l) /\
  (exists w, run 4096 (take 16 m) = Some w /\ spaced 4096 16 0 w) /\
  run 4096 bad = None.
Proof.
  intros L h l m bad run. split; [|split].
  - apply (cmsg_walk L 4096 m (Z.of_nat (length m))); [reflexivity | vm_compute; reflexivity | vm_compute; split; discriminate | | reflexivity | reflexivity | vm_compute; lia].
    repeat apply List.Forall_cons; try apply List.Forall_nil; vm_compute; split; reflexivity.
  - apply (cmsg_walk L 4096 (take 16 m) 16); [reflexivity | vm_compute; reflexivity | vm_compute; split; discriminate | | reflexivity].
    intros q n Hq. assert (q = 0 \/ q = 24) as [-> | ->].
    { induction Hq as [|p k Hp IH Hl Hk]; [by left|]. destruct IH as [-> | ->]; [|lia].
      vm_compute in Hk. injection Hk as <-. by right. }
    + intros Hn. vm_compute in Hn. injection Hn as <-. reflexivity.
    + intros Hn. vm_compute in Hn. discriminate.
  - apply (cmsg_walk L 4096 bad 16) with (n := 2 ^ 64 - 1); vm_compute; try split; congruence.
Defined.
