(* ===== verification/Codes.v ===== *)
(** Numbers packed into words: device numbers (bits/sysmacros.h), ioctl requests
    (asm-generic/ioctl.h), statuses of processes (bits/waitstatus.h), addresses of TIPC
    (linux/tipc.h) and Phonet (linux/phonet.h), speeds (linux/ethtool.h) and headers of SCSI
    commands (linux/target_core_user.h); and times in two parts (sys/time.h). *)

From S2P Require Import Prelude CLib.
#[local] Open Scope Z_scope.

Definition u8 (x : Z) : Z := x mod 2 ^ 8.
Notation "x << n" := (Z.shiftl x n) (at level 35, no associativity) : Z_scope.
Notation "x >> n" := (Z.shiftr x n) (at level 35, no associativity) : Z_scope.
Notation "x .& y" := (Z.land x y) (at level 37, left associativity) : Z_scope.
Notation "x .| y" := (Z.lor x y) (at level 38, left associativity) : Z_scope.

(** ** bits/sysmacros.h *)

Definition gnu_dev_major (dev : Z) : Z :=
  let major := u32 ((dev .& 0x00000000000fff00) >> 8) in
  u32 (major .| ((dev .& 0xfffff00000000000) >> 32)).
Definition gnu_dev_minor (dev : Z) : Z :=
  let minor := u32 ((dev .& 0x00000000000000ff) >> 0) in
  u32 (minor .| ((dev .& 0x00000ffffff00000) >> 12)).
Definition gnu_dev_makedev (major minor : Z) : Z :=
  let dev := u64 ((major .& 0x00000fff) << 8) in
  let dev := dev .| u64 ((major .& 0xfffff000) << 32) in
  let dev := dev .| u64 ((minor .& 0x000000ff) << 0) in
  dev .| u64 ((minor .& 0xffffff00) << 12).

(** ** asm-generic/ioctl.h *)

Definition _IOC_NRBITS : Z := 8.
Definition _IOC_TYPEBITS : Z := 8.
Definition _IOC_SIZEBITS : Z := 14.
Definition _IOC_DIRBITS : Z := 2.
Definition _IOC_NRMASK : Z := (1 << _IOC_NRBITS) - 1.
Definition _IOC_TYPEMASK : Z := (1 << _IOC_TYPEBITS) - 1.
Definition _IOC_SIZEMASK : Z := (1 << _IOC_SIZEBITS) - 1.
Definition _IOC_DIRMASK : Z := (1 << _IOC_DIRBITS) - 1.
Definition _IOC_NRSHIFT : Z := 0.
Definition _IOC_TYPESHIFT : Z := _IOC_NRSHIFT + _IOC_NRBITS.
Definition _IOC_SIZESHIFT : Z := _IOC_TYPESHIFT + _IOC_TYPEBITS.
Definition _IOC_DIRSHIFT : Z := _IOC_SIZESHIFT + _IOC_SIZEBITS.
Definition _IOC_NONE : Z := 0.
Definition _IOC_WRITE : Z := 1.
Definition _IOC_READ : Z := 2.

(** [dir] is an unsigned int, [size] a size_t. *)
Definition _IOC (dir type nr size : Z) : Z :=
  u32 (dir << _IOC_DIRSHIFT) .| (type << _IOC_TYPESHIFT) .| (nr << _IOC_NRSHIFT) .| u64 (size << _IOC_SIZESHIFT).
(** [size]: sizeof of the type that is given. *)
Definition _IO (type nr : Z) : Z := _IOC _IOC_NONE type nr 0.
Definition _IOR (type nr size : Z) : Z := _IOC _IOC_READ type nr size.
Definition _IOW (type nr size : Z) : Z := _IOC _IOC_WRITE type nr size.
Definition _IOWR (type nr size : Z) : Z := _IOC (_IOC_READ .| _IOC_WRITE) type nr size.
Definition _IOC_DIR (nr : Z) : Z := (nr >> _IOC_DIRSHIFT) .& _IOC_DIRMASK.
Definition _IOC_TYPE (nr : Z) : Z := (nr >> _IOC_TYPESHIFT) .& _IOC_TYPEMASK.
Definition _IOC_NR (nr : Z) : Z := (nr >> _IOC_NRSHIFT) .& _IOC_NRMASK.
Definition _IOC_SIZE (nr : Z) : Z := (nr >> _IOC_SIZESHIFT) .& _IOC_SIZEMASK.

(** ** bits/waitstatus.h *)

Definition __WEXITSTATUS (status : Z) : Z := (status .& 0xff00) >> 8.
Definition __WTERMSIG (status : Z) : Z := status .& 0x7f.
Definition __WSTOPSIG (status : Z) : Z := __WEXITSTATUS status.
Definition __WIFEXITED (status : Z) : bool := __WTERMSIG status =? 0.
(** the conversion to signed char *)
Definition i8 (x : Z) : Z := (x + 2 ^ 7) mod 2 ^ 8 - 2 ^ 7.
Definition __WIFSIGNALED (status : Z) : bool := 0 <? (i8 ((status .& 0x7f) + 1) >> 1).
Definition __WIFSTOPPED (status : Z) : bool := (status .& 0xff) =? 0x7f.
Definition __W_CONTINUED : Z := 0xffff.
Definition __WIFCONTINUED (status : Z) : bool := status =? __W_CONTINUED.
Definition __WCOREFLAG : Z := 0x80.
Definition __WCOREDUMP (status : Z) : Z := status .& __WCOREFLAG.
Definition __W_EXITCODE (ret sig : Z) : Z := (ret << 8) .| sig.
Definition __W_STOPCODE (sig : Z) : Z := (sig << 8) .| 0x7f.

(** ** linux/tipc.h *)

Definition TIPC_NODE_BITS : Z := 12.
Definition TIPC_CLUSTER_BITS : Z := 12.
Definition TIPC_CLUSTER_OFFSET : Z := TIPC_NODE_BITS.
Definition TIPC_ZONE_OFFSET : Z := TIPC_CLUSTER_OFFSET + TIPC_CLUSTER_BITS.
Definition TIPC_NODE_OFFSET : Z := 0.
Definition TIPC_NODE_SIZE : Z := (1 << TIPC_NODE_BITS) - 1.
Definition TIPC_CLUSTER_SIZE : Z := (1 << TIPC_CLUSTER_BITS) - 1.
Definition TIPC_NODE_MASK : Z := TIPC_NODE_SIZE << TIPC_NODE_OFFSET.
Definition TIPC_CLUSTER_MASK : Z := TIPC_CLUSTER_SIZE << TIPC_CLUSTER_OFFSET.
Definition tipc_addr (zone cluster node : Z) : Z :=
  u32 (zone << TIPC_ZONE_OFFSET) .| u32 (cluster << TIPC_CLUSTER_OFFSET) .| node.
Definition tipc_zone (addr : Z) : Z := addr >> TIPC_ZONE_OFFSET.
Definition tipc_cluster (addr : Z) : Z := u32 ((addr .& TIPC_CLUSTER_MASK) >> TIPC_CLUSTER_OFFSET).
Definition tipc_node (addr : Z) : Z := u32 (addr .& TIPC_NODE_MASK).

(** ** linux/ethtool.h *)

(** The fields speed and speed_hi of struct ethtool_cmd. *)
Record ethtool_cmd := { speed : Z; speed_hi : Z }.
Definition ethtool_cmd_speed_set (speed : Z) : ethtool_cmd :=
  {| speed := u16 (speed .& 0xFFFF); speed_hi := u16 (speed >> 16) |}.
(** The shift is one of an int; its value is converted to u32 in the end. *)
Definition ethtool_cmd_speed (ep : ethtool_cmd) : Z := u32 ((speed_hi ep << 16) .| speed ep).
Definition SPEED_UNKNOWN : Z := -1.
Definition INT_MAX : Z := 2 ^ 31 - 1.
Definition ethtool_validate_speed (speed : Z) : bool := (speed <=? INT_MAX) || (speed =? u32 SPEED_UNKNOWN).

Definition DUPLEX_HALF : Z := 0x00.
Definition DUPLEX_FULL : Z := 0x01.
Definition DUPLEX_UNKNOWN : Z := 0xff.
Definition ethtool_validate_duplex (duplex : Z) : bool :=
  (duplex =? DUPLEX_HALF) || (duplex =? DUPLEX_FULL) || (duplex =? DUPLEX_UNKNOWN).
Definition ETHTOOL_RX_FLOW_SPEC_RING : Z := 0x00000000FFFFFFFF.
Definition ETHTOOL_RX_FLOW_SPEC_RING_VF : Z := 0x000000FF00000000.
Definition ETHTOOL_RX_FLOW_SPEC_RING_VF_OFF : Z := 32.
Definition ethtool_get_flow_spec_ring (ring_cookie : Z) : Z := ETHTOOL_RX_FLOW_SPEC_RING .& ring_cookie.
Definition ethtool_get_flow_spec_ring_vf (ring_cookie : Z) : Z :=
  (ETHTOOL_RX_FLOW_SPEC_RING_VF .& ring_cookie) >> ETHTOOL_RX_FLOW_SPEC_RING_VF_OFF.

(** ** linux/auto_fs.h *)

Definition AUTOFS_TYPE_ANY : Z := 0.
Definition AUTOFS_TYPE_INDIRECT : Z := 1.
Definition AUTOFS_TYPE_DIRECT : Z := 2.
Definition AUTOFS_TYPE_OFFSET : Z := 4.
(** What is stored at [type]. *)
Definition set_autofs_type_indirect : Z := AUTOFS_TYPE_INDIRECT.
Definition autofs_type_indirect (type : Z) : bool := type =? AUTOFS_TYPE_INDIRECT.
Definition set_autofs_type_direct : Z := AUTOFS_TYPE_DIRECT.
Definition autofs_type_direct (type : Z) : bool := type =? AUTOFS_TYPE_DIRECT.
Definition set_autofs_type_offset : Z := AUTOFS_TYPE_OFFSET.
Definition autofs_type_offset (type : Z) : bool := type =? AUTOFS_TYPE_OFFSET.
Definition autofs_type_trigger (type : Z) : bool := (type =? AUTOFS_TYPE_DIRECT) || (type =? AUTOFS_TYPE_OFFSET).
Definition set_autofs_type_any : Z := AUTOFS_TYPE_ANY.
Definition autofs_type_any (type : Z) : bool := type =? AUTOFS_TYPE_ANY.

(** ** linux/phonet.h *)

(** The fields spn_obj, spn_dev and spn_resource of struct sockaddr_pn. *)
Record sockaddr_pn := { spn_obj : Z; spn_dev : Z; spn_resource : Z }.
Definition pn_object (addr port : Z) : Z := u16 ((addr << 8) .| (port .& 0x3ff)).
Definition pn_obj (handle : Z) : Z := u8 (handle .& 0xff).
Definition pn_dev (handle : Z) : Z := u8 (handle >> 8).
Definition pn_port (handle : Z) : Z := u16 (handle .& 0x3ff).
Definition pn_addr (handle : Z) : Z := u8 ((handle >> 8) .& 0xfc).
Definition pn_sockaddr_set_addr (spn : sockaddr_pn) (addr : Z) : sockaddr_pn :=
  let dev := spn_dev spn .& 0x03 in
  {| spn_obj := spn_obj spn; spn_dev := u8 (dev .| (addr .& 0xfc)); spn_resource := spn_resource spn |}.
Definition pn_sockaddr_set_port (spn : sockaddr_pn) (port : Z) : sockaddr_pn :=
  let dev := spn_dev spn .& 0xfc in
  {| spn_obj := u8 (port .& 0xff); spn_dev := u8 (dev .| ((port >> 8) .& 0x03)); spn_resource := spn_resource spn |}.
Definition pn_sockaddr_set_object (spn : sockaddr_pn) (handle : Z) : sockaddr_pn :=
  {| spn_obj := pn_obj handle; spn_dev := pn_dev handle; spn_resource := spn_resource spn |}.
Definition pn_sockaddr_set_resource (spn : sockaddr_pn) (resource : Z) : sockaddr_pn :=
  {| spn_obj := spn_obj spn; spn_dev := spn_dev spn; spn_resource := resource |}.
Definition pn_sockaddr_get_addr (spn : sockaddr_pn) : Z := u8 (spn_dev spn .& 0xfc).
Definition pn_sockaddr_get_port (spn : sockaddr_pn) : Z := u16 (((spn_dev spn .& 0x03) << 8) .| spn_obj spn).
Definition pn_sockaddr_get_object (spn : sockaddr_pn) : Z := pn_object (spn_dev spn) (spn_obj spn).
Definition pn_sockaddr_get_resource (spn : sockaddr_pn) : Z := spn_resource spn.

(** ** linux/target_core_user.h *)

Definition TCMU_OP_MASK : Z := 0x7.
Definition tcmu_hdr_get_op (len_op : Z) : Z := len_op .& TCMU_OP_MASK.
Definition tcmu_hdr_set_op (len_op op : Z) : Z :=
  let len_op := len_op .& u32 (Z.lnot TCMU_OP_MASK) in len_op .| (op .& TCMU_OP_MASK).
Definition tcmu_hdr_get_len (len_op : Z) : Z := len_op .& u32 (Z.lnot TCMU_OP_MASK).
Definition tcmu_hdr_set_len (len_op len : Z) : Z := (len_op .& TCMU_OP_MASK) .| len.

(** ** sys/time.h *)

Record timeval := { tv_sec : Z; tv_usec : Z }.
(** The structures at their addresses, of which some may be the same. *)
Abbreviation times := (gmap positive timeval) (only parsing).
(** A field of a long: [None] is an overflow. *)
Definition long (x : Z) : option Z := if (- 2 ^ 63 <=? x) && (x <? 2 ^ 63) then Some x else None.
Definition set_sec (r : positive) (x : Z) (t : times) : option times :=
  x ← long x; v ← t !! r; Some (<[r := {| tv_sec := x; tv_usec := tv_usec v |}]> t).
Definition set_usec (r : positive) (x : Z) (t : times) : option times :=
  x ← long x; v ← t !! r; Some (<[r := {| tv_sec := tv_sec v; tv_usec := x |}]> t).

Definition timerisset (tvp : timeval) : bool := negb (tv_sec tvp =? 0) || negb (tv_usec tvp =? 0).
Definition timerclear (tvp : positive) (t : times) : option times := t ← set_usec tvp 0 t; set_sec tvp 0 t.
Definition timercmp (CMP : Z -> Z -> bool) (a b : timeval) : bool :=
  if tv_sec a =? tv_sec b then CMP (tv_usec a) (tv_usec b) else CMP (tv_sec a) (tv_sec b).
Definition timeradd (a b result : positive) (t : times) : option times :=
  va ← t !! a; vb ← t !! b; t ← set_sec result (tv_sec va + tv_sec vb) t;
  va ← t !! a; vb ← t !! b; t ← set_usec result (tv_usec va + tv_usec vb) t;
  v ← t !! result;
  if 1000000 <=? tv_usec v then
    t ← set_sec result (tv_sec v + 1) t;
    v ← t !! result; set_usec result (tv_usec v - 1000000) t
  else Some t.
Definition timersub (a b result : positive) (t : times) : option times :=
  va ← t !! a; vb ← t !! b; t ← set_sec result (tv_sec va - tv_sec vb) t;
  va ← t !! a; vb ← t !! b; t ← set_usec result (tv_usec va - tv_usec vb) t;
  v ← t !! result;
  if tv_usec v <? 0 then
    t ← set_sec result (tv_sec v - 1) t;
    v ← t !! result; set_usec result (tv_usec v + 1000000) t
  else Some t.

(** ** Words bit by bit *)

Lemma range_bit x n i : 0 <= x < 2 ^ n -> n <= i -> Z.testbit x i = false.
Proof.
  intros Hx Hi. destruct (Z.ltb_spec n 0) as [|Hn]; [rewrite Z.pow_neg_r in Hx by lia; lia|].
  rewrite <-(Z.mod_small x (2 ^ n)) by lia. apply Z.mod_pow2_bits_high. lia.
Qed.

Lemma shiftl_bit x n i : 0 <= n -> Z.testbit (Z.shiftl x n) i = Z.testbit x (i - n).
Proof.
  intros Hn. destruct (Z.ltb_spec i 0); [by rewrite !Z.testbit_neg_r by lia | by apply Z.shiftl_spec].
Qed.

(** A step of the value of a bit: the operators, the bounds of shifts and masks.  Where the index
    is with respect to the bounds is known, but for conversions. *)
Ltac bit_step :=
  match goal with
  | |- context [Z.testbit ?x ?i] =>
      lazymatch x with
      | Z.lor ?x ?y => rewrite (Z.lor_spec x y i)
      | Z.land ?x ?y => rewrite (Z.land_spec x y i)
      | Z.shiftl ?x ?n => rewrite (shiftl_bit x n i) by lia
      | Z.shiftr ?y ?n => first [rewrite (Z.shiftr_spec y n i) by lia | rewrite (Z.testbit_neg_r x i) by lia]
      | ?x mod 2 ^ ?n =>
          first [rewrite (Z.mod_pow2_bits_low x n i) by lia | rewrite (Z.mod_pow2_bits_high x n i) by lia
                | destruct (Z.ltb_spec i n);
                  [rewrite (Z.mod_pow2_bits_low x n i) by lia | rewrite (Z.mod_pow2_bits_high x n i) by lia]]
      | Z.ones ?n =>
          first [rewrite (Z.ones_spec_low n i) by lia | rewrite (Z.ones_spec_high n i) by lia
                | rewrite (Z.testbit_neg_r x i) by lia]
      | _ =>
          first [ rewrite (Z.testbit_neg_r x i) by lia
                | match goal with H : 0 <= x < 2 ^ ?n |- _ => rewrite (range_bit x n i H) by lia end ]
      end
  end;
  rewrite ?andb_false_r, ?andb_false_l, ?andb_true_r, ?andb_true_l, ?orb_false_r, ?orb_false_l.

(** Equations of words that are the same in each of the intervals between the cuts. *)
Ltac bits_decide := repeat (bit_step; try done); try done; repeat (f_equal; try lia).
Tactic Notation "bits" := apply Z.bits_inj'; intros ? ?; bits_decide.
Tactic Notation "bits" constr(a) :=
  let i := fresh "i" in apply Z.bits_inj'; intros i ?; destruct (Z.ltb_spec i a); bits_decide.
Tactic Notation "bits" constr(a) constr(b) :=
  let i := fresh "i" in apply Z.bits_inj'; intros i ?; destruct (Z.ltb_spec i a); [|destruct (Z.ltb_spec i b)]; bits_decide.
Tactic Notation "bits" constr(a) constr(b) constr(c) :=
  let i := fresh "i" in apply Z.bits_inj'; intros i ?;
  destruct (Z.ltb_spec i a); [|destruct (Z.ltb_spec i b); [|destruct (Z.ltb_spec i c)]]; bits_decide.
Tactic Notation "bits" constr(a) constr(b) constr(c) constr(d) :=
  let i := fresh "i" in apply Z.bits_inj'; intros i ?;
  destruct (Z.ltb_spec i a); [|destruct (Z.ltb_spec i b); [|destruct (Z.ltb_spec i c); [|destruct (Z.ltb_spec i d)]]]; bits_decide.

(** ** Words that are their fields *)

(** A packing: what the fields may be, the width of the word, and the functions both ways. *)
Record packing := {
  fields : Type;
  valid : fields -> Prop;
  width : Z;
  pack : fields -> Z;
  unpack : Z -> fields
}.

(** Every word is the fields it is read as, and all fields fit. *)
Definition faithful (P : packing) : Prop :=
  (forall x, valid P x -> 0 <= pack P x < 2 ^ width P /\ unpack P (pack P x) = x) /\
  (forall w, 0 <= w < 2 ^ width P -> valid P (unpack P w) /\ pack P (unpack P w) = w).

Definition dev_t : packing := {|
  fields := Z * Z; valid := fun '(major, minor) => 0 <= major < 2 ^ 32 /\ 0 <= minor < 2 ^ 32; width := 64;
  pack := fun '(major, minor) => gnu_dev_makedev major minor;
  unpack := fun dev => (gnu_dev_major dev, gnu_dev_minor dev)
|}.
Definition request : packing := {|
  fields := Z * Z * Z * Z;
  valid := fun '(dir, type, nr, size) => 0 <= dir < 2 ^ 2 /\ 0 <= type < 2 ^ 8 /\ 0 <= nr < 2 ^ 8 /\ 0 <= size < 2 ^ 14;
  width := 32;
  pack := fun '(dir, type, nr, size) => _IOC dir type nr size;
  unpack := fun nr => (_IOC_DIR nr, _IOC_TYPE nr, _IOC_NR nr, _IOC_SIZE nr)
|}.
Definition tipc_address : packing := {|
  fields := Z * Z * Z;
  valid := fun '(zone, cluster, node) => 0 <= zone < 2 ^ 8 /\ 0 <= cluster < 2 ^ 12 /\ 0 <= node < 2 ^ 12;
  width := 32;
  pack := fun '(zone, cluster, node) => tipc_addr zone cluster node;
  unpack := fun addr => (tipc_zone addr, tipc_cluster addr, tipc_node addr)
|}.
Definition ethtool_speed : packing := {|
  fields := ethtool_cmd; valid := fun ep => 0 <= speed ep < 2 ^ 16 /\ 0 <= speed_hi ep < 2 ^ 16; width := 32;
  pack := ethtool_cmd_speed; unpack := ethtool_cmd_speed_set
|}.

(** A word without bits from [n] on is in range. *)
Lemma bits_range n x : 0 <= n -> (forall i, n <= i -> Z.testbit x i = false) -> 0 <= x < 2 ^ n.
Proof.
  intros Hn Hx. assert (x = x mod 2 ^ n) as ->; [|apply Z.mod_pos_bound; lia].
  apply Z.bits_inj'. intros i Hi. destruct (Z.ltb_spec i n).
  - by rewrite Z.mod_pow2_bits_low by lia.
  - by rewrite Z.mod_pow2_bits_high, Hx by lia.
Qed.

Tactic Notation "bits_in" := apply bits_range; [lia|intros ? ?; bits_decide].

Lemma dev_t_faithful : faithful dev_t.
Proof.
  assert (Hmask : forall dev, gnu_dev_major dev = u32 (u32 ((dev .& (Z.ones 12 << 8)) >> 8) .| ((dev .& (Z.ones 20 << 44)) >> 32)) /\
    gnu_dev_minor dev = u32 (u32 ((dev .& Z.ones 8) >> 0) .| ((dev .& (Z.ones 24 << 20)) >> 12))) by done.
  assert (Hmake : forall ma mi, gnu_dev_makedev ma mi = u64 ((ma .& Z.ones 12) << 8) .| u64 ((ma .& (Z.ones 20 << 12)) << 32)
    .| u64 ((mi .& Z.ones 8) << 0) .| u64 ((mi .& (Z.ones 24 << 8)) << 12)) by done.
  split.
  - intros [ma mi] [Hma Hmi]. cbn [pack unpack dev_t width]. rewrite (proj1 (Hmask _)), (proj2 (Hmask _)), Hmake.
    unfold u32, u64. split; [bits_in|]. f_equal; [bits 12 32 | bits 8 32].
  - intros w Hw. cbn [pack unpack dev_t valid width] in *. rewrite Hmake, (proj1 (Hmask _)), (proj2 (Hmask _)).
    unfold u32, u64. split; [split; bits_in | bits 8 20 44 64].
Qed.

Lemma request_faithful : faithful request.
Proof.
  assert (Hmake : forall d t n s, _IOC d t n s = u32 (d << 30) .| (t << 8) .| (n << 0) .| u64 (s << 16)) by done.
  assert (Hread : forall w, _IOC_DIR w = (w >> 30) .& Z.ones 2 /\ _IOC_TYPE w = (w >> 8) .& Z.ones 8 /\
    _IOC_NR w = (w >> 0) .& Z.ones 8 /\ _IOC_SIZE w = (w >> 16) .& Z.ones 14) by done.
  split.
  - intros [[[d t] n] s] (Hd & Ht & Hn & Hs). cbn [pack unpack request width].
    destruct (Hread (_IOC d t n s)) as (-> & -> & -> & ->). rewrite Hmake. unfold u32, u64.
    split; [bits_in|]. repeat f_equal; [bits 2 | bits 8 | bits 8 | bits 14].
  - intros w Hw. cbn [pack unpack request valid width] in *.
    destruct (Hread w) as (-> & -> & -> & ->). rewrite Hmake. unfold u32, u64.
    split; [split; [bits_in | split; [bits_in | split; bits_in]] | bits 8 16 30 32].
Qed.

Lemma tipc_address_faithful : faithful tipc_address.
Proof.
  assert (Hmake : forall z c n, tipc_addr z c n = u32 (z << 24) .| u32 (c << 12) .| n) by done.
  assert (Hread : forall w, tipc_zone w = w >> 24 /\ tipc_cluster w = u32 ((w .& (Z.ones 12 << 12)) >> 12) /\
    tipc_node w = u32 (w .& Z.ones 12)) by done.
  split.
  - intros [[z c] n] (Hz & Hc & Hn). cbn [pack unpack tipc_address width].
    destruct (Hread (tipc_addr z c n)) as (-> & -> & ->). rewrite Hmake. unfold u32.
    split; [bits_in|]. repeat f_equal; [bits 8 | bits 12 | bits 12].
  - intros w Hw. cbn [pack unpack tipc_address valid width] in *.
    destruct (Hread w) as (-> & -> & ->). rewrite Hmake. unfold u32.
    split; [split; [bits_in | split; bits_in] | bits 12 24 32].
Qed.

Lemma ethtool_speed_faithful : faithful ethtool_speed.
Proof.
  split.
  - intros [lo hi] [Hl Hh]. cbn [pack unpack ethtool_speed width speed speed_hi valid] in *.
    unfold ethtool_cmd_speed_set, ethtool_cmd_speed, u16, u32. cbn [speed speed_hi]. change 0xFFFF with (Z.ones 16).
    split; [bits_in|]. f_equal; [bits 16 | bits 16].
  - intros w Hw. cbn [pack unpack ethtool_speed valid width] in *.
    unfold ethtool_cmd_speed_set, ethtool_cmd_speed, u16, u32. cbn [speed speed_hi]. change 0xFFFF with (Z.ones 16).
    split; [split; bits_in | bits 16 32].
Qed.

(** C27: packed numbers.  Every 64-bit device number is its major and minor number, every 32-bit
    ioctl request its direction, type, number and size, every TIPC address its zone, cluster and
    node, and every 32-bit speed its two halves: what is packed is in range and read back, no
    field reaches into another, and each word is what packing its fields gives. *)
Theorem words_packed : faithful dev_t /\ faithful request /\ faithful tipc_address /\ faithful ethtool_speed.
Proof.
  split; [exact dev_t_faithful|]. split; [exact request_faithful|].
  split; [exact tipc_address_faithful | exact ethtool_speed_faithful].
Qed.

(** ** Fields that share a word *)

Definition pn_valid (spn : sockaddr_pn) : Prop := 0 <= spn_obj spn < 2 ^ 8 /\ 0 <= spn_dev spn < 2 ^ 8.

Ltac pn_unfold :=
  unfold pn_sockaddr_set_addr, pn_sockaddr_set_port, pn_sockaddr_set_object, pn_sockaddr_get_addr, pn_sockaddr_get_port,
    pn_sockaddr_get_object, pn_object, pn_obj, pn_dev, pn_addr, pn_port, u8, u16; cbn [spn_obj spn_dev spn_resource];
  change 0xfc with (Z.ones 6 << 2); change 0x03 with (Z.ones 2); change 0x3ff with (Z.ones 10); change 0xff with (Z.ones 8).

Lemma pn_set_addr spn addr : pn_valid spn -> 0 <= addr < 2 ^ 8 ->
  pn_sockaddr_get_addr (pn_sockaddr_set_addr spn addr) = addr .& 0xfc /\
  pn_sockaddr_get_port (pn_sockaddr_set_addr spn addr) = pn_sockaddr_get_port spn.
Proof. intros [Ho Hd] Ha. pn_unfold. split; [bits 2 8 | bits 8 10]. Qed.

Lemma pn_set_port spn port : pn_valid spn -> 0 <= port < 2 ^ 16 ->
  pn_sockaddr_get_port (pn_sockaddr_set_port spn port) = port .& 0x3ff /\
  pn_sockaddr_get_addr (pn_sockaddr_set_port spn port) = pn_sockaddr_get_addr spn.
Proof. intros [Ho Hd] Hp. pn_unfold. split; [bits 8 10 16 | bits 2 8]. Qed.

Lemma pn_set_object spn handle : pn_valid spn -> 0 <= handle < 2 ^ 16 ->
  pn_sockaddr_get_object (pn_sockaddr_set_object spn handle) = handle /\
  pn_sockaddr_get_addr (pn_sockaddr_set_object spn handle) = pn_addr handle /\
  pn_sockaddr_get_port (pn_sockaddr_set_object spn handle) = pn_port handle.
Proof.
  intros [Ho Hd] Hh. pn_unfold.
  split; [bits 8 16 | split; [bits 2 8 | bits 8 10 16]].
Qed.

Lemma pn_object_parts addr port : 0 <= addr < 2 ^ 8 -> 0 <= port < 2 ^ 16 ->
  pn_addr (pn_object addr port) = addr .& 0xfc /\
  pn_port (pn_object addr port) = ((addr .& 0x03) << 8) .| (port .& 0x3ff).
Proof. intros Ha Hp. pn_unfold. split; [bits 2 8 | bits 8 10 16]. Qed.

Lemma tcmu_op h op : 0 <= h < 2 ^ 32 ->
  tcmu_hdr_get_op (tcmu_hdr_set_op h op) = op .& 7 /\ tcmu_hdr_get_len (tcmu_hdr_set_op h op) = tcmu_hdr_get_len h.
Proof.
  intros Hh. unfold tcmu_hdr_get_op, tcmu_hdr_set_op, tcmu_hdr_get_len, TCMU_OP_MASK.
  change (u32 (Z.lnot 7)) with (Z.ones 29 << 3). change 7 with (Z.ones 3). split; [bits 3 32 | bits 3 32].
Qed.

Lemma tcmu_len h len : 0 <= len < 2 ^ 32 ->
  tcmu_hdr_get_len (tcmu_hdr_set_len h len) = tcmu_hdr_get_len len /\
  tcmu_hdr_get_op (tcmu_hdr_set_len h len) = tcmu_hdr_get_op h .| (len .& 7).
Proof.
  intros Hl. unfold tcmu_hdr_get_op, tcmu_hdr_set_len, tcmu_hdr_get_len, TCMU_OP_MASK.
  change (u32 (Z.lnot 7)) with (Z.ones 29 << 3). change 7 with (Z.ones 3). split; [bits 3 32 | bits 3 32].
Qed.

(** A multiple of 8 is its upper bits. *)
Lemma tcmu_len_aligned len : 0 <= len < 2 ^ 32 -> len mod 8 = 0 -> tcmu_hdr_get_len len = len /\ len .& 7 = 0.
Proof.
  intros Hl Hm. assert (Hz : len .& 7 = 0) by (change 7 with (Z.ones 3); by rewrite Z.land_ones by lia).
  split; [|done]. unfold tcmu_hdr_get_len, TCMU_OP_MASK. change (u32 (Z.lnot 7)) with (Z.ones 29 << 3).
  apply Z.bits_inj'. intros i Hi. destruct (Z.ltb_spec i 3); [|bits_decide].
  - pose proof (f_equal (fun x => Z.testbit x i) Hz) as Hb. cbv beta in Hb.
    rewrite Z.bits_0, Z.land_spec in Hb. change 7 with (Z.ones 3) in Hb.
    rewrite Z.ones_spec_low, andb_true_r in Hb by lia. rewrite Hb. bits_decide.
  - destruct (Z.ltb_spec i 32); bits_decide.
Qed.

(** Fields that share words.  In a Phonet address, setting the device keeps the port and
    setting the port keeps the device, each is read back as far as it has bits, and a handle is
    read back whole and is the device and port of its address; the low bits of the device are
    the high bits of the port.  In the header of a SCSI command, setting the operation keeps the
    length; setting a length that is a multiple of 8 keeps the operation and is read back, any
    other changes the operation. *)
Theorem fields_kept spn addr port handle h op len :
  pn_valid spn -> 0 <= addr < 2 ^ 8 -> 0 <= port < 2 ^ 16 -> 0 <= handle < 2 ^ 16 ->
  0 <= h < 2 ^ 32 -> 0 <= len < 2 ^ 32 ->
  (pn_sockaddr_get_addr (pn_sockaddr_set_addr spn addr) = addr .& 0xfc /\
   pn_sockaddr_get_port (pn_sockaddr_set_addr spn addr) = pn_sockaddr_get_port spn) /\
  (pn_sockaddr_get_port (pn_sockaddr_set_port spn port) = port .& 0x3ff /\
   pn_sockaddr_get_addr (pn_sockaddr_set_port spn port) = pn_sockaddr_get_addr spn) /\
  (pn_sockaddr_get_object (pn_sockaddr_set_object spn handle) = handle /\
   pn_sockaddr_get_addr (pn_sockaddr_set_object spn handle) = pn_addr handle /\
   pn_sockaddr_get_port (pn_sockaddr_set_object spn handle) = pn_port handle) /\
  (pn_addr (pn_object addr port) = addr .& 0xfc /\
   pn_port (pn_object addr port) = ((addr .& 0x03) << 8) .| (port .& 0x3ff)) /\
  (tcmu_hdr_get_op (tcmu_hdr_set_op h op) = op .& 7 /\ tcmu_hdr_get_len (tcmu_hdr_set_op h op) = tcmu_hdr_get_len h) /\
  (len mod 8 = 0 ->
    tcmu_hdr_get_len (tcmu_hdr_set_len h len) = len /\ tcmu_hdr_get_op (tcmu_hdr_set_len h len) = tcmu_hdr_get_op h) /\
  tcmu_hdr_get_op (tcmu_hdr_set_len h len) = tcmu_hdr_get_op h .| (len .& 7).
Proof.
  intros Hs Ha Hp Hh Ht Hl. pose proof (tcmu_len h len Hl) as [Hlen Hop].
  split; [by apply pn_set_addr|]. split; [by apply pn_set_port|]. split; [by apply pn_set_object|].
  split; [by apply pn_object_parts|]. split; [by apply tcmu_op|]. split; [|done].
  intros Hm. destruct (tcmu_len_aligned len Hl Hm) as [H1 H2]. by rewrite Hlen, Hop, H1, H2, Z.lor_0_r.
Qed.

(** Length 24 in place of 16 for operation 1, and device 0x6c with port 0x123. *)
Lemma fields_kept_witness :
  let spn := {| spn_obj := 0x23; spn_dev := 0x6d; spn_resource := 7 |} in
  pn_sockaddr_get_addr (pn_sockaddr_set_port spn 0x2ff) = 0x6c /\
  tcmu_hdr_get_len (tcmu_hdr_set_len 17 24) = 24 /\ tcmu_hdr_get_op (tcmu_hdr_set_len 17 24) = 1.
Proof.
  intros spn. assert (Hs : pn_valid spn) by (split; cbn; lia).
  destruct (fields_kept spn 0 0x2ff 0 17 0 24 Hs) as (_ & [_ Hp] & _ & _ & _ & Ht & _); try lia.
  split; [exact Hp | exact (Ht eq_refl)].
Defined.

(** ** Statuses *)

(** Only the low byte counts. *)
Lemma status_low status :
  __WTERMSIG status = __WTERMSIG (status mod 2 ^ 8) /\ __WIFSTOPPED status = __WIFSTOPPED (status mod 2 ^ 8).
Proof.
  unfold __WIFSTOPPED, __WTERMSIG. change 0x7f with (Z.ones 7) at 1 2. change 0xff with (Z.ones 8).
  split; [bits 7|]. f_equal. bits 8.
Qed.

Definition count (l : list bool) : nat := length (filter (fun b => b = true) l).
(** How many of the four kinds a status is of. *)
Definition kinds (status : Z) : nat :=
  count [__WIFEXITED status; __WIFSIGNALED status; __WIFSTOPPED status; __WIFCONTINUED status].

Lemma kinds_low status : kinds status =
  if status mod 2 ^ 8 =? 0xff then if status =? 0xffff then 1%nat else 0%nat else 1%nat.
Proof.
  destruct (status_low status) as [Ht Hs].
  assert (Hg : __WIFSIGNALED status = __WIFSIGNALED (status mod 2 ^ 8))
    by (unfold __WIFSIGNALED; change (status .& 0x7f) with (__WTERMSIG status); by rewrite Ht).
  unfold kinds, __WIFEXITED. rewrite Ht, Hs, Hg. unfold __WIFCONTINUED, __W_CONTINUED.
  pose proof (Z.mod_pos_bound status (2 ^ 8) ltac:(lia)) as Hr.
  assert (Hc : (status =? 0xffff) = true -> status mod 2 ^ 8 = 0xff) by (intros ->%Z.eqb_eq; done).
  set (low := status mod 2 ^ 8) in *. clearbody low.
  assert (Hall : Forall (fun low => count [__WTERMSIG low =? 0; __WIFSIGNALED low; __WIFSTOPPED low] =
    if low =? 0xff then 0%nat else 1%nat) (seqZ 0 256)).
  { apply (bool_decide_unpack _). vm_compute. exact I. }
  rewrite Forall_forall in Hall. specialize (Hall low). rewrite elem_of_seqZ in Hall.
  specialize (Hall ltac:(lia)). unfold count in *. cbn [filter list_filter] in *.
  destruct (status =? 0xffff); [rewrite (Hc eq_refl) in *|]; destruct (low =? 0xff);
    repeat case_decide; cbn in *; congruence.
Qed.

(** The ring and the virtual function of a cookie, which has 24 more bits, are told apart. *)
Lemma flow_spec_ring ring vf high : 0 <= ring < 2 ^ 32 -> 0 <= vf < 2 ^ 8 ->
  let cookie := (high << 40) .| (vf << 32) .| ring in
  ethtool_get_flow_spec_ring cookie = ring /\ ethtool_get_flow_spec_ring_vf cookie = vf.
Proof.
  intros Hr Hv cookie. unfold cookie, ethtool_get_flow_spec_ring, ethtool_get_flow_spec_ring_vf.
  change ETHTOOL_RX_FLOW_SPEC_RING with (Z.ones 32). change ETHTOOL_RX_FLOW_SPEC_RING_VF with (Z.ones 8 << 32).
  change ETHTOOL_RX_FLOW_SPEC_RING_VF_OFF with 32. split; [bits 32 | bits 8].
Qed.

(** A mount triggers automounts exactly if it is direct or an offset, and is of one type at most. *)
Lemma autofs_types type :
  autofs_type_trigger type = autofs_type_direct type || autofs_type_offset type /\
  (count [autofs_type_any type; autofs_type_indirect type; autofs_type_direct type; autofs_type_offset type] <= 1)%nat /\
  autofs_type_any set_autofs_type_any = true /\ autofs_type_indirect set_autofs_type_indirect = true /\
  autofs_type_direct set_autofs_type_direct = true /\ autofs_type_offset set_autofs_type_offset = true.
Proof.
  split; [done|]. split; [|done]. unfold autofs_type_any, autofs_type_indirect, autofs_type_direct, autofs_type_offset,
    AUTOFS_TYPE_ANY, AUTOFS_TYPE_INDIRECT, AUTOFS_TYPE_DIRECT, AUTOFS_TYPE_OFFSET.
  destruct (Z.eqb_spec type 0), (Z.eqb_spec type 1), (Z.eqb_spec type 2), (Z.eqb_spec type 4);
    try (exfalso; lia); vm_compute; lia.
Qed.

(** A decidable property of small numbers, tried on all of them. *)
Lemma all_below (P : Z -> Prop) `{forall x, Decision (P x)} n :
  bool_decide (Forall P (seqZ 0 n)) = true -> forall x, 0 <= x < n -> P x.
Proof. intros Ht%bool_decide_eq_true x Hx. apply (proj1 (Forall_forall _ _) Ht), elem_of_seqZ. lia. Qed.

Lemma made_status :
  (forall ret, 0 <= ret < 256 -> __WIFEXITED (__W_EXITCODE ret 0) = true /\ __WEXITSTATUS (__W_EXITCODE ret 0) = ret) /\
  (forall sig, 0 <= sig < 126 -> Forall (fun core =>
     __WIFSIGNALED (__W_EXITCODE 0 ((sig + 1) .| core)) = true /\ __WTERMSIG (__W_EXITCODE 0 ((sig + 1) .| core)) = sig + 1 /\
     __WCOREDUMP (__W_EXITCODE 0 ((sig + 1) .| core)) = core) [0; __WCOREFLAG]) /\
  (forall sig, 0 <= sig < 256 -> __WIFSTOPPED (__W_STOPCODE sig) = true /\ __WSTOPSIG (__W_STOPCODE sig) = sig).
Proof.
  split; [|split].
  - apply (all_below (fun ret => __WIFEXITED (__W_EXITCODE ret 0) = true /\ __WEXITSTATUS (__W_EXITCODE ret 0) = ret)).
    vm_compute. reflexivity.
  - apply (all_below (fun sig => Forall (fun core =>
      __WIFSIGNALED (__W_EXITCODE 0 ((sig + 1) .| core)) = true /\ __WTERMSIG (__W_EXITCODE 0 ((sig + 1) .| core)) = sig + 1 /\
      __WCOREDUMP (__W_EXITCODE 0 ((sig + 1) .| core)) = core) [0; __WCOREFLAG])).
    vm_compute. reflexivity.
  - apply (all_below (fun sig => __WIFSTOPPED (__W_STOPCODE sig) = true /\ __WSTOPSIG (__W_STOPCODE sig) = sig)).
    vm_compute. reflexivity.
Qed.

(** Statuses of processes.  A status is of at most one kind: exited, signalled, stopped or
    continued; of exactly one but for those whose low byte is 255 and that are not the status of a
    continued process.  A status made of an exit code, of a signal with or without core dump, or
    of a stop is of that kind, and its code or signal is read back. *)
Theorem statuses :
  (forall status, kinds status = if status mod 2 ^ 8 =? 0xff then if status =? 0xffff then 1%nat else 0%nat else 1%nat) /\
  (forall ret, 0 <= ret < 256 -> __WIFEXITED (__W_EXITCODE ret 0) = true /\ __WEXITSTATUS (__W_EXITCODE ret 0) = ret) /\
  (forall sig core, 1 <= sig < 127 -> core = 0 \/ core = __WCOREFLAG ->
     let status := __W_EXITCODE 0 (sig .| core) in
     __WIFSIGNALED status = true /\ __WTERMSIG status = sig /\ __WCOREDUMP status = core) /\
  (forall sig, 0 <= sig < 256 -> __WIFSTOPPED (__W_STOPCODE sig) = true /\ __WSTOPSIG (__W_STOPCODE sig) = sig).
Proof.
  destruct made_status as (He & Hs & Hp). split; [exact kinds_low|]. split; [exact He|]. split; [|exact Hp].
  intros sig core Hsig Hcore. specialize (Hs (sig - 1) ltac:(lia)). replace (sig - 1 + 1) with sig in Hs by lia.
  apply (proj1 (Forall_forall _ _) Hs). destruct Hcore as [-> | ->]; [left|right; left].
Qed.

(** ** Times *)

Definition usecs (v : timeval) : Z := 1000000 * tv_sec v + tv_usec v.
Definition norm (v : timeval) : Prop := 0 <= tv_usec v < 1000000 /\ - 2 ^ 62 < tv_sec v < 2 ^ 62.

Lemma long_ok x : - 2 ^ 63 <= x < 2 ^ 63 -> long x = Some x.
Proof. intros Hx. unfold long. by rewrite (proj2 (Z.leb_le _ _)), (proj2 (Z.ltb_lt _ _)) by lia. Qed.

Lemma set_sec_ok r x v (t : times) : t !! r = Some v -> - 2 ^ 63 <= x < 2 ^ 63 ->
  set_sec r x t = Some (<[r := {| tv_sec := x; tv_usec := tv_usec v |}]> t).
Proof. intros Hr Hx. unfold set_sec. rewrite long_ok by done. cbn [mbind option_bind]. by rewrite Hr. Qed.

Lemma set_usec_ok r x v (t : times) : t !! r = Some v -> - 2 ^ 63 <= x < 2 ^ 63 ->
  set_usec r x t = Some (<[r := {| tv_sec := tv_sec v; tv_usec := x |}]> t).
Proof. intros Hr Hx. unfold set_usec. rewrite long_ok by done. cbn [mbind option_bind]. by rewrite Hr. Qed.

(** The seconds that are written do not change the microseconds of an operand. *)
Lemma usec_kept r x v a va (t : times) : t !! r = Some v -> t !! a = Some va ->
  exists va', <[r := {| tv_sec := x; tv_usec := tv_usec v |}]> t !! a = Some va' /\ tv_usec va' = tv_usec va.
Proof.
  intros Hr Ha. destruct (decide (a = r)) as [->|Hne].
  - rewrite lookup_insert_eq. eexists. split; [done|]. cbn. congruence.
  - rewrite lookup_insert_ne by done. by exists va.
Qed.

Lemma timeradd_ok a b r va vb vr (t : times) :
  t !! a = Some va -> t !! b = Some vb -> t !! r = Some vr -> norm va -> norm vb ->
  exists v, timeradd a b r t = Some (<[r := v]> t) /\ 0 <= tv_usec v < 1000000 /\ usecs v = usecs va + usecs vb.
Proof.
  intros Ha Hb Hr [Hau Has] [Hbu Hbs]. unfold timeradd. rewrite Ha, Hb. cbn [mbind option_bind].
  rewrite (set_sec_ok r _ vr) by (lia || done). cbn [mbind option_bind].
  destruct (usec_kept r (tv_sec va + tv_sec vb) vr a va t Hr Ha) as (va' & -> & Hva).
  destruct (usec_kept r (tv_sec va + tv_sec vb) vr b vb t Hr Hb) as (vb' & -> & Hvb). cbn [mbind option_bind].
  rewrite Hva, Hvb. erewrite set_usec_ok by (apply lookup_insert_eq || lia). cbn [mbind option_bind].
  rewrite insert_insert_eq, lookup_insert_eq. cbn [mbind option_bind tv_sec tv_usec].
  destruct (Z.leb_spec 1000000 (tv_usec va + tv_usec vb)).
  - erewrite set_sec_ok by (apply lookup_insert_eq || lia). cbn [mbind option_bind tv_sec tv_usec].
    rewrite insert_insert_eq, lookup_insert_eq. cbn [mbind option_bind tv_sec tv_usec].
    erewrite set_usec_ok by (apply lookup_insert_eq || lia). rewrite insert_insert_eq.
    eexists. split; [done|]. unfold usecs. cbn [tv_sec tv_usec]. lia.
  - eexists. split; [done|]. unfold usecs. cbn [tv_sec tv_usec]. lia.
Qed.

Lemma timersub_ok a b r va vb vr (t : times) :
  t !! a = Some va -> t !! b = Some vb -> t !! r = Some vr -> norm va -> norm vb ->
  exists v, timersub a b r t = Some (<[r := v]> t) /\ 0 <= tv_usec v < 1000000 /\ usecs v = usecs va - usecs vb.
Proof.
  intros Ha Hb Hr [Hau Has] [Hbu Hbs]. unfold timersub. rewrite Ha, Hb. cbn [mbind option_bind].
  rewrite (set_sec_ok r _ vr) by (lia || done). cbn [mbind option_bind].
  destruct (usec_kept r (tv_sec va - tv_sec vb) vr a va t Hr Ha) as (va' & -> & Hva).
  destruct (usec_kept r (tv_sec va - tv_sec vb) vr b vb t Hr Hb) as (vb' & -> & Hvb). cbn [mbind option_bind].
  rewrite Hva, Hvb. erewrite set_usec_ok by (apply lookup_insert_eq || lia). cbn [mbind option_bind].
  rewrite insert_insert_eq, lookup_insert_eq. cbn [mbind option_bind tv_sec tv_usec].
  destruct (Z.ltb_spec (tv_usec va - tv_usec vb) 0).
  - erewrite set_sec_ok by (apply lookup_insert_eq || lia). cbn [mbind option_bind tv_sec tv_usec].
    rewrite insert_insert_eq, lookup_insert_eq. cbn [mbind option_bind tv_sec tv_usec].
    erewrite set_usec_ok by (apply lookup_insert_eq || lia). rewrite insert_insert_eq.
    eexists. split; [done|]. unfold usecs. cbn [tv_sec tv_usec]. lia.
  - eexists. split; [done|]. unfold usecs. cbn [tv_sec tv_usec]. lia.
Qed.

(** A comparison of numbers that looks only at their order. *)
Definition by_order (CMP : Z -> Z -> bool) : Prop := exists f, forall x y, CMP x y = f (x ?= y).

Lemma timercmp_ok CMP va vb : by_order CMP -> norm va -> norm vb -> timercmp CMP va vb = CMP (usecs va) (usecs vb).
Proof.
  intros [f Hf] [Ha _] [Hb _]. unfold timercmp, usecs. rewrite !Hf.
  destruct (Z.eqb_spec (tv_sec va) (tv_sec vb)) as [->|Hne]; f_equal; symmetry.
  - apply Z.add_compare_mono_l.
  - destruct (Z.compare_spec (tv_sec va) (tv_sec vb)); [done | apply Z.compare_lt_iff | apply Z.compare_gt_iff]; lia.
Qed.

(** timerclear, and the comparisons that timercmp is used with. *)
Lemma timerclear_ok r v (t : times) : t !! r = Some v ->
  timerclear r t = Some (<[r := {| tv_sec := 0; tv_usec := 0 |}]> t).
Proof.
  intros Hr. unfold timerclear. rewrite (set_usec_ok r 0 v) by (done || lia). cbn [mbind option_bind].
  erewrite set_sec_ok by (apply lookup_insert_eq || lia). by rewrite insert_insert_eq.
Qed.

(** The six comparisons of C. *)
Lemma timercmp_orders :
  by_order Z.ltb /\ by_order Z.gtb /\ by_order Z.leb /\ by_order Z.geb /\ by_order Z.eqb /\
  by_order (fun x y => negb (x =? y)).
Proof.
  split_and!.
  - by exists (fun c => match c with Lt => true | _ => false end).
  - by exists (fun c => match c with Gt => true | _ => false end).
  - by exists (fun c => match c with Gt => false | _ => true end).
  - by exists (fun c => match c with Lt => false | _ => true end).
  - exists (fun c => match c with Eq => true | _ => false end). intros x y.
    destruct (Z.compare_spec x y), (Z.eqb_spec x y); lia || done.
  - exists (fun c => match c with Eq => false | _ => true end). intros x y.
    destruct (Z.compare_spec x y), (Z.eqb_spec x y); lia || done.
Qed.

(** C28: times.  For times with less than a million microseconds and less than 2^62 seconds to
    either side of 0, wherever the result is stored, also over one of the operands or both:
    timeradd and timersub compute the sum and the difference, with less than a million
    microseconds and without overflow, and change nothing else; timercmp compares the times,
    with each of the six comparisons ([timercmp_orders]: also with >= and <=, for which sys/time.h
    says it does not work), and what timerclear leaves is not set. *)
Theorem timevals a b r va vb vr (t : times) :
  t !! a = Some va -> t !! b = Some vb -> t !! r = Some vr -> norm va -> norm vb ->
  (exists v, timeradd a b r t = Some (<[r := v]> t) /\ 0 <= tv_usec v < 1000000 /\ usecs v = usecs va + usecs vb) /\
  (exists v, timersub a b r t = Some (<[r := v]> t) /\ 0 <= tv_usec v < 1000000 /\ usecs v = usecs va - usecs vb) /\
  (forall CMP, by_order CMP -> timercmp CMP va vb = CMP (usecs va) (usecs vb)) /\
  timerisset va = negb (usecs va =? 0) /\
  (exists v, timerclear r t = Some (<[r := v]> t) /\ timerisset v = false).
Proof.
  intros Ha Hb Hr Hna Hnb. split; [by apply (timeradd_ok a b r va vb vr)|].
  split; [by apply (timersub_ok a b r va vb vr)|]. split; [intros; by apply timercmp_ok|]. split.
  - destruct Hna as [Hu _]. unfold timerisset, usecs.
    destruct (Z.eqb_spec (tv_sec va) 0), (Z.eqb_spec (tv_usec va) 0), (Z.eqb_spec (1000000 * tv_sec va + tv_usec va) 0); lia || done.
  - eexists. split; [by apply (timerclear_ok r vr) | done].
Qed.

(** 1.9 s + 0.2 s and 1.9 s - 2.2 s over the first operand. *)
Lemma timevals_witness :
  let t : times := {[1%positive := {| tv_sec := 1; tv_usec := 900000 |}; 2%positive := {| tv_sec := 0; tv_usec := 200000 |}]} in
  (exists v, timeradd 1 2 1 t = Some (<[1%positive := v]> t) /\ 0 <= tv_usec v < 1000000 /\ usecs v = 2100000) /\
  (exists v, timersub 2 1 1 t = Some (<[1%positive := v]> t) /\ 0 <= tv_usec v < 1000000 /\ usecs v = -1700000).
Proof.
  intros t. split.
  - apply (timevals 1 2 1 {| tv_sec := 1; tv_usec := 900000 |} {| tv_sec := 0; tv_usec := 200000 |}
      {| tv_sec := 1; tv_usec := 900000 |} t); [done | done | done | split; cbn; lia | split; cbn; lia].
  - apply (timevals 2 1 1 {| tv_sec := 0; tv_usec := 200000 |} {| tv_sec := 1; tv_usec := 900000 |}
      {| tv_sec := 1; tv_usec := 900000 |} t); [done | done | done | split; cbn; lia | split; cbn; lia].
Defined.
