(* ===== verification/Usb.v ===== *)
(** USB descriptors in a buffer of bytes: endpoints (linux/usb/ch9.h) and the units of audio
    functions (linux/usb/audio.h), whose fields have their places behind a list of as many
    sources as the descriptor says.  [None] is an access outside of the buffer or through NULL. *)

From S2P Require Import Prelude CLib Words Codes.
#[local] Open Scope Z_scope.

Definition at_ (m : bytes) (i : Z) : option Z := if i <? 0 then None else m !! Z.to_nat i.

(** ** Endpoints *)

(** The members of struct usb_endpoint_descriptor that are used; wMaxPacketSize is as stored. *)
Record usb_endpoint_descriptor := { bEndpointAddress : Z; bmAttributes : Z; wMaxPacketSize : Z }.

Definition USB_DIR_OUT : Z := 0.
Definition USB_DIR_IN : Z := 0x80.
Definition USB_ENDPOINT_NUMBER_MASK : Z := 0x0f.
Definition USB_ENDPOINT_DIR_MASK : Z := 0x80.
Definition USB_ENDPOINT_XFERTYPE_MASK : Z := 0x03.
Definition USB_ENDPOINT_XFER_CONTROL : Z := 0.
Definition USB_ENDPOINT_XFER_ISOC : Z := 1.
Definition USB_ENDPOINT_XFER_BULK : Z := 2.
Definition USB_ENDPOINT_XFER_INT : Z := 3.
Definition USB_ENDPOINT_MAXP_MASK : Z := 0x07ff.
Definition USB_EP_MAXP_MULT_SHIFT : Z := 11.
Definition USB_EP_MAXP_MULT_MASK : Z := 3 << USB_EP_MAXP_MULT_SHIFT.
Definition USB_EP_MAXP_MULT (m : Z) : Z := (m .& USB_EP_MAXP_MULT_MASK) >> USB_EP_MAXP_MULT_SHIFT.
Definition USB_ENDPOINT_INTRTYPE : Z := 0x30.

Definition usb_endpoint_num (epd : usb_endpoint_descriptor) : Z := bEndpointAddress epd .& USB_ENDPOINT_NUMBER_MASK.
Definition usb_endpoint_type (epd : usb_endpoint_descriptor) : Z := bmAttributes epd .& USB_ENDPOINT_XFERTYPE_MASK.
Definition usb_endpoint_dir_in (epd : usb_endpoint_descriptor) : bool :=
  (bEndpointAddress epd .& USB_ENDPOINT_DIR_MASK) =? USB_DIR_IN.
Definition usb_endpoint_dir_out (epd : usb_endpoint_descriptor) : bool :=
  (bEndpointAddress epd .& USB_ENDPOINT_DIR_MASK) =? USB_DIR_OUT.
Definition usb_endpoint_xfer_bulk (epd : usb_endpoint_descriptor) : bool :=
  (bmAttributes epd .& USB_ENDPOINT_XFERTYPE_MASK) =? USB_ENDPOINT_XFER_BULK.
Definition usb_endpoint_xfer_control (epd : usb_endpoint_descriptor) : bool :=
  (bmAttributes epd .& USB_ENDPOINT_XFERTYPE_MASK) =? USB_ENDPOINT_XFER_CONTROL.
Definition usb_endpoint_xfer_int (epd : usb_endpoint_descriptor) : bool :=
  (bmAttributes epd .& USB_ENDPOINT_XFERTYPE_MASK) =? USB_ENDPOINT_XFER_INT.
Definition usb_endpoint_xfer_isoc (epd : usb_endpoint_descriptor) : bool :=
  (bmAttributes epd .& USB_ENDPOINT_XFERTYPE_MASK) =? USB_ENDPOINT_XFER_ISOC.
Definition usb_endpoint_is_bulk_in (epd : usb_endpoint_descriptor) : bool :=
  usb_endpoint_xfer_bulk epd && usb_endpoint_dir_in epd.
Definition usb_endpoint_is_bulk_out (epd : usb_endpoint_descriptor) : bool :=
  usb_endpoint_xfer_bulk epd && usb_endpoint_dir_out epd.
Definition usb_endpoint_is_int_in (epd : usb_endpoint_descriptor) : bool :=
  usb_endpoint_xfer_int epd && usb_endpoint_dir_in epd.
Definition usb_endpoint_is_int_out (epd : usb_endpoint_descriptor) : bool :=
  usb_endpoint_xfer_int epd && usb_endpoint_dir_out epd.
Definition usb_endpoint_is_isoc_in (epd : usb_endpoint_descriptor) : bool :=
  usb_endpoint_xfer_isoc epd && usb_endpoint_dir_in epd.
Definition usb_endpoint_is_isoc_out (epd : usb_endpoint_descriptor) : bool :=
  usb_endpoint_xfer_isoc epd && usb_endpoint_dir_out epd.
Definition usb_endpoint_maxp `{Conversions} (epd : usb_endpoint_descriptor) : Z :=
  le_to_cpu W16 false (wMaxPacketSize epd) .& USB_ENDPOINT_MAXP_MASK.
Definition usb_endpoint_maxp_mult `{Conversions} (epd : usb_endpoint_descriptor) : Z :=
  let maxp := le_to_cpu W16 false (wMaxPacketSize epd) in USB_EP_MAXP_MULT maxp + 1.
Definition usb_endpoint_interrupt_type (epd : usb_endpoint_descriptor) : Z := bmAttributes epd .& USB_ENDPOINT_INTRTYPE.

(** [comp]: bmAttributes of the descriptor, or NULL.  1 << 31 is not an int. *)
Definition usb_ss_max_streams (comp : option Z) : option Z :=
  match comp with
  | None => Some 0
  | Some attributes =>
      let max_streams := attributes .& 0x1f in
      if max_streams =? 0 then Some 0 else
      let max_streams := 1 << max_streams in
      if max_streams <? 2 ^ 31 then Some max_streams else None
  end.

(** ** Units of audio functions *)

Definition UAC_VERSION_1 : Z := 0x00.
Definition UAC_VERSION_2 : Z := 0x20.
Definition UAC_VERSION_3 : Z := 0x30.

Section units.
(** The descriptor begins at the start of the buffer. *)
Context (desc : bytes).

(** struct uac_mixer_unit_descriptor: bNrInPins at 4, baSourceID at 5 *)
Definition mixer_source (k : Z) : option Z := n ← at_ desc 4; at_ desc (5 + n + k).
(** &desc->baSourceID[desc->bNrInPins + k] *)
Definition mixer_address (k : Z) : option Z := n ← at_ desc 4; Some (5 + n + k).

Definition uac_mixer_unit_bNrChannels : option Z := mixer_source 0.
Definition uac_mixer_unit_wChannelConfig (protocol : Z) : option Z :=
  if protocol =? UAC_VERSION_1 then
    b2 ← mixer_source 2; b1 ← mixer_source 1; Some ((b2 << 8) .| b1)
  else
    b4 ← mixer_source 4; b3 ← mixer_source 3; b2 ← mixer_source 2; b1 ← mixer_source 1;
    Some (u32 ((b4 << 24) .| (b3 << 16) .| (b2 << 8) .| b1)).
Definition uac_mixer_unit_iChannelNames (protocol : Z) : option Z :=
  if protocol =? UAC_VERSION_1 then mixer_source 3 else mixer_source 5.
(** The inner [None] is NULL. *)
Definition uac_mixer_unit_bmControls (protocol : Z) : option (option Z) :=
  if protocol =? UAC_VERSION_1 then p ← mixer_address 4; Some (Some p)
  else if protocol =? UAC_VERSION_2 then p ← mixer_address 6; Some (Some p)
  else if protocol =? UAC_VERSION_3 then p ← mixer_address 2; Some (Some p)
  else Some None.
Definition uac3_mixer_unit_wClusterDescrID : option Z :=
  b1 ← mixer_source 1; b0 ← mixer_source 0; Some (u16 ((b1 << 8) .| b0)).
(** The last byte: raw[desc->bLength - 1] *)
Definition last_byte : option Z := n ← at_ desc 0; at_ desc (n - 1).
Definition uac_mixer_unit_iMixer : option Z := last_byte.
Definition uac_selector_unit_iSelector : option Z := last_byte.
Definition uac_feature_unit_iFeature : option Z := last_byte.

(** struct uac_processing_unit_descriptor: bNrInPins at 6, baSourceID at 7 *)
Definition processing_source (k : Z) : option Z := n ← at_ desc 6; at_ desc (7 + n + k).
Definition processing_address (k : Z) : option Z := n ← at_ desc 6; Some (7 + n + k).

Definition uac_processing_unit_bNrChannels : option Z := processing_source 0.
Definition uac_processing_unit_wChannelConfig (protocol : Z) : option Z :=
  if protocol =? UAC_VERSION_1 then
    b2 ← processing_source 2; b1 ← processing_source 1; Some ((b2 << 8) .| b1)
  else
    b4 ← processing_source 4; b3 ← processing_source 3; b2 ← processing_source 2; b1 ← processing_source 1;
    Some (u32 ((b4 << 24) .| (b3 << 16) .| (b2 << 8) .| b1)).
Definition uac_processing_unit_iChannelNames (protocol : Z) : option Z :=
  if protocol =? UAC_VERSION_1 then processing_source 3 else processing_source 5.
Definition uac_processing_unit_bControlSize (protocol : Z) : option Z :=
  if protocol =? UAC_VERSION_1 then processing_source 4
  else if protocol =? UAC_VERSION_2 then Some 2
  else if protocol =? UAC_VERSION_3 then Some 4
  else Some 1.
Definition uac_processing_unit_bmControls (protocol : Z) : option (option Z) :=
  if protocol =? UAC_VERSION_1 then p ← processing_address 5; Some (Some p)
  else if protocol =? UAC_VERSION_2 then p ← processing_address 6; Some (Some p)
  else if protocol =? UAC_VERSION_3 then p ← processing_address 2; Some (Some p)
  else Some None.
Definition uac_processing_unit_iProcessing (protocol : Z) : option Z :=
  control_size ← uac_processing_unit_bControlSize protocol;
  if protocol =? UAC_VERSION_3 then Some 0
  else p ← mjoin (uac_processing_unit_bmControls protocol); at_ desc (p + control_size).
Definition uac_processing_unit_specific (protocol : Z) : option Z :=
  control_size ← uac_processing_unit_bControlSize protocol;
  p ← mjoin (uac_processing_unit_bmControls protocol);
  if protocol =? UAC_VERSION_3 then Some (p + control_size) else Some (p + control_size + 1).
Definition uac_extension_unit_bControlSize (protocol : Z) : option Z :=
  if protocol =? UAC_VERSION_1 then processing_source 4
  else if protocol =? UAC_VERSION_2 then Some 1
  else if protocol =? UAC_VERSION_3 then Some 4
  else Some 1.
Definition uac_extension_unit_iExtension (protocol : Z) : option Z :=
  control_size ← uac_extension_unit_bControlSize protocol;
  if protocol =? UAC_VERSION_3 then Some 0
  else p ← mjoin (uac_processing_unit_bmControls protocol); at_ desc (p + control_size).
End units.

(** ** What the standards lay out *)

(** The sources of a unit, its channels and what is behind them. *)
Record unit_fields := {
  sources : bytes; channels : Z; config : Z; names : Z; controls : bytes; string_index : Z
}.

(** Channels, their positions and names in version 1 and 2, where positions are of 2 and 4 bytes. *)
Definition cluster (n : nat) (u : unit_fields) : bytes := channels u :: le_bytes n (config u) ++ [names u].
Definition pins (u : unit_fields) : bytes := Z.of_nat (length (sources u)) :: sources u.

(** Mixer units; [id] is the unit's number and [tail] what follows the descriptor. *)
Definition mixer_unit (n : nat) (id : Z) (u : unit_fields) : bytes :=
  let b := [0x24; 4; id] ++ pins u ++ cluster n u ++ controls u ++ [string_index u] in
  Z.of_nat (S (length b)) :: b.
(** Version 3, where a cluster descriptor has the place of the channels. *)
Definition mixer_unit3 (id : Z) (u : unit_fields) : bytes :=
  let b := [0x24; 5; id] ++ pins u ++ le_bytes 2 (config u) ++ controls u ++ [string_index u] in
  Z.of_nat (S (length b)) :: b.

(** Processing units (subtype 7) and extension units (8) of version 1, which give the size of
    their controls, of version 2, and the bytes of the process behind the string. *)
Definition processing_unit1 (head : bytes) (u : unit_fields) (specific : bytes) : bytes :=
  let b := head ++ pins u ++ cluster 2 u ++ Z.of_nat (length (controls u)) :: controls u ++ string_index u :: specific in
  Z.of_nat (S (length b)) :: b.
Definition processing_unit2 (head : bytes) (u : unit_fields) (specific : bytes) : bytes :=
  let b := head ++ pins u ++ cluster 4 u ++ controls u ++ string_index u :: specific in
  Z.of_nat (S (length b)) :: b.

(** ** Places behind the sources *)

Lemma at_app pre post k : 0 <= k -> at_ (pre ++ post) (Z.of_nat (length pre) + k) = at_ post k.
Proof.
  intros Hk. unfold at_. rewrite !(proj2 (Z.ltb_ge _ _)) by lia.
  rewrite lookup_app_r by lia. f_equal. lia.
Qed.

(** What is behind [pre] and the sources, by its number. *)
Lemma at_behind pre srcs rest k : 0 <= k ->
  at_ (pre ++ srcs ++ rest) (Z.of_nat (length pre) + Z.of_nat (length srcs) + k) = at_ rest k.
Proof. intros Hk. rewrite app_assoc, <-Nat2Z.inj_add, <-length_app. by apply at_app. Qed.

Lemma mixer_behind a b c d u rest k : 0 <= k ->
  mixer_source ([a; b; c; d] ++ pins u ++ rest) k = at_ rest k /\
  mixer_address ([a; b; c; d] ++ pins u ++ rest) k = Some (5 + Z.of_nat (length (sources u)) + k).
Proof.
  intros Hk. unfold mixer_source, mixer_address. cbn [pins app at_ Z.to_nat].
  change (at_ _ 4) with (Some (Z.of_nat (length (sources u)))). cbn [mbind option_bind]. split; [|done].
  exact (at_behind [a; b; c; d; Z.of_nat (length (sources u))] (sources u) rest k Hk).
Qed.

Lemma processing_behind a b c d e f u rest k : 0 <= k ->
  processing_source ([a; b; c; d; e; f] ++ pins u ++ rest) k = at_ rest k /\
  processing_address ([a; b; c; d; e; f] ++ pins u ++ rest) k = Some (7 + Z.of_nat (length (sources u)) + k).
Proof.
  intros Hk. unfold processing_source, processing_address. cbn [pins app at_ Z.to_nat].
  change (at_ _ 6) with (Some (Z.of_nat (length (sources u)))). cbn [mbind option_bind]. split; [|done].
  exact (at_behind [a; b; c; d; e; f; Z.of_nat (length (sources u))] (sources u) rest k Hk).
Qed.

Lemma has_behind (pre mid post : bytes) : has (pre ++ mid ++ post) (length pre) mid.
Proof. unfold has. rewrite slice_app. by rewrite take_app_length. Qed.

(** The last byte of a descriptor is where its length says. *)
Lemma last_of b x rest : last_byte ((Z.of_nat (S (length (b ++ [x]))) :: b ++ [x]) ++ rest) = Some x.
Proof.
  unfold last_byte. cbn [app]. change (at_ (?n :: _) 0) with (Some n). cbn [mbind option_bind].
  rewrite length_app. cbn [length]. unfold at_. rewrite (proj2 (Z.ltb_ge _ _)) by lia.
  replace (Z.to_nat (Z.of_nat (S (length b + 1)) - 1)) with (S (length b)) by lia.
  match goal with |- (_ :: ?l) !! S ?k = _ => change (l !! k = Some x) end.
  rewrite <-app_assoc, lookup_app_r by lia. by rewrite Nat.sub_diag.
Qed.

Lemma config2 c : 0 <= c < 2 ^ 16 -> (octet 1 c << 8) .| octet 0 c = c.
Proof. intros Hc. unfold octet. change 255 with (Z.ones 8). change (8 * 1) with 8. change (8 * 0) with 0. bits 8 16. Qed.

Lemma config4 c : 0 <= c < 2 ^ 32 ->
  u32 ((octet 3 c << 24) .| (octet 2 c << 16) .| (octet 1 c << 8) .| octet 0 c) = c.
Proof.
  intros Hc. unfold octet, u32. change 255 with (Z.ones 8). change (8 * 3) with 24. change (8 * 2) with 16.
  change (8 * 1) with 8. change (8 * 0) with 0. bits 8 16 24 32.
Qed.

Definition fits (n : Z) (u : unit_fields) : Prop := 0 <= config u < 2 ^ (8 * n).

(** The bytes that a pointer into the descriptor points to. *)
Definition points (d : bytes) (p : option (option Z)) (b : bytes) : Prop :=
  exists q, p = Some (Some q) /\ 0 <= q /\ has d (Z.to_nat q) b.

(** The descriptors, apart: the bytes before the number of sources, the sources, the rest. *)
Lemma mixer_parts n id u tail : exists len,
  mixer_unit n id u ++ tail = [len; 0x24; 4; id] ++ pins u ++ cluster n u ++ controls u ++ string_index u :: tail.
Proof. eexists. unfold mixer_unit. cbn [app]. by rewrite <-!app_assoc. Qed.

Lemma mixer3_parts id u tail : exists len,
  mixer_unit3 id u ++ tail = [len; 0x24; 5; id] ++ pins u ++ le_bytes 2 (config u) ++ controls u ++ string_index u :: tail.
Proof. eexists. unfold mixer_unit3. cbn [app]. by rewrite <-!app_assoc. Qed.

(** A list of bytes with [k] bytes and [b] before it. *)
Lemma points_behind pre srcs mid b post q : q = Z.of_nat (length pre + length srcs + length mid) ->
  has (pre ++ srcs ++ mid ++ b ++ post) (Z.to_nat q) b.
Proof.
  intros ->. rewrite Nat2Z.id. pose proof (has_behind (pre ++ srcs ++ mid) b post) as H.
  rewrite !length_app, Nat.add_assoc, <-!app_assoc in H. exact H.
Qed.

Lemma mixer1_ok id u tail : fits 2 u ->
  let d := mixer_unit 2 id u ++ tail in
  uac_mixer_unit_bNrChannels d = Some (channels u) /\
  uac_mixer_unit_wChannelConfig d UAC_VERSION_1 = Some (config u) /\
  uac_mixer_unit_iChannelNames d UAC_VERSION_1 = Some (names u) /\
  points d (uac_mixer_unit_bmControls d UAC_VERSION_1) (controls u).
Proof.
  intros Hf d. subst d. destruct (mixer_parts 2 id u tail) as [len ->].
  unfold uac_mixer_unit_bNrChannels, uac_mixer_unit_wChannelConfig, uac_mixer_unit_iChannelNames, uac_mixer_unit_bmControls.
  change (UAC_VERSION_1 =? UAC_VERSION_1) with true. cbv iota.
  rewrite !(fun k Hk => proj1 (mixer_behind len 0x24 4 id u _ k Hk)) by lia.
  rewrite (fun k Hk => proj2 (mixer_behind len 0x24 4 id u _ k Hk)) by lia.
  split; [done|]. split; [|split; [done|]].
  - change (Some ((octet 1 (config u) << 8) .| octet 0 (config u)) = Some (config u)). f_equal. by apply config2.
  - eexists. split; [done|]. split; [lia|].
    apply (points_behind [len; 0x24; 4; id; Z.of_nat (length (sources u))] (sources u) (cluster 2 u)). cbn. lia.
Qed.

Lemma mixer2_ok id u tail : fits 4 u ->
  let d := mixer_unit 4 id u ++ tail in
  uac_mixer_unit_bNrChannels d = Some (channels u) /\
  uac_mixer_unit_wChannelConfig d UAC_VERSION_2 = Some (config u) /\
  uac_mixer_unit_iChannelNames d UAC_VERSION_2 = Some (names u) /\
  points d (uac_mixer_unit_bmControls d UAC_VERSION_2) (controls u).
Proof.
  intros Hf d. subst d. destruct (mixer_parts 4 id u tail) as [len ->].
  unfold uac_mixer_unit_bNrChannels, uac_mixer_unit_wChannelConfig, uac_mixer_unit_iChannelNames, uac_mixer_unit_bmControls.
  change (UAC_VERSION_2 =? UAC_VERSION_1) with false. change (UAC_VERSION_2 =? UAC_VERSION_2) with true. cbv iota.
  rewrite !(fun k Hk => proj1 (mixer_behind len 0x24 4 id u _ k Hk)) by lia.
  rewrite (fun k Hk => proj2 (mixer_behind len 0x24 4 id u _ k Hk)) by lia.
  split; [done|]. split; [|split; [done|]].
  - change (Some (u32 ((octet 3 (config u) << 24) .| (octet 2 (config u) << 16) .| (octet 1 (config u) << 8) .| octet 0 (config u)))
      = Some (config u)). f_equal. by apply config4.
  - eexists. split; [done|]. split; [lia|].
    apply (points_behind [len; 0x24; 4; id; Z.of_nat (length (sources u))] (sources u) (cluster 4 u)). cbn. lia.
Qed.

Lemma mixer3_ok id u tail : fits 2 u ->
  let d := mixer_unit3 id u ++ tail in
  uac3_mixer_unit_wClusterDescrID d = Some (config u) /\
  points d (uac_mixer_unit_bmControls d UAC_VERSION_3) (controls u).
Proof.
  intros Hf d. subst d. destruct (mixer3_parts id u tail) as [len ->].
  unfold uac3_mixer_unit_wClusterDescrID, uac_mixer_unit_bmControls.
  change (UAC_VERSION_3 =? UAC_VERSION_1) with false. change (UAC_VERSION_3 =? UAC_VERSION_2) with false.
  change (UAC_VERSION_3 =? UAC_VERSION_3) with true. cbv iota.
  rewrite !(fun k Hk => proj1 (mixer_behind len 0x24 5 id u _ k Hk)) by lia.
  rewrite (fun k Hk => proj2 (mixer_behind len 0x24 5 id u _ k Hk)) by lia. split.
  - change (Some (u16 ((octet 1 (config u) << 8) .| octet 0 (config u))) = Some (config u)). f_equal.
    rewrite config2 by done. by apply Z.mod_small.
  - eexists. split; [done|]. split; [lia|].
    apply (points_behind [len; 0x24; 5; id; Z.of_nat (length (sources u))] (sources u) (le_bytes 2 (config u))). cbn. lia.
Qed.

(** Behind the controls: the byte of the string, and what follows it. *)
Lemma string_behind pre srcs mid ctl x post q : q = Z.of_nat (length pre + length srcs + length mid + length ctl) ->
  at_ (pre ++ srcs ++ mid ++ ctl ++ x :: post) q = Some x.
Proof.
  intros ->. pose proof (at_app (pre ++ srcs ++ mid ++ ctl) (x :: post) 0 ltac:(lia)) as H.
  rewrite Z.add_0_r, !length_app, !Nat.add_assoc, <-!app_assoc in H. exact H.
Qed.

Lemma specific_behind pre srcs mid ctl x spec post q :
  q = Z.of_nat (length pre + length srcs + length mid + length ctl + 1) ->
  has (pre ++ srcs ++ mid ++ ctl ++ x :: spec ++ post) (Z.to_nat q) spec.
Proof.
  intros ->. rewrite Nat2Z.id. pose proof (has_behind (pre ++ srcs ++ mid ++ ctl ++ [x]) spec post) as H.
  rewrite !length_app, !Nat.add_assoc, <-!app_assoc in H. exact H.
Qed.

Section processing.
Context (h1 h2 h3 h4 h5 : Z) (u : unit_fields) (mid specific tail : bytes) (len : Z).

Let pre := [len; h1; h2; h3; h4; h5; Z.of_nat (length (sources u))].
Let d := pre ++ sources u ++ mid ++ controls u ++ string_index u :: specific ++ tail.
Let at_k := 7 + Z.of_nat (length (sources u)) + Z.of_nat (length mid).

(** Any unit: its places, where the controls are behind [mid]. *)
Lemma processing_places :
  (forall k, 0 <= k -> processing_source d k = at_ (mid ++ controls u ++ string_index u :: specific ++ tail) k) /\
  (forall k, 0 <= k -> processing_address d k = Some (7 + Z.of_nat (length (sources u)) + k)) /\
  has d (Z.to_nat at_k) (controls u) /\
  at_ d (at_k + Z.of_nat (length (controls u))) = Some (string_index u) /\
  has d (Z.to_nat (at_k + Z.of_nat (length (controls u)) + 1)) specific.
Proof.
  split; [|split; [|split; [|split]]].
  - intros k Hk. by apply (processing_behind len h1 h2 h3 h4 h5 u).
  - intros k Hk. by apply (processing_behind len h1 h2 h3 h4 h5 u (mid ++ controls u ++ string_index u :: specific ++ tail)).
  - apply (points_behind pre). unfold at_k. cbn. lia.
  - apply (string_behind pre). unfold at_k. cbn. lia.
  - apply (specific_behind pre). unfold at_k. cbn. lia.
Qed.
End processing.

Ltac unfold_unit :=
  unfold uac_processing_unit_iProcessing, uac_processing_unit_specific, uac_extension_unit_iExtension,
    uac_extension_unit_bControlSize, uac_processing_unit_bControlSize, uac_processing_unit_bmControls,
    uac_processing_unit_bNrChannels, uac_processing_unit_wChannelConfig, uac_processing_unit_iChannelNames.

(** A processing or extension unit of version 1. *)
Lemma processing1_ok h1 h2 h3 h4 h5 u specific tail : fits 2 u ->
  let d := processing_unit1 [h1; h2; h3; h4; h5] u specific ++ tail in
  uac_processing_unit_bNrChannels d = Some (channels u) /\
  uac_processing_unit_wChannelConfig d UAC_VERSION_1 = Some (config u) /\
  uac_processing_unit_iChannelNames d UAC_VERSION_1 = Some (names u) /\
  uac_processing_unit_bControlSize d UAC_VERSION_1 = Some (Z.of_nat (length (controls u))) /\
  points d (uac_processing_unit_bmControls d UAC_VERSION_1) (controls u) /\
  uac_processing_unit_iProcessing d UAC_VERSION_1 = Some (string_index u) /\
  points d (Some (uac_processing_unit_specific d UAC_VERSION_1)) specific /\
  uac_extension_unit_bControlSize d UAC_VERSION_1 = Some (Z.of_nat (length (controls u))) /\
  uac_extension_unit_iExtension d UAC_VERSION_1 = Some (string_index u).
Proof.
  intros Hf d. set (mid := cluster 2 u ++ [Z.of_nat (length (controls u))]).
  assert (exists len, d = [len; h1; h2; h3; h4; h5; Z.of_nat (length (sources u))] ++ sources u ++ mid ++ controls u ++
    string_index u :: specific ++ tail) as [len Hd].
  { eexists. unfold d, processing_unit1, mid, pins. cbn [app]. rewrite <-?app_assoc. cbn [app]. by rewrite <-?app_assoc. }
  clearbody d. subst d. destruct (processing_places h1 h2 h3 h4 h5 u mid specific tail len) as (Hs & Ha & Hc & Hx & Hsp).
  change (Z.of_nat (length mid)) with 5 in *. unfold_unit.
  change (UAC_VERSION_1 =? UAC_VERSION_1) with true. change (UAC_VERSION_1 =? UAC_VERSION_3) with false. cbv iota.
  rewrite !Hs, !Ha by lia. set (rest := mid ++ _). change (at_ rest 4) with (Some (Z.of_nat (length (controls u)))).
  cbn [mbind option_bind mjoin option_join].
  split; [done|]. split; [|split; [done|]; split; [done|]; split; [|split; [exact Hx|]; split; [|by split]]].
  - change (Some ((octet 1 (config u) << 8) .| octet 0 (config u)) = Some (config u)). f_equal. by apply config2.
  - eexists. split; [done|]. split; [lia | exact Hc].
  - eexists. split; [done|]. split; [lia | exact Hsp].
Qed.

(** A unit of version 2, the size of whose controls depends on its kind. *)
Lemma processing2_ok h1 h2 h3 h4 h5 u specific tail : fits 4 u ->
  let d := processing_unit2 [h1; h2; h3; h4; h5] u specific ++ tail in
  uac_processing_unit_bNrChannels d = Some (channels u) /\
  uac_processing_unit_wChannelConfig d UAC_VERSION_2 = Some (config u) /\
  uac_processing_unit_iChannelNames d UAC_VERSION_2 = Some (names u) /\
  points d (uac_processing_unit_bmControls d UAC_VERSION_2) (controls u) /\
  (Some (Z.of_nat (length (controls u))) = uac_processing_unit_bControlSize d UAC_VERSION_2 ->
    uac_processing_unit_iProcessing d UAC_VERSION_2 = Some (string_index u) /\
    points d (Some (uac_processing_unit_specific d UAC_VERSION_2)) specific) /\
  (Some (Z.of_nat (length (controls u))) = uac_extension_unit_bControlSize d UAC_VERSION_2 ->
    uac_extension_unit_iExtension d UAC_VERSION_2 = Some (string_index u)).
Proof.
  intros Hf d.
  assert (exists len, d = [len; h1; h2; h3; h4; h5; Z.of_nat (length (sources u))] ++ sources u ++ cluster 4 u ++ controls u ++
    string_index u :: specific ++ tail) as [len Hd].
  { eexists. unfold d, processing_unit2, pins. cbn [app]. rewrite <-?app_assoc. cbn [app]. by rewrite <-?app_assoc. }
  clearbody d. subst d. destruct (processing_places h1 h2 h3 h4 h5 u (cluster 4 u) specific tail len) as (Hs & Ha & Hc & Hx & Hsp).
  change (Z.of_nat (length (cluster 4 u))) with 6 in *. unfold_unit.
  change (UAC_VERSION_2 =? UAC_VERSION_1) with false. change (UAC_VERSION_2 =? UAC_VERSION_2) with true.
  change (UAC_VERSION_2 =? UAC_VERSION_3) with false. cbv iota.
  rewrite !Hs, !Ha by lia. set (rest := cluster 4 u ++ _). cbn [mbind option_bind mjoin option_join].
  split; [done|]. split; [|split; [done|]; split; [|split]].
  - change (Some (u32 ((octet 3 (config u) << 24) .| (octet 2 (config u) << 16) .| (octet 1 (config u) << 8) .| octet 0 (config u)))
      = Some (config u)). f_equal. by apply config4.
  - eexists. split; [done|]. split; [lia | exact Hc].
  - intros [= Hn]. rewrite Hn in *. split; [exact Hx|]. eexists. split; [done|]. split; [lia | exact Hsp].
  - intros [= Hn]. rewrite Hn in *. exact Hx.
Qed.

(** C29: units of audio functions.  In mixer units of all three versions and in processing and
    extension units of versions 1 and 2, as the standards lay them out and whatever follows them
    in the buffer, with any number of sources: every accessor returns the field that was put
    there, a position of channels with all its bytes; the pointers to the controls and to the
    bytes of the process point to these; the string's number is found behind the controls, whose
    size is given, or fixed by version and kind of unit, and at the end of mixer, selector and
    feature units. *)
Theorem audio_units (u : unit_fields) (id : Z) (tail : bytes) :
  (fits 2 u ->
    let d := mixer_unit 2 id u ++ tail in
    uac_mixer_unit_bNrChannels d = Some (channels u) /\
    uac_mixer_unit_wChannelConfig d UAC_VERSION_1 = Some (config u) /\
    uac_mixer_unit_iChannelNames d UAC_VERSION_1 = Some (names u) /\
    points d (uac_mixer_unit_bmControls d UAC_VERSION_1) (controls u)) /\
  (fits 4 u ->
    let d := mixer_unit 4 id u ++ tail in
    uac_mixer_unit_bNrChannels d = Some (channels u) /\
    uac_mixer_unit_wChannelConfig d UAC_VERSION_2 = Some (config u) /\
    uac_mixer_unit_iChannelNames d UAC_VERSION_2 = Some (names u) /\
    points d (uac_mixer_unit_bmControls d UAC_VERSION_2) (controls u)) /\
  (fits 2 u ->
    let d := mixer_unit3 id u ++ tail in
    uac3_mixer_unit_wClusterDescrID d = Some (config u) /\
    points d (uac_mixer_unit_bmControls d UAC_VERSION_3) (controls u)) /\
  (forall b x, let d := (Z.of_nat (S (length (b ++ [x]))) :: b ++ [x]) ++ tail in
    uac_mixer_unit_iMixer d = Some x /\ uac_selector_unit_iSelector d = Some x /\ uac_feature_unit_iFeature d = Some x) /\
  (forall subtype type1 type2 specific, fits 2 u ->
    let d := processing_unit1 [0x24; subtype; id; type1; type2] u specific ++ tail in
    uac_processing_unit_bNrChannels d = Some (channels u) /\
    uac_processing_unit_wChannelConfig d UAC_VERSION_1 = Some (config u) /\
    uac_processing_unit_iChannelNames d UAC_VERSION_1 = Some (names u) /\
    uac_processing_unit_bControlSize d UAC_VERSION_1 = Some (Z.of_nat (length (controls u))) /\
    points d (uac_processing_unit_bmControls d UAC_VERSION_1) (controls u) /\
    uac_processing_unit_iProcessing d UAC_VERSION_1 = Some (string_index u) /\
    points d (Some (uac_processing_unit_specific d UAC_VERSION_1)) specific /\
    uac_extension_unit_bControlSize d UAC_VERSION_1 = Some (Z.of_nat (length (controls u))) /\
    uac_extension_unit_iExtension d UAC_VERSION_1 = Some (string_index u)) /\
  (forall subtype type1 type2 specific, fits 4 u ->
    let d := processing_unit2 [0x24; subtype; id; type1; type2] u specific ++ tail in
    uac_processing_unit_bNrChannels d = Some (channels u) /\
    uac_processing_unit_wChannelConfig d UAC_VERSION_2 = Some (config u) /\
    uac_processing_unit_iChannelNames d UAC_VERSION_2 = Some (names u) /\
    points d (uac_processing_unit_bmControls d UAC_VERSION_2) (controls u) /\
    (length (controls u) = 2%nat ->
      uac_processing_unit_iProcessing d UAC_VERSION_2 = Some (string_index u) /\
      points d (Some (uac_processing_unit_specific d UAC_VERSION_2)) specific) /\
    (length (controls u) = 1%nat -> uac_extension_unit_iExtension d UAC_VERSION_2 = Some (string_index u))).
Proof.
  split; [apply mixer1_ok|]. split; [apply mixer2_ok|]. split; [apply mixer3_ok|].
  split; [intros b x; cbv zeta; by repeat split; apply last_of|]. split.
  - intros. by apply processing1_ok.
  - intros subtype type1 type2 specific Hf. cbv zeta.
    destruct (processing2_ok 0x24 subtype id type1 type2 u specific tail Hf) as (H1 & H2 & H3 & H4 & H5 & H6).
    do 4 (split; [done|]). split; intros Hl; [apply H5 | apply H6]; by rewrite Hl.
Qed.

(** A mixer of two sources, and a processing unit of version 2. *)
Lemma audio_units_witness :
  let u := {| sources := [1; 7]; channels := 2; config := 0x80000003; names := 9; controls := [5; 6]; string_index := 4 |} in
  let d := mixer_unit 4 3 u in
  let p := processing_unit2 [0x24; 7; 3; 1; 0] u [8; 8] in
  uac_mixer_unit_wChannelConfig d UAC_VERSION_2 = Some 0x80000003 /\
  uac_processing_unit_iProcessing p UAC_VERSION_2 = Some 4.
Proof.
  intros u d p. assert (Hf : fits 4 u) by (vm_compute; split; congruence).
  destruct (audio_units u 3 []) as (_ & Hm & _ & _ & _ & Hp). split.
  - destruct (Hm Hf) as (_ & H & _). rewrite app_nil_r in H. exact H.
  - destruct (Hp 7 1 0 [8; 8] Hf) as (_ & _ & _ & _ & H & _). rewrite app_nil_r in H. exact (proj1 (H eq_refl)).
Defined.

(** ** Endpoints *)

(** The types of transfer and the directions are told apart: an endpoint has one type and one
    direction; number and direction, packed into an address, are read back. *)
Lemma endpoint_kinds epd :
  count [usb_endpoint_xfer_control epd; usb_endpoint_xfer_isoc epd; usb_endpoint_xfer_bulk epd; usb_endpoint_xfer_int epd] = 1%nat /\
  usb_endpoint_dir_out epd = negb (usb_endpoint_dir_in epd) /\
  count [usb_endpoint_is_bulk_in epd; usb_endpoint_is_bulk_out epd; usb_endpoint_is_int_in epd; usb_endpoint_is_int_out epd;
    usb_endpoint_is_isoc_in epd; usb_endpoint_is_isoc_out epd; usb_endpoint_xfer_control epd] = 1%nat.
Proof.
  assert (Ht : usb_endpoint_type epd = bmAttributes epd mod 4) by (apply (Z.land_ones _ 2); lia).
  assert (Hd : usb_endpoint_dir_out epd = negb (usb_endpoint_dir_in epd)).
  { unfold usb_endpoint_dir_out, usb_endpoint_dir_in, USB_ENDPOINT_DIR_MASK, USB_DIR_OUT, USB_DIR_IN.
    assert (bEndpointAddress epd .& 0x80 = 0 \/ bEndpointAddress epd .& 0x80 = 0x80) as [-> | ->]; [|done | done].
    destruct (Z.testbit (bEndpointAddress epd) 7) eqn:E; [right | left]; apply Z.bits_inj'; intros i Hi;
      change 0x80 with (2 ^ 7); rewrite Z.land_spec, ?Z.bits_0, !Z.pow2_bits_eqb by lia;
      destruct (Z.eqb_spec 7 i) as [<-|]; by rewrite ?E, ?andb_false_r. }
  unfold usb_endpoint_is_bulk_in, usb_endpoint_is_bulk_out, usb_endpoint_is_int_in, usb_endpoint_is_int_out,
    usb_endpoint_is_isoc_in, usb_endpoint_is_isoc_out, usb_endpoint_xfer_control, usb_endpoint_xfer_isoc,
    usb_endpoint_xfer_bulk, usb_endpoint_xfer_int.
  change (bmAttributes epd .& USB_ENDPOINT_XFERTYPE_MASK) with (usb_endpoint_type epd). rewrite Hd, Ht.
  pose proof (Z.mod_pos_bound (bmAttributes epd) 4 ltac:(lia)) as Hr. set (t := bmAttributes epd mod 4) in *. clearbody t.
  assert (t = 0 \/ t = 1 \/ t = 2 \/ t = 3) as Hc by lia.
  destruct Hc as [-> | [-> | [-> | ->]]]; destruct (usb_endpoint_dir_in epd); done.
Qed.

(** The size of packets and their number in a frame, in the little-endian word. *)
Lemma endpoint_maxp (C : Conversions) (HC : ConversionLaws C) b size mult :
  Forall is_byte b -> length b = 2%nat -> le_val b = size .| ((mult - 1) << 11) -> 0 <= size < 2 ^ 11 -> 0 < mult <= 4 ->
  let epd := {| bEndpointAddress := 0; bmAttributes := 0; wMaxPacketSize := le_val (in_order b) |} in
  usb_endpoint_maxp epd = size /\ usb_endpoint_maxp_mult epd = mult.
Proof.
  intros Hb Hl Hv Hs Hm epd. unfold usb_endpoint_maxp, usb_endpoint_maxp_mult. cbn [wMaxPacketSize epd].
  rewrite (converts_from _ _ _ _ _ _ _ _ le_law) by done. rewrite Hv. unfold USB_EP_MAXP_MULT.
  assert (Hk : 0 <= mult - 1 < 2 ^ 2) by lia. set (k := mult - 1) in *.
  change USB_ENDPOINT_MAXP_MASK with (Z.ones 11). change USB_EP_MAXP_MULT_MASK with (Z.ones 2 << 11).
  change USB_EP_MAXP_MULT_SHIFT with 11. split; [bits 11|].
  assert ((((size .| (k << 11)) .& (Z.ones 2 << 11)) >> 11) = k) as -> by bits 2. unfold k. lia.
Qed.

(** Streams are a power of two of at most 2^30; 31 of the low 5 bits is an overflow. *)
Lemma max_streams_ok attributes : 0 <= attributes ->
  usb_ss_max_streams (Some attributes) =
    let n := attributes mod 32 in if n =? 0 then Some 0 else if n =? 31 then None else Some (2 ^ n).
Proof.
  intros Ha. cbv zeta. unfold usb_ss_max_streams. change (attributes .& 0x1f) with (attributes .& Z.ones 5). rewrite Z.land_ones by lia. change (2 ^ 5) with 32.
  pose proof (Z.mod_pos_bound attributes 32 ltac:(lia)) as Hr. set (n := attributes mod 32) in *. clearbody n.
  destruct (Z.eqb_spec n 0); [done|]. rewrite Z.shiftl_1_l.
  destruct (Z.eqb_spec n 31) as [->|Hne]; [done|]. rewrite (proj2 (Z.ltb_lt _ _)); [done|]. apply Z.pow_lt_mono_r; lia.
Qed.
